(* ===== verification/_CoqProject ===== *)
-Q . S2P
Prelude.v
FlowTree.v
Schemas.v
Validation.v
Examples.v
Compiler.v
CompilerFacts.v
Tape.v
Layout.v
CompileCorrect.v
Simulator.v
SimulatorFacts.v
SimulatorNotice.v
SimulatorCorrect.v
LegacyGraph.v
LegacyFacts.v
LegacyCorrect.v
Json.v
Crypto.v
Documents.v
DocumentsFacts.v
DocumentsRound.v
DocumentsStore.v
DocumentsSound.v
Store.v
Drafts.v
DraftsCorrect.v
Revisions.v
V4Api.v
V4ApiCorrect.v
Diff.v
DiffFacts.v
DiffCorrect.v
V3Api.v
Devices.v
Policies.v
Prompts.v
DevicesFacts.v
Calls.v
CallsFacts.v
CallsCorrect.v
Recordings.v
RecordingsFacts.v
RecordingsCorrect.v
Wave.v
Script.v
Storage.v
StorageFacts.v
StorageInvariant.v
StorageCorrect.v
StorageRepair.v
Voicemail.v
WaveFacts.v
Segments.v
Continuous.v
VoicemailInvariant.v
SegmentsInvariant.v
ContinuousInvariant.v
ContinuousCorrect.v
VoicemailCorrect.v
AssemblyCorrect.v
RecordingSystem.v
Text.v
Email.v
EmailCorrect.v
Ntfy.v
NtfyCorrect.v
NtfyWatches.v
Smtp.v
SmtpCorrect.v
Auth.v
AuthCorrect.v
Playback.v
PlaybackCorrect.v
Media.v
Admin.v
ControlPlane.v
DevicesCorrect.v
Listings.v
ListingsCorrect.v
