(* ===== verification/Prelude.v ===== *)
(** * IVRdroid control plane: verification library

    IVRdroid turns an Android tablet into an attendant for telephone calls.  Its control plane
    is the Python service under [src/server/app]: administrators author call flows, publish them
    as signed revisions and listen to recordings; tablets download revisions, report calls and
    send the audio they recorded.  This library models that service and proves what it promises.
    File names below are those of [src/server/app] unless a directory is given.

    ** How the service is put together

    An administrator edits a configuration (caller policy, weekly schedules, a call flow) in one
    of two authoring lanes.  A draft is validated ([validation.py]), compiled to a runtime tape
    ([compiler_v2.py], [compiler_v3.py], [compiler_v4.py]), simulated ([simulation_v2.py] and
    later versions), compared with what is published ([diff_v2.py], [revision_diff.py]) and
    published as an encrypted, signed revision ([services.py], [crypto.py]).  A tablet is enrolled
    with a pairing code ([main.py], [auth.py]), downloads the revision and its prompts, and
    reports its calls ([call_history.py]), from which notifications follow, as push messages
    ([ntfy.py]) and as email ([email_content.py], [email_notify.py]).
    Recordings arrive as voicemail ([recording_api.py]), in segments
    ([conversation_recording_api.py], [session_audit_api.py]) or as one resumable stream
    ([continuous_recording_api.py]) that a worker converts ([continuous_recording_worker.py]);
    rows and files of all of them are kept together by [recording_service.py], and administrators
    list, play and delete them ([main.py], [recording_api.py]).

    ** Files and what they model

    - Flows: [FlowTree] (block types and traversals), [Schemas] (field constraints and
      validators), [Validation] (publication validators V2 to V4), [Compiler], [Simulator],
      [LegacyGraph] (the graphs of version 1 and their validator), [Examples] (configurations on
      which theorems are instantiated).
    - Documents: [Json] (canonical JSON), [Crypto] (base64, SHA-256, HMAC, the data cipher and
      the signer), [Documents] ([model_dump] and [model_validate] of configurations).
    - The control plane: [Store] (the tables, transactions), [Drafts], [Revisions], [V4Api] and
      [V3Api] (administration), [Diff] (review), [Devices] (pairing, credentials, downloads),
      [Prompts], [Media] (the conversion of prompts), [Policies] (signed settings of tablets),
      [Calls] (call reports), [Auth] (administrators, the settings a server starts with, URLs), [Admin]
      (the rest of [main.py]), [ControlPlane] (all of these handlers as steps of one relation).
    - Recordings: [Recordings] (cipher with rotating keys, encrypted chunks), [Wave] (WAV files
      and the part of Python's [wave] module they pass through), [Script] (programs over a disk
      and a database that may be cut off), [Storage] (rows, files, quota, quarantine, retention,
      reconciliation), [Voicemail], [Segments] (with [recording_recovery.py]), [Continuous]
      (with the worker), [Playback] (recordings too long for memory), [Listings] (what the
      dashboard is told of recordings and calls).
    - Notifications: [Text] (strings as sequences of characters), [Email] (wording, settings and
      payloads), [Ntfy] (the settings of each event, its messages, the watches of tablets and
      storage), [Smtp] (the exchange with a mail server).
    - Facts: the files ending in [Facts], and [Tape], [Layout], [StorageInvariant],
      [StorageRepair], [VoicemailInvariant], [SegmentsInvariant] and [ContinuousInvariant], and the
      second part of [ControlPlane], hold the lemmas; those ending in [Correct], with [Validation], [SimulatorNotice],
      [DocumentsStore], [DocumentsSound], [Json], [NtfyWatches] and [RecordingSystem], the
      theorems; [VoicemailCorrect.Demo] and [VoicemailCorrect.CallDemo] the states on which those of
      recordings are instantiated.

    ** How code is translated

    - A Python function is a function into [result], whose [Raise] carries the exception; an
      [HTTPException] its status and text.  A [RecordingError] is the [HTTPException] into which
      every handler turns it.
    - A handler of the control plane is a transaction on [Store.store]: it reads the database
      its session sees and writes to the one its commit meets, so that overlapping transactions
      can be stated; one that raises leaves the database as it was.  [ControlPlane.step] has every
      handler that changes drafts, revisions, tablets, codes, prompts or policies, one request at a
      time; what requests that overlap can do is stated separately
      ([DevicesCorrect.overlapping_enrolments_pair_two], [DevicesCorrect.overlapping_uploads_lose_audio],
      [DevicesCorrect.overlapping_publications]).
    - A handler of recordings is a [Script.program]: a sequence of effects on a disk, each
      durable at once, and of commits that succeed, are refused by a constraint, or fail.
      [Script.perform] runs it alone; [Script.leaves] relates every state in which it can be cut
      off, by an error, a crash or a restart, before or after any of its effects.  Requests,
      jobs and maintenance take turns in the reachable states; that two requests overlap is
      stated separately, where it goes wrong ([VoicemailCorrect.Demo]).
    - Integers are unbounded as in Python; where the code bounds them, by pydantic's
      constraints, RIFF headers or the 32-bit key version, the bound is in the definition.
      Strings are UTF-8 byte strings.  A datetime keeps whether it has an offset.
    - Tables are finite maps by primary key, and unique constraints are tests of the commit.

    ** What comes from elsewhere

    AES-GCM and Ed25519 ([Crypto.Cryptography] with [CryptographyLaws]: decryption inverts
    encryption, adds sixteen bytes, signatures verify), HKDF ([Recordings.KeyDerivation]), the
    timezone database ([zoneinfo] arguments), ffmpeg and ffprobe ([Wave.Transcoder],
    [Segments.PcmEncoder], arguments in [Media]), AES-GCM that takes its input in pieces
    ([Playback.StreamCipher]: the pieces are one call of the other), the answer that the web
    framework makes of a file and a range ([file_response]), the verification of an assertion
    ([signing_key] and [decode] in [Auth]), the checks of international host names ([netloc_ok])
    and of mail addresses ([addr_spec]), the mail server's answers ([server] in [Smtp]), Unicode's
    lower case ([lower_text], [fold]), the form in which the database gives a time back ([stored]),
    the clock and random names (a [request] carries them), and free disk space (arguments).  [Crypto.plain_suite] and the demonstration modules instantiate
    them, so that no hypothesis is empty.  Hypotheses on random names say that a fresh one is
    not in use.

    ** Loops

    A loop that is not structural has fuel, and a theorem says that it is enough: the traversals
    of a flow run with the size of the tree ([FlowTree.walk_visits_preorder] and the lemmas on
    [release_loop]); [maximum_cost] with the number of states a run of the tape can pass
    ([Tape], [CompileCorrect.compile_never_out_of_fuel]); simulations with the 512 transitions
    that the code itself allows, of which publishable flows need 397
    ([SimulatorCorrect.simulation_ends_properly]); the graph searches of version 1 with the nodes
    and edges ([LegacyCorrect.legacy_validator_total]); [json_loads] with twice the length of
    its text ([Json.canonical_round_trip]); reading chunks with the bytes expected, for every
    turn reads one ([RecordingsCorrect], [ContinuousCorrect]); WAV files, and files that are read
    in pieces, with their length.

    ** Theorems

    - Flows: validators accept exactly the publishable configurations; these compile, or are too
      long; the stated session length is that of a longest run; simulations follow the tape, end,
      and announce recording and connection.
    - Documents: canonical bytes are unique and read back; stored configurations are read back;
      what loads is well formed.
    - Control plane: saves of a lane are serial; publication succeeds exactly for reviewed drafts
      and stores a manifest that verifies; rollback restores; comparisons are exact on the fields
      they cover.  While requests take turns, whatever is done later: a review authorises one
      publication; one tablet is active, its code is spent, its credential is accepted until it is
      revoked, and its prompts can be downloaded.
    - Administrators: in production a change needs an assertion of the team and comes from the
      pages of the server.  A call's row in the list agrees with its own page, and the pages of
      recordings show each of them once, as long as no two have the same time.
    - Notifications: settings that are saved are read back, an outage is told once and its end
      once, a caller is shown only where the settings say so; emails are single-line headers and
      go over an encrypted connection; Persian dates are exact.
    - Calls: notifications are a function of the reported calls, in whatever order reports come.
    - Recordings: an upload is a buffer that grows at its end; finished recordings survive every
      interruption of requests, jobs and maintenance that take turns; what a tablet was told to be held is held until its recording is accepted;
      the quota is respected; the start of the server repairs the store, except after an
      interrupted assembly; the worker accepts what was queued unless the program refuses it, and
      forgets no job; playing a long recording sends what is stored and leaves nothing behind; a
      byte range that is answered is the one that was asked for.

    ** Not modelled

    The list of audit entries, which only formats rows; sending over HTTP, the composition of MIME
    messages and the threads that carry notifications and jobs; reading the settings from the
    environment; the one-time [sept19_recovery.py], whose calls and digests are those of one
    incident; ffmpeg itself, migrations, and everything that is not the Python service: the tablet
    application, its audio helper, the dashboard and the deployment.  File
    modes, symbolic links and [fsync] are not represented: a file is there or not, and what was
    written stays. *)
From stdpp Require Import base gmap sets strings numbers pretty sorting list.

(** ** Results: Python values or raised exceptions *)

Inductive exn : Type :=
| ValueError (msg : string)
| TypeError (msg : string)
| KeyError (key : string)
| AttributeError (attr : string)
| IndexError
| RuntimeError (msg : string)
| DraftConflictError (msg : string)
| HTTPException (status_code : Z) (detail : list string)
| OtherException (name : string)
| OutOfFuel.

Inductive result (A : Type) : Type :=
| Ok (a : A)
| Raise (e : exn).
Arguments Ok {A} a.
Arguments Raise {A} e.

#[global] Instance exn_eq_dec : EqDecision exn.
Proof. solve_decision. Defined.
#[global] Instance result_eq_dec {A} `{EqDecision A} : EqDecision (result A).
Proof. solve_decision. Defined.

#[global] Instance result_ret : MRet result := λ A a, Ok a.
#[global] Instance result_bind : MBind result := λ A B f m,
  match m with Ok a => f a | Raise e => Raise e end.
#[global] Instance result_fmap : FMap result := λ A B f m,
  match m with Ok a => Ok (f a) | Raise e => Raise e end.

Definition is_ok {A} (m : result A) : bool := match m with Ok _ => true | Raise _ => false end.

(** [of_option e o] is the value of [o], or [e] raised. *)
Definition of_option {A} (e : exn) (o : option A) : result A :=
  match o with Some a => Ok a | None => Raise e end.

(** Python's truth value of an optional string: [None] and [""] are false. *)
Definition truthy (o : option string) : bool :=
  match o with Some s => negb (bool_decide (s = "")) | None => false end.

Arguments truthy : simpl never.

(** [max(...)] of a sequence of integers. *)
Definition zmax_list (x : Z) (l : list Z) : Z := foldr Z.max x l.
Definition py_max (l : list Z) : result Z :=
  match l with
  | [] => Raise (ValueError "max() iterable argument is empty")
  | x :: l => Ok (zmax_list x l)
  end.

(** [list(dict.fromkeys(l))]: the first occurrence of every element, in order. *)
Fixpoint dedup_from `{EqDecision A} (seen l : list A) : list A :=
  match l with
  | [] => []
  | x :: l => if decide (x ∈ seen) then dedup_from seen l else x :: dedup_from (x :: seen) l
  end.
Definition dict_fromkeys `{EqDecision A} (l : list A) : list A := dedup_from [] l.

(** [sum(f(x) for x in s)] over a set. *)
Definition set_sum `{Countable A} (f : A → Z) (s : gset A) : Z :=
  foldr (λ x acc, (f x + acc)%Z) 0%Z (elements s).

(** ** Python's stable [sorted(l, key=...)] with a natural-number key *)

Section SortBy.
Context {A : Type} (key : A → nat).

Fixpoint insert_by (x : A) (l : list A) : list A :=
  match l with
  | [] => [x]
  | y :: l' => if key x <=? key y then x :: l else y :: insert_by x l'
  end.

Definition sort_by (l : list A) : list A := foldr insert_by [] l.

Lemma insert_by_perm x l : insert_by x l ≡ₚ x :: l.
Proof.
  induction l as [|y l IH]; simpl; [done|]. case_match; [done|].
  rewrite IH. apply Permutation_swap.
Qed.

Lemma sort_by_perm l : sort_by l ≡ₚ l.
Proof. induction l as [|x l IH]; simpl; [done|]. by rewrite insert_by_perm, IH. Qed.

Lemma insert_by_sorted x l :
  Sorted (λ a b, key a ≤ key b) l → Sorted (λ a b, key a ≤ key b) (insert_by x l).
Proof.
  induction 1 as [|y l Hs IH Hhd]; simpl; [repeat constructor|].
  case_match eqn:E.
  - apply Nat.leb_le in E. repeat constructor; done.
  - apply Nat.leb_gt in E. constructor; [done|].
  destruct Hhd as [|z l]; simpl; [constructor; lia|].
  case_match; constructor; lia.
Qed.

Lemma sort_by_sorted l : Sorted (λ a b, key a ≤ key b) (sort_by l).
Proof. induction l; simpl; [constructor|]. by apply insert_by_sorted. Qed.

Lemma insert_by_filter_same k x l :
  Sorted (λ a b, key a ≤ key b) l →
  filter (λ a, key a = k) (insert_by x l) = filter (λ a, key a = k) (x :: l).
Proof.
  intros Hs%Sorted_StronglySorted; [|intros ???; lia].
  induction Hs as [|y l Hs IH Hall]; [done|]. cbn [insert_by].
  case_match eqn:E; [done|]. apply Nat.leb_gt in E.
  rewrite !filter_cons. rewrite filter_cons in IH. rewrite IH.
  repeat case_decide; try done; lia.
Qed.

(** Stability: elements with equal keys keep their order. *)
Lemma sort_by_stable k l : filter (λ a, key a = k) (sort_by l) = filter (λ a, key a = k) l.
Proof.
  induction l as [|x l IH]; [done|]. simpl sort_by.
  rewrite insert_by_filter_same by apply sort_by_sorted.
  rewrite !filter_cons, IH. done.
Qed.
End SortBy.

Lemma insert_by_map {A B} (ka : A → nat) (kb : B → nat) (f : A → B) x l :
  (∀ a, kb (f a) = ka a) → insert_by kb (f x) (map f l) = map f (insert_by ka x l).
Proof.
  intros Hk. induction l as [|y l IH]; simpl; [done|].
  rewrite !Hk. case_match; simpl; [done|]. by rewrite IH.
Qed.

Lemma sort_by_map {A B} (ka : A → nat) (kb : B → nat) (f : A → B) l :
  (∀ a, kb (f a) = ka a) → sort_by kb (map f l) = map f (sort_by ka l).
Proof.
  intros Hk. induction l as [|x l IH]; simpl; [done|].
  rewrite IH. by apply insert_by_map.
Qed.

(** ** Lemmas about [result] *)

Lemma result_bind_ok {A B} (m : result A) (f : A → result B) b :
  m ≫= f = Ok b ↔ ∃ a, m = Ok a ∧ f a = Ok b.
Proof. destruct m; simpl; naive_solver. Qed.

Lemma result_bind_raise {A B} (m : result A) (f : A → result B) e :
  m ≫= f = Raise e ↔ m = Raise e ∨ ∃ a, m = Ok a ∧ f a = Raise e.
Proof. destruct m; simpl; naive_solver. Qed.

Lemma result_fmap_ok {A B} (m : result A) (f : A → B) b :
  f <$> m = Ok b ↔ ∃ a, m = Ok a ∧ f a = b.
Proof. destruct m; simpl; naive_solver. Qed.

Lemma of_option_ok {A} e (o : option A) a : of_option e o = Ok a ↔ o = Some a.
Proof. destruct o; simpl; naive_solver. Qed.

Lemma mapM_result_ok {A B} (f : A → result B) l k :
  mapM f l = Ok k ↔ Forall2 (λ x y, f x = Ok y) l k.
Proof.
  revert k. induction l as [|x l IH]; intros k; simpl.
  - split; [by intros [= <-]|by inversion 1].
  - rewrite result_bind_ok. setoid_rewrite result_bind_ok. split.
    + intros (y & ? & k' & ?%IH & [= <-]). by constructor.
    + inversion 1; subst. eexists; split; [done|]. eexists; split; [by apply IH|done].
Qed.

Lemma mapM_result_total {A B} (f : A → result B) l :
  (∀ x, x ∈ l → ∃ y, f x = Ok y) → ∃ k, mapM f l = Ok k.
Proof.
  induction l as [|x l IH]; intros H; simpl; [by eexists|].
  destruct (H x) as [y Hy]; [set_solver|]. rewrite Hy.
  destruct IH as [k Hk]; [set_solver|]. simpl. rewrite Hk. by eexists.
Qed.

(** [inv_result] decomposes hypotheses about successful monadic programs. *)
Ltac inv_result :=
  repeat match goal with
  | H : _ ≫= _ = Ok _ |- _ => apply result_bind_ok in H as (? & ? & H)
  | H : _ <$> _ = Ok _ |- _ => apply result_fmap_ok in H as (? & ? & H)
  | H : of_option _ _ = Ok _ |- _ => apply of_option_ok in H
  | H : Ok _ = Ok _ |- _ => injection H as H
  | H : Raise _ = Ok _ |- _ => discriminate H
  | H : Ok _ = Raise _ |- _ => discriminate H
  | H : mret _ = Ok _ |- _ => injection H as H
  end; simplify_eq.

(** ** [dict_fromkeys] *)

Lemma elem_of_dedup_from `{EqDecision A} (seen l : list A) x :
  x ∈ dedup_from seen l ↔ x ∈ l ∧ x ∉ seen.
Proof.
  revert seen. induction l as [|y l IH]; intros seen; simpl; [set_solver|].
  case_decide.
  - rewrite IH. set_solver.
  - rewrite elem_of_cons, IH. destruct (decide (x = y)); set_solver.
Qed.

Lemma elem_of_dict_fromkeys `{EqDecision A} (l : list A) x : x ∈ dict_fromkeys l ↔ x ∈ l.
Proof. unfold dict_fromkeys. rewrite elem_of_dedup_from. set_solver. Qed.

Lemma NoDup_dedup_from `{EqDecision A} (seen l : list A) : NoDup (dedup_from seen l).
Proof.
  revert seen. induction l as [|y l IH]; intros seen; simpl; [constructor|].
  case_decide; [done|]. constructor; [|done]. rewrite elem_of_dedup_from. set_solver.
Qed.

Lemma dict_fromkeys_nil `{EqDecision A} (l : list A) : dict_fromkeys l = [] ↔ l = [].
Proof.
  split; [|by intros ->]. destruct l as [|x l]; [done|].
  unfold dict_fromkeys. cbn [dedup_from]. case_decide; [set_solver|done].
Qed.

(** ** Concatenations of mapped lists *)

Lemma elem_of_concat_fmap {A B} (f : A → list B) l x :
  x ∈ concat (f <$> l) ↔ ∃ k, k ∈ l ∧ x ∈ f k.
Proof.
  induction l as [|y l IH]; csimpl.
  - split; [by intros ?%elem_of_nil|]. by intros (? & ?%elem_of_nil & _).
  - rewrite elem_of_app, IH. setoid_rewrite elem_of_cons. naive_solver.
Qed.

Lemma foldl_ext_eq {A B} (f g : A → B → A) s l :
  (∀ a x, f a x = g a x) → foldl f s l = foldl g s l.
Proof. intros H. revert s. induction l as [|x l IH]; intros s; simpl; [done|]. by rewrite H, IH. Qed.

Lemma concat_perm {A} (l k : list (list A)) : l ≡ₚ k → concat l ≡ₚ concat k.
Proof.
  induction 1 as [|x l k _ IH|x y l|l k j _ IH1 _ IH2]; simpl; [done|by rewrite IH| |by etrans].
  by rewrite !(assoc_L (++)), (comm (++) x y).
Qed.

Create HintDb flow.

Lemma list_filter_none {A} (P : A → Prop) `{∀ x, Decision (P x)} l :
  Forall (λ x, ¬ P x) l → filter P l = [].
Proof. induction 1; [done|]. by rewrite filter_cons, decide_False. Qed.

Lemma concat_fmap_omap {A B C} (g : A → option B) (f : B → list C) l :
  concat ((λ x, match g x with Some y => f y | None => [] end) <$> l) = concat (f <$> omap g l).
Proof.
  induction l as [|x l IH]; csimpl; [done|]. rewrite IH. by destruct (g x).
Qed.

Lemma concat_fmap_app {A B} (f g : A → list B) l :
  concat ((λ x, f x ++ g x) <$> l) ≡ₚ concat (f <$> l) ++ concat (g <$> l).
Proof.
  induction l as [|x l IH]; csimpl; [done|]. rewrite IH.
  rewrite <- !(assoc_L (++)). f_equiv. rewrite !(assoc_L (++)). f_equiv.
  apply Permutation_app_comm.
Qed.

(** A loop that may raise. *)
Fixpoint foldM {A B} (f : A → B → result A) (a : A) (l : list B) : result A :=
  match l with
  | [] => Ok a
  | x :: l => f a x ≫= λ a, foldM f a l
  end.

Lemma foldM_app {A B} (f : A → B → result A) a l k :
  foldM f a (l ++ k) = foldM f a l ≫= λ a, foldM f a k.
Proof.
  revert a. induction l as [|x l IH]; intros a; simpl; [done|].
  destruct (f a x); simpl; [apply IH|done].
Qed.

Lemma foldM_fmap {A B C} (f : A → C → result A) (g : B → C) a l :
  foldM f a (g <$> l) = foldM (λ a x, f a (g x)) a l.
Proof.
  revert a. induction l as [|x l IH]; intros a; csimpl; [done|].
  destruct (f a (g x)); simpl; [apply IH|done].
Qed.

(** ** [py_max] *)

Lemma zmax_list_add w x l : zmax_list (w + x) (Z.add w <$> l) = (w + zmax_list x l)%Z.
Proof. unfold zmax_list. induction l as [|y l IH]; csimpl; [done|]. rewrite IH. lia. Qed.

Lemma zmax_list_upper x l y : y ∈ x :: l → (y ≤ zmax_list x l)%Z.
Proof.
  unfold zmax_list. rewrite elem_of_cons. intros [->|H].
  - induction l; simpl; lia.
  - induction l as [|z l IH]; simpl; [set_solver|]. apply elem_of_cons in H as [->|H]; [lia|].
    specialize (IH H). lia.
Qed.

Lemma zmax_list_elem x l : zmax_list x l ∈ x :: l.
Proof.
  unfold zmax_list. induction l as [|y l IH]; simpl; [set_solver|].
  destruct (Z.max_spec y (foldr Z.max x l)) as [[_ ->]|[_ ->]]; set_solver.
Qed.

Lemma py_max_ok l m : py_max l = Ok m → m ∈ l ∧ ∀ y, y ∈ l → (y ≤ m)%Z.
Proof.
  destruct l as [|x l]; [done|]. intros [= <-].
  split; [apply zmax_list_elem|apply zmax_list_upper].
Qed.

Lemma py_max_add w l : py_max (Z.add w <$> l) = Z.add w <$> py_max l.
Proof. destruct l as [|x l]; csimpl; [done|]. by rewrite zmax_list_add. Qed.

Lemma mapM_result_fmap {A B C} (f : A → result B) (g : B → C) l :
  mapM (λ x, g <$> f x) l = fmap g <$> mapM f l.
Proof.
  induction l as [|x l IH]; simpl; [done|]. destruct (f x); simpl; [|done].
  rewrite IH. by destruct (mapM f l).
Qed.

Lemma mapM_result_map {A B C} (f : B → result C) (g : A → B) l :
  mapM f (g <$> l) = mapM (f ∘ g) l.
Proof.
  induction l as [|x l IH]; [done|]. rewrite fmap_cons. cbn [mapM]. by rewrite IH.
Qed.

Lemma mapM_result_ext {A B} (f g : A → result B) l :
  (∀ x, x ∈ l → f x = g x) → mapM f l = mapM g l.
Proof.
  intros H. induction l as [|x l IH]; simpl; [done|].
  rewrite H by set_solver. destruct (g x); simpl; [|done]. rewrite IH; [done|set_solver].
Qed.

Lemma mapM_result_raise {A B} (f : A → result B) l e :
  mapM f l = Raise e → ∃ x, x ∈ l ∧ f x = Raise e.
Proof.
  induction l as [|x l IH]; simpl; [done|]. destruct (f x) as [y|e'] eqn:E; simpl.
  - destruct (mapM f l) as [k|e'']; simpl; [done|]. intros [= ->].
    destruct IH as (z & ? & ?); [done|]. exists z. split; [by right|done].
  - intros [= ->]. exists x. split; [by left|done].
Qed.

Lemma result_bind_ret {A} (m : result A) : m ≫= Ok = m.
Proof. by destruct m. Qed.

Lemma result_bind_ext {A B} (m : result A) (f g : A → result B) :
  (∀ a, f a = g a) → m ≫= f = m ≫= g.
Proof. intros H. destruct m; simpl; [apply H|done]. Qed.

Lemma foldM_ext {A B} (f g : A → B → result A) a l :
  (∀ a x, f a x = g a x) → foldM f a l = foldM g a l.
Proof.
  intros H. revert a. induction l as [|x l IH]; intros a; simpl; [done|].
  rewrite H. apply result_bind_ext, IH.
Qed.
