(* ===== verification/FlowTree.v ===== *)
(** * The owned flow tree

    The block types of [schemas.py] (lines 176-268), the traversals of
    [flow_v2.py], and the release checks of [FlowDocumentV2] and
    [FlowDocumentV3].  A block owns its children, so a flow is a finite tree. *)
From stdpp Require Import base gmap sets strings numbers list.
From S2P Require Import Prelude.

(** ** Data *)

(** A key admitted by [DigitBranchV2.supported_digit]: one of [DTMF_KEYS]. *)
Inductive dtmf : Type :=
| K0 | K1 | K2 | K3 | K4 | K5 | K6 | K7 | K8 | K9 | KStar | KHash.

#[global] Instance dtmf_eq_dec : EqDecision dtmf.
Proof. solve_decision. Defined.

Inductive block : Type :=
| PlayPrompt (block_id : string) (prompt_id : option string) (next : option block)
| CollectDigit (block_id : string) (prompt_id : option string)
    (allow_prompt_barge_in : bool) (timeout_ms maximum_attempts maximum_menu_returns : Z)
    (branches : list branch) (on_timeout on_invalid on_return_limit : option block)
| ScheduleBranch (block_id : string) (schedule_id : option string)
    (on_open on_closed on_holiday : option block)
| ReturnToMenu (block_id : string)
| EndCall (block_id : string)
| RecordMessage (block_id : string) (next on_unavailable : option block)
| ExternalCall (block_id : string) (phone_number : string) (answer_timeout_seconds : Z)
    (next on_not_connected on_system_failure : option block)
with branch : Type :=
| DigitBranch (branch_id : string) (digit : dtmf) (root : option block).

Definition block_id (b : block) : string :=
  match b with
  | PlayPrompt i _ _ | CollectDigit i _ _ _ _ _ _ _ _ _ | ScheduleBranch i _ _ _ _
  | ReturnToMenu i | EndCall i | RecordMessage i _ _ | ExternalCall i _ _ _ _ _ => i
  end.
Definition branch_id (br : branch) : string := let 'DigitBranch i _ _ := br in i.
Definition branch_digit (br : branch) : dtmf := let 'DigitBranch _ d _ := br in d.
Definition branch_root (br : branch) : option block := let 'DigitBranch _ _ r := br in r.

(** The [type] discriminator of a block. *)
Definition block_type (b : block) : string :=
  match b with
  | PlayPrompt _ _ _ => "play_prompt"
  | CollectDigit _ _ _ _ _ _ _ _ _ _ => "collect_digit"
  | ScheduleBranch _ _ _ _ _ => "schedule_branch"
  | ReturnToMenu _ => "return_to_menu"
  | EndCall _ => "end_call"
  | RecordMessage _ _ _ => "record_message"
  | ExternalCall _ _ _ _ _ _ => "external_call"
  end.

(** ** [flow_v2.py] *)

(** [DTMF_ORDER.index(digit)] for [DTMF_ORDER = "0123456789*#"]. *)
Definition dtmf_index (d : dtmf) : nat :=
  match d with
  | K0 => 0 | K1 => 1 | K2 => 2 | K3 => 3 | K4 => 4 | K5 => 5 | K6 => 6
  | K7 => 7 | K8 => 8 | K9 => 9 | KStar => 10 | KHash => 11
  end.
Definition DTMF_ORDER : list dtmf := [K0; K1; K2; K3; K4; K5; K6; K7; K8; K9; KStar; KHash].

Definition dtmf_str (d : dtmf) : string :=
  match d with
  | K0 => "0" | K1 => "1" | K2 => "2" | K3 => "3" | K4 => "4" | K5 => "5" | K6 => "6"
  | K7 => "7" | K8 => "8" | K9 => "9" | KStar => "*" | KHash => "#"
  end.

(** [sorted(block.branches, key=lambda item: DTMF_ORDER.index(item.digit))] *)
Definition sorted_branches (brs : list branch) : list branch :=
  sort_by (λ br, dtmf_index (branch_digit br)) brs.

Definition owned_children (b : block) : list (string * option block) :=
  match b with
  | PlayPrompt _ _ nxt => [("next", nxt)]
  | CollectDigit _ _ _ _ _ _ brs t i l =>
      map (λ br, ("digit " +:+ dtmf_str (branch_digit br), branch_root br)) (sorted_branches brs)
        ++ [("no input", t); ("invalid", i); ("return limit", l)]
  | ScheduleBranch _ _ o c h => [("open", o); ("closed", c); ("holiday", h)]
  | RecordMessage _ nxt u => [("recorded", nxt); ("unavailable", u)]
  | ExternalCall _ _ _ nxt n f => [("completed", nxt); ("not connected", n); ("system failure", f)]
  | ReturnToMenu _ | EndCall _ => []
  end.

(** [[child for _, child in owned_children(block) if child is not None]] *)
Definition children (b : block) : list block := omap snd (owned_children b).

Definition block_label (b : block) : string :=
  match b with
  | PlayPrompt _ _ _ => "Play prompt"
  | CollectDigit _ _ _ _ _ _ _ _ _ _ => "Collect one digit"
  | ScheduleBranch _ _ _ _ _ => "Check schedule"
  | ReturnToMenu _ => "Return to menu"
  | EndCall _ => "End call"
  | RecordMessage _ _ _ => "Record message"
  | ExternalCall _ _ _ _ _ _ => "External call"
  end.

(** The reference traversal: a block with an attribute [x], then its owned
    children with the attribute [down b x], digit branches in [DTMF_ORDER].  The
    branches are sorted after mapping, which keeps the recursion structural. *)
Section Annot.
Context {X : Type} (down : block → X → X).

Fixpoint annot (b : block) (x : X) {struct b} : list (block * X) :=
  let opt o := match o with Some c => annot c (down b x) | None => [] end in
  (b, x) ::
  match b with
  | PlayPrompt _ _ nxt => opt nxt
  | CollectDigit _ _ _ _ _ _ brs t i l =>
    concat (map snd (sort_by fst (map (λ br,
      match br with
      | DigitBranch _ k r =>
          (dtmf_index k, match r with Some c => annot c (down b x) | None => [] end)
      end) brs)))
    ++ opt t ++ opt i ++ opt l
  | ScheduleBranch _ _ o c h => opt o ++ opt c ++ opt h
  | RecordMessage _ nxt u => opt nxt ++ opt u
  | ExternalCall _ _ _ nxt n f => opt nxt ++ opt n ++ opt f
  | ReturnToMenu _ | EndCall _ => []
  end.
End Annot.

(** The preorder with depths, the root at depth [d]. *)
Definition preorder_at : block → nat → list (block * nat) := annot (λ _, S).
Definition preorder (b : block) : list block := (preorder_at b 1).*1.
Definition block_ids (b : block) : list string := block_id <$> preorder b.
Definition bsize (b : block) : nat := length (preorder b).

(** The [while pending] loop of [walk_blocks]; the head of [pending] is the end
    of the Python list, so [extend(reversed(children))] is [children ++ _]. *)
Fixpoint walk_loop (fuel : nat) (pending : list (block * nat)) : list (block * nat) :=
  match fuel, pending with
  | S fuel, (b, d) :: rest => (b, d) :: walk_loop fuel (((., S d) <$> children b) ++ rest)
  | _, _ => []
  end.

Definition walk_blocks (root : option block) : list (block * nat) :=
  match root with
  | None => []
  | Some b => walk_loop (bsize b) [(b, 1)]
  end.

(** The prompt of a Play prompt or Collect digit block. *)
Definition block_prompt_id (b : block) : option string :=
  match b with
  | PlayPrompt _ p _ | CollectDigit _ p _ _ _ _ _ _ _ _ => p
  | _ => None
  end.

(** [if ... and block.prompt_id: result.add(block.prompt_id)] *)
Definition add_prompt_id (acc : gset string) (b : block) : gset string :=
  match block_prompt_id b with
  | Some p => if truthy (Some p) then {[p]} ∪ acc else acc
  | None => acc
  end.

Definition prompt_ids (root : option block) : gset string :=
  foldl (λ acc p, add_prompt_id acc p.1) ∅ (walk_blocks root).

(** ** The release checks of [FlowDocumentV2] and [FlowDocumentV3] *)

Definition is_record (b : block) : bool := match b with RecordMessage _ _ _ => true | _ => false end.
Definition is_external (b : block) : bool :=
  match b with ExternalCall _ _ _ _ _ _ => true | _ => false end.
Definition is_collect (b : block) : bool :=
  match b with CollectDigit _ _ _ _ _ _ _ _ _ _ => true | _ => false end.
Definition barge_in (b : block) : bool :=
  match b with CollectDigit _ _ a _ _ _ _ _ _ _ => a | _ => false end.

(** The children pushed on [pending], in push order. *)
Definition pushed_children (b : block) : list block :=
  match b with
  | PlayPrompt _ _ nxt => option_list nxt
  | CollectDigit _ _ _ _ _ _ brs t i l => omap branch_root brs ++ omap id [t; i; l]
  | ScheduleBranch _ _ o c h => omap id [o; c; h]
  | RecordMessage _ nxt u => omap id [nxt; u]
  | ExternalCall _ _ _ nxt n f => omap id [nxt; n; f]
  | ReturnToMenu _ | EndCall _ => []
  end.

Definition release_two_check (b : block) : result unit :=
  if is_record b then Raise (ValueError "FlowDocumentV2 cannot contain record_message blocks")
  else if is_external b then Raise (ValueError "FlowDocumentV2 cannot contain external_call blocks")
  else if barge_in b then Raise (ValueError "FlowDocumentV2 cannot enable prompt interruption")
  else Ok tt.

Definition release_three_check (b : block) : result unit :=
  if is_external b then Raise (ValueError "FlowDocumentV3 cannot contain external_call blocks")
  else if barge_in b then Raise (ValueError "FlowDocumentV3 cannot enable prompt interruption")
  else Ok tt.

(** [while pending: block = pending.pop(); ...]: the head of [pending] is the
    end of the Python list. *)
Fixpoint release_loop (check : block → result unit) (fuel : nat) (pending : list block)
    : result unit :=
  match pending with
  | [] => Ok tt
  | b :: rest =>
      match fuel with
      | 0 => Raise OutOfFuel
      | S fuel => check b ≫= λ _, release_loop check fuel (reverse (pushed_children b) ++ rest)
      end
  end.

Definition release_two_has_no_recording (root : option block) : result unit :=
  match root with
  | None => Ok tt
  | Some b => release_loop release_two_check (bsize b) [b]
  end.
Definition release_three_has_no_external_calls (root : option block) : result unit :=
  match root with
  | None => Ok tt
  | Some b => release_loop release_three_check (bsize b) [b]
  end.

(** ** Membership in [children] and the induction principle of owned trees *)

Lemma elem_of_sorted_branches br brs : br ∈ sorted_branches brs ↔ br ∈ brs.
Proof. unfold sorted_branches. by rewrite sort_by_perm. Qed.

(** The children of a block in source order, branches first. *)
Lemma omap_snd_labelled (f : branch → string) (brs : list branch) :
  omap snd (map (λ br, (f br, branch_root br)) brs) = omap branch_root brs.
Proof.
  induction brs as [|br brs IH]; [done|]. simpl.
  destruct (branch_root br); [f_equal|]; apply IH.
Qed.

Lemma children_perm b : children b ≡ₚ pushed_children b.
Proof.
  destruct b as [i p nxt|i p a tm ma mr brs t v l|i s o c h|i|i|i nxt u|i ph tm nxt n f]; unfold children; cbn [owned_children pushed_children].
  - by destruct nxt.
  - rewrite omap_app. apply Permutation_app.
    + rewrite (omap_snd_labelled (λ br, "digit " +:+ dtmf_str (branch_digit br))). unfold sorted_branches. by rewrite sort_by_perm.
    + done.
  - by destruct o, c, h.
  - done.
  - done.
  - by destruct nxt, u.
  - by destruct nxt, n, f.
Qed.

Lemma elem_of_pushed_children c b : c ∈ pushed_children b ↔ c ∈ children b.
Proof. by rewrite children_perm. Qed.

Lemma block_ind_children (P : block → Prop) :
  (∀ b, (∀ c, c ∈ children b → P c) → P b) → ∀ b, P b.
Proof.
  intros H. fix IH 1. intros b. apply H.
  cut (Forall P (pushed_children b)).
  { intros Hall c Hc%elem_of_pushed_children. by apply (proj1 (Forall_forall _ _) Hall). }
  destruct b as [i p nxt|i p a tm ma mr brs t v l|i s o c h|i|i|i nxt u|i ph tm nxt n f];
    cbn [pushed_children].
  - destruct nxt; repeat constructor; apply IH.
  - apply Forall_app_2.
    + induction brs as [|[bi d [r|]] brs IHb]; cbn; [constructor| |exact IHb].
      constructor; [apply IH|exact IHb].
    + destruct t, v, l; repeat constructor; apply IH.
  - destruct o, c, h; repeat constructor; apply IH.
  - constructor.
  - constructor.
  - destruct nxt, u; repeat constructor; apply IH.
  - destruct nxt, n, f; repeat constructor; apply IH.
Qed.

(** ** The preorder and its equations *)

Section AnnotFacts.
Context {X : Type} (down : block → X → X).

Lemma concat_map_option_root (f : block → list (block * X)) brs :
  concat (map (λ br, match branch_root br with Some c => f c | None => [] end) brs)
  = concat (f <$> omap branch_root brs).
Proof.
  induction brs as [|br brs IH]; simpl; [done|]. rewrite IH. by destruct (branch_root br).
Qed.

Lemma annot_unfold b x :
  annot down b x = (b, x) :: concat ((λ c, annot down c (down b x)) <$> children b).
Proof.
  destruct b as [i p nxt|i p a tm ma mr brs t v l|i s o c h|i|i|i nxt u|i ph tm nxt n f];
  cbn [annot]; f_equal; unfold children; cbn [owned_children].
  - by destruct nxt; simpl; rewrite ?app_nil_r.
  - match goal with |- context [down ?b x] => generalize (down b x) as y end. intros y.
  rewrite (map_ext _ (λ br, (dtmf_index (branch_digit br),
    match branch_root br with Some c => annot down c y | None => [] end)))
    by (by intros [???]).
  rewrite (sort_by_map (λ br, dtmf_index (branch_digit br))) by done.
  rewrite map_map. simpl. rewrite (concat_map_option_root (λ c, annot down c y)).
  rewrite omap_app, (omap_snd_labelled (λ br, "digit " +:+ dtmf_str (branch_digit br))),
    fmap_app, concat_app.
  fold (sorted_branches brs). f_equal.
  by destruct t, v, l; simpl; rewrite ?app_nil_r.
  - by destruct o, c, h; simpl; rewrite ?app_nil_r.
  - by destruct nxt, u; simpl; rewrite ?app_nil_r.
  - by destruct nxt, n, f; simpl; rewrite ?app_nil_r.
Qed.
End AnnotFacts.

Lemma preorder_at_unfold b d :
  preorder_at b d = (b, d) :: concat ((λ c, preorder_at c (S d)) <$> children b).
Proof. apply annot_unfold. Qed.

Lemma fmap_fst_concat {X} (f : block → list (block * X)) (g : block → list block) l :
  (∀ c, c ∈ l → (f c).*1 = g c) → (concat (f <$> l)).*1 = concat (g <$> l).
Proof.
  induction l as [|c l IH]; intros H; csimpl; [done|].
  rewrite fmap_app, H, IH; [done|set_solver|set_solver].
Qed.

Lemma annot_fst_same {X Y} (down : block → X → X) (down' : block → Y → Y) b x y :
  (annot down b x).*1 = (annot down' b y).*1.
Proof.
  revert x y. induction b as [b IH] using block_ind_children. intros x y.
  rewrite !annot_unfold. csimpl. f_equal.
  rewrite (fmap_fst_concat _ (λ c, (annot down' c (down' b y)).*1)) by auto.
  symmetry. by apply fmap_fst_concat.
Qed.

Lemma annot_fst {X} (down : block → X → X) b x : (annot down b x).*1 = preorder b.
Proof. apply annot_fst_same. Qed.

Lemma preorder_at_fst b d : (preorder_at b d).*1 = preorder b.
Proof. apply annot_fst. Qed.

Lemma preorder_unfold b : preorder b = b :: concat (preorder <$> children b).
Proof.
  unfold preorder at 1. rewrite preorder_at_unfold. csimpl. f_equal.
  apply fmap_fst_concat. intros. apply preorder_at_fst.
Qed.

Lemma length_preorder_at b d : length (preorder_at b d) = bsize b.
Proof. unfold bsize. by rewrite <- (preorder_at_fst b d), length_fmap. Qed.

Lemma bsize_unfold b : bsize b = S (sum_list_with bsize (children b)).
Proof.
  unfold bsize at 1. rewrite preorder_unfold. csimpl. f_equal.
  induction (children b) as [|c l IH]; csimpl; [done|]. by rewrite length_app, IH.
Qed.

Lemma bsize_pos b : 0 < bsize b.
Proof. rewrite bsize_unfold. lia. Qed.

Lemma block_ids_unfold b : block_ids b = block_id b :: concat (block_ids <$> children b).
Proof.
  unfold block_ids at 1. rewrite preorder_unfold. csimpl. f_equal.
  induction (children b) as [|c l IH]; csimpl; [done|]. by rewrite fmap_app, IH.
Qed.

Lemma elem_of_preorder b c :
  c ∈ preorder b ↔ c = b ∨ ∃ k, k ∈ children b ∧ c ∈ preorder k.
Proof.
  by rewrite preorder_unfold, elem_of_cons, elem_of_concat_fmap.
Qed.

Lemma preorder_self b : b ∈ preorder b.
Proof. rewrite elem_of_preorder. by left. Qed.

Lemma preorder_child b c : c ∈ children b → c ∈ preorder b.
Proof. intros. rewrite elem_of_preorder. right. eauto using preorder_self. Qed.

Lemma preorder_trans a b c : b ∈ preorder a → c ∈ preorder b → c ∈ preorder a.
Proof.
  induction a as [a IH] using block_ind_children. intros Hb Hcb.
  apply elem_of_preorder in Hb as [->|(k & Hk & Hb)]; [exact Hcb|].
  apply elem_of_preorder. right. exists k. split; [done|]. by apply IH.
Qed.

#[export] Hint Resolve preorder_self preorder_child preorder_trans bsize_pos : flow.

(** ** The stack loops visit exactly the owned tree *)

Lemma sum_bsize_tagged d l : sum_list_with (λ p : block * nat, bsize p.1) ((., d) <$> l)
  = sum_list_with bsize l.
Proof. induction l as [|b l IH]; csimpl; [done|]. by rewrite IH. Qed.

Lemma walk_loop_preorder fuel pending :
  sum_list_with (λ p, bsize p.1) pending ≤ fuel →
  walk_loop fuel pending = concat ((λ p, preorder_at p.1 p.2) <$> pending).
Proof.
  revert pending. induction fuel as [|fuel IH]; intros [|[b d] rest] Hf; csimpl in *; try done.
  - pose proof (bsize_pos b). lia.
  - rewrite bsize_unfold in Hf. rewrite IH.
    + rewrite preorder_at_unfold, fmap_app, concat_app. csimpl.
      by rewrite <- list_fmap_compose.
    + rewrite sum_list_with_app, sum_bsize_tagged. lia.
Qed.

(** The order of [walk_blocks] is the depth-annotated preorder. *)
Lemma walk_blocks_preorder b : walk_blocks (Some b) = preorder_at b 1.
Proof.
  unfold walk_blocks. rewrite walk_loop_preorder; csimpl; [by rewrite app_nil_r|lia].
Qed.

Lemma walk_blocks_fst b : (walk_blocks (Some b)).*1 = preorder b.
Proof. rewrite walk_blocks_preorder. apply preorder_at_fst. Qed.

Lemma elem_of_add_prompt_id acc b p :
  p ∈ add_prompt_id acc b ↔ p ∈ acc ∨ block_prompt_id b = Some p ∧ truthy (Some p) = true.
Proof.
  unfold add_prompt_id. destruct (block_prompt_id b) as [q|]; [|naive_solver].
  destruct (truthy (Some q)) eqn:Et.
  - rewrite elem_of_union, elem_of_singleton. split; [intros [->|]; auto|].
    intros [?|[[= ->] _]]; auto.
  - split; [auto|]. intros [?|[[= ->] ?]]; [done|congruence].
Qed.

Lemma prompt_ids_foldl (l : list (block * nat)) (acc : gset string) p :
  p ∈ foldl (λ acc p, add_prompt_id acc p.1) acc l
  ↔ p ∈ acc ∨ ∃ b, b ∈ l.*1 ∧ block_prompt_id b = Some p ∧ truthy (Some p) = true.
Proof.
  revert acc. induction l as [|[b d] l IH]; intros acc; csimpl; [set_solver|].
  rewrite IH, elem_of_add_prompt_id. setoid_rewrite elem_of_cons. naive_solver.
Qed.

(** [prompt_ids] collects exactly the prompts named by Play prompt and Collect
    digit blocks of the tree. *)
Lemma elem_of_prompt_ids b p :
  p ∈ prompt_ids (Some b) ↔ ∃ c, c ∈ preorder b ∧ block_prompt_id c = Some p ∧ truthy (Some p) = true.
Proof. unfold prompt_ids. rewrite prompt_ids_foldl, walk_blocks_fst. set_solver. Qed.

Lemma release_loop_ok check fuel pending :
  sum_list_with bsize pending ≤ fuel →
  release_loop check fuel pending = Ok tt
  ↔ ∀ b c, b ∈ pending → c ∈ preorder b → check c = Ok tt.
Proof.
  revert pending. induction fuel as [|fuel IH]; intros [|b rest] Hf; csimpl in *.
  - set_solver.
  - pose proof (bsize_pos b). lia.
  - set_solver.
  - rewrite bsize_unfold, children_perm in Hf.
    assert (sum_list_with bsize (reverse (pushed_children b) ++ rest) ≤ fuel) as Hf'
      by (rewrite sum_list_with_app, sum_list_with_reverse; lia).
    rewrite result_bind_ok. setoid_rewrite (IH _ Hf').
    setoid_rewrite elem_of_app. setoid_rewrite elem_of_reverse.
    setoid_rewrite elem_of_pushed_children. setoid_rewrite elem_of_cons. split.
    + intros ([] & Hb & H) b' c [->|Hin] Hc; [|by apply (H b' c); auto].
      apply elem_of_preorder in Hc as [->|(k & Hk & Hc)]; [done|]. apply (H k c); auto.
    + intros H. exists tt. split; [by apply (H b b); auto with flow|].
      intros b' c [Hb'|Hb'] Hc; [|by apply (H b' c); auto].
      apply (H b c); [by left|]. eapply preorder_trans; [by apply preorder_child|done].
Qed.

(** The V2 release check accepts a tree exactly when it has no recording, no
    external call and no menu that may be interrupted. *)
Lemma release_two_spec b :
  release_two_has_no_recording (Some b) = Ok tt
  ↔ ∀ c, c ∈ preorder b → is_record c = false ∧ is_external c = false ∧ barge_in c = false.
Proof.
  unfold release_two_has_no_recording. rewrite release_loop_ok by (csimpl; lia).
  setoid_rewrite list_elem_of_singleton. unfold release_two_check. split.
  - intros H c Hc. specialize (H b c eq_refl Hc). by repeat case_match.
  - intros H _ c -> Hc. by destruct (H c Hc) as (-> & -> & ->).
Qed.

(** The V3 release check accepts a tree exactly when it has no external call
    and no menu that may be interrupted. *)
Lemma release_three_spec b :
  release_three_has_no_external_calls (Some b) = Ok tt
  ↔ ∀ c, c ∈ preorder b → is_external c = false ∧ barge_in c = false.
Proof.
  unfold release_three_has_no_external_calls. rewrite release_loop_ok by (csimpl; lia).
  setoid_rewrite list_elem_of_singleton. unfold release_three_check. split.
  - intros H c Hc. specialize (H b c eq_refl Hc). by repeat case_match.
  - intros H _ c -> Hc. by destruct (H c Hc) as (-> & ->).
Qed.

(** ** Height *)

(** The number of blocks on the longest path from the root. *)
Definition height (b : block) : nat := max_list ((preorder_at b 1).*2).

Lemma preorder_at_shift b d : preorder_at b (S d) = prod_map id S <$> preorder_at b d.
Proof.
  revert d. induction b as [b IH] using block_ind_children. intros d.
  rewrite (preorder_at_unfold b (S d)), (preorder_at_unfold b d). csimpl. f_equal.
  induction (children b) as [|c l IHl]; csimpl; [done|].
  rewrite fmap_app, IH by set_solver. f_equal. apply IHl. set_solver.
Qed.

Lemma max_list_fmap_S (l : list nat) : l ≠ [] → max_list (S <$> l) = S (max_list l).
Proof.
  induction l as [|x l IH]; intros Hl; [done|]. csimpl.
  destruct l as [|y l]; [simpl; lia|]. rewrite IH by done. lia.
Qed.

Lemma preorder_at_nonnil b d : preorder_at b d ≠ [].
Proof. by rewrite preorder_at_unfold. Qed.

Lemma max_list_preorder_S b d :
  max_list ((preorder_at b (S d)).*2) = S (max_list ((preorder_at b d).*2)).
Proof.
  rewrite preorder_at_shift, <- max_list_fmap_S.
  - by rewrite <- !list_fmap_compose.
  - intros H%fmap_nil_inv. by apply preorder_at_nonnil in H.
Qed.

Lemma max_list_concat (f : block → list (block * nat)) l :
  max_list ((concat (f <$> l)).*2) = max_list ((λ c, max_list ((f c).*2)) <$> l).
Proof.
  induction l as [|c l IH]; csimpl; [done|]. rewrite fmap_app, <- IH.
  generalize ((concat (f <$> l)).*2) as k. intros k.
  induction ((f c).*2) as [|x xs IHx]; simpl; [done|]. rewrite IHx. lia.
Qed.

Lemma height_unfold b : height b = S (max_list (height <$> children b)).
Proof.
  unfold height at 1. rewrite preorder_at_unfold. csimpl. rewrite max_list_concat.
  rewrite (list_fmap_ext _ (S ∘ height) (children b)).
  2: { intros i c _. apply max_list_preorder_S. }
  rewrite list_fmap_compose.
  destruct (children b) as [|c l]; [done|].
  rewrite max_list_fmap_S by done. lia.
Qed.

Lemma height_pos b : 1 ≤ height b.
Proof. rewrite height_unfold. lia. Qed.

Lemma height_child c b : c ∈ children b → S (height c) ≤ height b.
Proof.
  intros Hc. rewrite (height_unfold b). apply le_n_S.
  apply max_list_elem_of_le. by apply list_elem_of_fmap_2.
Qed.

(** ** Digit-branch identifiers of a tree *)

Definition own_branch_ids (b : block) : list string :=
  match b with CollectDigit _ _ _ _ _ _ brs _ _ _ => branch_id <$> brs | _ => [] end.
Definition tree_branch_ids (b : block) : list string := concat (own_branch_ids <$> preorder b).

Lemma tree_branch_ids_unfold b :
  tree_branch_ids b = own_branch_ids b ++ concat (tree_branch_ids <$> children b).
Proof.
  unfold tree_branch_ids at 1. rewrite preorder_unfold. csimpl. f_equal.
  induction (children b) as [|c l IH]; csimpl; [done|]. by rewrite fmap_app, concat_app, IH.
Qed.

Lemma prompt_ids_unfold b :
  prompt_ids (Some b) = (if truthy (block_prompt_id b) then {[default "" (block_prompt_id b)]} else ∅)
    ∪ ⋃ ((λ c, prompt_ids (Some c)) <$> children b).
Proof.
  apply set_eq. intros p. rewrite elem_of_prompt_ids, elem_of_union, elem_of_union_list. split.
  - intros (c & Hc & Hp & Ht). apply elem_of_preorder in Hc as [->|(k & Hk & Hc)].
    + left. rewrite Hp, Ht. simpl. set_solver.
    + right. exists (prompt_ids (Some k)). split; [apply list_elem_of_fmap; by exists k|].
      apply elem_of_prompt_ids. eauto.
  - intros [Hp|(X & HX & Hp)].
    + exists b. split; [apply preorder_self|]. destruct (block_prompt_id b) as [q|] eqn:E.
      * destruct (truthy (Some q)) eqn:Et; [|set_solver]. simpl in Hp.
        apply elem_of_singleton in Hp as ->. done.
      * set_solver.
    + apply list_elem_of_fmap in HX as (k & -> & Hk).
      apply elem_of_prompt_ids in Hp as (c & Hc & Hp & Ht).
      exists c. split; [|done]. apply elem_of_preorder. right. eauto.
Qed.

(** ** Properties *)

(** [walk_blocks] visits the owned tree in preorder, digit branches in
    [DTMF_ORDER], every block once and with its depth. *)
Theorem walk_visits_preorder b : walk_blocks (Some b) = preorder_at b 1.
Proof. apply walk_blocks_preorder. Qed.

(** The V2 document check accepts exactly the trees without a recording, an
    external call or a menu that may be interrupted, anywhere in the tree. *)
Theorem release_two_exact b :
  release_two_has_no_recording (Some b) = Ok tt
  ↔ ∀ c, c ∈ preorder b → is_record c = false ∧ is_external c = false ∧ barge_in c = false.
Proof. apply release_two_spec. Qed.

(** The V3 document check accepts exactly the trees without an external call or
    a menu that may be interrupted, anywhere in the tree. *)
Theorem release_three_exact b :
  release_three_has_no_external_calls (Some b) = Ok tt
  ↔ ∀ c, c ∈ preorder b → is_external c = false ∧ barge_in c = false.
Proof. apply release_three_spec. Qed.
