(* ===== verification/Schemas.v ===== *)
(** * Configuration schemas

    The validators of [schemas.py]: emergency numbers, caller policies,
    weekly schedules, recording behaviour, and the configuration documents
    that the validators, compilers and draft store exchange. *)
From Stdlib Require Import Ascii.
From stdpp Require Import base gmap sets strings numbers sorting list.
From S2P Require Import Prelude FlowTree.

(** ** Strings *)

(** [s.removeprefix(p)] and [s[len(p):] if s.startswith(p)]. *)
Fixpoint strip_prefix (p s : string) : option string :=
  match p, s with
  | EmptyString, _ => Some s
  | String a p, String b s => if decide (a = b) then strip_prefix p s else None
  | String _ _, EmptyString => None
  end.
Definition removeprefix (p s : string) : string := default s (strip_prefix p s).

(** [s.lstrip("0")] *)
Fixpoint lstrip0 (s : string) : string :=
  match s with
  | String "0"%char s => lstrip0 s
  | _ => s
  end.

(** Python compares strings lexicographically by code point. *)
Definition str_lt (a b : string) : Prop := String.compare a b = Lt.
#[global] Instance str_lt_dec a b : Decision (str_lt a b).
Proof. unfold str_lt. solve_decision. Defined.

Definition char_in (lo hi : nat) (c : ascii) : bool :=
  (lo <=? nat_of_ascii c) && (nat_of_ascii c <=? hi).
Definition digit_val (c : ascii) : nat := nat_of_ascii c - 48.

(** ** Emergency numbers *)

Definition EMERGENCY_SERVICE_NUMBERS : list string := ["110"; "112"; "115"; "125"; "911"; "999"].
Definition EMERGENCY_PREFIXES : list string := ["00"; "98"; "0098"; "1"; "44"].

Definition is_obvious_emergency_number (value : string) : bool :=
  let digits := removeprefix "+" value in
  let candidates := [digits; lstrip0 digits] ++
    concat (map (λ prefix,
      match strip_prefix prefix digits with
      | Some remainder => [remainder; lstrip0 remainder]
      | None => []
      end) EMERGENCY_PREFIXES) in
  existsb (λ c, bool_decide (c ∈ EMERGENCY_SERVICE_NUMBERS)) candidates.

(** [phone_number: pattern ^\+?[0-9]{8,15}$] *)
Definition phone_number_pattern (s : string) : bool :=
  let digits := String.list_ascii_of_string (removeprefix "+" s) in
  forallb (char_in 48 57) digits && (8 <=? length digits) && (length digits <=? 15).

Definition validate_phone_number (value : string) : result string :=
  if negb (phone_number_pattern value) then Raise (ValueError "string_pattern_mismatch")
  else if is_obvious_emergency_number value
  then Raise (ValueError "Emergency and public-safety service numbers are not allowed")
  else Ok value.

(** ** Caller policies *)

Inductive CallerPolicyMode : Type :=
| IVR_DISABLED | ALLOWLIST_ONLY | ACCEPT_ALL | ACCEPT_ALL_EXCEPT_BLOCKLIST.
#[global] Instance CallerPolicyMode_eq_dec : EqDecision CallerPolicyMode.
Proof. solve_decision. Defined.

Record CallerEntry := { label : string; e164 : string }.
#[global] Instance CallerEntry_eq_dec : EqDecision CallerEntry.
Proof. solve_decision. Defined.

Record CallerPolicy := {
  mode : CallerPolicyMode;
  route_unknown_callers : bool;
  allowlist : list CallerEntry;
  blocklist : list CallerEntry;
}.
#[global] Instance CallerPolicy_eq_dec : EqDecision CallerPolicy.
Proof. solve_decision. Defined.

Definition default_caller_policy : CallerPolicy :=
  {| mode := ALLOWLIST_ONLY; route_unknown_callers := false; allowlist := []; blocklist := [] |}.

(** [len(xs) != len(set(xs))] *)
Definition has_duplicates `{Countable A} (l : list A) : bool :=
  negb (length l =? size (list_to_set l : gset A)).

Definition unique_numbers (self : CallerPolicy) : result CallerPolicy :=
  if has_duplicates (e164 <$> allowlist self)
  then Raise (ValueError "allowlist contains duplicate phone numbers")
  else if has_duplicates (e164 <$> blocklist self)
  then Raise (ValueError "blocklist contains duplicate phone numbers")
  else Ok self.

(** ** Schedules *)

Record WeeklyWindow := { weekday : Z; start : string; wend : string }.
#[global] Instance WeeklyWindow_eq_dec : EqDecision WeeklyWindow.
Proof. solve_decision. Defined.

(** [pattern ^(?:[01][0-9]|2[0-3]):[0-5][0-9]$] *)
Definition time_pattern (s : string) : bool :=
  match s with
  | String a (String b (String ":" (String c (String d EmptyString)))) =>
      (char_in 48 49 a && char_in 48 57 b || char_in 50 50 a && char_in 48 51 b)
        && char_in 48 53 c && char_in 48 57 d
  | _ => false
  end.

Definition ordered (self : WeeklyWindow) : result WeeklyWindow :=
  if negb (bool_decide (0 ≤ weekday self ≤ 6)%Z) then Raise (ValueError "weekday")
  else if negb (time_pattern (start self) && time_pattern (wend self))
  then Raise (ValueError "string_pattern_mismatch")
  else if negb (bool_decide (str_lt (start self) (wend self)))
  then Raise (ValueError "weekly window end must be later than start")
  else Ok self.

Inductive exception_state : Type := state_open | state_closed | state_holiday.
#[global] Instance exception_state_eq_dec : EqDecision exception_state.
Proof. solve_decision. Defined.

(** A [datetime.date]: year, month and day. *)
Record ScheduleException := { edate : Z * Z * Z; state : exception_state }.
#[global] Instance ScheduleException_eq_dec : EqDecision ScheduleException.
Proof. solve_decision. Defined.

Record Schedule := {
  sid : string;
  sname : string;
  timezone : string;
  weekly : list WeeklyWindow;
  exceptions : list ScheduleException;
}.
#[global] Instance Schedule_eq_dec : EqDecision Schedule.
Proof. solve_decision. Defined.

(** The tuple order used by [sorted(windows)]. *)
Definition window_le (p q : string * string) : Prop :=
  str_lt p.1 q.1 ∨ (p.1 = q.1 ∧ (str_lt p.2 q.2 ∨ p.2 = q.2)).
#[global] Instance window_le_dec : RelDecision window_le.
Proof. intros p q. unfold window_le. apply _. Defined.

(** [grouped.setdefault(window.weekday, []).append((window.start, window.end))] *)
Definition group_windows (l : list WeeklyWindow) : gmap Z (list (string * string)) :=
  foldl (λ g w, <[weekday w := default [] (g !! weekday w) ++ [(start w, wend w)]]> g) ∅ l.

(** [any(current[0] < previous[1] for previous, current in zip(l, l[1:]))] *)
Definition overlapping (l : list (string * string)) : bool :=
  existsb (λ '(previous, current), bool_decide (str_lt current.1 previous.2)) (zip l (tail l)).

Definition no_overlaps_or_duplicate_exceptions (self : Schedule) : result Schedule :=
  if existsb (λ '(_, windows), overlapping (merge_sort window_le windows))
       (map_to_list (group_windows (weekly self)))
  then Raise (ValueError "weekly schedule windows overlap")
  else if has_duplicates (edate <$> exceptions self)
  then Raise (ValueError "schedule exception dates must be unique")
  else Ok self.

(** ** Recording behaviour and the configuration documents *)

Record RecordingBehavior := { maximum_duration_seconds : Z; finish_key : option string }.
#[global] Instance RecordingBehavior_eq_dec : EqDecision RecordingBehavior.
Proof. solve_decision. Defined.
Definition default_recording_behavior : RecordingBehavior :=
  {| maximum_duration_seconds := 60; finish_key := Some "#" |}.

Definition supported_finish_key (value : option string) : result (option string) :=
  match value with
  | Some v =>
      if negb (bool_decide (String.length v = 1)) || negb (bool_decide (v ∈ dtmf_str <$> DTMF_ORDER))
      then Raise (ValueError "finish_key must be one DTMF key or null")
      else Ok value
  | None => Ok value
  end.

(** ** Field constraints of the flow blocks *)

(** [[a-f0-9]] *)
Definition lower_hex (c : ascii) : bool := char_in 48 57 c || char_in 97 102 c.

(** [PROMPT_ID_PATTERN = ^[0-9a-f-]{36}$] *)
Definition PROMPT_ID_PATTERN (s : string) : bool :=
  (String.length s =? 36)
  && forallb (λ c, lower_hex c || char_in 45 45 c) (String.list_ascii_of_string s).

(** [NODE_ID_PATTERN = ^[a-z][a-z0-9_-]{0,31}$] *)
Definition NODE_ID_PATTERN (s : string) : bool :=
  match s with
  | EmptyString => false
  | String c rest =>
      char_in 97 122 c && (String.length rest <=? 31)
      && forallb (λ c, char_in 97 122 c || char_in 48 57 c || char_in 95 95 c || char_in 45 45 c)
           (String.list_ascii_of_string rest)
  end.

(** [BLOCK_ID_PATTERN]: the lower-case text of an RFC 4122 UUID, version 1 to 5. *)
Definition block_id_char (i : nat) (c : ascii) : bool :=
  if bool_decide (i ∈ [8; 13; 18; 23]) then char_in 45 45 c
  else if i =? 14 then char_in 49 53 c
  else if i =? 19 then char_in 56 57 c || char_in 97 98 c
  else lower_hex c.
Definition BLOCK_ID_PATTERN (s : string) : bool :=
  (String.length s =? 36)
  && forallb id (imap block_id_char (String.list_ascii_of_string s)).

Definition optional_field (p : string → bool) (o : option string) : bool :=
  match o with Some s => p s | None => true end.
Definition in_range (lo hi x : Z) : bool := bool_decide (lo ≤ x ≤ hi)%Z.

(** What a validated block model guarantees of its own fields. *)
Definition block_fields (b : block) : bool :=
  BLOCK_ID_PATTERN (block_id b) &&
  match b with
  | PlayPrompt _ p _ => optional_field PROMPT_ID_PATTERN p
  | CollectDigit _ p barge timeout_ms attempts returns brs _ _ _ =>
      optional_field PROMPT_ID_PATTERN p
      && in_range 1000 15000 timeout_ms && in_range 1 3 attempts && in_range 1 3 returns
      && (length brs <=? 12) && forallb (λ br, BLOCK_ID_PATTERN (branch_id br)) brs
      && negb (barge && bool_decide (p = None))
  | ScheduleBranch _ sc _ _ _ => optional_field NODE_ID_PATTERN sc
  | ReturnToMenu _ | EndCall _ | RecordMessage _ _ _ => true
  | ExternalCall _ phone seconds _ _ _ =>
      is_ok (validate_phone_number phone) && in_range 5 120 seconds
  end.

(** The blocks of a flow are validated one by one. *)
Definition flow_fields (root : block) : bool := forallb block_fields (preorder root).

Definition recording_fields (r : RecordingBehavior) : bool :=
  in_range 10 180 (maximum_duration_seconds r) && is_ok (supported_finish_key (finish_key r)).

(** [FlowDocumentV2], [V3] and [V4]; [recording_behavior] is unused by V2. *)
Record FlowDocument := {
  edit_version : Z;
  caller_policy : CallerPolicy;
  schedules : list Schedule;
  recording_behavior : RecordingBehavior;
  flow : option block;
}.

(** ** Sets built from lists *)

Lemma size_list_to_set_le `{Countable A} (l : list A) : size (list_to_set l : gset A) ≤ length l.
Proof.
  induction l as [|x l IH]; [rewrite list_to_set_nil, size_empty; simpl; lia|].
  rewrite list_to_set_cons, size_union_alt, size_singleton. simpl.
  assert (size ((list_to_set l : gset A) ∖ {[x]}) ≤ size (list_to_set l : gset A)) by
    (apply subseteq_size; set_solver). lia.
Qed.

Lemma has_duplicates_false `{Countable A} (l : list A) : has_duplicates l = false ↔ NoDup l.
Proof.
  unfold has_duplicates. rewrite negb_false_iff, Nat.eqb_eq. split.
  - induction l as [|x l IH]; intros Hl; [constructor|].
    pose proof (size_list_to_set_le l) as Hle. rewrite list_to_set_cons in Hl. simpl in Hl.
    destruct (decide (x ∈ (list_to_set l : gset A))) as [Hx|Hx].
    + rewrite subseteq_union_1_L in Hl by set_solver. lia.
    + rewrite size_union, size_singleton in Hl by set_solver.
      constructor; [set_solver|]. apply IH. lia.
  - intros Hn. symmetry. by apply size_list_to_set.
Qed.

(** An accepted caller policy lists every number at most once per list. *)
Lemma unique_numbers_spec p :
  unique_numbers p = Ok p ↔ NoDup (e164 <$> allowlist p) ∧ NoDup (e164 <$> blocklist p).
Proof.
  unfold unique_numbers. rewrite <- !has_duplicates_false.
  repeat case_match; naive_solver.
Qed.

(** ** Emergency numbers *)

Lemma strip_prefix_app p s : strip_prefix p (p +:+ s) = Some s.
Proof. induction p as [|a p IH]; simpl; [done|]. by rewrite decide_True. Qed.

Definition zeros (k : nat) : string := Nat.iter k (String "0") "".

Lemma lstrip0_zeros k s : lstrip0 s = s → lstrip0 (zeros k +:+ s) = s.
Proof. intros H. induction k; simpl; [done|]. exact IHk. Qed.

Lemma is_obvious_emergency_intro value c :
  c ∈ [removeprefix "+" value; lstrip0 (removeprefix "+" value)] ++
      concat (map (λ prefix,
        match strip_prefix prefix (removeprefix "+" value) with
        | Some r => [r; lstrip0 r] | None => [] end) EMERGENCY_PREFIXES) →
  c ∈ EMERGENCY_SERVICE_NUMBERS → is_obvious_emergency_number value = true.
Proof.
  intros Hc Hn. unfold is_obvious_emergency_number. apply existsb_exists.
  exists c. split; [by apply list_elem_of_In|]. by apply bool_decide_eq_true_2.
Qed.

Lemma emergency_lstrip0 n : n ∈ EMERGENCY_SERVICE_NUMBERS → lstrip0 n = n.
Proof. unfold EMERGENCY_SERVICE_NUMBERS. rewrite !elem_of_cons, elem_of_nil. naive_solver. Qed.

Lemma removeprefix_plus s : removeprefix "+" ("+" +:+ s) = s.
Proof. done. Qed.

(** A phone number that reaches an emergency service through an optional [+],
    one of the dialling prefixes and any number of leading zeros is refused. *)
Lemma emergency_number_padding (plus : bool) pre k n :
  pre ∈ "" :: EMERGENCY_PREFIXES → n ∈ EMERGENCY_SERVICE_NUMBERS →
  is_obvious_emergency_number ((if plus then "+" else "") +:+ pre +:+ zeros k +:+ n) = true.
Proof.
  intros Hp Hn.
  assert (removeprefix "+" ((if plus then "+" else "") +:+ pre +:+ zeros k +:+ n)
    = pre +:+ zeros k +:+ n) as Hr.
  { destruct plus; [done|]. revert Hp Hn. unfold EMERGENCY_PREFIXES, EMERGENCY_SERVICE_NUMBERS.
    rewrite !elem_of_cons, !elem_of_nil. intros. by destruct_or?; subst; destruct k. }
  apply is_obvious_emergency_intro with n; [rewrite Hr|done].
  apply elem_of_cons in Hp as [->|Hp].
  - apply elem_of_cons; right. apply elem_of_cons; left.
    symmetry. apply lstrip0_zeros. by apply emergency_lstrip0.
  - apply elem_of_app. right. apply elem_of_concat_fmap.
    exists pre. split; [done|]. rewrite strip_prefix_app.
    apply elem_of_cons; right. apply elem_of_cons; left.
    symmetry. apply lstrip0_zeros. by apply emergency_lstrip0.
Qed.

(** ** Weekly windows as sets of minutes *)

Definition minutes (s : string) : nat :=
  match s with
  | String a (String b (String _ (String c (String d _)))) =>
      60 * (10 * digit_val a + digit_val b) + (10 * digit_val c + digit_val d)
  | _ => 0
  end.

Definition covers (m : nat) (p : string * string) : Prop := minutes p.1 ≤ m < minutes p.2.
#[global] Instance covers_dec m p : Decision (covers m p).
Proof. unfold covers. apply _. Defined.

(** A window that passed [WeeklyWindow.ordered]. *)
Definition window_ok (p : string * string) : Prop :=
  time_pattern p.1 = true ∧ time_pattern p.2 = true ∧ str_lt p.1 p.2.

Lemma ascii_compare_nat a b :
  Ascii.compare a b = (nat_of_ascii a ?= nat_of_ascii b).
Proof. unfold Ascii.compare, nat_of_ascii. by rewrite N2Nat.inj_compare. Qed.

Lemma time_pattern_inv s : time_pattern s = true →
  ∃ a b c d, s = String a (String b (String ":" (String c (String d "")))) ∧
    48 ≤ nat_of_ascii a ∧ 48 ≤ nat_of_ascii b ≤ 57 ∧
    48 ≤ nat_of_ascii c ≤ 53 ∧ 48 ≤ nat_of_ascii d ≤ 57.
Proof.
  intros H. destruct s as [|a [|b [|x s]]]; try discriminate.
  destruct x as [[] [] [] [] [] [] [] []]; try discriminate.
  destruct s as [|c [|d [|? ?]]]; try discriminate.
  exists a, b, c, d. split; [done|]. revert H. simpl. unfold char_in.
  rewrite !andb_true_iff, orb_true_iff, !andb_true_iff, !Nat.leb_le. lia.
Qed.

Lemma str_lt_minutes a b :
  time_pattern a = true → time_pattern b = true → str_lt a b ↔ minutes a < minutes b.
Proof.
  intros (a1 & a2 & a3 & a4 & -> & Ha)%time_pattern_inv
    (b1 & b2 & b3 & b4 & -> & Hb)%time_pattern_inv.
  unfold str_lt, minutes, digit_val. cbn [String.compare]. rewrite !ascii_compare_nat.
  revert Ha Hb. generalize (nat_of_ascii a1), (nat_of_ascii a2), (nat_of_ascii a3),
    (nat_of_ascii a4), (nat_of_ascii b1), (nat_of_ascii b2), (nat_of_ascii b3), (nat_of_ascii b4).
  clear. intros x1 x2 x3 x4 y1 y2 y3 y4 Ha Hb. rewrite Nat.compare_refl.
  destruct (Nat.compare_spec x1 y1); [|split; [lia|done]|split; [done|lia]].
  destruct (Nat.compare_spec x2 y2); [|split; [lia|done]|split; [done|lia]].
  destruct (Nat.compare_spec x3 y3); [|split; [lia|done]|split; [done|lia]].
  destruct (Nat.compare_spec x4 y4); [split; [done|lia]|split; [lia|done]|split; [done|lia]].
Qed.

Lemma str_lt_trichotomy a b : str_lt a b ∨ a = b ∨ str_lt b a.
Proof.
  unfold str_lt. rewrite (String.compare_antisym b a).
  destruct (String.compare a b) eqn:E; [|by left|by right; right].
  right; left. by apply String.compare_eq_iff.
Qed.

#[global] Instance window_le_total : Total window_le.
Proof.
  intros [p1 p2] [q1 q2]. unfold window_le. simpl.
  destruct (str_lt_trichotomy p1 q1) as [|[->|]]; [by left; left| |by right; left].
  destruct (str_lt_trichotomy p2 q2) as [|[->|]]; naive_solver.
Qed.

Lemma overlapping_cons p q l :
  overlapping (p :: q :: l) = bool_decide (str_lt q.1 p.2) || overlapping (q :: l).
Proof. done. Qed.

Lemma overlapping_false_after p l :
  Forall window_ok (p :: l) → overlapping (p :: l) = false →
  Forall (λ q, minutes p.2 ≤ minutes q.1) l.
Proof.
  revert p. induction l as [|q l IH]; intros p Hok Ho; [constructor|].
  rewrite overlapping_cons, orb_false_iff, bool_decide_eq_false in Ho. destruct Ho as [Hpq Ho].
  inversion Hok as [|?? Hp Hok']; subst. inversion Hok' as [|?? Hq ?]; subst.
  destruct Hp as (? & ? & ?), Hq as (? & ? & Hlt).
  rewrite str_lt_minutes in Hpq, Hlt by done. constructor; [lia|].
  eapply Forall_impl; [by apply IH|]. simpl. lia.
Qed.

Lemma overlapping_false_covers l m :
  Forall window_ok l → overlapping l = false → length (filter (covers m) l) ≤ 1.
Proof.
  induction l as [|p l IH]; intros Hok Ho; [simpl; lia|].
  pose proof (overlapping_false_after p l Hok Ho) as Hafter.
  inversion Hok; subst. rewrite filter_cons. case_decide as Hp.
  - rewrite (list_filter_none (covers m) l); [simpl; lia|].
    eapply Forall_impl; [exact Hafter|]. unfold covers in *. lia.
  - apply IH; [done|]. destruct l as [|q l]; [done|].
    rewrite overlapping_cons, orb_false_iff in Ho. apply Ho.
Qed.

Lemma overlapping_true_covers l :
  Forall window_ok l → Sorted window_le l → overlapping l = true →
  ∃ m, 2 ≤ length (filter (covers m) l).
Proof.
  induction l as [|p [|q l] IH]; intros Hok Hs Ho; [done..|].
  inversion Hok as [|?? Hp Hok']; subst. inversion Hok' as [|?? Hq ?]; subst.
  inversion Hs as [|?? Hs' Hhd]; subst. inversion Hhd as [|?? Hle]; subst.
  rewrite overlapping_cons, orb_true_iff, bool_decide_eq_true in Ho.
  destruct Ho as [Ho|Ho].
  - exists (minutes q.1). destruct Hp as (? & ? & Hp), Hq as (? & ? & Hq).
    rewrite str_lt_minutes in Ho, Hp, Hq by done.
    assert (minutes p.1 ≤ minutes q.1).
    { destruct Hle as [Hl|[-> _]]; [|done]. rewrite str_lt_minutes in Hl by done. lia. }
    rewrite !filter_cons, !decide_True by (unfold covers; lia). simpl. lia.
  - destruct (IH Hok' Hs' Ho) as [m Hm]. exists m.
    rewrite (filter_cons _ p). case_decide; simpl; lia.
Qed.

(** ** Grouping by weekday *)

Definition window_times (w : WeeklyWindow) : string * string := (start w, wend w).

Lemma group_windows_lookup l d :
  default [] (group_windows l !! d) = window_times <$> filter (λ w, weekday w = d) l.
Proof.
  unfold group_windows. induction l as [|w l IH] using rev_ind; [done|].
  rewrite foldl_app, filter_app, fmap_app. simpl. rewrite filter_cons, filter_nil.
  destruct (decide (weekday w = d)) as [<-|Hne].
  - by rewrite lookup_insert_eq, IH.
  - rewrite lookup_insert_ne by done. by rewrite IH, app_nil_r.
Qed.

(** The weekly windows of day [d] that are open at minute [m]. *)
Definition open_windows (s : Schedule) (d : Z) (m : nat) : list WeeklyWindow :=
  filter (λ w, weekday w = d ∧ covers m (window_times w)) (weekly s).

Lemma length_open_windows s d m :
  length (open_windows s d m)
  = length (filter (covers m) (default [] (group_windows (weekly s) !! d))).
Proof.
  unfold open_windows. rewrite group_windows_lookup. generalize (weekly s) as l.
  induction l as [|w l IH]; [done|]. rewrite !filter_cons.
  destruct (decide (weekday w = d)) as [Hd|Hd].
  - rewrite (decide_ext _ (covers m (window_times w))) by naive_solver.
    csimpl. rewrite filter_cons. case_decide; simpl; lia.
  - rewrite decide_False by naive_solver. done.
Qed.

Lemma overlapping_sorted_iff l : Forall window_ok l →
  overlapping (merge_sort window_le l) = false ↔ ∀ m, length (filter (covers m) l) ≤ 1.
Proof.
  intros Hok. assert (Forall window_ok (merge_sort window_le l)) as Hok'
    by (by rewrite merge_sort_Permutation).
  assert (∀ m, length (filter (covers m) (merge_sort window_le l))
    = length (filter (covers m) l)) as Hlen by (intros m; by rewrite merge_sort_Permutation).
  split.
  - intros Ho m. rewrite <- Hlen. by apply overlapping_false_covers.
  - intros Hm. apply not_true_is_false. intros Ho.
    apply overlapping_true_covers in Ho as [m Ho]; [|done|apply Sorted_merge_sort; apply _].
    rewrite Hlen in Ho. specialize (Hm m). lia.
Qed.

(** A schedule whose windows are well formed is accepted exactly when no minute
    of the week lies in two windows and the exception dates are distinct. *)
Lemma schedule_accepted_iff s :
  Forall (λ w, ordered w = Ok w) (weekly s) →
  no_overlaps_or_duplicate_exceptions s = Ok s
  ↔ (∀ d m, length (open_windows s d m) ≤ 1) ∧ NoDup (edate <$> exceptions s).
Proof.
  intros Hw. assert (∀ d, Forall window_ok (default [] (group_windows (weekly s) !! d))) as Hok.
  { intros d. rewrite group_windows_lookup, Forall_fmap.
    apply Forall_forall. intros w [_ Hin]%list_elem_of_filter.
    rewrite Forall_forall in Hw. specialize (Hw w Hin). revert Hw. unfold ordered.
    repeat case_match; try done. intros _. unfold window_ok, window_times; simpl.
    rewrite negb_false_iff, ?andb_true_iff, ?bool_decide_eq_true in *. naive_solver. }
  setoid_rewrite length_open_windows.
  assert (existsb (λ '(_, ws), overlapping (merge_sort window_le ws))
    (map_to_list (group_windows (weekly s))) = false ↔
    ∀ d m, length (filter (covers m) (default [] (group_windows (weekly s) !! d))) ≤ 1) as Hiff.
  { rewrite <- not_true_iff_false, existsb_exists. split.
    - intros Hno d. apply overlapping_sorted_iff; [done|].
      destruct (group_windows (weekly s) !! d) as [ws|] eqn:E; [|done]. simpl.
      apply not_true_is_false. intros Ho. apply Hno. exists (d, ws).
      split; [|done]. by apply list_elem_of_In, elem_of_map_to_list.
    - intros Hm ([d ws] & Hin%list_elem_of_In%elem_of_map_to_list & Ho).
      specialize (Hm d). specialize (Hok d). rewrite Hin in Hm, Hok. simpl in *.
      apply overlapping_sorted_iff in Hm; congruence. }
  unfold no_overlaps_or_duplicate_exceptions. rewrite <- Hiff, <- has_duplicates_false.
  destruct (existsb _ _); [naive_solver|]. destruct (has_duplicates _); naive_solver.
Qed.

(** ** Properties *)

(** A schedule whose windows are well formed is accepted exactly when no minute
    of the week lies in two of its windows and its exception dates are distinct. *)
Theorem schedule_overlap_exact s :
  Forall (λ w, ordered w = Ok w) (weekly s) →
  no_overlaps_or_duplicate_exceptions s = Ok s
  ↔ (∀ d m, length (open_windows s d m) ≤ 1) ∧ NoDup (edate <$> exceptions s).
Proof. apply schedule_accepted_iff. Qed.

Definition split_day : Schedule :=
  {| sid := "office"; sname := "Office"; timezone := "Asia/Tehran";
     weekly := [{| weekday := 0; start := "13:30"; wend := "17:00" |};
                {| weekday := 0; start := "08:00"; wend := "13:30" |}];
     exceptions := [] |}.

Lemma schedule_overlap_exact_witness : length (open_windows split_day 0 810) ≤ 1.
Proof.
  apply (schedule_overlap_exact split_day).
  - repeat constructor; vm_compute; reflexivity.
  - vm_compute. reflexivity.
Defined.

(** A phone number that is an emergency number after any of the international
    or trunk prefixes and any number of leading zeros is recognized as one. *)
Theorem emergency_padding_detected (plus : bool) pre k n :
  pre ∈ "" :: EMERGENCY_PREFIXES → n ∈ EMERGENCY_SERVICE_NUMBERS →
  is_obvious_emergency_number ((if plus then "+" else "") +:+ pre +:+ zeros k +:+ n) = true.
Proof. apply emergency_number_padding. Qed.

Lemma emergency_padding_detected_witness : is_obvious_emergency_number "+0034112" = false
  ∧ is_obvious_emergency_number "+980000112" = true.
Proof.
  split; [vm_compute; reflexivity|].
  apply (emergency_padding_detected true "98" 4 "112").
  - right. right. left.
  - right. left.
Defined.
