(* ===== verification/Validation.v ===== *)
(** * Publication validation of owned flows

    [validate_configuration_v2], [_v3] and [_v4] of [validation.py].  The three
    functions walk the tree with the same mutable sets; they differ in the block
    types they accept and in how the notice that a recording or an external call
    needs is tracked, which [version] selects. *)
From stdpp Require Import base gmap sets strings numbers pretty list.
From S2P Require Import Prelude FlowTree Schemas.

Inductive version : Type := V2 | V3 | V4.
#[global] Instance version_eq_dec : EqDecision version.
Proof. solve_decision. Defined.

(** ** The validator's mutable state *)

Record vstate := {
  errors : list string;
  seen_blocks : gset string;
  seen_branches : gset string;
  used_prompts : gset string;
  maximum_depth : nat;
}.

Definition add_error (e : string) (s : vstate) : vstate :=
  {| errors := errors s ++ [e]; seen_blocks := seen_blocks s; seen_branches := seen_branches s;
     used_prompts := used_prompts s; maximum_depth := maximum_depth s |}.
Definition error_if (b : bool) (e : string) (s : vstate) : vstate :=
  if b then add_error e s else s.
Definition see_block (i : string) (s : vstate) : vstate :=
  {| errors := errors s; seen_blocks := {[i]} ∪ seen_blocks s; seen_branches := seen_branches s;
     used_prompts := used_prompts s; maximum_depth := maximum_depth s |}.
Definition see_branch (i : string) (s : vstate) : vstate :=
  {| errors := errors s; seen_blocks := seen_blocks s; seen_branches := {[i]} ∪ seen_branches s;
     used_prompts := used_prompts s; maximum_depth := maximum_depth s |}.
Definition use_prompt (i : string) (s : vstate) : vstate :=
  {| errors := errors s; seen_blocks := seen_blocks s; seen_branches := seen_branches s;
     used_prompts := {[i]} ∪ used_prompts s; maximum_depth := maximum_depth s |}.
Definition reach_depth (d : nat) (s : vstate) : vstate :=
  {| errors := errors s; seen_blocks := seen_blocks s; seen_branches := seen_branches s;
     used_prompts := used_prompts s; maximum_depth := maximum_depth s `max` d |}.

(** ** The notice flag: [parent_is_prompt] in V3, [prompt_available] in V4 *)

Definition notice_after_play (ver : version) (notice : bool) (prompt_id : option string) : bool :=
  match ver with V2 => false | V3 => true | V4 => notice || truthy prompt_id end.
Definition notice_after_menu (ver : version) (notice : bool) (prompt_id : option string) : bool :=
  match ver with V2 | V3 => false | V4 => notice || truthy prompt_id end.
Definition notice_after_other (ver : version) (notice : bool) : bool :=
  match ver with V2 | V3 => false | V4 => notice end.

Definition record_notice_error (ver : version) : string :=
  match ver with
  | V4 => "Record message requires an earlier Play prompt or menu prompt notice on this path."
  | _ => "Record message must immediately follow a Play prompt greeting."
  end.
Definition unsupported_error : string := "The flow contains an unsupported block type.".

Definition supports_record (ver : version) : bool := match ver with V2 => false | _ => true end.
Definition supports_external (ver : version) : bool := match ver with V4 => true | _ => false end.

Section Visit.
Context (ver : version) (known_prompts schedule_ids : gset string).

(** [if block.prompt_id: used_prompts.add(...); if block.prompt_id not in prompt_ids: ...] *)
Definition check_prompt (missing : string) (p : option string) (s : vstate) : vstate :=
  match p with
  | Some i =>
    if truthy p then error_if (bool_decide (i ∉ known_prompts)) missing (use_prompt i s) else s
  | None => s
  end.

(** The inner function [visit]. *)
Fixpoint visit (b : block) (depth : nat) (owner forbidden : option string) (notice : bool)
  (s : vstate) {struct b} : vstate :=
  let child (missing : string) (o : option block) (owner forbidden : option string)
    (notice : bool) (s : vstate) : vstate :=
  match o with
  | Some c => visit c (S depth) owner forbidden notice s
  | None => add_error missing s
  end in
  let s := reach_depth depth s in
  if bool_decide (block_id b ∈ seen_blocks s)
  then add_error "A flow block is duplicated or shared between branches." s
  else
  let s := see_block (block_id b) s in
  match b with
  | PlayPrompt _ p nxt =>
    let s :=
      if truthy p
      then check_prompt "A Play prompt step references a missing prompt." p s
      else add_error "A Play prompt step has no prompt selected." s in
    child "A Play prompt step has no next step." nxt owner forbidden
      (notice_after_play ver notice p) s
  | RecordMessage _ nxt u =>
    if supports_record ver then
      let n := notice_after_other ver notice in
      let s := error_if (negb notice) (record_notice_error ver) s in
      let s := child "Record message recorded path has no first step." nxt owner forbidden n s in
      child "Record message unavailable path has no first step." u owner forbidden n s
    else add_error unsupported_error s
  | ExternalCall _ _ _ nxt nc sf =>
    if supports_external ver then
      let n := notice_after_other ver notice in
      let s := error_if (negb notice)
        "External call requires an earlier Play prompt or menu prompt notice on this path." s in
      let s := child "External call completed path has no first step." nxt owner forbidden n s in
      let s := child "External call not connected path has no first step." nc owner forbidden n s in
      child "External call system failure path has no first step." sf owner forbidden n s
    else add_error unsupported_error s
  | CollectDigit i p barge _ _ _ brs t v l =>
    let n := notice_after_menu ver notice p in
    let s := error_if (barge && negb (truthy p)) "Prompt interruption requires a menu prompt." s in
    let s := check_prompt "A Collect digit step references a missing menu prompt." p s in
    let digits := branch_digit <$> brs in
    let s := error_if (bool_decide (digits = [])) "A Collect digit step requires at least one digit branch." s in
    let s := error_if (negb (bool_decide (NoDup digits))) "Digit branches must use unique keys." s in
    let s := foldl (λ s br,
      match br with
      | DigitBranch bi d r =>
          let s := error_if (bool_decide (bi ∈ seen_branches s))
            "A digit branch identifier is duplicated." s in
          let s := see_branch bi s in
          child ("Digit " +:+ dtmf_str d +:+ " has no first step.") r (Some i) None n s
      end) s brs in
    let s := child "No input has no first step." t (Some i) None n s in
    let s := child "Invalid input has no first step." v (Some i) None n s in
    child "Menu return limit has no first step." l (Some i) (Some i) n s
  | ScheduleBranch _ sc o c h =>
    let n := notice_after_other ver notice in
    let s := error_if
      (negb (truthy sc) || negb (bool_decide (default "" sc ∈ schedule_ids)))
      "A Check schedule step references a missing schedule." s in
    let s := child "Schedule path Open has no first step." o owner forbidden n s in
    let s := child "Schedule path Closed has no first step." c owner forbidden n s in
    child "Schedule path Holiday has no first step." h owner forbidden n s
  | ReturnToMenu _ =>
    match owner with
    | None => add_error "Return to menu can only be used inside a digit branch." s
    | Some _ =>
        error_if (bool_decide (owner = forbidden))
          "The menu return-limit path cannot return to the same menu." s
    end
  | EndCall _ => s
  end.
End Visit.

(** ** The validators *)

(** What [ZoneInfo(name)] does: a zone, [ZoneInfoNotFoundError], or another
    exception for a malformed key. *)
Inductive zone_lookup : Type := zone_found | zone_not_found | zone_raises (e : exn).

Fixpoint check_timezones (zoneinfo : string → zone_lookup) (scheds : list Schedule)
    (errs : list string) : result (list string) :=
  match scheds with
  | [] => Ok errs
  | s :: scheds =>
      match zoneinfo (timezone s) with
      | zone_found => check_timezones zoneinfo scheds errs
      | zone_not_found =>
          check_timezones zoneinfo scheds
            (errs ++ ["Schedule " +:+ sname s +:+ " has an unknown timezone."])
      | zone_raises e => Raise e
      end
  end.

Definition initial_vstate (errs : list string) : vstate :=
  {| errors := errs; seen_blocks := ∅; seen_branches := ∅; used_prompts := ∅; maximum_depth := 0 |}.

Definition asset_bytes (prompt_sizes : gmap string Z) (used : gset string) : Z :=
  set_sum (λ p, default 0%Z (prompt_sizes !! p)) used.

(** The limits checked after the walk. *)
Definition check_limits (prompt_sizes : gmap string Z) (limit : Z) (s : vstate) : list string :=
  errors s
  ++ (if 64 <? size (seen_blocks s)
      then ["Flow has " +:+ pretty (size (seen_blocks s)) +:+ " steps; the limit is 64."] else [])
  ++ (if 8 <? maximum_depth s
      then ["Flow depth " +:+ pretty (maximum_depth s) +:+ " exceeds the limit of 8."] else [])
  ++ (if bool_decide (limit < asset_bytes prompt_sizes (used_prompts s))%Z
      then ["Revision prompt assets exceed the 128 MiB limit."] else []).

Definition validate_document (ver : version) (zoneinfo : string → zone_lookup)
    (configuration : FlowDocument) (known_prompts : gset string)
    (prompt_sizes : gmap string Z) (limit : Z) : result (list string) :=
  let ids := sid <$> schedules configuration in
  let errs := if has_duplicates ids then ["Schedule IDs must be unique."] else [] in
  errs ← check_timezones zoneinfo (schedules configuration) errs;
  match flow configuration with
  | None => Ok (errs ++ ["Add a first step before publishing."])
  | Some root =>
      let s := visit ver known_prompts (list_to_set ids) root 1 None None false (initial_vstate errs) in
      Ok (dict_fromkeys (check_limits prompt_sizes limit s))
  end.

Definition validate_configuration_v2 := validate_document V2.
Definition validate_configuration_v3 := validate_document V3.
Definition validate_configuration_v4 := validate_document V4.

(** ** The declarative notion of a publishable tree

    A block is looked at in a context: the menu that owns it, the menu it must
    not return to, and whether a notice has been played. *)

Record ctx := Ctx { c_owner : option string; c_forbidden : option string; c_notice : bool }.

Definition root_ctx : ctx := Ctx None None false.

(** The children of a supported block, each with its context. *)
Definition child_ctx (ver : version) (x : ctx) (b : block) : list (option block * ctx) :=
  let here n o := (o, Ctx (c_owner x) (c_forbidden x) n) in
  let other := here (notice_after_other ver (c_notice x)) in
  match b with
  | PlayPrompt _ p nxt => [here (notice_after_play ver (c_notice x) p) nxt]
  | RecordMessage _ nxt u => other <$> [nxt; u]
  | ExternalCall _ _ _ nxt nc sf => other <$> [nxt; nc; sf]
  | CollectDigit i p _ _ _ _ brs t v l =>
      let n := notice_after_menu ver (c_notice x) p in
      ((λ br, (branch_root br, Ctx (Some i) None n)) <$> brs)
        ++ [(t, Ctx (Some i) None n); (v, Ctx (Some i) None n); (l, Ctx (Some i) (Some i) n)]
  | ScheduleBranch _ _ o c h => other <$> [o; c; h]
  | ReturnToMenu _ | EndCall _ => []
  end.

Section Valid.
Context (ver : version) (known_prompts schedule_ids : gset string).

Definition prompt_known (p : option string) : bool :=
  negb (truthy p) || bool_decide (default "" p ∈ known_prompts).

(** The conditions on a block alone. *)
Definition local_ok (x : ctx) (b : block) : bool :=
  match b with
  | PlayPrompt _ p _ => truthy p && prompt_known p
  | RecordMessage _ _ _ => supports_record ver && c_notice x
  | ExternalCall _ _ _ _ _ _ => supports_external ver && c_notice x
  | CollectDigit _ p barge _ _ _ brs _ _ _ =>
    negb (barge && negb (truthy p)) && prompt_known p
    && negb (bool_decide (branch_digit <$> brs = []))
    && bool_decide (NoDup (branch_digit <$> brs))
  | ScheduleBranch _ sc _ _ _ => truthy sc && bool_decide (default "" sc ∈ schedule_ids)
  | ReturnToMenu _ =>
    match c_owner x with
    | None => false
    | Some _ => negb (bool_decide (c_owner x = c_forbidden x))
    end
  | EndCall _ => true
  end.

Inductive valid_at (x : ctx) (b : block) : Prop :=
  | valid_at_intro :
  local_ok x b = true →
  (∀ o y, (o, y) ∈ child_ctx ver x b → ∃ c, o = Some c ∧ valid_at y c) →
  valid_at x b.
End Valid.

(** ** The walk as a list of jobs *)

(** A child visited by [visit]: the digit-branch identifier checked first, the
    message for a missing child, the child and its context. *)
Definition job : Type := option string * string * (option block * ctx).

Definition jobs (ver : version) (x : ctx) (b : block) : list job :=
  let label (ms : list string) l := zip_with (λ m oc, (None, m, oc)) ms l in
  match b with
  | PlayPrompt _ _ _ => label ["A Play prompt step has no next step."] (child_ctx ver x b)
  | RecordMessage _ _ _ =>
      if supports_record ver then
        label ["Record message recorded path has no first step.";
               "Record message unavailable path has no first step."] (child_ctx ver x b)
      else []
  | ExternalCall _ _ _ _ _ _ =>
      if supports_external ver then
        label ["External call completed path has no first step.";
               "External call not connected path has no first step.";
               "External call system failure path has no first step."] (child_ctx ver x b)
      else []
  | CollectDigit i p _ _ _ _ brs t v l =>
      let n := notice_after_menu ver (c_notice x) p in
      ((λ br, (Some (branch_id br),
         "Digit " +:+ dtmf_str (branch_digit br) +:+ " has no first step.",
         (branch_root br, Ctx (Some i) None n))) <$> brs)
      ++ [(None, "No input has no first step.", (t, Ctx (Some i) None n));
          (None, "Invalid input has no first step.", (v, Ctx (Some i) None n));
          (None, "Menu return limit has no first step.", (l, Ctx (Some i) (Some i) n))]
  | ScheduleBranch _ _ _ _ _ =>
      label ["Schedule path Open has no first step."; "Schedule path Closed has no first step.";
             "Schedule path Holiday has no first step."] (child_ctx ver x b)
  | ReturnToMenu _ | EndCall _ => []
  end.

Section Jobs.
Context (ver : version) (known_prompts schedule_ids : gset string).

Definition visit_ctx (b : block) (depth : nat) (x : ctx) (s : vstate) : vstate :=
  visit ver known_prompts schedule_ids b depth (c_owner x) (c_forbidden x) (c_notice x) s.

Definition run_job (depth : nat) (s : vstate) (j : job) : vstate :=
  let '(bi, missing, (o, x)) := j in
  let s := match bi with
         | Some i => see_branch i
             (error_if (bool_decide (i ∈ seen_branches s)) "A digit branch identifier is duplicated." s)
         | None => s
         end in
  match o with Some c => visit_ctx c (S depth) x s | None => add_error missing s end.

(** The errors [visit] reports for the block itself. *)
Definition local_checks (x : ctx) (b : block) (s : vstate) : vstate :=
  match b with
  | PlayPrompt _ p _ =>
    if truthy p
    then check_prompt known_prompts "A Play prompt step references a missing prompt." p s
    else add_error "A Play prompt step has no prompt selected." s
  | RecordMessage _ _ _ =>
    if supports_record ver then error_if (negb (c_notice x)) (record_notice_error ver) s
    else add_error unsupported_error s
  | ExternalCall _ _ _ _ _ _ =>
    if supports_external ver then error_if (negb (c_notice x))
      "External call requires an earlier Play prompt or menu prompt notice on this path." s
    else add_error unsupported_error s
  | CollectDigit _ p barge _ _ _ brs _ _ _ =>
    error_if (negb (bool_decide (NoDup (branch_digit <$> brs)))) "Digit branches must use unique keys."
      (error_if (bool_decide (branch_digit <$> brs = [])) "A Collect digit step requires at least one digit branch."
         (check_prompt known_prompts "A Collect digit step references a missing menu prompt." p
            (error_if (barge && negb (truthy p)) "Prompt interruption requires a menu prompt." s)))
  | ScheduleBranch _ sc _ _ _ =>
    error_if (negb (truthy sc) || negb (bool_decide (default "" sc ∈ schedule_ids)))
      "A Check schedule step references a missing schedule." s
  | ReturnToMenu _ =>
    match c_owner x with
    | None => add_error "Return to menu can only be used inside a digit branch." s
    | Some _ => error_if (bool_decide (c_owner x = c_forbidden x))
        "The menu return-limit path cannot return to the same menu." s
    end
  | EndCall _ => s
  end.

Lemma visit_unfold b depth x s :
  visit_ctx b depth x s =
  let s := reach_depth depth s in
  if bool_decide (block_id b ∈ seen_blocks s)
  then add_error "A flow block is duplicated or shared between branches." s
  else foldl (run_job depth) (local_checks x b (see_block (block_id b) s)) (jobs ver x b).
Proof.
  destruct x as [o f n].
  destruct b as [i p nxt|i p a tm ma mr brs t v l|i sc op c h|i|i|i nxt u|i ph tm nxt nc sf];
  unfold visit_ctx; cbn [visit c_owner c_forbidden c_notice block_id]; cbv zeta;
  case_bool_decide; try done.
  - cbn [jobs local_checks]. rewrite foldl_app, foldl_fmap.
  match goal with |- _ = foldl _ (foldl ?f ?s0 brs) _ =>
    erewrite (foldl_ext_eq _ f s0 brs); [reflexivity|by intros ? [???]] end.
  - cbn [jobs local_checks]. by destruct (supports_record ver).
  - cbn [jobs local_checks]. by destruct (supports_external ver).
Qed.
End Jobs.

(** ** What a silent walk means

    [visit] reports nothing exactly on valid trees with fresh, distinct
    identifiers, and it then records exactly the contents of the tree. *)

Definition own_prompts (b : block) : gset string :=
  if truthy (block_prompt_id b) then {[default "" (block_prompt_id b)]} else ∅.

(** The state after a silent walk over a forest with the given contents. *)
Definition absorb (ids brs : list string) (ps : gset string) (d : nat) (s : vstate) : vstate :=
  {| errors := errors s; seen_blocks := list_to_set ids ∪ seen_blocks s;
     seen_branches := list_to_set brs ∪ seen_branches s;
     used_prompts := ps ∪ used_prompts s; maximum_depth := maximum_depth s `max` d |}.

(** [l] holds distinct identifiers that are not in [seen]. *)
Definition fresh_for (l : list string) (seen : gset string) : Prop :=
  NoDup l ∧ ∀ i, i ∈ l → i ∉ seen.

Lemma fresh_for_perm l k seen : l ≡ₚ k → fresh_for l seen ↔ fresh_for k seen.
Proof. unfold fresh_for. intros Hp. setoid_rewrite Hp. done. Qed.

Lemma fresh_for_nil seen : fresh_for [] seen.
Proof. split; [constructor|set_solver]. Qed.

Lemma fresh_for_app l k seen :
  fresh_for (l ++ k) seen ↔ fresh_for l seen ∧ fresh_for k (list_to_set l ∪ seen).
Proof.
  unfold fresh_for. rewrite NoDup_app. setoid_rewrite elem_of_app.
  setoid_rewrite not_elem_of_union. setoid_rewrite elem_of_list_to_set. naive_solver.
Qed.

Lemma fresh_for_cons i l seen :
  fresh_for (i :: l) seen ↔ (i ∉ seen) ∧ fresh_for l ({[i]} ∪ seen).
Proof.
  unfold fresh_for. rewrite NoDup_cons. setoid_rewrite elem_of_cons.
  setoid_rewrite not_elem_of_union. setoid_rewrite not_elem_of_singleton. naive_solver.
Qed.

Lemma absorb_nil s : absorb [] [] ∅ 0 s = s.
Proof. destruct s. unfold absorb. simpl. f_equal; [set_solver..|lia]. Qed.

Lemma absorb_absorb ids1 brs1 ps1 d1 ids2 brs2 ps2 d2 s :
  absorb ids2 brs2 ps2 d2 (absorb ids1 brs1 ps1 d1 s)
  = absorb (ids1 ++ ids2) (brs1 ++ brs2) (ps1 ∪ ps2) (d1 `max` d2) s.
Proof.
  unfold absorb. simpl. rewrite !list_to_set_app_L. f_equal; [set_solver..|lia].
Qed.

Lemma absorb_perm ids brs ids' brs' ps d s :
  ids ≡ₚ ids' → brs ≡ₚ brs' → absorb ids brs ps d s = absorb ids' brs' ps d s.
Proof.
  intros Hi Hb. unfold absorb. by rewrite (list_to_set_perm_L _ _ Hi), (list_to_set_perm_L _ _ Hb).
Qed.

Lemma error_if_nil b e s : errors (error_if b e s) = [] ↔ errors s = [] ∧ b = false.
Proof.
  destruct b; simpl; [|naive_solver]. split; [|naive_solver].
  intros H. by apply app_nil in H as [].
Qed.
Lemma error_if_seen_blocks b e s : seen_blocks (error_if b e s) = seen_blocks s.
Proof. by destruct b. Qed.
Lemma error_if_seen_branches b e s : seen_branches (error_if b e s) = seen_branches s.
Proof. by destruct b. Qed.
Lemma add_error_nil e s : errors (add_error e s) ≠ [].
Proof. simpl. intros H. by apply app_nil in H as []. Qed.
Lemma error_if_clean b e s : errors (error_if b e s) = [] → error_if b e s = s.
Proof. by intros [_ ->]%error_if_nil. Qed.

(** The contents contributed by one job and by a list of jobs. *)
Definition job_ids (j : job) : list string :=
  match j.2.1 with Some c => block_ids c | None => [] end.
Definition job_branch_ids (j : job) : list string :=
  option_list j.1.1 ++ match j.2.1 with Some c => tree_branch_ids c | None => [] end.
Definition job_prompts (j : job) : gset string := prompt_ids j.2.1.
Definition job_depth (depth : nat) (j : job) : nat :=
  match j.2.1 with Some c => depth + height c | None => 0 end.

Section Clean.
Context (ver : version) (known_prompts schedule_ids : gset string).
Abbreviation valid_at := (valid_at ver known_prompts schedule_ids).
Abbreviation visit_ctx := (visit_ctx ver known_prompts schedule_ids).
Abbreviation run_job := (run_job ver known_prompts schedule_ids).
Abbreviation local_checks := (local_checks ver known_prompts schedule_ids).
Abbreviation local_ok := (local_ok ver known_prompts schedule_ids).

(** The statement proved by induction on the tree. *)
Definition visit_clean_spec (b : block) : Prop := ∀ depth x s,
  (errors (visit_ctx b depth x s) = [] ↔
  errors s = [] ∧ valid_at x b ∧ fresh_for (block_ids b) (seen_blocks s)
  ∧ fresh_for (tree_branch_ids b) (seen_branches s)) ∧
  (errors (visit_ctx b depth x s) = [] →
  visit_ctx b depth x s =
    absorb (block_ids b) (tree_branch_ids b) (prompt_ids (Some b)) (depth + height b - 1) s).

Definition job_valid (j : job) : Prop := ∃ c, j.2.1 = Some c ∧ valid_at j.2.2 c.

Lemma run_job_clean depth s j :
  (∀ c, j.2.1 = Some c → visit_clean_spec c) →
  (errors (run_job depth s j) = [] ↔
  errors s = [] ∧ job_valid j ∧ fresh_for (job_ids j) (seen_blocks s)
  ∧ fresh_for (job_branch_ids j) (seen_branches s)) ∧
  (errors (run_job depth s j) = [] →
  run_job depth s j = absorb (job_ids j) (job_branch_ids j) (job_prompts j) (job_depth depth j) s).
Proof.
  destruct j as [[bi m] [[c|] x]]; intros IH; unfold job_valid, job_ids, job_branch_ids,
  job_prompts, job_depth; cbn -[visit_ctx see_branch error_if absorb prompt_ids].
  2: { split; [|by intros ?%add_error_nil]. split; [by intros ?%add_error_nil|naive_solver]. }
  specialize (IH c eq_refl). destruct bi as [i|]; cbn -[visit_ctx see_branch error_if absorb prompt_ids].
  - destruct (IH (S depth) x (see_branch i (error_if (bool_decide (i ∈ seen_branches s))
    "A digit branch identifier is duplicated." s))) as [Hiff Heq].
  cbn [see_branch errors seen_blocks seen_branches] in Hiff.
  rewrite error_if_nil, bool_decide_eq_false, error_if_seen_blocks,
    error_if_seen_branches in Hiff.
  split; [rewrite Hiff, fresh_for_cons; naive_solver|].
  intros H. rewrite (Heq H). apply Hiff in H as ((_ & Hi) & _).
  unfold error_if. rewrite bool_decide_eq_false_2 by done.
  unfold absorb, see_branch. simpl. f_equal; [set_solver|]. f_equal. lia.
  - destruct (IH (S depth) x s) as [Hiff Heq]. split; [rewrite Hiff; naive_solver|].
  intros H. rewrite (Heq H). f_equal. lia.
Qed.

Definition jobs_depth (depth : nat) (js : list job) : nat := max_list (job_depth depth <$> js).

Lemma run_jobs_clean depth js : ∀ s,
  (∀ j c, j ∈ js → j.2.1 = Some c → visit_clean_spec c) →
  (errors (foldl (run_job depth) s js) = [] ↔
  errors s = [] ∧ Forall job_valid js ∧ fresh_for (concat (job_ids <$> js)) (seen_blocks s)
  ∧ fresh_for (concat (job_branch_ids <$> js)) (seen_branches s)) ∧
  (errors (foldl (run_job depth) s js) = [] →
  foldl (run_job depth) s js
  = absorb (concat (job_ids <$> js)) (concat (job_branch_ids <$> js))
      (⋃ (job_prompts <$> js)) (jobs_depth depth js) s).
Proof.
  induction js as [|j js IH]; intros s Hspec; csimpl.
  { split; [|intros; symmetry; apply absorb_nil].
  split; [|naive_solver]. intros. repeat split; auto using Forall_nil_2, fresh_for_nil;
    try constructor; set_solver. }
  destruct (run_job_clean depth s j) as [Hj Hje]; [set_solver|].
  destruct (IH (run_job depth s j)) as [Hjs Hjse]; [set_solver|]. clear IH Hspec.
  assert (errors (foldl (run_job depth) (run_job depth s j) js) = [] →
  errors (run_job depth s j) = []) as Hmono by (rewrite Hjs; naive_solver).
  rewrite Forall_cons, !fresh_for_app. split.
  - split.
  + intros H. specialize (Hje (Hmono H)). apply Hjs in H as (H & Hv & Hf & Hb).
    rewrite Hje in Hf, Hb. simpl in Hf, Hb. apply Hj in H. naive_solver.
  + intros (He & (Hv & Hvs) & (Hf & Hfs) & Hb & Hbs). apply Hjs.
    assert (errors (run_job depth s j) = []) as H by (apply Hj; done).
    rewrite (Hje H). simpl. done.
  - intros H. rewrite (Hjse H), (Hje (Hmono H)), absorb_absorb. done.
Qed.

Lemma check_prompt_nil m p s :
  errors (check_prompt known_prompts m p s) = [] ↔ errors s = [] ∧ prompt_known known_prompts p = true.
Proof.
  unfold check_prompt, prompt_known. destruct p as [i|]; simpl; [|naive_solver].
  destruct (truthy (Some i)); simpl; [|naive_solver].
  rewrite error_if_nil, bool_decide_eq_false, bool_decide_eq_true. simpl.
  destruct (decide (i ∈ known_prompts)); naive_solver.
Qed.

Lemma check_prompt_clean m p s : errors (check_prompt known_prompts m p s) = [] →
  check_prompt known_prompts m p s
  = absorb [] [] (if truthy p then {[default "" p]} else ∅) 0 s.
Proof.
  intros H. unfold check_prompt in *. destruct p as [i|]; [|by rewrite absorb_nil].
  destruct (truthy (Some i)); [|by rewrite absorb_nil].
  rewrite error_if_clean by done. unfold absorb, use_prompt. simpl.
  f_equal; [set_solver..|lia].
Qed.

Lemma local_checks_clean x b s :
  (errors (local_checks x b s) = [] ↔ errors s = [] ∧ local_ok x b = true) ∧
  (errors (local_checks x b s) = [] → local_checks x b s = absorb [] [] (own_prompts b) 0 s).
Proof.
  destruct b as [i p nxt|i p a tm ma mr brs t v l|i sc op c h|i|i|i nxt u|i ph tm nxt nc sf];
  unfold local_checks, local_ok, own_prompts; cbn [block_prompt_id].
  - destruct (truthy p) eqn:Et; simpl andb.
  + rewrite check_prompt_nil. split; [done|]. intros H. apply check_prompt_nil with (m := "A Play prompt step references a missing prompt.") in H.
    rewrite check_prompt_clean by done. by rewrite Et.
  + split; [|by intros ?%add_error_nil]. split; [by intros ?%add_error_nil|naive_solver].
  - split.
  + rewrite !error_if_nil, check_prompt_nil, error_if_nil.
    rewrite !andb_true_iff, !negb_true_iff, negb_false_iff. naive_solver.
  + intros H. rewrite !error_if_nil in H. destruct H as [[H H1] H2].
    unfold error_if at 1 2. rewrite H1, H2, check_prompt_clean by done.
    apply check_prompt_nil in H as [H _]. by rewrite error_if_clean.
  - rewrite error_if_nil, orb_false_iff, !negb_false_iff, andb_true_iff, absorb_nil.
  split; [done|]. intros [_ [H1 H2]]. unfold error_if. by rewrite H1, H2.
  - rewrite absorb_nil. destruct (c_owner x) as [o|].
  + rewrite error_if_nil, negb_true_iff. split; [done|]. intros [_ H]. unfold error_if.
    by rewrite H.
  + split; [|by intros ?%add_error_nil]. split; [by intros ?%add_error_nil|naive_solver].
  - rewrite absorb_nil. naive_solver.
  - rewrite absorb_nil. destruct (supports_record ver); simpl andb.
  + rewrite error_if_nil, negb_false_iff. split; [done|]. intros [_ H]. unfold error_if.
    by rewrite H.
  + split; [|by intros ?%add_error_nil]. split; [by intros ?%add_error_nil|naive_solver].
  - rewrite absorb_nil. destruct (supports_external ver); simpl andb.
  + rewrite error_if_nil, negb_false_iff. split; [done|]. intros [_ H]. unfold error_if.
    by rewrite H.
  + split; [|by intros ?%add_error_nil]. split; [by intros ?%add_error_nil|naive_solver].
Qed.
End Clean.

(** ** Jobs and the owned tree *)

Section JobTree.
Context (ver : version) (known_prompts schedule_ids : gset string).

Lemma jobs_child_ctx x b :
  local_ok ver known_prompts schedule_ids x b = true → snd <$> jobs ver x b = child_ctx ver x b.
Proof.
  destruct b; cbn [local_ok jobs child_ctx]; intros H; try done.
  - rewrite fmap_app, <- list_fmap_compose. done.
  - by destruct (supports_record ver).
  - by destruct (supports_external ver).
Qed.

Lemma child_ctx_children x b : omap fst (child_ctx ver x b) = pushed_children b.
Proof.
  destruct b as [i p nxt|i p a tm ma mr brs t v l|i sc o c h|i|i|i nxt u|i ph tm nxt nc sf];
  cbn [child_ctx pushed_children]; try reflexivity.
  rewrite omap_app. f_equal. induction brs as [|[? ? [?|]] brs IH]; csimpl; [done|by f_equal|done].
Qed.

Lemma job_children x b :
  local_ok ver known_prompts schedule_ids x b = true →
  omap (λ j : job, j.2.1) (jobs ver x b) = pushed_children b.
Proof.
  intros H. rewrite <- (child_ctx_children x), <- jobs_child_ctx by done.
  generalize (jobs ver x b) as l. intros l.
  induction l as [|[? [[?|] ?]] l IH]; csimpl; [done|by f_equal|done].
Qed.

Lemma jobs_or_none x b : snd <$> jobs ver x b = child_ctx ver x b ∨ jobs ver x b = [].
Proof using Type.
  destruct b; cbn [jobs child_ctx]; auto.
  - left. by rewrite fmap_app, <- list_fmap_compose.
  - destruct (supports_record ver); auto.
  - destruct (supports_external ver); auto.
Qed.

Lemma job_child_elem x b j c : j ∈ jobs ver x b → j.2.1 = Some c → c ∈ children b.
Proof using Type.
  intros Hj Hc. destruct (jobs_or_none x b) as [H|H]; [|rewrite H in Hj; set_solver].
  rewrite children_perm, <- (child_ctx_children x), <- H.
  apply list_elem_of_omap. exists j.2. split; [|done]. by apply list_elem_of_fmap_2.
Qed.

Lemma valid_at_jobs x b :
  valid_at ver known_prompts schedule_ids x b ↔
  local_ok ver known_prompts schedule_ids x b = true
  ∧ Forall (job_valid ver known_prompts schedule_ids) (jobs ver x b).
Proof.
  split.
  - intros [Hl Hc]. split; [done|]. apply Forall_forall. intros [[bi m] [o y]] Hj.
  apply (Hc o y). rewrite <- jobs_child_ctx by done.
  apply list_elem_of_fmap. by exists (bi, m, (o, y)).
  - intros [Hl Hj]. constructor; [done|]. intros o y Hc.
  rewrite <- jobs_child_ctx in Hc by done. apply list_elem_of_fmap in Hc as (j & Hjy & Hc).
  rewrite Forall_forall in Hj. specialize (Hj j Hc). unfold job_valid in Hj.
  by rewrite <- Hjy in Hj.
Qed.

Section Contents.
Context (x : ctx) (b : block).
Hypothesis Hlocal : local_ok ver known_prompts schedule_ids x b = true.

Lemma jobs_ids : concat (job_ids <$> jobs ver x b) ≡ₚ concat (block_ids <$> children b).
Proof using Hlocal known_prompts schedule_ids.
  unfold job_ids. rewrite (concat_fmap_omap (λ j : job, j.2.1)), job_children by done.
  apply concat_perm. by rewrite children_perm.
Qed.

Lemma jobs_own_branch_ids :
  concat ((λ j : job, option_list j.1.1) <$> jobs ver x b) = own_branch_ids b.
Proof using Hlocal known_prompts schedule_ids.
  destruct b; cbn [local_ok jobs own_branch_ids] in *; try done.
  - rewrite fmap_app, concat_app. simpl. rewrite app_nil_r, <- list_fmap_compose.
  clear. induction branches as [|br brs IH]; csimpl; [done|]. by f_equal.
  - by destruct (supports_record ver).
  - by destruct (supports_external ver).
Qed.

Lemma jobs_branch_ids : concat (job_branch_ids <$> jobs ver x b) ≡ₚ tree_branch_ids b.
Proof using Hlocal known_prompts schedule_ids.
  unfold job_branch_ids. rewrite concat_fmap_app, jobs_own_branch_ids, tree_branch_ids_unfold.
  f_equiv. rewrite (concat_fmap_omap (λ j : job, j.2.1)), job_children by done.
  apply concat_perm. by rewrite children_perm.
Qed.

Lemma jobs_prompts : own_prompts b ∪ ⋃ (job_prompts <$> jobs ver x b) = prompt_ids (Some b).
Proof using Hlocal known_prompts schedule_ids.
  rewrite prompt_ids_unfold. f_equal. apply set_eq. intros p.
  rewrite !elem_of_union_list. split.
  - intros (X & HX & Hp). apply list_elem_of_fmap in HX as (j & -> & Hj).
  unfold job_prompts in Hp. destruct (j.2.1) as [c|] eqn:E; [|set_solver].
  exists (prompt_ids (Some c)). split; [|done]. apply list_elem_of_fmap. exists c.
  split; [done|]. rewrite children_perm, <- (job_children x) by done.
  apply list_elem_of_omap. eauto.
  - intros (X & HX & Hp). apply list_elem_of_fmap in HX as (c & -> & Hc).
  rewrite children_perm, <- (job_children x) in Hc by done.
  apply list_elem_of_omap in Hc as (j & Hj & E). exists (job_prompts j).
  split; [by apply list_elem_of_fmap_2|]. unfold job_prompts. by rewrite E.
Qed.

Lemma jobs_depth_height depth :
  depth `max` jobs_depth depth (jobs ver x b) = depth + height b - 1.
Proof using Hlocal known_prompts schedule_ids.
  rewrite height_unfold, children_perm, <- (job_children x) by done.
  unfold jobs_depth. generalize (jobs ver x b) as js. intros js. clear.
  induction js as [|j js IH]; csimpl; [simpl; lia|]. unfold job_depth at 1.
  destruct (j.2.1) as [c|]; csimpl; lia.
Qed.
End Contents.
End JobTree.

Section CleanTree.
Context (ver : version) (known_prompts schedule_ids : gset string).

Lemma visit_clean b : visit_clean_spec ver known_prompts schedule_ids b.
Proof.
  induction b as [b IH] using block_ind_children. intros depth x s.
  rewrite visit_unfold. cbv zeta. set (s0 := reach_depth depth s).
  case_bool_decide as Hseen.
  { split; [|by intros ?%add_error_nil]. split; [by intros ?%add_error_nil|].
  intros (_ & _ & [_ Hf] & _). exfalso. apply (Hf (block_id b)); [|done].
  rewrite block_ids_unfold. by left. }
  set (s1 := local_checks ver known_prompts schedule_ids x b (see_block (block_id b) s0)).
  destruct (local_checks_clean ver known_prompts schedule_ids x b (see_block (block_id b) s0))
  as [Hl Hle]. fold s1 in Hl, Hle.
  destruct (run_jobs_clean ver known_prompts schedule_ids depth (jobs ver x b) s1) as [Hj Hje].
  { intros j c Hj Hc. apply IH. by eapply job_child_elem. }
  destruct (local_ok ver known_prompts schedule_ids x b) eqn:Hlocal.
  2: { split; [|naive_solver]. split; [naive_solver|].
  intros (_ & [Hlo _]%valid_at_jobs & _). congruence. }
  rewrite valid_at_jobs, Hlocal, block_ids_unfold, fresh_for_cons.
  rewrite (fresh_for_perm _ _ _ (jobs_ids ver known_prompts schedule_ids x b Hlocal)) in Hj.
  rewrite (fresh_for_perm _ _ _ (jobs_branch_ids ver known_prompts schedule_ids x b Hlocal)) in Hj.
  split.
  - rewrite Hj. split.
  + intros (H & Hv & Hf & Hb). rewrite (Hle H) in Hf, Hb. simpl in Hf, Hb.
    rewrite !union_empty_l_L in Hf, Hb. apply Hl in H as [H _]. naive_solver.
  + intros (H & (_ & Hv) & (_ & Hf) & Hb).
    assert (errors s1 = []) as H1 by (apply Hl; done).
    rewrite (Hle H1). simpl. rewrite !union_empty_l_L. done.
  - intros H. rewrite (Hje H). apply Hj in H as (H & _). rewrite (Hle H), absorb_absorb. simpl.
  rewrite (absorb_perm _ _ _ _ _ _ _ (jobs_ids ver known_prompts schedule_ids x b Hlocal)
    (jobs_branch_ids ver known_prompts schedule_ids x b Hlocal)).
  rewrite (jobs_prompts ver known_prompts schedule_ids x b Hlocal),
    <- (jobs_depth_height ver known_prompts schedule_ids x b Hlocal depth).
  unfold absorb, see_block, s0, reach_depth. simpl. f_equal; [set_solver|lia].
Qed.
End CleanTree.

(** ** What the validators accept *)

Record publishable (ver : version) (zoneinfo : string → zone_lookup) (configuration : FlowDocument)
    (known_prompts : gset string) (prompt_sizes : gmap string Z) (limit : Z) (root : block) : Prop := {
  pub_flow : flow configuration = Some root;
  pub_schedule_ids : NoDup (sid <$> schedules configuration);
  pub_zones : Forall (λ s, zoneinfo (timezone s) = zone_found) (schedules configuration);
  pub_valid : valid_at ver known_prompts (list_to_set (sid <$> schedules configuration)) root_ctx root;
  pub_block_ids : NoDup (block_ids root);
  pub_branch_ids : NoDup (tree_branch_ids root);
  pub_size : bsize root ≤ 64;
  pub_height : height root ≤ 8;
  pub_assets : (asset_bytes prompt_sizes (prompt_ids (Some root)) ≤ limit)%Z;
}.

Lemma check_timezones_nil zi scheds errs :
  check_timezones zi scheds errs = Ok [] ↔
  errs = [] ∧ Forall (λ s, zi (timezone s) = zone_found) scheds.
Proof.
  revert errs. induction scheds as [|s scheds IH]; intros errs; simpl.
  - split; [intros [= ->]; by split|by intros [-> _]].
  - rewrite Forall_cons. destruct (zi (timezone s)); rewrite ?IH; [naive_solver| |naive_solver].
    split; [|naive_solver]. intros [H _]. by apply app_nil in H as [].
Qed.

Lemma check_timezones_monotone zi scheds errs errs' :
  check_timezones zi scheds errs = Ok errs' → errs `prefix_of` errs'.
Proof.
  revert errs. induction scheds as [|s scheds IH]; intros errs; simpl; [by intros [= ->]|].
  destruct (zi (timezone s)); [apply IH| |done]. intros Hc%IH. etrans; [|done]. by eexists.
Qed.

Lemma if_singleton_nil {A} (b : bool) (x : A) : (if b then [x] else []) = [] ↔ b = false.
Proof. by destruct b. Qed.

Lemma check_limits_nil sizes limit s :
  check_limits sizes limit s = [] ↔
  errors s = [] ∧ size (seen_blocks s) ≤ 64 ∧ maximum_depth s ≤ 8
  ∧ (asset_bytes sizes (used_prompts s) ≤ limit)%Z.
Proof.
  unfold check_limits. rewrite !app_nil, !if_singleton_nil, !Nat.ltb_ge, bool_decide_eq_false.
  rewrite Z.nlt_ge. done.
Qed.

Lemma size_block_ids b : NoDup (block_ids b) → size (list_to_set (block_ids b) : gset string) = bsize b.
Proof. intros Hn. rewrite (size_list_to_set _ Hn). unfold block_ids. by rewrite length_fmap. Qed.

(** The validators return no error exactly for publishable configurations. *)
Lemma validate_document_accepts ver zi configuration known sizes limit :
  validate_document ver zi configuration known sizes limit = Ok [] ↔
  ∃ root, publishable ver zi configuration known sizes limit root.
Proof.
  unfold validate_document. rewrite result_bind_ok.
  set (ids := sid <$> schedules configuration). split.
  - intros (errs & Hz & H). destruct (flow configuration) as [root|] eqn:Hroot.
    2: { exfalso. injection H as H. by apply app_nil in H as []. }
    injection H as H. apply dict_fromkeys_nil, check_limits_nil in H as (Herr & Hs & Hd & Ha).
    destruct (visit_clean ver known (list_to_set ids) root 1 root_ctx (initial_vstate errs)) as [Hv Heq].
    change (visit ver known (list_to_set ids) root 1 None None false)
      with (visit_ctx ver known (list_to_set ids) root 1 root_ctx) in *.
    rewrite (Heq Herr) in Hs, Hd, Ha. apply Hv in Herr as (Herr & Hvalid & [Hids _] & [Hbr _]).
    simpl in Herr, Hs, Hd, Ha. subst errs. apply check_timezones_nil in Hz as [Hdup Hz].
    rewrite union_empty_r_L, size_block_ids in Hs by done. rewrite union_empty_r_L in Ha.
    apply if_singleton_nil, has_duplicates_false in Hdup.
    exists root. split; try done. pose proof (height_pos root). lia.
  - intros (root & [Hroot Hdup Hz Hvalid Hids Hbr Hs Hd Ha]). exists [].
    rewrite Hroot. split.
    { apply check_timezones_nil. split; [|done]. by apply if_singleton_nil, has_duplicates_false. }
    f_equal. apply dict_fromkeys_nil, check_limits_nil.
    destruct (visit_clean ver known (list_to_set ids) root 1 root_ctx (initial_vstate [])) as [Hv Heq].
    assert (errors (visit_ctx ver known (list_to_set ids) root 1 root_ctx (initial_vstate [])) = []) as Herr.
    { apply Hv. split; [done|]. split; [done|]. split; (split; [done|]); intros ? _; apply not_elem_of_empty. }
    change (visit ver known (list_to_set ids) root 1 None None false)
      with (visit_ctx ver known (list_to_set ids) root 1 root_ctx).
    split; [done|]. rewrite (Heq Herr). simpl. rewrite !union_empty_r_L, size_block_ids by done.
    repeat split; [done| |done]. lia.
Qed.

(** No reported message is repeated. *)
Lemma validate_document_NoDup ver zi configuration known sizes limit errs :
  flow configuration ≠ None →
  validate_document ver zi configuration known sizes limit = Ok errs → NoDup errs.
Proof.
  intros Hf H. unfold validate_document in H. inv_result.
  destruct (flow configuration); [|done]. inv_result. apply NoDup_dedup_from.
Qed.

Lemma check_timezones_total zi scheds errs :
  (∀ s, s ∈ scheds → ∀ e, zi (timezone s) ≠ zone_raises e) → ∃ errs', check_timezones zi scheds errs = Ok errs'.
Proof.
  revert errs. induction scheds as [|s scheds IH]; intros errs H; simpl; [by eexists|].
  destruct (zi (timezone s)) eqn:E; [apply IH; set_solver..|].
  exfalso. by eapply (H s); [left|].
Qed.

(** The validators raise exactly when looking up a schedule's timezone raises
    something else than [ZoneInfoNotFoundError]. *)
Lemma validate_document_raises ver zi configuration known sizes limit :
  (∃ e, validate_document ver zi configuration known sizes limit = Raise e) ↔
  ∃ s e, s ∈ schedules configuration ∧ zi (timezone s) = zone_raises e.
Proof.
  unfold validate_document.
  generalize (if has_duplicates (sid <$> schedules configuration)
    then ["Schedule IDs must be unique."] else []) as errs. intros errs.
  assert ((∃ e, check_timezones zi (schedules configuration) errs = Raise e) ↔
    ∃ s e, s ∈ schedules configuration ∧ zi (timezone s) = zone_raises e) as Hz.
  { generalize (schedules configuration) as l. intros l. revert errs.
    induction l as [|s l IH]; intros errs; simpl; [set_solver|].
    setoid_rewrite elem_of_cons. destruct (zi (timezone s)) as [| |e] eqn:E.
    3: { split; intros _; [exists s, e; auto|by eexists]. }
    all: rewrite IH; split; [intros (x & e & ? & ?); exists x, e; auto|].
    all: intros (x & e & [->|?] & ?); [congruence|eauto]. }
  rewrite <- Hz. setoid_rewrite result_bind_raise. split.
  - intros (e & [He|(errs' & _ & H)]); [by eexists|]. by destruct (flow configuration).
  - intros (e & He). eauto.
Qed.

(** ** Properties *)

(** C1 The V2, V3 and V4 validators report nothing exactly on publishable
    configurations: every path of the tree is complete and every reference
    resolves in its context, identifiers are unique, and the size, depth and
    asset limits hold. *)
Theorem validators_accept_publishable ver zi configuration known sizes limit :
  validate_document ver zi configuration known sizes limit = Ok [] ↔
  ∃ root, publishable ver zi configuration known sizes limit root.
Proof. apply validate_document_accepts. Qed.

(** The validators fail with an exception, instead of a list of errors, exactly
    when the timezone of a schedule is a key for which the lookup raises another
    error than "not found". *)
Theorem validators_raise_exactly ver zi configuration known sizes limit :
  (∃ e, validate_document ver zi configuration known sizes limit = Raise e) ↔
  ∃ s e, s ∈ schedules configuration ∧ zi (timezone s) = zone_raises e.
Proof. apply validate_document_raises. Qed.
