(* ===== verification/Examples.v ===== *)
(** * Example configurations

    Concrete flows on which the theorems of the library are instantiated: a menu
    with a schedule, a recording and a return to the menu, and an external call. *)
From stdpp Require Import base gmap sets strings numbers pretty list.
From S2P Require Import Prelude FlowTree Schemas Validation.

(** Version 4 identifiers that differ in their first two digits. *)
Definition uuid (i : string) : string := "000000" +:+ i +:+ "-0000-4000-8000-000000000000".

Definition prompt_a : string := uuid "aa".
Definition prompt_b : string := uuid "bb".
Definition end_block (i : string) : option block := Some (EndCall (uuid i)).

(** A menu: digit 1 checks a schedule, digit 2 returns to the menu. *)
Definition example_schedule_branch : block :=
  ScheduleBranch (uuid "02") (Some "office") (end_block "03")
    (Some (PlayPrompt (uuid "04") (Some prompt_b) (end_block "05"))) (end_block "06").
Definition example_menu (barge : bool) : block :=
  CollectDigit (uuid "01") (Some prompt_a) barge 5000 2 2
    [DigitBranch (uuid "12") K2 (Some (ReturnToMenu (uuid "07")));
     DigitBranch (uuid "11") K1 (Some example_schedule_branch)]
    (end_block "08") (end_block "09") (end_block "0a").

(** A greeting before the menu: a V2 flow. *)
Definition example_v2 : block := PlayPrompt (uuid "00") (Some prompt_a) (Some (example_menu false)).

(** A greeting before a recording: a V3 flow. *)
Definition example_v3 : block :=
  PlayPrompt (uuid "00") (Some prompt_a)
    (Some (RecordMessage (uuid "01") (end_block "02")
       (Some (PlayPrompt (uuid "03") (Some prompt_b) (end_block "04"))))).

(** A greeting, a menu that may be interrupted, and an external call: a V4 flow. *)
Definition example_v4 : block :=
  PlayPrompt (uuid "20") (Some prompt_a)
    (Some (ExternalCall (uuid "21") "+98215551234" 30
       (end_block "22") (Some (example_menu true)) (end_block "23"))).

Definition example_schedules : list Schedule :=
  [{| sid := "office"; sname := "Office"; timezone := "Asia/Tehran";
      weekly := [{| weekday := 0; start := "08:00"; wend := "12:30" |};
                 {| weekday := 0; start := "13:30"; wend := "17:00" |}];
      exceptions := [{| edate := (2025, 3, 21)%Z; state := state_holiday |}] |}].

Definition example_document (root : block) : FlowDocument :=
  {| edit_version := 3; caller_policy := default_caller_policy; schedules := example_schedules;
     recording_behavior := default_recording_behavior; flow := Some root |}.

Definition example_prompts : gset string := {[prompt_a; prompt_b]}.
Definition example_sizes : gmap string Z := {[prompt_a := 48044%Z; prompt_b := 96044%Z]}.
Definition example_durations : gmap string Z := {[prompt_a := 3000%Z; prompt_b := 6000%Z]}.

Lemma examples_fields :
  forallb flow_fields [example_v2; example_v3; example_v4] = true.
Proof. vm_compute. reflexivity. Qed.

(** A timezone database with one zone, in which a key with a leading slash is
    malformed. *)
Definition example_zones (name : string) : zone_lookup :=
  if bool_decide (name = "Asia/Tehran") then zone_found
  else if bool_decide (strip_prefix "/" name ≠ None) then zone_raises (ValueError "ZoneInfo keys must be relative paths")
  else zone_not_found.

Definition MIB : Z := 1048576.

Lemma example_publishable ver root :
  validate_document ver example_zones (example_document root) example_prompts example_sizes (128 * MIB) = Ok [] →
  publishable ver example_zones (example_document root) example_prompts example_sizes (128 * MIB) root.
Proof.
  intros (root' & H)%validate_document_accepts. pose proof (pub_flow _ _ _ _ _ _ _ H) as E.
  cbn in E. injection E as <-. done.
Qed.

Lemma example_v2_publishable :
  publishable V2 example_zones (example_document example_v2) example_prompts example_sizes (128 * MIB) example_v2.
Proof. apply example_publishable. vm_compute. reflexivity. Qed.
Lemma example_v3_publishable :
  publishable V3 example_zones (example_document example_v3) example_prompts example_sizes (128 * MIB) example_v3.
Proof. apply example_publishable. vm_compute. reflexivity. Qed.
Lemma example_v4_publishable :
  publishable V4 example_zones (example_document example_v4) example_prompts example_sizes (128 * MIB) example_v4.
Proof. apply example_publishable. vm_compute. reflexivity. Qed.
