(* ===== verification/Compiler.v ===== *)
(** * Compilation of owned flows to the runtime tape

    [compile_flow] of [compiler_v2.py], [compile_flow_v3] of [compiler_v3.py] and
    [compile_flow_v4] of [compiler_v4.py]: the ownership walk [collect], the
    emission of instructions, and the worst-case duration [maximum_cost]. *)
From stdpp Require Import base gmap sets strings numbers pretty list.
From S2P Require Import Prelude FlowTree Schemas Validation.

(** ** The ownership walk *)

Record cstate := { cseen : gset string; entries : list (block * option string) }.

Definition initial_cstate : cstate := {| cseen := ∅; entries := [] |}.

Definition enter (b : block) (owner : option string) (s : cstate) : result cstate :=
  if bool_decide (block_id b ∈ cseen s)
  then Raise (ValueError ("Block " +:+ block_id b +:+ " is reused or duplicated."))
  else Ok {| cseen := {[block_id b]} ∪ cseen s; entries := entries s ++ [(b, owner)] |}.

Definition class_name (b : block) : string :=
  match b with
  | PlayPrompt _ _ _ => "PlayPromptBlockV2"
  | CollectDigit _ _ _ _ _ _ _ _ _ _ => "CollectDigitBlockV2"
  | ScheduleBranch _ _ _ _ _ => "ScheduleBranchBlockV2"
  | ReturnToMenu _ => "ReturnToMenuBlockV2"
  | EndCall _ => "EndCallBlockV2"
  | RecordMessage _ _ _ => "RecordMessageBlockV3"
  | ExternalCall _ _ _ _ _ _ => "ExternalCallBlockV4"
  end.
Definition unsupported_block (b : block) : exn :=
  TypeError ("Unsupported block <class 'app.schemas." +:+ class_name b +:+ "'>").

Definition missing_paths (nxt u : option block) : bool :=
  match nxt, u with Some _, Some _ => false | _, _ => true end.

Fixpoint collect (ver : version) (b : block) (owner : option string) (notice : bool)
    (s : cstate) {struct b} : result cstate :=
  let child (missing : string) (o : option block) (owner : option string) (notice : bool)
      (s : cstate) : result cstate :=
    match o with
    | Some c => collect ver c owner notice s
    | None => Raise (ValueError missing)
    end in
  s ← enter b owner s;
  match b with
  | PlayPrompt _ p nxt =>
      child "Play prompt has no next step." nxt owner (notice_after_play ver notice p) s
  | CollectDigit i p _ _ _ _ brs t v l =>
      let n := notice_after_menu ver notice p in
      s ← foldM (λ s st, st.2 s) s
        (sort_by fst (map (λ br,
          match br with
          | DigitBranch _ d r =>
              (dtmf_index d, child ("Digit " +:+ dtmf_str d +:+ " has no first step.") r (Some i) n)
          end) brs));
      s ← child "No input has no first step." t (Some i) n s;
      s ← child "Invalid has no first step." v (Some i) n s;
      child "Return limit has no first step." l (Some i) n s
  | ScheduleBranch _ _ o c h =>
      let n := notice_after_other ver notice in
      s ← child "Open has no first step." o owner n s;
      s ← child "Closed has no first step." c owner n s;
      child "Holiday has no first step." h owner n s
  | RecordMessage _ nxt u =>
      if supports_record ver then
        let n := notice_after_other ver notice in
        let missing := "Record message requires recorded and unavailable paths." in
        if negb notice then Raise (ValueError (record_notice_error ver))
        else if missing_paths nxt u then Raise (ValueError missing)
        else
          s ← child missing nxt owner n s;
          child missing u owner n s
      else Raise (unsupported_block b)
  | ExternalCall _ _ _ nxt nc sf =>
      if supports_external ver then
        let n := notice_after_other ver notice in
        if negb notice then Raise (ValueError
          "External call requires an earlier Play prompt or menu prompt notice on this path.")
        else
          s ← child "External call completed path has no first step." nxt owner n s;
          s ← child "External call not connected path has no first step." nc owner n s;
          child "External call system failure path has no first step." sf owner n s
      else Raise (unsupported_block b)
  | ReturnToMenu _ =>
      match owner with
      | None => Raise (ValueError "Return to menu is outside a digit menu.")
      | Some _ => Ok s
      end
  | EndCall _ => Ok s
  end.

(** ** Instructions *)

Inductive operation : Type :=
| OpPlay (prompt_id : option string) (next_pc : nat)
| OpCollect (prompt_id : option string) (timeout_ms maximum_attempts maximum_menu_returns : Z)
    (branches : list (dtmf * nat)) (on_timeout_pc on_invalid_pc on_return_limit_pc : nat)
    (allow_prompt_barge_in : option bool)
| OpSchedule (schedule_id : option string) (on_open_pc on_closed_pc on_holiday_pc : nat)
| OpReturn (menu_pc : nat)
| OpEnd
| OpRecord (maximum_duration_ms : Z) (finish_key : option string) (next_pc on_unavailable_pc : nat)
| OpExternal (phone_number : string) (answer_timeout_ms : Z)
    (next_pc on_not_connected_pc on_system_failure_pc : nat).

Record instruction := { ipc : nat; iblock_id : string; iop : operation }.

(** [{block.block_id: index for index, (block, _) in enumerate(entries)}] *)
Definition program_counter (es : list (block * option string)) : gmap string nat :=
  foldl (λ m '(index, e), <[block_id (fst e) := index]> m) ∅ (imap pair es).

Section Emit.
Context (counter : gmap string nat) (recording_behavior : RecordingBehavior)
  (with_barge_in : bool).

(** [pc(block)]; [pc(None)] fails on [None.block_id]. *)
Definition pc_of (o : option block) : result nat :=
  match o with
  | None => Raise (AttributeError "block_id")
  | Some c => of_option (KeyError (block_id c)) (counter !! block_id c)
  end.

Definition emit_operation (b : block) (owner : option string) : result operation :=
  match b with
  | PlayPrompt _ p nxt => n ← pc_of nxt; Ok (OpPlay p n)
  | CollectDigit _ p barge tm ma mr brs t v l =>
    targets ← mapM (λ br, pc ← pc_of (branch_root br); Ok (branch_digit br, pc))
      (sorted_branches brs);
    pt ← pc_of t; pv ← pc_of v; pl ← pc_of l;
    Ok (OpCollect p tm ma mr targets pt pv pl (if with_barge_in then Some barge else None))
  | ScheduleBranch _ sc o c h =>
    po ← pc_of o; p ← pc_of c; ph ← pc_of h; Ok (OpSchedule sc po p ph)
  | ReturnToMenu _ =>
    m ← of_option (KeyError (default "None" owner)) (owner ≫= λ i, counter !! i);
    Ok (OpReturn m)
  | EndCall _ => Ok OpEnd
  | RecordMessage _ nxt u =>
    pn ← pc_of nxt; pu ← pc_of u;
    Ok (OpRecord (maximum_duration_seconds recording_behavior * 1000)
          (finish_key recording_behavior) pn pu)
  | ExternalCall _ phone secs nxt nc sf =>
    pn ← pc_of nxt; pc ← pc_of nc; ps ← pc_of sf;
    Ok (OpExternal phone (secs * 1000) pn pc ps)
  end.

Definition emit (e : nat * (block * option string)) : result instruction :=
  let '(index, (b, owner)) := e in
  op ← emit_operation b owner;
  Ok {| ipc := index; iblock_id := block_id b; iop := op |}.
End Emit.

(** ** The worst-case duration of the tape *)

Definition MAXIMUM_SESSION_MS : Z := 600000.
Definition BEEP_DURATION_MS : Z := 500.
Definition EXTERNAL_CONTROL_WATCHDOGS_MS : Z := 30000.

Definition is_op_collect (op : operation) : bool :=
  match op with OpCollect _ _ _ _ _ _ _ _ _ => true | _ => false end.

(** [[item["pc"] for item in instructions if item["op"] == "collect_digit"]] *)
Definition collect_pcs (instructions : list instruction) : list nat :=
  ipc <$> filter (λ i, is_op_collect (iop i) = true) instructions.

(** [{pc: index for index, pc in enumerate(collect_pcs)}] *)
Definition collect_index (pcs : list nat) : gmap nat nat :=
  foldl (λ m p, <[p.2 := p.1]> m) ∅ (imap pair pcs).

(** A state of the cost search: a program counter and the returns used per menu. *)
Definition tape_state : Type := nat * list Z.

Section Cost.
Context (cycle : exn) (durations : gmap string Z) (instructions : list instruction).

(** [prompt_durations_ms.get(prompt_id, 0)] *)
Definition prompt_duration (p : option string) : Z :=
  default 0%Z (p ≫= λ i, durations !! i).

(** The memoised function [maximum_cost]; [active] holds the states under
  evaluation, and [fuel] bounds the recursion depth. *)
Fixpoint maximum_cost (fuel : nat) (active : list tape_state) (pc : nat) (returns : list Z)
  : result Z :=
  match fuel with
  | 0 => Raise OutOfFuel
  | S fuel =>
    if bool_decide ((pc, returns) ∈ active) then Raise cycle
    else
      let cost := maximum_cost fuel ((pc, returns) :: active) in
      instruction ← of_option IndexError (instructions !! pc);
      match iop instruction with
      | OpEnd => Ok 0%Z
      | OpPlay p next_pc => c ← cost next_pc returns; Ok (prompt_duration p + c)%Z
      | OpCollect p timeout_ms attempts _ branches on_timeout on_invalid _ _ =>
          let wait := (attempts * (prompt_duration p + timeout_ms))%Z in
          let targets := branches.*2 ++ [on_timeout; on_invalid] in
          costs ← mapM (λ t, cost t returns) targets;
          m ← py_max costs; Ok (wait + m)%Z
      | OpSchedule _ o c h =>
          costs ← mapM (λ t, cost t returns) [o; c; h]; py_max costs
      | OpRecord maximum_duration_ms _ next_pc on_unavailable =>
          c ← cost next_pc returns;
          u ← cost on_unavailable returns;
          Ok ((BEEP_DURATION_MS + maximum_duration_ms + c) `max` (BEEP_DURATION_MS + u))%Z
      | OpExternal _ answer_timeout_ms next_pc not_connected system_failure =>
          costs ← mapM (λ t, cost t returns) [next_pc; not_connected; system_failure];
          m ← py_max costs;
          Ok (EXTERNAL_CONTROL_WATCHDOGS_MS + answer_timeout_ms + m)%Z
      | OpReturn menu_pc =>
          index ← of_option (KeyError "menu_pc")
            (collect_index (collect_pcs instructions) !! menu_pc);
          menu ← of_option IndexError (instructions !! menu_pc);
          match iop menu with
          | OpCollect _ _ _ maximum_menu_returns _ _ _ on_return_limit _ =>
              count ← of_option IndexError (returns !! index);
              if bool_decide (count < maximum_menu_returns)%Z
              then cost menu_pc (<[index := (count + 1)%Z]> returns)
              else cost on_return_limit returns
          | _ => Raise (KeyError "maximum_menu_returns")
          end
      end
  end.

Definition menu_returns_bound (i : instruction) : nat :=
  match iop i with OpCollect _ _ _ mr _ _ _ _ _ => Z.to_nat mr | _ => 0 end.

(** A recursion depth that the search cannot exceed. *)
Definition cost_fuel : nat :=
  S (sum_list_with menu_returns_bound instructions) * S (S (length instructions)).
End Cost.

(** ** [compile_flow], [compile_flow_v3] and [compile_flow_v4] *)

Record program := {
  pversion : Z;
  entry_pc : nat;
  session_ms : option Z;
  instructions : list instruction;
}.

Record compiled := { compiler_version : string; compiled_program : program }.

Definition version_number (ver : version) : Z := match ver with V2 => 2 | V3 => 3 | V4 => 4 end.

Definition choose_compiler_version (ver : version) (es : list (block * option string)) : string :=
  match ver with
  | V2 => "2.0.0"
  | V3 => "3.0.0"
  | V4 => if existsb barge_in es.*1 then "4.1.0" else "4.0.0"
  end.

Definition cycle_error (ver : version) : exn :=
  ValueError match ver with
             | V4 => "V4 program has an unbounded runtime cycle."
             | _ => "V3 program has an unbounded runtime cycle."
             end.

(** Collection and emission. *)
Definition emit_program (ver : version) (root : block) (recording_behavior : RecordingBehavior)
    : result (string * list instruction) :=
  s ← collect ver root None false initial_cstate;
  let version := choose_compiler_version ver (entries s) in
  code ← mapM (emit (program_counter (entries s)) recording_behavior
               (bool_decide (version = "4.1.0"))) (imap pair (entries s));
  Ok (version, code).

(** The bounded session length of V3 and V4 programs. *)
Definition session_bound (ver : version) (durations : gmap string Z) (code : list instruction)
    : result (option Z) :=
  match ver with
  | V2 => Ok None
  | _ =>
      m ← maximum_cost (cycle_error ver) durations code (cost_fuel code) [] 0
            (replicate (length (collect_pcs code)) 0%Z);
      if bool_decide (MAXIMUM_SESSION_MS < m)%Z
      then Raise (ValueError "Worst-case flow duration exceeds the ten-minute limit.")
      else Ok (Some m)
  end.

Definition compile_document (ver : version) (root : option block)
    (recording_behavior : RecordingBehavior) (durations : gmap string Z) : result compiled :=
  match root with
  | None => Raise (ValueError "A published flow requires a root block.")
  | Some root =>
      '(version, code) ← emit_program ver root recording_behavior;
      bound ← session_bound ver durations code;
      Ok {| compiler_version := version;
            compiled_program := {| pversion := version_number ver; entry_pc := 0;
                                   session_ms := bound; instructions := code |} |}
  end.

Definition compile_flow (root : option block) : result compiled :=
  compile_document V2 root default_recording_behavior ∅.
Definition compile_flow_v3 := compile_document V3.
Definition compile_flow_v4 := compile_document V4.
