(* ===== verification/CompilerFacts.v ===== *)
(** * What the ownership walk collects

    [collect] succeeds exactly on compilable trees with distinct identifiers, and
    it then lists the owned tree in preorder, every block with the menu that owns
    it. *)
From stdpp Require Import base gmap sets strings numbers pretty list.
From S2P Require Import Prelude FlowTree Schemas Validation Compiler.

(** The owning menu of the children of [b]. *)
Definition down_owner (b : block) (owner : option string) : option string :=
  if is_collect b then Some (block_id b) else owner.

(** The preorder with owning menus. *)
Definition owned_entries : block → option string → list (block * option string) :=
  annot down_owner.

Definition child_notice (ver : version) (b : block) (notice : bool) : bool :=
  match b with
  | PlayPrompt _ p _ => notice_after_play ver notice p
  | CollectDigit _ p _ _ _ _ _ _ _ _ => notice_after_menu ver notice p
  | _ => notice_after_other ver notice
  end.

(** ** The walk as a list of jobs *)

Definition cjobs (b : block) : list (string * option block) :=
  match b with
  | PlayPrompt _ _ nxt => [("Play prompt has no next step.", nxt)]
  | CollectDigit _ _ _ _ _ _ brs t v l =>
      ((λ br, ("Digit " +:+ dtmf_str (branch_digit br) +:+ " has no first step.", branch_root br))
         <$> sorted_branches brs)
      ++ [("No input has no first step.", t); ("Invalid has no first step.", v);
          ("Return limit has no first step.", l)]
  | ScheduleBranch _ _ o c h =>
      [("Open has no first step.", o); ("Closed has no first step.", c); ("Holiday has no first step.", h)]
  | RecordMessage _ nxt u =>
      [("Record message requires recorded and unavailable paths.", nxt);
       ("Record message requires recorded and unavailable paths.", u)]
  | ExternalCall _ _ _ nxt nc sf =>
      [("External call completed path has no first step.", nxt);
       ("External call not connected path has no first step.", nc);
       ("External call system failure path has no first step.", sf)]
  | ReturnToMenu _ | EndCall _ => []
  end.

(** The exception raised by the block itself, before its children. *)
Definition ccheck (ver : version) (b : block) (owner : option string) (notice : bool) : option exn :=
  match b with
  | RecordMessage _ nxt u =>
      if supports_record ver then
        if negb notice then Some (ValueError (record_notice_error ver))
        else if missing_paths nxt u
        then Some (ValueError "Record message requires recorded and unavailable paths.")
        else None
      else Some (unsupported_block b)
  | ExternalCall _ _ _ _ _ _ =>
      if supports_external ver then
        if negb notice then Some (ValueError
          "External call requires an earlier Play prompt or menu prompt notice on this path.")
        else None
      else Some (unsupported_block b)
  | ReturnToMenu _ =>
      match owner with
      | None => Some (ValueError "Return to menu is outside a digit menu.")
      | Some _ => None
      end
  | _ => None
  end.

Definition run_cjob (ver : version) (owner : option string) (notice : bool)
    (s : cstate) (j : string * option block) : result cstate :=
  match j.2 with
  | Some c => collect ver c owner notice s
  | None => Raise (ValueError j.1)
  end.

Lemma collect_unfold ver b owner notice s :
  collect ver b owner notice s =
  s ← enter b owner s;
  match ccheck ver b owner notice with
  | Some e => Raise e
  | None => foldM (run_cjob ver (down_owner b owner) (child_notice ver b notice)) s (cjobs b)
  end.
Proof.
  destruct b as [i p nxt|i p a tm ma mr brs t v l|i sc o c h|i|i|i nxt u|i ph tm nxt nc sf];
    cbn [collect ccheck cjobs]; apply result_bind_ext; intros s1; clear s.
  - cbn [foldM]. by rewrite result_bind_ret.
  - rewrite foldM_app, foldM_fmap.
    rewrite (map_ext _ (λ br, (dtmf_index (branch_digit br), λ s,
      run_cjob ver (Some i) (notice_after_menu ver notice p) s
        ("Digit " +:+ dtmf_str (branch_digit br) +:+ " has no first step.", branch_root br))))
      by (by intros [???]).
    rewrite (sort_by_map (λ br, dtmf_index (branch_digit br))) by done.
    fold (sorted_branches brs). rewrite foldM_fmap. apply result_bind_ext. intros s2.
    cbn [foldM]. repeat (apply result_bind_ext; intros ?). by rewrite result_bind_ret.
  - cbn [foldM]. repeat (apply result_bind_ext; intros ?). by rewrite result_bind_ret.
  - by destruct owner.
  - done.
  - destruct (supports_record ver); [|done]. destruct (negb notice); [done|].
    destruct (missing_paths nxt u); [done|].
    cbn [foldM]. repeat (apply result_bind_ext; intros ?). by rewrite result_bind_ret.
  - destruct (supports_external ver); [|done]. destruct (negb notice); [done|].
    cbn [foldM]. repeat (apply result_bind_ext; intros ?). by rewrite result_bind_ret.
Qed.

Lemma cjobs_children b : omap snd (cjobs b) = children b.
Proof.
  destruct b; unfold children; cbn [cjobs owned_children]; try reflexivity.
  rewrite !omap_app. f_equal. unfold sorted_branches. generalize (sort_by (λ br, dtmf_index (branch_digit br)) branches) as l.
  intros l. rewrite (omap_snd_labelled (λ br, "digit " +:+ dtmf_str (branch_digit br))).
  apply (omap_snd_labelled (λ br, "Digit " +:+ dtmf_str (branch_digit br) +:+ " has no first step.")).
Qed.

(** ** Compilable trees *)

Inductive compilable (ver : version) (owner : option string) (notice : bool) (b : block) : Prop :=
| compilable_intro :
    ccheck ver b owner notice = None →
    (∀ m o, (m, o) ∈ cjobs b → ∃ c, o = Some c ∧
      compilable ver (down_owner b owner) (child_notice ver b notice) c) →
    compilable ver owner notice b.

(** The state after a successful walk over a forest. *)
Definition collected (es : list (block * option string)) (s : cstate) : cstate :=
  {| cseen := list_to_set (block_id <$> es.*1) ∪ cseen s; entries := entries s ++ es |}.

Lemma collected_collected es es' s :
  collected es' (collected es s) = collected (es ++ es') s.
Proof.
  unfold collected. simpl. rewrite !fmap_app, list_to_set_app_L, (assoc_L (++)).
  f_equal. set_solver.
Qed.

Lemma collected_enter b owner es s :
  collected es {| cseen := {[block_id b]} ∪ cseen s; entries := entries s ++ [(b, owner)] |}
  = collected ((b, owner) :: es) s.
Proof.
  unfold collected. simpl. rewrite <- (assoc_L (++)), (assoc_L (∪)).
  f_equal. f_equal. apply (comm_L (∪)).
Qed.

Lemma owned_entries_ids b owner : block_id <$> (owned_entries b owner).*1 = block_ids b.
Proof. unfold owned_entries. by rewrite annot_fst. Qed.

Lemma owned_entries_unfold b owner :
  owned_entries b owner
  = (b, owner) :: concat ((λ c, owned_entries c (down_owner b owner)) <$> children b).
Proof. apply annot_unfold. Qed.

Definition collect_spec (ver : version) (b : block) : Prop := ∀ owner notice s s',
  collect ver b owner notice s = Ok s' ↔
  compilable ver owner notice b ∧ fresh_for (block_ids b) (cseen s)
  ∧ s' = collected (owned_entries b owner) s.

Definition cjob_entries (owner : option string) (j : string * option block) :=
  match j.2 with Some c => owned_entries c owner | None => [] end.

Lemma run_cjobs_ok ver owner notice js : ∀ s s',
  (∀ j c, j ∈ js → j.2 = Some c → collect_spec ver c) →
  foldM (run_cjob ver owner notice) s js = Ok s' ↔
  Forall (λ j, ∃ c, j.2 = Some c ∧ compilable ver owner notice c) js
  ∧ fresh_for (block_id <$> (concat (cjob_entries owner <$> js)).*1) (cseen s)
  ∧ s' = collected (concat (cjob_entries owner <$> js)) s.
Proof.
  induction js as [|[m o] js IH]; intros s s' Hspec; csimpl.
  { split.
    - intros [= <-]. split_and!; [constructor|apply fresh_for_nil|].
      unfold collected. destruct s; simpl. f_equal; [set_solver|by rewrite app_nil_r].
    - intros (_ & _ & ->). f_equal. unfold collected. destruct s; simpl.
      f_equal; [set_solver|by rewrite app_nil_r]. }
  rewrite result_bind_ok, Forall_cons, fmap_app, fmap_app, fresh_for_app. cbn [snd].
  unfold run_cjob at 1. cbn [snd fst]. destruct o as [c|].
  2: { split; [by intros (? & [=] & _)|]. intros (((? & [=] & _) & _) & _). }
  assert (∀ s s', collect ver c owner notice s = Ok s' ↔ _) as Hc
    by (intros; apply (Hspec (m, Some c) c); [by left|done]).
  assert (∀ s s', foldM (run_cjob ver owner notice) s js = Ok s' ↔ _) as Hjs
    by (intros; apply IH; intros; apply (Hspec j); [by right|done]).
  setoid_rewrite Hc. setoid_rewrite Hjs.
  change (cjob_entries owner (m, Some c)) with (owned_entries c owner).
  rewrite owned_entries_ids. clear Hc Hjs IH. split.
  - intros (s1 & (Hc & Hf & ->) & Hjs & Hfs & ->). rewrite collected_collected.
    simpl in Hfs. rewrite owned_entries_ids in Hfs. naive_solver.
  - intros (((c' & [= <-] & Hc) & Hjs) & (Hf & Hfs) & ->).
    exists (collected (owned_entries c owner) s). split; [done|]. rewrite collected_collected.
    simpl. rewrite owned_entries_ids. done.
Qed.

Lemma collect_ok ver b : collect_spec ver b.
Proof.
  induction b as [b IH] using block_ind_children. intros owner notice s s'.
  rewrite collect_unfold, result_bind_ok, block_ids_unfold, fresh_for_cons, owned_entries_unfold.
  assert (∀ o, concat (cjob_entries o <$> cjobs b)
    = concat ((λ c, owned_entries c o) <$> children b)) as Hentries.
  { intros o. rewrite <- cjobs_children. unfold cjob_entries. apply concat_fmap_omap. }
  assert (∀ o, block_id <$> (concat ((λ c, owned_entries c o) <$> children b)).*1
    = concat (block_ids <$> children b)) as Hids.
  { intros o. rewrite (fmap_fst_concat _ preorder) by (intros; apply annot_fst).
    generalize (children b) as l. intros l. induction l as [|c l IHl]; csimpl; [done|].
    by rewrite fmap_app, IHl. }
  assert (∀ s1, foldM (run_cjob ver (down_owner b owner) (child_notice ver b notice)) s1 (cjobs b) = Ok s' ↔ _)
    as Hjobs by (intros s1; apply run_cjobs_ok; intros [m o] c Hj Hc; apply IH;
      rewrite <- cjobs_children; apply list_elem_of_omap; by exists (m, o)).
  setoid_rewrite Hentries in Hjobs. setoid_rewrite Hids in Hjobs.
  unfold enter. split.
  - intros (s1 & He & H). case_bool_decide as Hseen; [done|]. injection He as <-.
    destruct (ccheck ver b owner notice) eqn:Hcheck; [done|].
    apply Hjobs in H as (Hv & Hf & ->). split; [|split; [done|]].
    + constructor; [done|]. intros m o Hj. rewrite Forall_forall in Hv. by apply (Hv (m, o)).
    + apply collected_enter.
  - intros ([Hcheck Hv] & (Hseen & Hf) & ->). rewrite bool_decide_eq_false_2 by done.
    eexists. split; [done|]. rewrite Hcheck. apply Hjobs. split; [|split; [done|]].
    + apply Forall_forall. intros [m o] Hj. by apply (Hv m o).
    + symmetry. apply collected_enter.
Qed.

(** [collect] from the initial state lists the owned tree. *)
Lemma collect_initial ver root s :
  collect ver root None false initial_cstate = Ok s ↔
  compilable ver None false root ∧ NoDup (block_ids root)
  ∧ s = {| cseen := list_to_set (block_ids root); entries := owned_entries root None |}.
Proof.
  pose proof (collect_ok ver root None false initial_cstate s) as H. rewrite H. clear H.
  unfold fresh_for, collected, initial_cstate. simpl.
  rewrite owned_entries_ids, union_empty_r_L. split; [naive_solver|].
  intros (? & ? & ->). split; [done|]. split; [|done]. split; [done|]. intros. apply not_elem_of_empty.
Qed.

(** Publishable trees are compilable. *)
Lemma valid_at_compilable ver known scheds x b :
  valid_at ver known scheds x b → compilable ver (c_owner x) (c_notice x) b.
Proof.
  revert x. induction b as [b IH] using block_ind_children. intros x [Hl Hc].
  assert (∀ m o, (m, o) ∈ cjobs b → ∃ y, (o, y) ∈ child_ctx ver x b
    ∧ c_owner y = down_owner b (c_owner x) ∧ c_notice y = child_notice ver b (c_notice x)) as Hctx.
  { clear. intros m o H. destruct (is_collect b) eqn:Ecollect.
    - destruct b as [|i p a tm ma mr brs t v l| | | | |]; try done.
      set (n := notice_after_menu ver (c_notice x) p). cbn [cjobs child_ctx] in *.
      apply elem_of_app in H as [H|H].
      + apply list_elem_of_fmap in H as (br & [= -> ->] & Hbr).
        rewrite elem_of_sorted_branches in Hbr. exists (Ctx (Some i) None n).
        split; [|done]. apply elem_of_app. left. apply list_elem_of_fmap. by exists br.
      + setoid_rewrite elem_of_app. fold n. rewrite !elem_of_cons, elem_of_nil in H.
        destruct H as [[= -> ->]|[[= -> ->]|[[= -> ->]|[]]]];
          [exists (Ctx (Some i) None n)|exists (Ctx (Some i) None n)
          |exists (Ctx (Some i) (Some i) n)]; (split; [right|done]); set_solver.
    - exists (Ctx (c_owner x) (c_forbidden x) (child_notice ver b (c_notice x))).
      unfold down_owner. rewrite Ecollect. split; [|done].
      destruct b; try done; cbn [cjobs child_ctx child_notice] in *; csimpl;
        rewrite ?elem_of_cons, ?elem_of_nil in H; rewrite ?elem_of_cons, ?elem_of_nil;
        destruct_or?; try done; simplify_eq; auto. }
  constructor.
  - destruct b; cbn [ccheck local_ok] in *; try done.
    + by destruct (c_owner x).
    + apply andb_true_iff in Hl as [-> ->]. simpl.
      destruct (Hc next (Ctx (c_owner x) (c_forbidden x) (notice_after_other ver (c_notice x))))
        as (c & -> & _); [left|].
      destruct (Hc on_unavailable (Ctx (c_owner x) (c_forbidden x) (notice_after_other ver (c_notice x))))
        as (c' & -> & _); [right; left|]. done.
    + apply andb_true_iff in Hl as [-> ->]. done.
  - intros m o Hj. destruct (Hctx m o Hj) as (y & Hy & Ho & Hn).
    destruct (Hc o y Hy) as (c & -> & Hv). exists c. split; [done|].
    rewrite <- Ho, <- Hn. apply IH; [|done].
    rewrite <- cjobs_children. apply list_elem_of_omap. by exists (m, Some c).
Qed.

(** ** Properties *)

(** The ownership walk of the compilers succeeds exactly on trees whose paths
    are complete and whose block identifiers are distinct, and then lists the
    blocks in preorder, each with the menu that owns it. *)
Theorem ownership_walk_exact ver root s :
  collect ver root None false initial_cstate = Ok s ↔
  compilable ver None false root ∧ NoDup (block_ids root)
  ∧ s = {| cseen := list_to_set (block_ids root); entries := owned_entries root None |}.
Proof. apply collect_initial. Qed.
