(* ===== verification/Tape.v ===== *)
(** * The runtime tape as a transition system

    A state of the tape is a program counter with the menu returns used so far.
    [tape_edges] lists the successors of a state with the longest time the
    instruction may take; [maximum_cost] is shown to be the length of a longest
    run, and its search to stay within its fuel. *)
From stdpp Require Import base gmap sets strings numbers pretty list.
From S2P Require Import Prelude FlowTree Schemas Validation Compiler.

Section Tape.
Context (durations : gmap string Z) (code : list instruction).

Definition operation_edges (op : operation) (returns : list Z) : result (list (Z * tape_state)) :=
  let to w pc := (w, (pc, returns)) in
  match op with
  | OpEnd => Ok []
  | OpPlay p next_pc => Ok [to (prompt_duration durations p) next_pc]
  | OpCollect p timeout_ms attempts _ branches on_timeout on_invalid _ _ =>
    Ok (to (attempts * (prompt_duration durations p + timeout_ms))%Z
          <$> branches.*2 ++ [on_timeout; on_invalid])
  | OpSchedule _ o c h => Ok (to 0%Z <$> [o; c; h])
  | OpRecord maximum_duration_ms _ next_pc on_unavailable =>
    Ok [to (BEEP_DURATION_MS + maximum_duration_ms)%Z next_pc; to BEEP_DURATION_MS on_unavailable]
  | OpExternal _ answer_timeout_ms next_pc not_connected system_failure =>
    Ok (to (EXTERNAL_CONTROL_WATCHDOGS_MS + answer_timeout_ms)%Z
          <$> [next_pc; not_connected; system_failure])
  | OpReturn menu_pc =>
    index ← of_option (KeyError "menu_pc") (collect_index (collect_pcs code) !! menu_pc);
    menu ← of_option IndexError (code !! menu_pc);
    match iop menu with
    | OpCollect _ _ _ maximum_menu_returns _ _ _ on_return_limit _ =>
        count ← of_option IndexError (returns !! index);
        if bool_decide (count < maximum_menu_returns)%Z
        then Ok [(0%Z, (menu_pc, <[index := (count + 1)%Z]> returns))]
        else Ok [to 0%Z on_return_limit]
    | _ => Raise (KeyError "maximum_menu_returns")
    end
  end.

Definition tape_edges (st : tape_state) : result (list (Z * tape_state)) :=
  instruction ← of_option IndexError (code !! st.1);
  operation_edges (iop instruction) st.2.

(** A run of the tape with the longest time it may take. *)
Inductive tape_run : tape_state → tape_state → Z → Prop :=
  | tape_run_refl st : tape_run st st 0
  | tape_run_step st st1 st2 es w c :
  tape_edges st = Ok es → (w, st1) ∈ es → tape_run st1 st2 c → tape_run st st2 (w + c).

Definition halted (st : tape_state) : Prop := tape_edges st = Ok [].

(** [m] is the length of a longest complete run from [st]. *)
Definition longest (st : tape_state) (m : Z) : Prop :=
  (∃ st', tape_run st st' m ∧ halted st') ∧
  (∀ st' c, tape_run st st' c → halted st' → (c ≤ m)%Z).

(** ** [maximum_cost] over the edges *)

Section Search.
Context (cycle : exn).
Abbreviation maximum_cost := (maximum_cost cycle durations code).

Definition edge_cost (fuel : nat) (active : list tape_state) (e : Z * tape_state) : result Z :=
  Z.add e.1 <$> maximum_cost fuel active e.2.1 e.2.2.

Definition edges_cost (fuel : nat) (active : list tape_state) (es : list (Z * tape_state)) : result Z :=
  match es with
  | [] => Ok 0%Z
  | _ => mapM (edge_cost fuel active) es ≫= py_max
  end.

Lemma edges_cost_same_weight fuel active returns w targets :
  targets ≠ [] →
  edges_cost fuel active ((λ t, (w, (t, returns))) <$> targets)
  = costs ← mapM (λ t, maximum_cost fuel active t returns) targets; Z.add w <$> py_max costs.
Proof.
  intros Ht. unfold edges_cost. destruct targets as [|t ts]; [done|].
  rewrite (fmap_cons _ t ts) at 1. rewrite mapM_result_map. unfold compose, edge_cost. cbn [fst snd].
  rewrite (mapM_result_fmap (λ t, maximum_cost fuel active t returns)).
  destruct (mapM _ (t :: ts)); cbn; [|done]. by rewrite <- py_max_add.
Qed.

Lemma maximum_cost_edges fuel active st :
  maximum_cost (S fuel) active st.1 st.2 =
  if bool_decide (st ∈ active) then Raise cycle
  else es ← tape_edges st; edges_cost fuel (st :: active) es.
Proof.
  destruct st as [pc returns]. cbn [Compiler.maximum_cost fst snd].
  case_bool_decide; [done|]. unfold tape_edges. cbn [fst snd].
  destruct (code !! pc) as [ins|]; [|done]. simpl of_option. cbn [mbind result_bind].
  destruct (iop ins) as [p n|p tm ma mr brs pt pv pl ba|sc o c h|m| |d k n u|ph ans n nc sf];
  cbn [operation_edges mbind result_bind].
  - cbn. unfold edge_cost. simpl. by destruct (maximum_cost _ _ n _).
  - rewrite edges_cost_same_weight by (intros Hnil; by apply app_nil in Hnil as []).
  destruct (mapM _ _); cbn; [|done]. by destruct (py_max _).
  - rewrite edges_cost_same_weight by done.
  destruct (mapM _ _) as [cs|]; cbn; [|done]. by destruct cs.
  - destruct (collect_index _ !! m) as [index|]; [|done]. cbn.
  destruct (code !! m) as [menu|]; [|done]. cbn.
  destruct (iop menu); try done. destruct (returns !! index); [|done]. cbn.
  case_bool_decide; cbn; unfold edge_cost; cbn; by destruct (maximum_cost _ _ _ _).
  - done.
  - cbn. unfold edge_cost. cbn. destruct (maximum_cost _ _ n _) as [c|]; [|done]. cbn.
  destruct (maximum_cost _ _ u _) as [v|]; [|done]. cbn. f_equal. lia.
  - rewrite edges_cost_same_weight by done.
  destruct (mapM _ _) as [cs|]; cbn; [|done]. by destruct (py_max cs).
Qed.

Lemma edges_cost_ok fuel active es m :
  edges_cost fuel active es = Ok m →
  (es = [] ∧ m = 0%Z) ∨
  (∃ (e : Z * tape_state) c, e ∈ es ∧ maximum_cost fuel active e.2.1 e.2.2 = Ok c ∧ m = (e.1 + c)%Z) ∧
  (∀ e : Z * tape_state, e ∈ es → ∃ c, maximum_cost fuel active e.2.1 e.2.2 = Ok c ∧ (e.1 + c ≤ m)%Z).
Proof.
  unfold edges_cost. destruct es as [|e0 es]; [by intros [= <-]; left|]. intros H. right.
  apply result_bind_ok in H as (costs & Hc & [Hin Hub]%py_max_ok).
  apply mapM_result_ok in Hc. split.
  - apply list_elem_of_lookup in Hin as [i Hi].
  destruct (Forall2_lookup_r _ _ _ _ _ Hc Hi) as (e & He & Hcost).
  unfold edge_cost in Hcost. inv_result. exists e. eexists.
  split; [by eapply list_elem_of_lookup_2|]. split; [done|]. done.
  - intros e He. apply list_elem_of_lookup in He as [i Hi].
  destruct (Forall2_lookup_l _ _ _ _ _ Hc Hi) as (y & Hy & Hcost).
  unfold edge_cost in Hcost. inv_result. eexists. split; [done|].
  apply Hub. by eapply list_elem_of_lookup_2.
Qed.

Lemma edges_cost_total fuel active es :
  (∀ e : Z * tape_state, e ∈ es → ∃ c, maximum_cost fuel active e.2.1 e.2.2 = Ok c) →
  ∃ m, edges_cost fuel active es = Ok m.
Proof.
  intros H. unfold edges_cost. destruct es as [|e0 es]; [by eexists|].
  destruct (mapM_result_total (edge_cost fuel active) (e0 :: es)) as [costs Hc].
  { intros e He. destruct (H e He) as [c Hc]. exists (e.1 + c)%Z.
  unfold edge_cost. destruct e as [w [p r]]. cbn in *. by rewrite Hc. }
  rewrite Hc. apply mapM_result_ok in Hc. destruct costs; [by inversion Hc|]. by eexists.
Qed.

Lemma edges_cost_raise fuel active es e :
  edges_cost fuel active es = Raise e →
  ∃ x : Z * tape_state, x ∈ es ∧ maximum_cost fuel active x.2.1 x.2.2 = Raise e.
Proof.
  unfold edges_cost. destruct es as [|e0 es]; [done|].
  intros [H|(costs & Hc & H)]%result_bind_raise.
  - apply mapM_result_raise in H as (x & Hx & H). exists x. split; [done|].
  unfold edge_cost in H. destruct x as [w [p r]]. cbn in *.
  destruct (Compiler.maximum_cost _ _ _ _ _ _ _) in H |- *; [done|]. cbn in H. congruence.
  - apply mapM_result_ok in Hc. destruct costs; [by inversion Hc|done].
Qed.
End Search.

(** ** Longest runs *)

Lemma longest_halted st : halted st → longest st 0.
Proof.
  intros Hh. split; [exists st; split; [constructor|done]|].
  intros st' c Hrun _. inversion Hrun as [|? ? ? ? ? ? He Hin _]; subst; [done|].
  unfold halted in Hh. rewrite Hh in He. injection He as <-. by apply elem_of_nil in Hin.
Qed.

Lemma longest_edges st es m :
  tape_edges st = Ok es → es ≠ [] →
  (∃ (e : Z * tape_state) c, e ∈ es ∧ longest e.2 c ∧ m = (e.1 + c)%Z) →
  (∀ e : Z * tape_state, e ∈ es → ∃ c, longest e.2 c ∧ (e.1 + c ≤ m)%Z) → longest st m.
Proof.
  intros Hes Hne ([w st1] & c & Hin & [(st' & Hrun & Hh) _] & ->) Hub. split.
  - exists st'. split; [|done]. by eapply tape_run_step.
  - intros st2 c2 Hrun2 Hh2. inversion Hrun2 as [|? st3 ? es' w' c' He Hin' Hrun']; subst.
  { unfold halted in Hh2. rewrite Hes in Hh2. by injection Hh2. }
  rewrite Hes in He. injection He as <-. destruct (Hub _ Hin') as (c3 & [_ Hl] & Hle).
  specialize (Hl _ _ Hrun' Hh2). simpl in *. lia.
Qed.

Lemma tape_run_trans st1 st2 st3 c d :
  tape_run st1 st2 c → tape_run st2 st3 d → tape_run st1 st3 (c + d).
Proof.
  induction 1 as [|st st' st'' es w c He Hin Hrun IH]; intros H; [done|].
  rewrite <- Z.add_assoc. eapply tape_run_step; eauto.
Qed.

(** A successful search is a proof that its result is the longest run. *)
Lemma maximum_cost_ok_longest cycle fuel : ∀ active st m,
  maximum_cost cycle durations code fuel active st.1 st.2 = Ok m → longest st m.
Proof.
  induction fuel as [|fuel IH]; intros active st m; [done|].
  rewrite maximum_cost_edges. case_bool_decide; [done|]. intros (es & Hes & Hm)%result_bind_ok.
  apply edges_cost_ok in Hm as [[-> ->]|[(e & c & He & Hc & ->) Hub]]; [by apply longest_halted|].
  apply (longest_edges st es); [done|by intros ->; apply elem_of_nil in He| |].
  - exists e, c. split_and!; [done| |done]. by eapply IH.
  - intros e' He'. destruct (Hub e' He') as (c' & Hc' & Hle). exists c'. split; [|done]. by eapply IH.
Qed.

(** It bounds every partial run when no instruction takes negative time. *)
Lemma maximum_cost_ok_bounds cycle fuel : ∀ active st m,
  (∀ st es (e : Z * tape_state), tape_edges st = Ok es → e ∈ es → (0 ≤ e.1)%Z) →
  maximum_cost cycle durations code fuel active st.1 st.2 = Ok m →
  (0 ≤ m)%Z ∧ ∀ st' c, tape_run st st' c → (c ≤ m)%Z.
Proof.
  intros active st m Hnonneg. revert active st m.
  induction fuel as [|fuel IH]; intros active st m; [done|].
  rewrite maximum_cost_edges. case_bool_decide; [done|]. intros (es & Hes & Hm)%result_bind_ok.
  assert (0 ≤ m)%Z as H0.
  { apply edges_cost_ok in Hm as [[-> ->]|[(e & c & He & Hc & ->) _]]; [lia|].
  specialize (Hnonneg st es e Hes He). destruct (IH _ _ _ Hc). lia. }
  split; [done|]. intros st' c Hrun. inversion Hrun as [|? st1 ? es' w c' He Hin Hrun']; subst; [done|].
  rewrite Hes in He. injection He as <-.
  apply edges_cost_ok in Hm as [[-> ->]|[_ Hub]]; [by apply elem_of_nil in Hin|].
  destruct (Hub _ Hin) as (c1 & Hc1 & Hle). destruct (IH _ _ _ Hc1) as [_ Hb].
  specialize (Hb _ _ Hrun'). simpl in *. lia.
Qed.

(** A tape whose states satisfying [P] always step to smaller ones. *)
Section Decreasing.
Context (cycle : exn) (P : tape_state → Prop) (μ : tape_state → nat).
Hypothesis progress : ∀ st, P st → ∃ es, tape_edges st = Ok es ∧
  ∀ e : Z * tape_state, e ∈ es → P e.2 ∧ μ e.2 < μ st.

Lemma maximum_cost_longest fuel : ∀ active st,
  P st → μ st < fuel → (∀ a, a ∈ active → μ st < μ a) →
  ∃ m, maximum_cost cycle durations code fuel active st.1 st.2 = Ok m ∧ longest st m.
Proof.
  induction fuel as [|fuel IH]; intros active st HP Hf Hact; [lia|].
  rewrite maximum_cost_edges. rewrite bool_decide_eq_false_2 by (intros H%Hact; lia).
  destruct (progress st HP) as (es & Hes & Hstep). rewrite Hes. cbn [mbind result_bind].
  assert (∀ e : Z * tape_state, e ∈ es → ∃ c, maximum_cost cycle durations code fuel (st :: active) e.2.1 e.2.2 = Ok c
  ∧ longest e.2 c) as Hrec.
  { intros e He. destruct (Hstep e He) as [HPe Hμ]. apply IH; [done|lia|].
  intros a [->|Ha]%elem_of_cons; [done|]. specialize (Hact a Ha). lia. }
  destruct (edges_cost_total cycle fuel (st :: active) es) as [m Hm].
  { intros e He. destruct (Hrec e He) as (c & Hc & _). eauto. }
  exists m. split; [done|]. apply edges_cost_ok in Hm as [[-> ->]|[(e & c & He & Hc & ->) Hub]].
  - by apply longest_halted.
  - apply (longest_edges st es); [done|by intros ->; apply elem_of_nil in He| |].
  + destruct (Hrec e He) as (c' & Hc' & Hl). exists e, c. split_and!; [done| |done].
  rewrite Hc in Hc'. by injection Hc' as <-.
  + intros e' He'. destruct (Hrec e' He') as (c' & Hc' & Hl), (Hub e' He') as (c'' & Hc'' & Hle).
  exists c'. split; [done|]. rewrite Hc' in Hc''. injection Hc'' as ->. done.
Qed.

Lemma tape_run_invariant st st' c : tape_run st st' c → P st → P st'.
Proof.
  induction 1 as [|st st1 st2 es w c He Hin _ IH]; intros HP; [done|].
  destruct (progress st HP) as (es' & He' & Hstep). rewrite He in He'. injection He' as <-.
  apply IH. by apply (Hstep (w, st1)).
Qed.

Lemma longest_exists st : P st → ∃ m, longest st m.
Proof.
  intros HP. destruct (maximum_cost_longest (S (μ st)) [] st HP) as (m & _ & Hm);
  [lia|set_solver|eauto].
Qed.

(** Every partial run fits in the longest complete one when no
  instruction takes negative time. *)
Lemma run_within_longest st st' c m :
  P st → (∀ st es (e : Z * tape_state), P st → tape_edges st = Ok es → e ∈ es → (0 ≤ e.1)%Z) →
  tape_run st st' c → longest st m → (c ≤ m)%Z.
Proof.
  intros HP Hnonneg Hrun [_ Hub].
  assert (P st') as HP' by (by eapply tape_run_invariant).
  destruct (longest_exists st' HP') as (m' & (st'' & Hrun' & Hh) & _).
  assert (0 ≤ m')%Z.
  { clear - Hrun' HP' Hnonneg progress. induction Hrun' as [|st st1 st2 es w c He Hin Hr IH]; [lia|].
  specialize (Hnonneg st es (w, st1) HP' He Hin) as Hw. simpl in Hw.
  destruct (progress st HP') as (es' & He' & Hstep). rewrite He in He'. injection He' as <-.
  destruct (Hstep _ Hin) as [HP1 _]. specialize (IH HP1). lia. }
  assert (c + m' ≤ m)%Z by (apply (Hub st''); [by eapply tape_run_trans|done]). lia.
Qed.
End Decreasing.

(** ** The search never exhausts its fuel

  This holds for every tape, whether or not its flow was validated: a state
  under evaluation is never re-entered, and a menu return uses up one of
  finitely many returns. *)

(** The return counts are within the limits of the menus. *)
Definition menus : list instruction := filter (λ i, is_op_collect (iop i) = true) code.
Definition returns_ok (returns : list Z) : Prop :=
  Forall2 (λ r i, 0 ≤ r ≤ Z.of_nat (menu_returns_bound i))%Z returns menus.
Definition used (returns : list Z) : nat := Z.to_nat (foldr Z.add 0%Z returns).
Definition total_returns : nat := sum_list_with menu_returns_bound code.

Lemma menus_bound : sum_list_with menu_returns_bound menus = total_returns.
Proof.
  unfold menus, total_returns. generalize code as l. intros l. induction l as [|i l IH]; [done|].
  rewrite filter_cons. case_decide as Hc; csimpl; rewrite IH; [done|].
  unfold menu_returns_bound. by destruct (iop i).
Qed.

Lemma returns_ok_sum returns :
  returns_ok returns → (0 ≤ foldr Z.add 0 returns ≤ Z.of_nat total_returns)%Z.
Proof.
  unfold returns_ok. rewrite <- menus_bound. generalize menus as ms. intros ms.
  induction 1 as [|r i rs ms Hr _ IH]; csimpl; lia.
Qed.

Lemma collect_index_lookup pcs pc index :
  collect_index pcs !! pc = Some index → pcs !! index = Some pc.
Proof.
  unfold collect_index. induction pcs as [|x pcs IH] using rev_ind; [done|].
  rewrite imap_app, foldl_app. simpl. rewrite Nat.add_0_r.
  destruct (decide (x = pc)) as [->|Hne].
  - rewrite lookup_insert_eq. intros [= <-]. by rewrite list_lookup_middle.
  - rewrite lookup_insert_ne by done. intros H%IH. by apply lookup_app_l_Some.
Qed.

Lemma foldr_add_insert (l : list Z) i x y :
  l !! i = Some x → foldr Z.add 0%Z (<[i:=y]> l) = (foldr Z.add 0%Z l - x + y)%Z.
Proof.
  revert i. induction l as [|z l IH]; intros [|i] H; simplify_eq/=; [lia|].
  rewrite (IH i) by done. lia.
Qed.

Section Fuel.
Context (cycle : exn).
Hypothesis cycle_not_fuel : cycle ≠ OutOfFuel.
Hypothesis well_numbered : ∀ k i, code !! k = Some i → ipc i = k.

Definition at_returns (returns : list Z) (active : list tape_state) : nat :=
  length (filter (λ a, a.2 = returns) active).
Definition active_ok (active : list tape_state) (returns : list Z) : Prop :=
  NoDup active ∧ ∀ a : tape_state, a ∈ active → a.1 < length code ∧ used a.2 ≤ used returns.
Definition depth_left (active : list tape_state) (returns : list Z) : nat :=
  (total_returns - used returns) * S (S (length code)) + (S (length code) - at_returns returns active).

Lemma at_returns_le active returns : active_ok active returns → at_returns returns active ≤ length code.
Proof.
  intros [Hnd Hact]. unfold at_returns.
  rewrite <- (length_fmap (fst : tape_state → nat)), <- (length_seq (length code) 0).
  apply NoDup_incl_length.
  - apply NoDup_ListNoDup, NoDup_fmap_2_strong; [|by apply NoDup_filter].
  intros [p1 r1] [p2 r2] [Hr1 _]%list_elem_of_filter [Hr2 _]%list_elem_of_filter ?.
  simpl in *. congruence.
  - intros p Hp%list_elem_of_In. apply list_elem_of_fmap in Hp as (a & -> & Ha).
  apply list_elem_of_filter in Ha as [_ Ha]. apply in_seq. destruct (Hact a Ha). lia.
Qed.

Lemma active_ok_cons active returns pc :
  active_ok active returns → pc < length code → (pc, returns) ∉ active →
  active_ok ((pc, returns) :: active) returns.
Proof.
  intros [Hnd Hact] Hpc Hnin. split; [by constructor|].
  intros a [->|Ha]%elem_of_cons; [done|by apply Hact].
Qed.

Lemma at_returns_cons active returns pc :
  at_returns returns ((pc, returns) :: active) = S (at_returns returns active).
Proof. unfold at_returns. rewrite filter_cons, decide_True by done. done. Qed.

Lemma menu_at_index pc index menu :
  collect_index (collect_pcs code) !! pc = Some index → code !! pc = Some menu →
  menus !! index = Some menu.
Proof.
  intros Hi Hm. apply collect_index_lookup in Hi. unfold collect_pcs in Hi.
  apply list_lookup_fmap_Some in Hi as (i & -> & Hi). fold menus in Hi. rewrite Hi. f_equal.
  apply list_elem_of_lookup_2, list_elem_of_filter in Hi as [_ Hin].
  apply list_elem_of_lookup in Hin as [k Hk]. pose proof (well_numbered k i Hk) as <-. congruence.
Qed.

Lemma operation_edges_returns op returns es e :
  operation_edges op returns = Ok es → e ∈ es → returns_ok returns →
  e.2.2 = returns ∨ (returns_ok e.2.2 ∧ used e.2.2 = S (used returns)).
Proof.
  intros Hes He Hr. destruct op as [p n|p tm ma mr brs pt pv pl ba|sc o c h|m| |d k n u|ph ans n nc sf];
  cbn [operation_edges] in Hes; inv_result.
  all: try (rewrite ?elem_of_cons, elem_of_nil in He; destruct_or?; try done; subst; by left).
  - apply list_elem_of_fmap in He as (t & -> & _). by left.
  - rename x into index, x0 into menu. destruct (iop menu) eqn:Eop; try done. inv_result.
  rename x into count. revert Hes. case_bool_decide as Hlt; intros [= <-];
  apply list_elem_of_singleton in He as ->; [right|by left]. simpl.
  assert (menus !! index = Some menu) as Hmenu by (by eapply menu_at_index).
  pose proof (Forall2_lookup_lr _ _ _ _ _ _ Hr H1 Hmenu) as Hc. simpl in Hc.
  unfold menu_returns_bound in Hc. rewrite Eop in Hc.
  assert (returns_ok (<[index:=(count + 1)%Z]> returns)) as Hr'.
  { unfold returns_ok. rewrite <- (list_insert_id menus index menu) by done.
  apply Forall2_insert; [done|]. unfold menu_returns_bound. rewrite Eop. lia. }
  split; [done|]. unfold used. rewrite (foldr_add_insert _ _ count) by done.
  apply returns_ok_sum in Hr. lia.
Qed.

Lemma maximum_cost_not_out_of_fuel fuel : ∀ active pc returns,
  active_ok active returns → returns_ok returns → depth_left active returns ≤ fuel →
  maximum_cost cycle durations code fuel active pc returns ≠ Raise OutOfFuel.
Proof.
  induction fuel as [|fuel IH]; intros active pc returns Hact Hr Hfuel.
  { unfold depth_left in Hfuel. apply Nat.le_0_r, Nat.eq_add_0 in Hfuel as [_ Hfuel].
  apply at_returns_le in Hact. lia. }
  change (maximum_cost cycle durations code (S fuel) active pc returns)
  with (maximum_cost cycle durations code (S fuel) active (pc, returns).1 (pc, returns).2).
  rewrite maximum_cost_edges. case_bool_decide as Hin; [congruence|].
  intros [H|(es & Hes & H)]%result_bind_raise.
  - unfold tape_edges in H. apply result_bind_raise in H as [H|(i & _ & H)].
  + by destruct (code !! _) in H.
  + destruct (iop i); cbn in H; try done.
  apply result_bind_raise in H as [H|(index & _ & H)]; [by destruct (collect_index _ !! _) in H|].
  apply result_bind_raise in H as [H|(menu & _ & H)]; [by destruct (code !! _) in H|].
  destruct (iop menu); try done.
  apply result_bind_raise in H as [H|(count & _ & H)]; [by destruct (returns !! _) in H|].
  by destruct (bool_decide _) in H.
  - apply edges_cost_raise in H as ([w [pc' returns']] & He & H). revert H. cbn [fst snd].
  unfold tape_edges in Hes. apply result_bind_ok in Hes as (i & Hi & Hes).
  apply of_option_ok in Hi. cbn [fst] in Hi. apply lookup_lt_Some in Hi as Hpc.
  assert (active_ok ((pc, returns) :: active) returns) as Hact' by (by apply active_ok_cons).
  pose proof (at_returns_le _ _ Hact') as Hle. rewrite at_returns_cons in Hle.
  destruct (operation_edges_returns _ _ _ _ Hes He Hr) as [Hsame|[Hr' Hused]]; cbn [fst snd] in *.
  + subst returns'. apply IH; [done|done|]. unfold depth_left in *. rewrite at_returns_cons. lia.
  + apply IH; [|done|].
  * split; [apply Hact'|]. intros a Ha. destruct Hact' as [_ Hact']. destruct (Hact' a Ha). lia.
  * pose proof (returns_ok_sum _ Hr') as Hsum. unfold depth_left in *.
  assert (used returns' ≤ total_returns) by (unfold used; lia).
  assert (total_returns - used returns = S (total_returns - used returns')) as E by lia.
  rewrite E in Hfuel. simpl in Hfuel. lia.
Qed.

(** The initial call always has fuel enough. *)
Lemma maximum_cost_initial_fuel :
  maximum_cost cycle durations code (cost_fuel code) [] 0 (replicate (length (collect_pcs code)) 0%Z)
  ≠ Raise OutOfFuel.
Proof.
  apply maximum_cost_not_out_of_fuel.
  - split; [constructor|]. by intros ? ?%elem_of_nil.
  - unfold returns_ok, collect_pcs. rewrite length_fmap. fold menus.
  generalize menus as ms. intros ms. induction ms; simpl; constructor; [lia|done].
  - unfold depth_left, cost_fuel, at_returns, total_returns. rewrite filter_nil. simpl length. lia.
Qed.
End Fuel.
End Tape.
