(* ===== verification/Layout.v ===== *)
(** * The layout of compiled programs

    Where the blocks of a flow end up on the tape: children after their parent,
    menus before the blocks they own, and the return-limit path after every
    block that may return to the menu. *)
From stdpp Require Import base gmap sets strings numbers pretty list.
From S2P Require Import Prelude FlowTree Schemas Validation Compiler CompilerFacts.

(** ** Positions in concatenations *)

Lemma lookup_concat_fmap {A B} (f : A → list B) l k x :
  concat (f <$> l) !! k = Some x →
  ∃ l1 c l2 k', l = l1 ++ c :: l2 ∧ k = length (concat (f <$> l1)) + k' ∧ f c !! k' = Some x.
Proof.
  revert k. induction l as [|c l IH]; intros k; csimpl; [done|].
  rewrite lookup_app_Some. intros [H|[Hk H]].
  - by exists [], c, l, k.
  - apply IH in H as (l1 & c' & l2 & k' & -> & Hk' & H).
    exists (c :: l1), c', l2, k'. split; [done|]. split; [|done].
    csimpl. rewrite length_app. lia.
Qed.

Lemma concat_fmap_split {A B} (f : A → list B) l1 c l2 :
  concat (f <$> l1 ++ c :: l2) = concat (f <$> l1) ++ f c ++ concat (f <$> l2).
Proof. by rewrite fmap_app, concat_app. Qed.

Lemma length_owned_entries b o : length (owned_entries b o) = bsize b.
Proof. unfold bsize, owned_entries. by rewrite <- (annot_fst down_owner b o), length_fmap. Qed.

Lemma owned_entries_split b o l1 c l2 :
  children b = l1 ++ c :: l2 →
  owned_entries b o = ((b, o) :: concat ((λ c, owned_entries c (down_owner b o)) <$> l1))
    ++ owned_entries c (down_owner b o)
    ++ concat ((λ c, owned_entries c (down_owner b o)) <$> l2).
Proof. intros Hc. by rewrite owned_entries_unfold, Hc, concat_fmap_split. Qed.

(** Every block heads the contiguous segment of its own subtree. *)
Lemma entries_segment b0 o0 k b o :
  owned_entries b0 o0 !! k = Some (b, o) →
  ∃ pre post, owned_entries b0 o0 = pre ++ owned_entries b o ++ post ∧ length pre = k.
Proof.
  revert o0 k. induction b0 as [b0 IH] using block_ind_children. intros o0 k Hk.
  rewrite owned_entries_unfold in Hk. destruct k as [|k].
  { injection Hk as <- <-. exists [], []. by rewrite app_nil_r. }
  apply lookup_concat_fmap in Hk as (l1 & c & l2 & k' & Hl & -> & Hk').
  destruct (IH c) with (o0 := down_owner b0 o0) (k := k') as (pre & post & E & <-);
    [rewrite Hl; set_solver|done|].
  rewrite (owned_entries_split b0 o0 l1 c l2 Hl), E.
  eexists (((b0, o0) :: concat _) ++ pre), (post ++ _). split.
  - rewrite <- !(assoc_L (++)). done.
  - rewrite length_app. simpl. done.
Qed.

Section Positions.
Context (root : block).
Abbreviation es := (owned_entries root None).

Lemma child_position k b o l1 c l2 :
  es !! k = Some (b, o) → children b = l1 ++ c :: l2 →
  es !! (S k + length (concat ((λ c, owned_entries c (down_owner b o)) <$> l1)))
  = Some (c, down_owner b o).
Proof.
  intros (pre & post & E & <-)%entries_segment Hl.
  rewrite E, (owned_entries_split b o l1 c l2 Hl).
  rewrite <- !(assoc_L (++)), (assoc_L (++) pre), lookup_app_r;
  rewrite !length_app; simpl; [|lia].
  rewrite owned_entries_unfold, (Nat.add_succ_r (length pre)), Nat.sub_diag. done.
Qed.

Lemma child_after k b o c :
  es !! k = Some (b, o) → c ∈ children b →
  ∃ k', k < k' ∧ es !! k' = Some (c, down_owner b o).
Proof.
  intros Hk (l1 & l2 & Hl)%list_elem_of_split. eexists. split; [|by eapply child_position]. lia.
Qed.
End Positions.

(** An owning menu precedes the block, and its segment contains it. *)
Lemma owner_position b0 o0 k b o :
  owned_entries b0 o0 !! k = Some (b, o) →
  o = o0 ∨ ∃ km menu om, owned_entries b0 o0 !! km = Some (menu, om) ∧ is_collect menu = true
    ∧ o = Some (block_id menu) ∧ km < k < km + bsize menu.
Proof.
  revert o0 k. induction b0 as [b0 IH] using block_ind_children. intros o0 k Hk.
  pose proof (lookup_lt_Some _ _ _ Hk) as Hlt. rewrite length_owned_entries in Hlt.
  rewrite owned_entries_unfold in Hk. destruct k as [|k]; [injection Hk as <- <-; by left|].
  apply lookup_concat_fmap in Hk as (l1 & c & l2 & k' & Hl & -> & Hk').
  destruct (IH c ltac:(rewrite Hl; set_solver) _ _ Hk') as [->|(km & menu & om & Hm & Hc & -> & Hrange)].
  - unfold down_owner in *. destruct (is_collect b0) eqn:Eb; [|by left].
    right. exists 0, b0, o0. rewrite owned_entries_unfold. split_and!; try done; lia.
  - right. exists (S (length (concat ((λ c, owned_entries c (down_owner b0 o0)) <$> l1)) + km)), menu, om.
    split; [|split_and!; try done; lia].
    rewrite (owned_entries_split b0 o0 l1 c l2 Hl). rewrite lookup_app_r by (simpl; lia).
    simpl. rewrite Nat.add_sub_swap, Nat.sub_diag by lia.
    rewrite lookup_app_l; [done|]. by apply lookup_lt_Some in Hm.
Qed.

(** ** The return-limit path never returns to its own menu *)

Lemma down_owner_ids b o c o' :
  (c, o') ∈ owned_entries b o → o' = o ∨ ∃ i, o' = Some i ∧ i ∈ block_ids b.
Proof.
  intros [k Hk]%list_elem_of_lookup. destruct (owner_position _ _ _ _ _ Hk)
    as [->|(km & menu & om & Hm & _ & -> & _)]; [by left|right].
  exists (block_id menu). split; [done|]. rewrite <- (owned_entries_ids b o).
  apply list_elem_of_fmap. exists menu. split; [done|].
  apply list_elem_of_fmap. exists (menu, om). split; [done|]. by eapply list_elem_of_lookup_2.
Qed.

Lemma child_ctx_owner ver x b c :
  c ∈ children b → ∃ y, (Some c, y) ∈ child_ctx ver x b ∧ c_owner y = down_owner b (c_owner x)
    ∧ (is_collect b = false → c_forbidden y = c_forbidden x).
Proof.
  intros Hc. rewrite children_perm, <- (child_ctx_children ver x) in Hc.
  apply list_elem_of_omap in Hc as ([o y] & Hin & E). simpl in E. subst o.
  exists y. split; [done|]. unfold down_owner. clear -Hin.
  destruct b as [i p nxt|i p a tm ma mr brs t v l|i sc op c' h|i|i|i nxt u|i ph tm nxt nc sf];
    cbn [child_ctx is_collect] in *; csimpl in *.
  2: { apply elem_of_app in Hin as [H|H].
    - by apply list_elem_of_fmap in H as (br & [= _ ->] & _).
    - rewrite !elem_of_cons, elem_of_nil in H. destruct_or?; by simplify_eq. }
  all: rewrite ?elem_of_cons, ?elem_of_nil in Hin; destruct_or?; by simplify_eq.
Qed.

Lemma limit_path_no_return ver known scheds m n l r :
  valid_at ver known scheds (Ctx (Some m) (Some m) n) l → m ∉ block_ids l →
  (ReturnToMenu r, Some m) ∉ owned_entries l (Some m).
Proof.
  set (x := Ctx (Some m) (Some m) n).
  assert (c_owner x = Some m ∧ c_forbidden x = Some m) as [Ho Hf] by done.
  clearbody x. revert x Ho Hf. induction l as [l IH] using block_ind_children.
  intros x Ho Hf [Hl Hc] Hm Hin. rewrite owned_entries_unfold in Hin.
  rewrite block_ids_unfold in Hm. apply not_elem_of_cons in Hm as [Hml Hms].
  apply elem_of_cons in Hin as [[= <-]|Hin].
  - simpl in Hl. rewrite Ho, Hf, bool_decide_eq_true_2 in Hl by done. done.
  - apply elem_of_concat_fmap in Hin as (c & Hcl & Hin).
    assert (m ∉ block_ids c) as Hmc.
    { intros H. apply Hms. apply elem_of_concat_fmap. eauto. }
    destruct (is_collect l) eqn:El; unfold down_owner in Hin; rewrite El in Hin.
    + apply down_owner_ids in Hin as [[= E]|(i & [= <-] & Hi)]; [by apply Hml|done].
    + destruct (child_ctx_owner ver x l c Hcl) as (y & Hy & Hyo & Hyf).
      unfold down_owner in Hyo. rewrite El, Ho in Hyo. specialize (Hyf El). rewrite Hf in Hyf.
      destruct (Hc _ _ Hy) as (c' & [= <-] & Hv). by apply (IH c Hcl y Hyo Hyf Hv Hmc).
Qed.

(** ** Program counters *)

Lemma program_counter_lookup es i k :
  NoDup (block_id <$> es.*1) →
  program_counter es !! i = Some k ↔ ∃ b o, es !! k = Some (b, o) ∧ block_id b = i.
Proof.
  unfold program_counter. revert i k. induction es as [|[b o] es IH] using rev_ind; intros i k Hnd.
  { simpl. rewrite lookup_empty. split; [done|]. by intros (? & ? & ? & _). }
  rewrite !fmap_app in Hnd. csimpl in Hnd. apply NoDup_app in Hnd as (Hnd & Hnew & _).
  rewrite imap_app, foldl_app. simpl. rewrite Nat.add_0_r.
  destruct (decide (block_id b = i)) as [<-|Hne].
  - rewrite lookup_insert_eq. split.
    + intros [= <-]. exists b, o. by rewrite list_lookup_middle.
    + intros (b' & o' & Hk & Hid). f_equal. apply lookup_app_Some in Hk as [Hk|[Hk H1]].
      * exfalso. apply (Hnew (block_id b)); [|by left]. rewrite <- Hid.
        apply list_elem_of_fmap. exists b'. split; [done|]. apply list_elem_of_fmap.
        exists (b', o'). split; [done|]. by eapply list_elem_of_lookup_2.
      * apply list_lookup_singleton_Some in H1 as [H1 _]. lia.
  - rewrite lookup_insert_ne by done. rewrite IH by done. split.
    + intros (b' & o' & Hk & <-). exists b', o'. split; [by apply lookup_app_l_Some|done].
    + intros (b' & o' & Hk & <-). exists b', o'. split; [|done].
      apply lookup_app_Some in Hk as [Hk|[_ H1]]; [done|].
      apply list_lookup_singleton_Some in H1 as [_ [= <- <-]]. done.
Qed.

Section Emission.
Context (ver : version) (root : block) (recording_behavior : RecordingBehavior).
Abbreviation es := (owned_entries root None).
Abbreviation counter := (program_counter es).
Hypothesis ids : NoDup (block_ids root).

Lemma counter_lookup i k :
  counter !! i = Some k ↔ ∃ b o, es !! k = Some (b, o) ∧ block_id b = i.
Proof. apply program_counter_lookup. by rewrite owned_entries_ids. Qed.

(** Blocks and their positions determine each other. *)
Lemma position_unique k k' b b' o o' :
  es !! k = Some (b, o) → es !! k' = Some (b', o') → block_id b = block_id b' →
  k = k' ∧ b = b' ∧ o = o'.
Proof.
  intros Hk Hk' Hid. assert (k = k') as <-; [|by simplify_eq].
  assert (counter !! block_id b = Some k) as E by (apply counter_lookup; eauto).
  assert (counter !! block_id b = Some k') as E' by (apply counter_lookup; rewrite Hid; eauto).
  congruence.
Qed.

Lemma pc_of_ok o k :
  pc_of counter o = Ok k ↔ ∃ c c' oc, o = Some c ∧ es !! k = Some (c', oc) ∧ block_id c' = block_id c.
Proof.
  destruct o as [c|]; simpl; [|split; [done|by intros (? & ? & ? & [=] & _)]].
  rewrite of_option_ok, counter_lookup. naive_solver.
Qed.

(** For a child of a block of the tree, [pc] is its position, after the block. *)
Lemma pc_of_child k b o c :
  es !! k = Some (b, o) → c ∈ children b →
  ∃ k', pc_of counter (Some c) = Ok k' ∧ k < k' ∧ es !! k' = Some (c, down_owner b o).
Proof.
  intros Hk Hc. destruct (child_after root k b o c Hk Hc) as (k' & Hlt & Hk').
  exists k'. split; [|done]. apply pc_of_ok. eauto 10.
Qed.

Lemma pc_of_child_inv k b o c k' :
  es !! k = Some (b, o) → c ∈ children b → pc_of counter (Some c) = Ok k' →
  k < k' ∧ es !! k' = Some (c, down_owner b o).
Proof.
  intros Hk Hc Hpc. destruct (pc_of_child k b o c Hk Hc) as (k'' & Hpc' & H). congruence.
Qed.

(** The context in which a block of a publishable tree was validated. *)
Lemma entry_valid known scheds k b o :
  valid_at ver known scheds root_ctx root → es !! k = Some (b, o) →
  ∃ x, c_owner x = o ∧ valid_at ver known scheds x b.
Proof using Type.
  intros Hv Hk. assert (c_owner root_ctx = None) as Ho by done. revert Hv Ho Hk.
  generalize root_ctx as x, (None : option string) as o0, root as b0, k. clear.
  intros x o0 b0. revert x o0. induction b0 as [b0 IH] using block_ind_children.
  intros x o0 k Hv Ho Hk. rewrite owned_entries_unfold in Hk. destruct k as [|k].
  { injection Hk as <- <-. eauto. }
  apply lookup_concat_fmap in Hk as (l1 & c & l2 & k' & Hl & -> & Hk').
  assert (c ∈ children b0) as Hc by (rewrite Hl; set_solver).
  destruct (child_ctx_owner ver x b0 c Hc) as (y & Hy & Hyo & _). rewrite Ho in Hyo.
  destruct Hv as [_ Hv]. destruct (Hv _ _ Hy) as (c' & [= <-] & Hv'). eauto.
Qed.

Lemma entry_compilable k b o :
  compilable ver None false root → es !! k = Some (b, o) → ∃ notice, compilable ver o notice b.
Proof using Type.
  generalize (None : option string) as o0, false as n0, root as b0. clear.
  intros o0 n0 b0. revert k o0 n0. induction b0 as [b0 IH] using block_ind_children.
  intros k o0 n0 Hv Hk. rewrite owned_entries_unfold in Hk. destruct k as [|k].
  { injection Hk as <- <-. eauto. }
  apply lookup_concat_fmap in Hk as (l1 & c & l2 & k' & Hl & -> & Hk').
  assert (c ∈ children b0) as Hc by (rewrite Hl; set_solver).
  pose proof Hc as Hc'. rewrite <- cjobs_children in Hc'.
  apply list_elem_of_omap in Hc' as ([m oc] & Hj & E). simpl in E. subst oc.
  destruct Hv as [_ Hv]. destruct (Hv _ _ Hj) as (c' & [= <-] & Hv'). eauto.
Qed.

(** The owner of a block in the tree is an earlier menu. *)
Lemma owner_menu k b i :
  es !! k = Some (b, Some i) →
  ∃ km menu om, es !! km = Some (menu, om) ∧ is_collect menu = true ∧ block_id menu = i
  ∧ counter !! i = Some km ∧ km < k < km + bsize menu.
Proof.
  intros Hk. destruct (owner_position _ _ _ _ _ Hk) as [[=]|(km & menu & om & Hm & Hc & [= ->] & Hr)].
  exists km, menu, om. split_and!; try done; try lia. apply counter_lookup. eauto.
Qed.

(** The return-limit path of a menu lies after every block that returns to it. *)
Lemma limit_after_return known scheds k r km menu om l kl :
  valid_at ver known scheds root_ctx root →
  es !! k = Some (ReturnToMenu r, Some (block_id menu)) →
  es !! km = Some (menu, om) → is_collect menu = true →
  last (children menu) = Some l → es !! kl = Some (l, Some (block_id menu)) →
  (∀ i p a tm ma mr brs t v o, menu = CollectDigit i p a tm ma mr brs t v o → o = Some l) →
  k < kl.
Proof.
  intros Hv Hk Hm Hc Hlast Hl Hlim.
  destruct (owner_menu k _ _ Hk) as (km' & menu' & om' & Hm' & Hc' & Hid & _ & Hrange).
  destruct (position_unique _ _ _ _ _ _ Hm' Hm Hid) as (-> & -> & ->). clear Hm' Hc' Hid.
  apply last_Some in Hlast as [l1 Hch].
  pose proof (child_position root km menu om l1 l [] Hm Hch) as Hpos.
  destruct (position_unique _ _ _ _ _ _ Hpos Hl eq_refl) as (Hkl & _ & Howner).
  destruct (decide (k < kl)) as [|Hge]; [done|exfalso].
(* [k] lies in the segment of [l] *)
  destruct (entries_segment _ _ _ _ _ Hl) as (pre & post & E & Hpre).
  assert (bsize menu = kl - km + bsize l) as Hsize.
  { rewrite <- (length_owned_entries menu om), (owned_entries_split menu om l1 l [] Hch).
  rewrite !length_app, length_owned_entries. simpl in *. lia. }
  assert (owned_entries l (Some (block_id menu)) !! (k - kl) = Some (ReturnToMenu r, Some (block_id menu))) as Hin.
  { rewrite E, lookup_app_r, lookup_app_l in Hk; [by rewrite Hpre in Hk|..|lia].
  rewrite length_owned_entries. lia. }
  destruct (entry_valid known scheds km menu om Hv Hm) as (x & Hxo & [_ Hval]).
  destruct menu as [|i p a tm ma mr brs t v o| | | | |]; try done.
  specialize (Hlim _ _ _ _ _ _ _ _ _ _ eq_refl) as ->.
  destruct (Hval (Some l) (Ctx (Some i) (Some i) (notice_after_menu ver (c_notice x) p)))
  as (l' & [= <-] & Hvl).
  { cbn [child_ctx]. apply elem_of_app. right. right. right. left. }
  apply (limit_path_no_return ver known scheds i (notice_after_menu ver (c_notice x) p) l r Hvl).
  2: { by eapply list_elem_of_lookup_2. }
  intros Hil. rewrite <- (owned_entries_ids l (Some i)) in Hil.
  apply list_elem_of_fmap in Hil as (b & Hb & Hil). apply list_elem_of_fmap in Hil as ([b' o'] & -> & Hil).
  apply list_elem_of_lookup in Hil as [k' Hk']. simpl in Hb.
  assert (es !! (kl + k') = Some (b', o')) as Hpos'.
  { rewrite E, lookup_app_r by lia. rewrite lookup_app_l.
  - rewrite Hpre. by replace (kl + k' - kl) with k' by lia.
  - apply lookup_lt_Some in Hk'. rewrite length_owned_entries in *. lia. }
  destruct (position_unique _ _ _ _ _ _ Hpos' Hm) as (Heq & _); [done|]. lia.
Qed.
End Emission.
