(* ===== verification/CompileCorrect.v ===== *)
(** * Correctness of the compilers

    Publishable flows compile, to a tape with one instruction per block in
    preorder, whose jumps go forward except for menu returns; every run of the
    tape ends, and [session_ms] is the length of a longest one. *)
From stdpp Require Import base gmap sets strings numbers pretty list.
From S2P Require Import Prelude FlowTree Schemas Validation Compiler CompilerFacts Tape Layout Examples.

(** The program counters an operation jumps to, menu returns apart. *)
Definition op_targets (op : operation) : list nat :=
  match op with
  | OpPlay _ n => [n]
  | OpCollect _ _ _ _ brs t v l _ => brs.*2 ++ [t; v; l]
  | OpSchedule _ o c h => [o; c; h]
  | OpReturn _ | OpEnd => []
  | OpRecord _ _ n u => [n; u]
  | OpExternal _ _ n nc sf => [n; nc; sf]
  end.

Section Operation.
Context (counter : gmap string nat) (rb : RecordingBehavior) (wb : bool).

Definition job_pc (j : string * option block) (t : nat) : Prop := pc_of counter j.2 = Ok t.

(** An operation jumps to the blocks that the ownership walk visits, in order. *)
Lemma emit_operation_targets b o op :
  emit_operation counter rb wb b o = Ok op → Forall2 job_pc (cjobs b) (op_targets op).
Proof.
  destruct b as [i p nxt|i p a tm ma mr brs t v l|i sc op' c h|i|i|i nxt u|i ph tm nxt nc sf];
  cbn [emit_operation]; intros H; inv_result; cbn [op_targets cjobs]; unfold job_pc;
  repeat (constructor; try done).
  apply Forall2_app; [|repeat constructor; done].
  match goal with H : mapM _ _ = Ok _ |- _ => apply mapM_result_ok in H; rename H into Hm end.
  apply Forall2_fmap_l, Forall2_fmap_r. eapply Forall2_impl; [exact Hm|].
  intros br y Hy. cbn in Hy. inv_result. done.
Qed.

Lemma emit_operation_total b o :
  (∀ j, j ∈ cjobs b → ∃ t, job_pc j t) →
  (∀ i, b = ReturnToMenu i → ∃ m k, o = Some m ∧ counter !! m = Some k) →
  ∃ op, emit_operation counter rb wb b o = Ok op.
Proof.
  intros Hj Hr.
  assert (∀ c, c ∈ (cjobs b).*2 → ∃ t, pc_of counter c = Ok t) as Hpc.
  { intros c Hc. apply list_elem_of_fmap in Hc as (j & -> & Hc). by apply Hj. }
  clear Hj. destruct b as [i p nxt|i p a tm ma mr brs t v l|i sc op' c h|i|i|i nxt u|i ph tm nxt nc sf];
  cbn [emit_operation cjobs] in *; csimpl in *.
  4: { destruct (Hr i eq_refl) as (m & k & -> & Hk). cbn. rewrite Hk. by eexists. }
  2: { rewrite fmap_app in Hpc. csimpl in Hpc.
     destruct (mapM_result_total (λ br, pc ← pc_of counter (branch_root br); Ok (branch_digit br, pc))
       (sorted_branches brs)) as [ts Hts].
     { intros br Hbr. destruct (Hpc (branch_root br)) as [k ->]; [|by eexists].
       apply elem_of_app. left. rewrite <- list_fmap_compose. apply list_elem_of_fmap. by exists br. }
     rewrite Hts. cbn [mbind result_bind].
     destruct (Hpc t) as [? ->]; [set_solver|]. destruct (Hpc v) as [? ->]; [set_solver|].
     destruct (Hpc l) as [? ->]; [set_solver|]. by eexists. }
  all: repeat match goal with |- context [pc_of counter ?c] =>
       destruct (Hpc c) as [? ->]; [set_solver|]; cbn [mbind result_bind] end; by eexists.
Qed.
End Operation.

(** Operations other than returns jump to their targets and keep the returns. *)
Lemma operation_edges_forward durations code op returns es' :
  operation_edges durations code op returns = Ok es' → (∀ m, op ≠ OpReturn m) →
  ∀ e : Z * tape_state, e ∈ es' → e.2.1 ∈ op_targets op ∧ e.2.2 = returns.
Proof.
  intros H Hr e He. destruct op as [p n|p tm ma mr brs pt pv pl ba|sc o c h|m| |d k n u|ph ans n nc sf];
    cbn [operation_edges op_targets] in *; inv_result; try (by destruct (Hr m)).
  all: try (rewrite ?elem_of_cons, elem_of_nil in He; destruct_or?; try done; subst; cbn; set_solver).
  apply list_elem_of_fmap in He as (t & -> & Ht). cbn. split; [|done].
  rewrite elem_of_app in *. set_solver.
Qed.

Section Correct.
Context (ver : version) (root : block) (rb : RecordingBehavior) (wb : bool).
Abbreviation es := (owned_entries root None).
Abbreviation counter := (program_counter es).
Hypothesis ids : NoDup (block_ids root).
Hypothesis compiles : compilable ver None false root.

Lemma job_child b m c : (m, Some c) ∈ cjobs b → c ∈ children b.
Proof. intros H. rewrite <- cjobs_children. apply list_elem_of_omap. by exists (m, Some c). Qed.

(** The jumps of a block of the tree. *)
Lemma job_target k b o j :
  es !! k = Some (b, o) → j ∈ cjobs b →
  ∃ c k', j.2 = Some c ∧ c ∈ children b ∧ pc_of counter j.2 = Ok k' ∧ k < k'
  ∧ es !! k' = Some (c, down_owner b o).
Proof using ids compiles.
  intros Hk Hj. destruct (entry_compilable ver root k b o compiles Hk) as (notice & [_ Hc]).
  destruct j as [m oc]. destruct (Hc m oc Hj) as (c & -> & _).
  apply job_child in Hj as Hch. destruct (pc_of_child root ids k b o c Hk Hch) as (k' & ? & ? & ?).
  exists c, k'. done.
Qed.

Lemma emit_total k b o : es !! k = Some (b, o) → ∃ i, emit counter rb wb (k, (b, o)) = Ok i.
Proof using ids compiles.
  intros Hk. destruct (emit_operation_total counter rb wb b o) as [op Hop].
  - intros j Hj. destruct (job_target k b o j Hk Hj) as (c & k' & _ & _ & Hpc & _). by exists k'.
  - intros i ->. destruct (entry_compilable ver root k _ o compiles Hk) as (notice & [Hc _]).
  destruct o as [m|]; [|done]. destruct (owner_menu root ids k _ m Hk) as (km & ? & ? & ? & ? & ? & ? & ?).
  eauto.
  - exists {| ipc := k; iblock_id := block_id b; iop := op |}. cbn [emit]. by rewrite Hop.
Qed.

Lemma emission_total : ∃ code, mapM (emit counter rb wb) (imap pair es) = Ok code.
Proof using ids compiles.
  apply mapM_result_total. intros [k [b o]] H. apply list_elem_of_lookup in H as [k' H].
  rewrite list_lookup_imap in H. destruct (es !! k') as [e|] eqn:E; simplify_eq/=.
  by apply emit_total.
Qed.

Section Code.
Context (code : list instruction).
Hypothesis emission : mapM (emit counter rb wb) (imap pair es) = Ok code.

Lemma code_length : length code = length es.
Proof using emission.
  apply mapM_result_ok, Forall2_length in emission. by rewrite length_imap in emission.
Qed.

Lemma code_lookup k i :
  code !! k = Some i → ∃ b o, es !! k = Some (b, o) ∧ ipc i = k ∧ iblock_id i = block_id b
  ∧ emit_operation counter rb wb b o = Ok (iop i).
Proof using emission.
  intros Hk. apply mapM_result_ok in emission.
  destruct (Forall2_lookup_r _ _ _ _ _ emission Hk) as ([k' [b o]] & He & Hemit).
  rewrite list_lookup_imap in He. destruct (es !! k) as [e|] eqn:E; simplify_eq/=.
  apply result_bind_ok in Hemit as (op & Hop & [= <-]). exists b, o. done.
Qed.

Lemma code_at k b o :
  es !! k = Some (b, o) → ∃ i, code !! k = Some i ∧ ipc i = k ∧ iblock_id i = block_id b
  ∧ emit_operation counter rb wb b o = Ok (iop i).
Proof using emission.
  intros Hk. apply lookup_lt_Some in Hk as Hlt. rewrite <- code_length in Hlt.
  apply lookup_lt_is_Some_2 in Hlt as [i Hi]. exists i.
  destruct (code_lookup k i Hi) as (b' & o' & Hk' & ?). by simplify_eq.
Qed.

Lemma code_numbered k i : code !! k = Some i → ipc i = k.
Proof using emission. intros Hk. by destruct (code_lookup k i Hk) as (? & ? & _ & ? & _). Qed.

(** Jumps go forward to instructions of the tape. *)
Lemma target_forward k i t :
  code !! k = Some i → t ∈ op_targets (iop i) → k < t < length code.
Proof using emission ids compiles.
  intros Hk Ht. destruct (code_lookup k i Hk) as (b & o & He & _ & _ & Hop).
  apply emit_operation_targets in Hop. apply list_elem_of_lookup in Ht as [n Hn].
  destruct (Forall2_lookup_r _ _ _ _ _ Hop Hn) as (j & Hj & Hpc).
  destruct (job_target k b o j He) as (c & k' & _ & _ & Hpc' & Hlt & Hk');
  [by eapply list_elem_of_lookup_2|].
  unfold job_pc in Hpc. rewrite Hpc in Hpc'. injection Hpc' as <-.
  apply lookup_lt_Some in Hk'. rewrite code_length. lia.
Qed.

Lemma collect_index_complete pcs index pc :
  NoDup pcs → pcs !! index = Some pc → collect_index pcs !! pc = Some index.
Proof using Type.
  clear. unfold collect_index. induction pcs as [|x pcs IH] using rev_ind; [done|].
  intros Hnd Hi. rewrite imap_app, foldl_app. simpl. rewrite Nat.add_0_r.
  apply NoDup_app in Hnd as (Hnd & Hx & _). apply lookup_app_Some in Hi as [Hi|[Hge Hi]].
  - rewrite lookup_insert_ne by (intros ->; apply (Hx pc); [by eapply list_elem_of_lookup_2|set_solver]).
  by apply IH.
  - apply list_lookup_singleton_Some in Hi as [Hi ->]. rewrite lookup_insert_eq. f_equal. lia.
Qed.

Lemma numbered_seq : ipc <$> code = seq 0 (length code).
Proof using emission.
  apply list_eq. intros k. rewrite list_lookup_fmap. destruct (code !! k) as [i|] eqn:E; simpl.
  - rewrite lookup_seq_lt by (by apply lookup_lt_Some in E). by rewrite (code_numbered k i E).
  - rewrite lookup_seq_ge; [done|]. by apply lookup_ge_None_1.
Qed.

Lemma collect_pcs_NoDup : NoDup (collect_pcs code).
Proof using emission.
  unfold collect_pcs. apply NoDup_fmap_2_strong.
  - intros i j [_ Hi]%list_elem_of_filter [_ Hj]%list_elem_of_filter Hij.
  apply list_elem_of_lookup in Hi as [k Hk]. apply list_elem_of_lookup in Hj as [k' Hk'].
  pose proof (code_numbered _ _ Hk). pose proof (code_numbered _ _ Hk'). congruence.
  - apply NoDup_filter. apply (NoDup_fmap_1 ipc). rewrite numbered_seq. apply NoDup_seq.
Qed.

(** Every menu has an index in the vector of returns. *)
Lemma menu_index k i :
  code !! k = Some i → is_op_collect (iop i) = true →
  ∃ index, collect_index (collect_pcs code) !! k = Some index ∧ menus code !! index = Some i.
Proof using emission.
  intros Hk Hc. assert (i ∈ menus code) as Hin.
  { apply list_elem_of_filter. split; [done|]. by eapply list_elem_of_lookup_2. }
  apply list_elem_of_lookup in Hin as [index Hi]. exists index. split; [|done].
  apply collect_index_complete; [apply collect_pcs_NoDup|].
  unfold collect_pcs. fold (menus code). rewrite list_lookup_fmap, Hi. simpl.
  by rewrite (code_numbered k i Hk).
Qed.

(** A return goes back to a menu before it. *)
Lemma return_menu k i m :
  code !! k = Some i → iop i = OpReturn m →
  ∃ r menu om im p tm ma mr brs t v l ba,
  es !! k = Some (ReturnToMenu r, Some (block_id menu)) ∧ es !! m = Some (menu, om)
  ∧ is_collect menu = true ∧ code !! m = Some im ∧ iop im = OpCollect p tm ma mr brs t v l ba
  ∧ emit_operation counter rb wb menu om = Ok (iop im) ∧ m < k.
Proof using emission ids.
  intros Hk Hi. destruct (code_lookup k i Hk) as (b & o & He & _ & _ & Hop). rewrite Hi in Hop.
  destruct b as [| | |r| | |]; cbn [emit_operation] in Hop; inv_result.
  destruct o as [j|]; [|done].
  destruct (owner_menu root ids k _ j He) as (km & menu & om & Hm & Hc & <- & Hcnt & Hlt).
  match goal with H : _ = Some m |- _ => cbn in H; rewrite Hcnt in H; injection H as -> end.
  destruct (code_at m menu om Hm) as (im & Him & _ & _ & Hemit). pose proof Hemit as Hop.
  destruct menu; try done. cbn [emit_operation] in Hop. inv_result.
  do 13 eexists. split_and!; try done. lia.
Qed.

Context (known scheds : gset string).
Hypothesis valid : valid_at ver known scheds root_ctx root.

(** The return-limit path starts after the return. *)
Lemma return_limit_forward k i m im p tm ma mr brs t v l ba :
  code !! k = Some i → iop i = OpReturn m →
  code !! m = Some im → iop im = OpCollect p tm ma mr brs t v l ba → k < l.
Proof using emission ids compiles valid.
  intros Hk Hi Him Hop.
  destruct (return_menu k i m Hk Hi)
  as (r & menu & om & im' & ? & ? & ? & ? & ? & ? & ? & l' & ? & He & Hm & Hc & Him' & Hop' & Hemit & _).
  rewrite Him in Him'. injection Him' as <-. rewrite Hop in Hop'. injection Hop' as -> -> -> -> -> -> -> -> ->.
  destruct menu as [|j pr a tmo man mrn mbrs mt mv ml| | | | |]; try done.
  assert (∀ lc, ml = Some lc →
  last (children (CollectDigit j pr a tmo man mrn mbrs mt mv ml)) = Some lc) as Hlast.
  { intros lc ->. unfold children. cbn [owned_children]. rewrite omap_app. csimpl.
  destruct mt, mv; csimpl; rewrite last_app; done. }
  rewrite Hop in Hemit. cbn [emit_operation] in Hemit. inv_result.
  destruct ml as [lc|]; [|done]. specialize (Hlast lc eq_refl).
  match goal with H : pc_of _ (Some lc) = Ok ?n |- _ =>
  destruct (pc_of_child_inv root ids m _ om lc n Hm) as [_ Hl] end;
  [by apply last_Some in Hlast as [? ->]; set_solver|done|].
  eapply (limit_after_return ver root ids known scheds k r m _ om lc _ valid He Hm Hc Hlast Hl).
  intros. congruence.
Qed.

(** ** Progress of the tape *)

Context (durations : gmap string Z).

Definition tape_ok (st : tape_state) : Prop := st.1 < length code ∧ returns_ok code st.2.
Definition tape_measure (st : tape_state) : nat :=
  (total_returns code - used st.2) * S (length code) + (length code - st.1).

Lemma tape_progress st : tape_ok st → ∃ es', tape_edges durations code st = Ok es' ∧
  ∀ e : Z * tape_state, e ∈ es' → tape_ok e.2 ∧ tape_measure e.2 < tape_measure st.
Proof using emission ids compiles valid.
  destruct st as [pc returns]. intros [Hpc Hr]. cbn [fst snd] in *.
  apply lookup_lt_is_Some_2 in Hpc as [i Hi]. unfold tape_edges. cbn [fst snd]. rewrite Hi. cbn [of_option mbind result_bind].
  assert ((∃ m, iop i = OpReturn m) ∨ ∀ m, iop i ≠ OpReturn m) as [[m Hm]|Hnot]
  by (destruct (iop i); eauto).
  - destruct (return_menu pc i m Hi Hm)
  as (r & menu & om & im & p & tm & ma & mr & brs & t & v & l & ba & He & Hme & Hc & Him & Hop & _ & Hlt).
  destruct (menu_index m im Him) as (index & Hidx & Hmenu); [by rewrite Hop|].
  rewrite Hm. cbn [operation_edges]. rewrite Hidx. cbn [of_option mbind result_bind].
  rewrite Him. cbn [of_option mbind result_bind]. rewrite Hop.
  destruct (Forall2_lookup_r _ _ _ _ _ Hr Hmenu) as (count & Hcount & Hb).
  rewrite Hcount. cbn [of_option mbind result_bind].
  pose proof (return_limit_forward pc i m im p tm ma mr brs t v l ba Hi Hm Him Hop) as Hl.
  assert (l < length code) as Hll.
  { apply (target_forward m im); [done|]. rewrite Hop. cbn. set_solver. }
  assert (m < length code) as Hml by (by apply lookup_lt_Some in Him).
  pose proof (lookup_lt_Some _ _ _ Hi) as Hpc.
  unfold menu_returns_bound in Hb. rewrite Hop in Hb.
  case_bool_decide as Hcnt; eexists; (split; [done|]); intros e ->%list_elem_of_singleton;
  unfold tape_ok, tape_measure; cbn [fst snd].
  + assert (returns_ok code (<[index:=(count + 1)%Z]> returns)) as Hr'.
  { unfold returns_ok. rewrite <- (list_insert_id (menus code) index im) by done.
  apply Forall2_insert; [done|]. unfold menu_returns_bound. rewrite Hop. lia. }
  split; [done|]. pose proof (returns_ok_sum _ _ Hr') as Hs. pose proof (returns_ok_sum _ _ Hr) as Hs'.
  unfold used in *. rewrite (foldr_add_insert _ _ count) in * by done.
  set (S0 := foldr Z.add 0%Z returns) in *.
  assert (total_returns code - Z.to_nat S0 = S (total_returns code - Z.to_nat (S0 - count + (count + 1)))) as -> by lia.
  lia.
  + split; [done|]. lia.
  - assert (∃ es', operation_edges durations code (iop i) returns = Ok es') as [es' Hes'].
  { destruct (iop i); try (by eexists). by destruct (Hnot menu_pc). }
  exists es'. split; [done|]. intros e He.
  destruct (operation_edges_forward _ _ _ _ _ Hes' Hnot e He) as [Ht Hr'].
  pose proof (target_forward pc i _ Hi Ht). destruct e as [w [t r]]. cbn [fst snd] in *. subst r.
  unfold tape_ok, tape_measure. cbn [fst snd]. split; [split; [lia|done]|lia].
Qed.

Lemma initial_returns_ok : returns_ok code (replicate (length (collect_pcs code)) 0%Z).
Proof using Type.
  unfold returns_ok, collect_pcs. rewrite length_fmap. fold (menus code).
  generalize (menus code) as ms. intros ms. induction ms; simpl; constructor; [lia|done].
Qed.

Definition initial_state : tape_state := (0, replicate (length (collect_pcs code)) 0%Z).

Lemma initial_ok : tape_ok initial_state.
Proof using emission.
  split; [|apply initial_returns_ok]. cbn. rewrite code_length, length_owned_entries. apply bsize_pos.
Qed.

Lemma initial_measure : tape_measure initial_state < cost_fuel code.
Proof using Type. unfold tape_measure, cost_fuel. fold (total_returns code). simpl. lia. Qed.

(** The cost search returns the length of a longest run. *)
Lemma session_longest cycle :
  ∃ m, maximum_cost cycle durations code (cost_fuel code) [] 0 (replicate (length (collect_pcs code)) 0%Z) = Ok m
  ∧ longest durations code initial_state m.
Proof using emission ids compiles valid.
  apply (maximum_cost_longest durations code cycle tape_ok tape_measure tape_progress
  (cost_fuel code) [] initial_state);
  [apply initial_ok|apply initial_measure|intros a []%elem_of_nil].
Qed.
End Code.
End Correct.

(** ** Instructions take no negative time *)

Definition op_fields (op : operation) : Prop :=
  match op with
  | OpCollect _ timeout_ms attempts _ _ _ _ _ _ => (0 ≤ timeout_ms ∧ 0 ≤ attempts)%Z
  | OpRecord maximum_duration_ms _ _ _ => (0 ≤ maximum_duration_ms)%Z
  | OpExternal _ answer_timeout_ms _ _ _ => (0 ≤ answer_timeout_ms)%Z
  | _ => True
  end.

Lemma in_range_spec lo hi x : in_range lo hi x = true ↔ (lo ≤ x ≤ hi)%Z.
Proof. apply bool_decide_eq_true. Qed.

Lemma emit_operation_fields counter rb wb b o op :
  block_fields b = true → recording_fields rb = true →
  emit_operation counter rb wb b o = Ok op → op_fields op.
Proof.
  unfold block_fields, recording_fields. intros Hb Hr H.
  apply andb_true_iff in Hr as [Hr%in_range_spec _]. apply andb_true_iff in Hb as [_ Hb].
  destruct b; cbn [emit_operation] in H; inv_result; cbn [op_fields]; try done.
  - rewrite !andb_true_iff, !in_range_spec in Hb. lia.
  - lia.
  - rewrite andb_true_iff, in_range_spec in Hb. lia.
Qed.

Lemma prompt_duration_nonneg durations p :
  map_Forall (λ _ d, 0 ≤ d)%Z durations → (0 ≤ prompt_duration durations p)%Z.
Proof.
  intros Hd. unfold prompt_duration. destruct p as [i|]; [|done]. simpl.
  destruct (durations !! i) as [d|] eqn:E; [|done]. by apply (Hd i).
Qed.

Lemma operation_edges_nonneg durations code op returns es e :
  map_Forall (λ _ d, 0 ≤ d)%Z durations → op_fields op →
  operation_edges durations code op returns = Ok es → e ∈ es → (0 ≤ e.1)%Z.
Proof.
  intros Hd Hf H He. pose proof (prompt_duration_nonneg durations) as Hp.
  destruct op as [p n|p tm ma mr brs pt pv pl ba|sc o c h|m| |d k n u|ph ans n nc sf];
    cbn [operation_edges op_fields] in *; inv_result.
  - apply list_elem_of_singleton in He as ->. by apply Hp.
  - apply list_elem_of_fmap in He as (t & -> & _). cbn. specialize (Hp p Hd). nia.
  - rewrite !elem_of_cons, elem_of_nil in He. destruct He as [->|[->|[->|[]]]]; cbn; lia.
  - destruct (iop _) in H; try done. inv_result. revert H.
    case_bool_decide; intros [= <-]; apply list_elem_of_singleton in He as ->; cbn; lia.
  - by apply elem_of_nil in He.
  - rewrite !elem_of_cons, elem_of_nil in He. unfold BEEP_DURATION_MS in He.
    destruct He as [->|[->|[]]]; cbn; lia.
  - rewrite !elem_of_cons, elem_of_nil in He. unfold EXTERNAL_CONTROL_WATCHDOGS_MS in He.
    destruct He as [->|[->|[->|[]]]]; cbn; lia.
Qed.

(** ** The compilers *)

(** The tape of a compiled document: one instruction per block, in preorder. *)
Record emitted (ver : version) (root : block) (rb : RecordingBehavior) (version : string)
    (code : list instruction) : Prop := {
  em_ids : NoDup (block_ids root);
  em_compilable : compilable ver None false root;
  em_version : version = choose_compiler_version ver (owned_entries root None);
  em_code : mapM (emit (program_counter (owned_entries root None)) rb (bool_decide (version = "4.1.0")))
              (imap pair (owned_entries root None)) = Ok code;
}.

Lemma emit_program_ok ver root rb version code :
  emit_program ver root rb = Ok (version, code) ↔ emitted ver root rb version code.
Proof.
  unfold emit_program. rewrite result_bind_ok. split.
  - intros (s & Hs & H). apply collect_initial in Hs as (Hc & Hids & ->).
    apply result_bind_ok in H as (code' & Hcode & [= <- <-]). split; done.
  - intros [Hids Hc -> Hcode]. eexists. split; [by apply collect_initial|].
    cbn [entries]. rewrite Hcode. done.
Qed.

Lemma emit_program_total ver root rb :
  compilable ver None false root → NoDup (block_ids root) →
  ∃ version code, emitted ver root rb version code.
Proof.
  intros Hc Hids. destruct (emission_total ver root rb
    (bool_decide (choose_compiler_version ver (owned_entries root None) = "4.1.0")) Hids Hc) as [code Hcode].
  do 2 eexists. split; done.
Qed.

Lemma emitted_ids ver root rb version code :
  emitted ver root rb version code → iblock_id <$> code = block_ids root.
Proof.
  intros [Hids Hc -> Hcode]. rewrite <- (owned_entries_ids root None).
  apply list_eq. intros k. rewrite !list_lookup_fmap. destruct (code !! k) as [i|] eqn:E; simpl.
  - destruct (code_lookup root rb _ code Hcode k i E) as (b & o & -> & _ & -> & _). done.
  - rewrite (lookup_ge_None_2 (owned_entries root None)); [done|].
    rewrite <- (code_length root rb _ code Hcode). by apply lookup_ge_None_1.
Qed.

Lemma emitted_edges_nonneg ver root rb version code durations :
  emitted ver root rb version code → flow_fields root = true → recording_fields rb = true →
  map_Forall (λ _ d, 0 ≤ d)%Z durations →
  ∀ st es (e : Z * tape_state), tape_edges durations code st = Ok es → e ∈ es → (0 ≤ e.1)%Z.
Proof.
  intros [Hids Hc -> Hcode] Hf Hr Hd st es e Hes He. unfold tape_edges in Hes. inv_result.
  match goal with H : code !! _ = Some ?i |- _ =>
    destruct (code_lookup root rb _ code Hcode _ i H) as (b & o & Hb & _ & _ & Hop) end.
  eapply operation_edges_nonneg; [done| |done|done].
  eapply emit_operation_fields; [|done|done].
  unfold flow_fields in Hf. rewrite forallb_forall in Hf. apply Hf.
  apply list_elem_of_In. rewrite <- (annot_fst down_owner root None).
  apply list_elem_of_fmap. exists (b, o). split; [done|]. by eapply list_elem_of_lookup_2.
Qed.

Definition too_long : exn := ValueError "Worst-case flow duration exceeds the ten-minute limit.".

Lemma session_bound_ok ver durations code m :
  session_bound ver durations code = Ok (Some m) ↔
  ver ≠ V2 ∧ maximum_cost (cycle_error ver) durations code (cost_fuel code) [] 0
    (replicate (length (collect_pcs code)) 0%Z) = Ok m ∧ (m ≤ MAXIMUM_SESSION_MS)%Z.
Proof.
  unfold session_bound. generalize (maximum_cost (cycle_error ver) durations code (cost_fuel code) [] 0
    (replicate (length (collect_pcs code)) 0%Z)) as cost. intros cost.
  assert ((m' ← cost; if bool_decide (MAXIMUM_SESSION_MS < m')%Z then Raise too_long else Ok (Some m'))
    = Ok (Some m) ↔ cost = Ok m ∧ (m ≤ MAXIMUM_SESSION_MS)%Z) as E.
  { destruct cost as [m'|e]; cbn [mbind result_bind]; [|by split; [|intros []]].
    case_bool_decide; split; try done; [intros [[= ->] ?]; lia| |by intros [[= ->] _]].
    intros [= ->]. split; [done|lia]. }
  destruct ver; cbn [cycle_error]; [by split; [|intros []]|..]; unfold too_long in E; rewrite E;
    (split; [done|by intros [_ ?]]).
Qed.

Lemma compile_document_ok ver root rb durations c :
  compile_document ver (Some root) rb durations = Ok c ↔
  ∃ version code bound, emitted ver root rb version code ∧ session_bound ver durations code = Ok bound
    ∧ c = {| compiler_version := version;
             compiled_program := {| pversion := version_number ver; entry_pc := 0;
                                    session_ms := bound; instructions := code |} |}.
Proof.
  unfold compile_document. rewrite result_bind_ok. split.
  - intros ([version code] & He & H). apply result_bind_ok in H as (bound & Hb & [= <-]).
    apply emit_program_ok in He. eauto 10.
  - intros (version & code & bound & He & Hb & ->). exists (version, code).
    split; [by apply emit_program_ok|]. rewrite Hb. done.
Qed.

(** ** Nothing runs out of fuel *)

Lemma ccheck_not_fuel ver b o n : ccheck ver b o n ≠ Some OutOfFuel.
Proof. destruct b; cbn [ccheck]; repeat case_match; done. Qed.

Lemma foldM_raise {A B} (f : A → B → result A) l e : ∀ a,
  foldM f a l = Raise e → ∃ a' x, x ∈ l ∧ f a' x = Raise e.
Proof.
  induction l as [|x l IH]; intros a; [done|]. cbn [foldM].
  intros [H|(a' & _ & H)]%result_bind_raise.
  - exists a, x. split; [by left|done].
  - destruct (IH _ H) as (a'' & y & Hy & Hr). exists a'', y. split; [by right|done].
Qed.

Lemma collect_not_fuel ver b : ∀ o n s, collect ver b o n s ≠ Raise OutOfFuel.
Proof.
  induction b as [b IH] using block_ind_children. intros o n s. rewrite collect_unfold.
  intros [H|(s1 & _ & H)]%result_bind_raise; [unfold enter in H; by case_bool_decide|].
  destruct (ccheck ver b o n) eqn:Hc; [injection H as ->; by apply ccheck_not_fuel in Hc|].
  apply foldM_raise in H as (s2 & [m [c|]] & Hj & H); [|done].
  apply (IH c) in H; [done|]. by eapply job_child.
Qed.

Lemma pc_of_not_fuel counter o : pc_of counter o ≠ Raise OutOfFuel.
Proof. destruct o as [c|]; [|done]. cbn. by destruct (counter !! _). Qed.

Lemma emit_not_fuel counter rb wb e : emit counter rb wb e ≠ Raise OutOfFuel.
Proof.
  destruct e as [k [b o]]. cbn [emit]. intros [H|(? & _ & ?)]%result_bind_raise; [|done]. revert H.
  destruct b; cbn [emit_operation];
    repeat (intros [H|(? & _ & H)]%result_bind_raise; [try by apply pc_of_not_fuel in H|revert H]); try done.
  - apply mapM_result_raise in H as (br & _ & H). apply result_bind_raise in H as [H|(? & _ & ?)]; [|done].
    by apply pc_of_not_fuel in H.
  - match type of H with of_option _ ?x = _ => by destruct x end.
Qed.

Lemma emit_program_not_fuel ver root rb : emit_program ver root rb ≠ Raise OutOfFuel.
Proof.
  intros [H|(s & _ & H)]%result_bind_raise; [by apply collect_not_fuel in H|].
  apply result_bind_raise in H as [H|(? & _ & ?)]; [|done].
  apply mapM_result_raise in H as (e & _ & H). by apply emit_not_fuel in H.
Qed.

Lemma session_bound_not_fuel ver root rb version code durations :
  emitted ver root rb version code → session_bound ver durations code ≠ Raise OutOfFuel.
Proof.
  intros [Hids Hc -> Hcode] H.
  assert (maximum_cost (cycle_error ver) durations code (cost_fuel code) [] 0
    (replicate (length (collect_pcs code)) 0%Z) ≠ Raise OutOfFuel) as Hm.
  { apply maximum_cost_initial_fuel; [done|]. by apply (code_numbered root rb _ code Hcode). }
  unfold session_bound in H. destruct ver; [done|..];
    apply result_bind_raise in H as [H|(m & _ & H)]; try done; by case_bool_decide.
Qed.

(** ** Properties *)

(** C2 Every publishable flow compiles: the tape has one instruction per block, in
    preorder; the longest run of the tape is finite, and a V3 or V4 program is
    rejected only when that run exceeds ten minutes, and is otherwise stamped
    with its length. *)
Theorem publishable_compiles ver zi configuration known sizes limit root durations :
  publishable ver zi configuration known sizes limit root →
  ∃ version code m, iblock_id <$> code = block_ids root ∧ longest durations code (initial_state code) m
    ∧ compile_document ver (flow configuration) (recording_behavior configuration) durations =
      if bool_decide (ver ≠ V2 ∧ MAXIMUM_SESSION_MS < m)%Z then Raise too_long
      else Ok {| compiler_version := version;
                 compiled_program := {| pversion := version_number ver; entry_pc := 0;
                                        session_ms := if bool_decide (ver = V2) then None else Some m;
                                        instructions := code |} |}.
Proof.
  intros [Hflow _ _ Hv Hids _ _ _ _].
  pose proof (valid_at_compilable _ _ _ _ _ Hv) as Hc.
  destruct (emit_program_total ver root (recording_behavior configuration) Hc Hids) as (version & code & He).
  pose proof He as [_ _ -> Hcode].
  destruct (session_longest ver root _ _ Hids Hc code Hcode _ _ Hv durations (cycle_error ver)) as (m & Hm & Hl).
  do 2 eexists. exists m. split; [by eapply emitted_ids|]. split; [done|].
  rewrite Hflow. unfold compile_document. rewrite (proj2 (emit_program_ok _ _ _ _ _) He).
  cbn [mbind result_bind]. unfold session_bound, too_long. destruct ver; [done|..]; rewrite Hm;
    cbn [mbind result_bind]; repeat case_bool_decide; tauto || done.
Qed.

(** A compiled program jumps forward, within the program, to the blocks its
    block owns; only a return goes back, to a menu that precedes it. *)
Theorem compiled_jumps ver root rb durations c k i :
  compile_document ver (Some root) rb durations = Ok c →
  instructions (compiled_program c) !! k = Some i →
  ipc i = k
  ∧ (∀ t, t ∈ op_targets (iop i) → k < t < length (instructions (compiled_program c)))
  ∧ (∀ m, iop i = OpReturn m → m < k
      ∧ ∃ menu, instructions (compiled_program c) !! m = Some menu ∧ is_op_collect (iop menu) = true).
Proof.
  intros (version & code & bound & [Hids Hc -> Hcode] & _ & ->)%compile_document_ok. simpl. intros Hi.
  split; [by eapply (code_numbered root rb)|]. split.
  - intros t Ht. by eapply (target_forward ver root rb).
  - intros m Hm. destruct (return_menu root rb _ Hids code Hcode k i m Hi Hm)
      as (r & menu & om & im & p & tm & ma & mr & brs & t & v & l & ba & _ & _ & _ & Him & Hop & _ & Hlt).
    split; [done|]. exists im. split; [done|]. by rewrite Hop.
Qed.

(** C3 The session length of a compiled V3 or V4 program is the length of a longest
    run of its tape, is within ten minutes, and bounds every partial run. *)
Theorem session_length_sound ver root rb durations c m :
  compile_document ver (Some root) rb durations = Ok c →
  session_ms (compiled_program c) = Some m →
  flow_fields root = true → recording_fields rb = true → map_Forall (λ _ d, 0 ≤ d)%Z durations →
  let code := instructions (compiled_program c) in
  longest durations code (initial_state code) m ∧ (m ≤ 600000)%Z
  ∧ ∀ st t, tape_run durations code (initial_state code) st t → (t ≤ m)%Z.
Proof.
  intros (version & code & bound & He & Hb & ->)%compile_document_ok. simpl. intros -> Hf Hr Hd.
  apply session_bound_ok in Hb as (_ & Hm & Hle). split_and!; [|done|].
  - by eapply (maximum_cost_ok_longest durations code _ _ [] (initial_state code)).
  - eapply (maximum_cost_ok_bounds durations code _ _ [] (initial_state code) m); [|exact Hm].
    by eapply emitted_edges_nonneg.
Qed.

(** The compilers always produce a program or a Python exception: their cost
    search never exhausts its fuel, even on flows that were not validated. *)
Theorem compile_never_out_of_fuel ver root rb durations :
  compile_document ver root rb durations ≠ Raise OutOfFuel.
Proof.
  destruct root as [root|]; [|done]. unfold compile_document.
  intros [H|([version code] & He & H)]%result_bind_raise; [by apply emit_program_not_fuel in H|].
  apply emit_program_ok in He. apply result_bind_raise in H as [H|(? & _ & ?)]; [|done].
  by eapply session_bound_not_fuel.
Qed.

(** ** Witnesses *)

Lemma publishable_compiles_witness :
  ∃ (version : string) code m, iblock_id <$> code = block_ids example_v4
    ∧ longest example_durations code (initial_state code) m.
Proof.
  destruct (publishable_compiles V4 example_zones (example_document example_v4) example_prompts example_sizes
    (128 * MIB) example_v4 example_durations example_v4_publishable) as (version & code & m & Hids & Hl & _).
  exists version, code, m. split; [exact Hids|exact Hl].
Defined.

Definition example_compiled : compiled :=
  match compile_document V4 (Some example_v4) default_recording_behavior example_durations with
  | Ok c => c
  | Raise _ => {| compiler_version := ""; compiled_program :=
      {| pversion := 0; entry_pc := 0; session_ms := None; instructions := [] |} |}
  end.

Lemma compiled_jumps_witness :
  instructions (compiled_program example_compiled) !! 9
    = Some {| ipc := 9; iblock_id := uuid "07"; iop := OpReturn 3 |} ∧ 3 < 9.
Proof.
  assert (instructions (compiled_program example_compiled) !! 9
    = Some {| ipc := 9; iblock_id := uuid "07"; iop := OpReturn 3 |}) as Hi by (vm_compute; reflexivity).
  split; [exact Hi|].
  destruct (compiled_jumps V4 example_v4 default_recording_behavior example_durations example_compiled 9 _
    ltac:(vm_compute; reflexivity) Hi) as (_ & _ & H).
  by apply H.
Defined.

Lemma session_length_sound_witness :
  session_ms (compiled_program example_compiled) = Some 117000%Z ∧
  ∀ st t, tape_run example_durations (instructions (compiled_program example_compiled))
    (initial_state (instructions (compiled_program example_compiled))) st t → (t ≤ 117000)%Z.
Proof.
  split; [vm_compute; reflexivity|].
  apply (session_length_sound V4 example_v4 default_recording_behavior example_durations example_compiled 117000%Z).
  - vm_compute. reflexivity.
  - vm_compute. reflexivity.
  - vm_compute. reflexivity.
  - vm_compute. reflexivity.
  - apply map_Forall_to_list. vm_compute. repeat constructor; discriminate.
Defined.
