(* ===== verification/Simulator.v ===== *)
(** * The flow simulators

    [simulate] of [simulation_v2.py], [simulate_v3] of [simulation_v3.py] and
    [simulate_v4] of [simulation_v4.py]: a loop of at most 512 transitions over
    the owned tree, driven by a list of events, with the menu returns counted
    per menu.  The three functions differ in the block types they know. *)
From stdpp Require Import base gmap sets strings numbers pretty list.
From S2P Require Import Prelude FlowTree Schemas Validation Compiler.

(** ** Results *)

Inductive sim_status : Type :=
| complete | invalid | awaiting_schedule | awaiting_input | awaiting_recording | awaiting_external.
#[global] Instance sim_status_eq_dec : EqDecision sim_status.
Proof. solve_decision. Defined.

(** An entry of the trace; [sprompt] is absent for blocks without a prompt. *)
Record sim_entry := {
  sblock_id : string;
  stype : string;
  slabel : string;
  sprompt : option (option string);
  sevent : option string;
}.

Record sim_result := {
  status : sim_status;
  trace : list sim_entry;
  message : string;
  awaiting_block_id : option string;
  available : list string;
}.

Definition new_entry (b : block) : sim_entry :=
  {| sblock_id := block_id b; stype := block_type b; slabel := block_label b;
     sprompt := match b with
                | PlayPrompt _ p _ | CollectDigit _ p _ _ _ _ _ _ _ _ => Some p
                | _ => None
                end;
     sevent := None |}.

(** [trace[-1]["event"] = event] *)
Definition with_event (event : string) (e : sim_entry) : sim_entry :=
  {| sblock_id := sblock_id e; stype := stype e; slabel := slabel e; sprompt := sprompt e;
     sevent := Some event |}.

(** ** The tables built before the loop *)

(** [{block.block_id: block for block, _ in walk_blocks(root)}] *)
Definition block_table (root : block) : gmap string block :=
  foldl (λ m p, <[block_id p.1 := p.1]> m) ∅ (walk_blocks (Some root)).

Fixpoint index_owners (ver : version) (b : block) (owner : option string)
    (return_owners : gmap string string) {struct b} : gmap string string :=
  let child (owner : option string) (acc : gmap string string) (o : option block) :=
    match o with Some c => index_owners ver c owner acc | None => acc end in
  match b with
  | PlayPrompt _ _ nxt => child owner return_owners nxt
  | CollectDigit i _ _ _ _ _ brs t v l =>
      let acc := foldl (λ acc br,
        match br with DigitBranch _ _ r => child (Some i) acc r end) return_owners brs in
      child (Some i) (child (Some i) (child (Some i) acc t) v) l
  | ScheduleBranch _ _ o c h => child owner (child owner (child owner return_owners o) c) h
  | RecordMessage _ nxt u =>
      if supports_record ver then child owner (child owner return_owners nxt) u else return_owners
  | ExternalCall _ _ _ nxt nc sf =>
      if supports_external ver
      then child owner (child owner (child owner return_owners nxt) nc) sf else return_owners
  | ReturnToMenu i =>
      match owner with Some m => <[i := m]> return_owners | None => return_owners end
  | EndCall _ => return_owners
  end.

(** ** The loop *)

Record sim_state := {
  strace : list sim_entry;
  event_index : nat;
  menu_returns : gmap string Z;
  current : block;
}.

Definition schedule_target (state : string) (o c h : option block) : option block :=
  if bool_decide (state = "open") then o
  else if bool_decide (state = "closed") then c
  else if bool_decide (state = "holiday") then h else None.

Definition EXTERNAL_OUTCOMES : list string :=
  ["external_completed"; "external_not_connected"; "external_system_failure"].

Definition external_target (outcome : string) (nxt nc sf : option block) : option block :=
  if bool_decide (outcome = "external_completed") then nxt
  else if bool_decide (outcome = "external_not_connected") then nc
  else if bool_decide (outcome = "external_system_failure") then sf else None.

(** [{branch.digit: branch for branch in branches}.get(event)]: the last branch
    with the digit. *)
Definition branch_by_digit (brs : list branch) (event : string) : option branch :=
  last (filter (λ br, dtmf_str (branch_digit br) = event) brs).

(** [sorted(branch_by_digit)]: in code point order, [#] and [*] come first. *)
Definition sorted_digits (brs : list branch) : list string :=
  dtmf_str <$> filter (λ d, d ∈ branch_digit <$> brs)
    [KHash; KStar; K0; K1; K2; K3; K4; K5; K6; K7; K8; K9].

Definition schedule_error (ver : version) (state : string) : string :=
  match ver with
  | V2 => "Unknown or empty schedule result: " +:+ state +:+ "."
  | _ => "Unknown schedule result: " +:+ state +:+ "."
  end.

(** The outcome of the attempts of a menu. *)
Inductive digit_outcome : Type :=
| digit_waiting (attempt : nat) (event : option string)
| digit_routed (index : nat) (event : option string) (routed : option block).

Section Loop.
Context (ver : version) (events : list string)
  (blocks : gmap string block) (return_owners : gmap string string).

(** [for attempt in range(maximum_attempts)], with [remaining] attempts to go. *)
Fixpoint attempts (brs : list branch) (t v : option block) (maximum remaining : nat)
  (index : nat) (event : option string) : digit_outcome :=
  match remaining with
  | 0 => digit_routed index event None
  | S remaining =>
    let attempt := maximum - S remaining in
    match events !! index with
    | None => digit_waiting attempt event
    | Some e =>
        match branch_by_digit brs e with
        | Some br => digit_routed (S index) (Some ("digit:" +:+ e)) (branch_root br)
        | None =>
            if bool_decide (e = "timeout") then
              if bool_decide (attempt + 1 = maximum)
              then digit_routed (S index) (Some "timeout") t
              else attempts brs t v maximum remaining (S index) (Some "timeout")
            else
              if bool_decide (attempt + 1 = maximum)
              then digit_routed (S index) (Some "invalid") v
              else attempts brs t v maximum remaining (S index) (Some "invalid")
        end
    end
  end.

Definition finish (st : sim_status) (tr : list sim_entry) (msg : string) : sim_state + sim_result :=
  inr {| status := st; trace := tr; message := msg; awaiting_block_id := None; available := [] |}.
Definition await (st : sim_status) (tr : list sim_entry) (b : block) (options : list string)
  (msg : string) : sim_state + sim_result :=
  inr {| status := st; trace := tr; message := msg; awaiting_block_id := Some (block_id b);
       available := options |}.
Definition continue (tr : list sim_entry) (index : nat) (returns : gmap string Z) (b : block)
  : sim_state + sim_result :=
  inl {| strace := tr; event_index := index; menu_returns := returns; current := b |}.

(** One iteration of the loop body. *)
Definition sim_step (s : sim_state) : sim_state + sim_result :=
  let b := current s in
  let index := event_index s in
  let returns := menu_returns s in
  let plain := strace s ++ [new_entry b] in
  let noted event := strace s ++ [with_event event (new_entry b)] in
  match b with
  | PlayPrompt _ _ nxt =>
    match nxt with
    | None => finish invalid plain "Play prompt has no next step."
    | Some c => continue plain index returns c
    end
  | EndCall _ => finish complete plain "Call ended."
  | RecordMessage _ nxt u =>
    if supports_record ver then
      match events !! index with
      | None => await awaiting_recording plain b ["recorded"; "unavailable"; "hangup"]
                  "Choose how this explicit recording step finishes."
      | Some outcome =>
          let tr := noted ("recording:" +:+ outcome) in
          if bool_decide (outcome = "hangup")
          then finish complete tr "Caller hangup finalized the message and ended the call."
          else
            match (if bool_decide (outcome = "recorded") then nxt
                   else if bool_decide (outcome = "unavailable") then u else None) with
            | None => finish invalid tr ("Unknown or empty recording outcome: " +:+ outcome +:+ ".")
            | Some c => continue tr (S index) returns c
            end
      end
    else continue plain index returns b
  | ExternalCall _ _ _ nxt nc sf =>
    if supports_external ver then
      match events !! index with
      | None => await awaiting_external plain b EXTERNAL_OUTCOMES
                  "Choose the verified external-call outcome."
      | Some outcome =>
          match external_target outcome nxt nc sf with
          | None => finish invalid plain ("Unknown or empty external-call outcome: " +:+ outcome +:+ ".")
          | Some c => continue (noted outcome) (S index) returns c
          end
      end
    else continue plain index returns b
  | ReturnToMenu i =>
    let owner := blocks !! default "" (return_owners !! i) in
    match owner with
    | Some ((CollectDigit m _ _ _ _ maximum_menu_returns _ _ _ on_return_limit) as menu) =>
        let count := default 0%Z (returns !! m) in
        if bool_decide (maximum_menu_returns ≤ count)%Z then
          match on_return_limit with
          | None => finish invalid (noted "menu-return:limit") "Menu return limit has no fallback."
          | Some c => continue (noted "menu-return:limit") index returns c
          end
        else
          continue (noted ("menu-return:" +:+ pretty (count + 1)%Z +:+ "/" +:+ pretty maximum_menu_returns))
            index (<[m := (count + 1)%Z]> returns) menu
    | _ => finish invalid plain "Return to menu has no owning menu."
    end
  | ScheduleBranch _ _ o c h =>
    match events !! index with
    | None => await awaiting_schedule plain b ["open"; "closed"; "holiday"]
                "Choose the schedule result for this simulation."
    | Some state =>
        match schedule_target state o c h with
        | None => finish invalid plain (schedule_error ver state)
        | Some target => continue (noted ("schedule:" +:+ state)) (S index) returns target
        end
    end
  | CollectDigit _ _ _ _ maximum_attempts _ brs t v _ =>
    let maximum := Z.to_nat maximum_attempts in
    match attempts brs t v maximum maximum index None with
    | digit_waiting attempt event =>
        let tr := match event with Some e => noted e | None => plain end in
        await awaiting_input tr b (sorted_digits brs)
          ("Waiting for attempt " +:+ pretty (attempt + 1) +:+ " of " +:+ pretty maximum_attempts +:+ ".")
    | digit_routed index event routed =>
        let tr := match event with Some e => noted e | None => plain end in
        match routed with
        | None => finish invalid tr "The selected branch is empty."
        | Some c => continue tr index returns c
        end
    end
  end.

Fixpoint sim_loop (fuel : nat) (s : sim_state) : sim_result :=
  match fuel with
  | 0 => {| status := invalid; trace := strace s; message := "Simulation exceeded 512 transitions.";
          awaiting_block_id := None; available := [] |}
  | S fuel =>
    match sim_step s with
    | inl s => sim_loop fuel s
    | inr r => r
    end
  end.
End Loop.

Definition initial_sim (root : block) : sim_state :=
  {| strace := []; event_index := 0; menu_returns := ∅; current := root |}.

Definition simulate (ver : version) (root : option block) (events : list string) : sim_result :=
  match root with
  | None => {| status := invalid; trace := []; message := "The flow is empty.";
               awaiting_block_id := None; available := [] |}
  | Some root =>
      sim_loop ver events (block_table root) (index_owners ver root None ∅) 512 (initial_sim root)
  end.

Definition simulate_v2 := simulate V2.
Definition simulate_v3 := simulate V3.
Definition simulate_v4 := simulate V4.
