(* ===== verification/SimulatorFacts.v ===== *)
(** * Facts about the simulators

    The tables built before the loop are those of the owned tree, and an
    iteration of the loop moves to a child, back to the owning menu, or to the
    return-limit path of that menu. *)
From stdpp Require Import base gmap sets strings numbers pretty list.
From S2P Require Import Prelude FlowTree Schemas Validation Compiler CompilerFacts Layout Simulator.

(** ** The block table *)

Lemma block_table_foldl (l : list (block * nat)) m i b :
  NoDup (block_id <$> l.*1) → (∀ j, j ∈ block_id <$> l.*1 → m !! j = None) →
  foldl (λ (m : gmap string block) p, <[block_id p.1 := p.1]> m) m l !! i = Some b ↔
  m !! i = Some b ∨ b ∈ l.*1 ∧ block_id b = i.
Proof.
  revert m. induction l as [|[c d] l IH]; intros m Hnd Hm; csimpl in *.
  { rewrite elem_of_nil. naive_solver. }
  apply NoDup_cons in Hnd as [Hc Hnd]. rewrite IH; [|done|].
  - rewrite lookup_insert_Some, elem_of_cons. split.
    + intros [[[<- <-]|[Hne ?]]|[? ?]]; auto.
    + intros [?|[[->|?] <-]]; auto. left. right. split; [|done].
      intros <-. rewrite Hm in H; [done|by left].
  - intros j Hj. rewrite lookup_insert_ne by (by intros <-). apply Hm. by right.
Qed.

Lemma block_table_lookup root i b :
  NoDup (block_ids root) → block_table root !! i = Some b ↔ b ∈ preorder root ∧ block_id b = i.
Proof.
  intros Hnd. unfold block_table. rewrite block_table_foldl; rewrite walk_blocks_fst;
    [|done|intros; apply lookup_empty].
  rewrite lookup_empty. naive_solver.
Qed.

(** ** The owners of the returns *)

(** The blocks that [ver] has code for. *)
Definition known_block (ver : version) (b : block) : bool :=
  (negb (is_record b) || supports_record ver) && (negb (is_external b) || supports_external ver).

Lemma ccheck_known ver b o n : ccheck ver b o n = None → known_block ver b = true.
Proof.
  unfold known_block. destruct b; cbn [ccheck is_record is_external]; try done.
  - by destruct (supports_record ver).
  - by destruct (supports_external ver).
Qed.

(** [index_owners] as a fold over the children, in its own order. *)
Lemma index_owners_unfold ver b o acc :
  known_block ver b = true →
  index_owners ver b o acc =
  foldl (λ acc c, index_owners ver c (down_owner b o) acc)
    (match b, o with ReturnToMenu i, Some m => <[i := m]> acc | _, _ => acc end) (pushed_children b).
Proof.
  intros Hk. destruct b as [i p nxt|i p a tm ma mr brs t v l|i sc op c h|i|i|i nxt u|i ph tm nxt nc sf];
    cbn [index_owners pushed_children]; unfold down_owner; cbn [is_collect block_id].
  - by destruct nxt.
  - rewrite foldl_app.
    assert (∀ acc, foldl (λ acc br, match br with DigitBranch _ _ r =>
        match r with Some c => index_owners ver c (Some i) acc | None => acc end end) acc brs
      = foldl (λ acc c, index_owners ver c (Some i) acc) acc (omap branch_root brs)) as ->.
    { clear. induction brs as [|[bi d [r|]] brs IH]; intros acc; csimpl; [done|..]; apply IH. }
    by destruct t, v, l.
  - by destruct op, c, h.
  - by destruct o.
  - done.
  - unfold known_block in Hk. cbn in Hk. destruct (supports_record ver); [|done]. by destruct nxt, u.
  - unfold known_block in Hk. cbn in Hk. destruct (supports_external ver); [|done]. by destruct nxt, nc, sf.
Qed.

Section Owners.
Context (ver : version).

Definition all_known (b : block) : Prop := ∀ c, c ∈ preorder b → known_block ver c = true.

Lemma all_known_child b c : all_known b → c ∈ children b → all_known c.
Proof. intros H Hc d Hd. apply H. apply elem_of_preorder. eauto. Qed.

Definition owners_spec (b : block) : Prop := ∀ o acc r m,
  (index_owners ver b o acc !! r = Some m → acc !! r = Some m ∨ (ReturnToMenu r, Some m) ∈ owned_entries b o)
  ∧ (is_Some (acc !! r) ∨ (ReturnToMenu r, Some m) ∈ owned_entries b o → is_Some (index_owners ver b o acc !! r)).

Lemma owners_fold cs o r m : ∀ acc,
  (∀ c, c ∈ cs → owners_spec c) →
  let res := foldl (λ acc c, index_owners ver c o acc) acc cs in
  (res !! r = Some m → acc !! r = Some m ∨ ∃ c, c ∈ cs ∧ (ReturnToMenu r, Some m) ∈ owned_entries c o)
  ∧ (is_Some (acc !! r) ∨ (∃ c, c ∈ cs ∧ (ReturnToMenu r, Some m) ∈ owned_entries c o) → is_Some (res !! r)).
Proof.
  induction cs as [|c cs IH]; intros acc H; csimpl.
  { split; [by left|]. intros [?|(? & ?%elem_of_nil & _)]; done. }
  destruct (H c ltac:(by left) o acc r m) as [Hc1 Hc2].
  destruct (IH (index_owners ver c o acc)) as [H1 H2]; [intros; apply H; by right|].
  split.
  - intros Hr. apply H1 in Hr as [Hr|(d & Hd & Hr)].
  + apply Hc1 in Hr as [?|?]; [by left|]. right. exists c. split; [by left|done].
  + right. exists d. split; [by right|done].
  - intros Hr. apply H2. destruct Hr as [Hr|(d & [->|Hd]%elem_of_cons & Hr)].
  + left. apply Hc2. by left.
  + left. apply Hc2. by right.
  + right. eauto.
Qed.

Lemma owners_ok b : all_known b → owners_spec b.
Proof.
  induction b as [b IH] using block_ind_children. intros Hk o acc r m.
  rewrite index_owners_unfold by apply Hk, preorder_self.
  set (acc' := match b, o with ReturnToMenu i, Some m => <[i := m]> acc | _, _ => acc end).
  destruct (owners_fold (pushed_children b) (down_owner b o) r m acc') as [H1 H2].
  { intros c Hc%elem_of_pushed_children. apply IH; [done|]. by eapply all_known_child. }
  rewrite owned_entries_unfold.
  assert (acc' !! r = Some m → acc !! r = Some m ∨ (b, o) = (ReturnToMenu r, Some m)) as Ha.
  { unfold acc'. destruct b; auto. destruct o as [m'|]; auto.
  intros [[-> ->]|[_ ?]]%lookup_insert_Some; auto. }
  assert (is_Some (acc !! r) ∨ (b, o) = (ReturnToMenu r, Some m) → is_Some (acc' !! r)) as Hb.
  { unfold acc'. intros [?|[= -> ->]]; [|rewrite lookup_insert_eq; by eexists].
  destruct b; auto. destruct o; auto. apply lookup_insert_is_Some'. by right. }
  rewrite elem_of_cons, elem_of_concat_fmap. split.
  - intros Hr. apply H1 in Hr as [Hr|(c & Hc & Hr)].
  + apply Ha in Hr as [?|E]; [by left|]. right. by left.
  + right. right. exists c. by rewrite <- elem_of_pushed_children.
  - intros Hr. apply H2. destruct Hr as [Hr|[E|(c & Hc & Hr)]].
  + left. apply Hb. by left.
  + left. apply Hb. by right.
  + right. exists c. by rewrite elem_of_pushed_children.
Qed.
End Owners.

(** ** Iterations of the loop *)

(** [c] is the start of a path that [b] may continue with on an event. *)
Definition routed (b c : block) : Prop :=
  match b with
  | PlayPrompt _ _ nxt => nxt = Some c
  | CollectDigit _ _ _ _ _ _ brs t v _ =>
      (∃ br, br ∈ brs ∧ branch_root br = Some c) ∨ t = Some c ∨ v = Some c
  | ScheduleBranch _ _ o cl h => o = Some c ∨ cl = Some c ∨ h = Some c
  | RecordMessage _ nxt u => nxt = Some c ∨ u = Some c
  | ExternalCall _ _ _ nxt nc sf => nxt = Some c ∨ nc = Some c ∨ sf = Some c
  | ReturnToMenu _ | EndCall _ => False
  end.

Lemma routed_child b c : routed b c → c ∈ children b.
Proof.
  rewrite children_perm.
  destruct b as [i p nxt|i p a tm ma mr brs t v l|i sc op cl h|i|i|i nxt u|i ph tm nxt nc sf];
    cbn [routed pushed_children]; try done.
  - intros ->. by left.
  - rewrite elem_of_app, !list_elem_of_omap. intros [(br & Hbr & Hc)|[Hc|Hc]].
    + left. eauto.
    + right. exists t. split; [by left|done].
    + right. exists v. split; [right; by left|done].
  - rewrite list_elem_of_omap. intros [Hc|[Hc|Hc]]; eexists; (split; [|exact Hc]); set_solver.
  - rewrite list_elem_of_omap. intros [Hc|Hc]; eexists; (split; [|exact Hc]); set_solver.
  - rewrite list_elem_of_omap. intros [Hc|[Hc|Hc]]; eexists; (split; [|exact Hc]); set_solver.
Qed.

Lemma attempts_routed events brs t v maximum remaining : ∀ index ev index' ev' c,
  attempts events brs t v maximum remaining index ev = digit_routed index' ev' (Some c) →
  (∃ br, br ∈ brs ∧ branch_root br = Some c) ∨ t = Some c ∨ v = Some c.
Proof.
  induction remaining as [|n IH]; intros index ev index' ev' c; cbn [attempts]; [done|].
  destruct (events !! index) as [e|]; [|done].
  destruct (branch_by_digit brs e) as [br|] eqn:Ebr.
  - intros [= _ _ H]. left. exists br. split; [|done]. unfold branch_by_digit in Ebr.
    apply last_Some_elem_of, list_elem_of_filter in Ebr. apply Ebr.
  - repeat case_bool_decide; first [by apply IH|intros [= _ _ ?]; auto].
Qed.

Section Steps.
Context (ver : version) (root : block) (events : list string).
Abbreviation es := (owned_entries root None).
Hypothesis ids : NoDup (block_ids root).
Hypothesis compiles : compilable ver None false root.

Abbreviation step := (sim_step ver events (block_table root) (index_owners ver root None ∅)).

Lemma entry_in_preorder k b o : es !! k = Some (b, o) → b ∈ preorder root.
Proof.
  intros Hk. rewrite <- (annot_fst down_owner root None). apply list_elem_of_fmap.
  exists (b, o). split; [done|]. by eapply list_elem_of_lookup_2.
Qed.

Lemma all_known_root : all_known ver root.
Proof using compiles.
  intros c Hc. rewrite <- (annot_fst down_owner root None) in Hc.
  apply list_elem_of_fmap in Hc as ([b o] & -> & Hb). apply list_elem_of_lookup in Hb as [k Hk].
  destruct (entry_compilable ver root k b o compiles Hk) as (n & [Hc _]). by eapply ccheck_known.
Qed.

Lemma owner_of_return k r m :
  es !! k = Some (ReturnToMenu r, Some m) → index_owners ver root None ∅ !! r = Some m.
Proof using compiles ids.
  intros Hk. destruct (owners_ok ver root all_known_root None ∅ r m) as [_ H].
  destruct H as [m' Hm']; [right; by eapply list_elem_of_lookup_2|].
  destruct (owners_ok ver root all_known_root None ∅ r m') as [H _].
  apply H in Hm' as Hin. rewrite lookup_empty in Hin. destruct Hin as [|Hin]; [done|].
  apply list_elem_of_lookup in Hin as [k' Hk'].
  destruct (position_unique root ids _ _ _ _ _ _ Hk Hk' eq_refl) as (_ & _ & [= ->]). done.
Qed.

(** An iteration at a block other than a return moves to a child. *)
Lemma step_routed s s' :
  known_block ver (current s) = true → (∀ r, current s ≠ ReturnToMenu r) → step s = inl s' →
  routed (current s) (current s') ∧ menu_returns s' = menu_returns s
  ∧ ∃ e, strace s' = strace s ++ [e] ∧ sblock_id e = block_id (current s)
    ∧ stype e = block_type (current s) ∧ sprompt e = sprompt (new_entry (current s)).
Proof using Type.
  clear ids compiles. unfold sim_step, finish, await, continue, known_block. intros Hk Hr.
  destruct (current s) as [i p nxt|i p a tm ma mr brs t v l|i sc op cl h|i|i|i nxt u|i ph tm nxt nc sf];
  cbn [routed is_record is_external negb orb andb] in *.
  - destruct nxt; [|done]. intros [= <-]. simpl. eauto 10.
  - destruct (attempts _ _ _ _ _ _ _ _) as [|index' ev' [c|]] eqn:E; [done| |done].
  apply attempts_routed in E. intros [= <-]. cbn. split; [done|]. split; [done|].
  destruct ev'; eexists; (split; [done|]); done.
  - destruct (events !! _) as [e|]; [|done]. unfold schedule_target.
  repeat case_bool_decide; destruct op, cl, h; try done; intros [= <-]; simpl; eauto 10.
  - by destruct (Hr i).
  - done.
  - destruct (supports_record ver); [|done]. destruct (events !! _) as [e|]; [|done].
  repeat case_bool_decide; destruct nxt, u; try done; intros [= <-]; simpl; eauto 10.
  - destruct (supports_external ver); [|done]. destruct (events !! _) as [e|]; [|done].
  unfold external_target.
  repeat case_bool_decide; destruct nxt, nc, sf; try done; intros [= <-]; simpl; eauto 10.
Qed.

(** An iteration at a return of the tree. *)
Lemma step_return k r m s :
  es !! k = Some (ReturnToMenu r, Some m) → current s = ReturnToMenu r →
  ∃ km om p a tm ma mr brs t v l c e,
  let menu := CollectDigit m p a tm ma mr brs t v l in
  let count := default 0%Z (menu_returns s !! m) in
  es !! km = Some (menu, om) ∧ km < k < km + bsize menu ∧ l = Some c
  ∧ sblock_id e = r ∧ stype e = "return_to_menu" ∧ sprompt e = None
  ∧ step s = inl {| strace := strace s ++ [e]; event_index := event_index s;
       menu_returns := if bool_decide (mr ≤ count)%Z then menu_returns s
                       else <[m := (count + 1)%Z]> (menu_returns s);
       current := if bool_decide (mr ≤ count)%Z then c else menu |}.
Proof using compiles ids.
  intros Hk Hs.
  destruct (owner_menu root ids k _ m Hk) as (km & menu & om & Hm & Hc & Hid & _ & Hrange).
  destruct menu as [|m' p a tm ma mr brs t v l| | | | |]; try done. simpl in Hid. subst m'.
  destruct (entry_compilable ver root km _ om compiles Hm) as (n & [_ Hjobs]).
  destruct (Hjobs "Return limit has no first step." l) as (c & -> & _).
  { cbn [cjobs]. apply elem_of_app. right. set_solver. }
  assert (block_table root !! m = Some (CollectDigit m p a tm ma mr brs t v (Some c))) as Hb.
  { apply block_table_lookup; [done|]. split; [by eapply entry_in_preorder|done]. }
  unfold sim_step. rewrite Hs, (owner_of_return k r m Hk). change (default "" (Some m)) with m. cbv zeta. rewrite Hb.
  set (count := default 0%Z (menu_returns s !! m)).
  exists km, om, p, a, tm, ma, mr, brs, t, v, (Some c), c.
  case_bool_decide; eexists (with_event _ (new_entry (ReturnToMenu r))); cbv zeta;
  (split; [exact Hm|]); (split; [exact Hrange|]); repeat (split; [done|]); reflexivity.
Qed.
End Steps.
