(* ===== verification/SimulatorNotice.v ===== *)
(** * Callers are told before they are recorded or connected

    In every simulation of a compilable flow, a Record message or External call
    step comes after the prompt that announces it: directly after it in V3, and
    somewhere before it in V4. *)
From stdpp Require Import base gmap sets strings numbers pretty list.
From S2P Require Import Prelude FlowTree Schemas Validation Compiler CompilerFacts Layout Examples Simulator SimulatorFacts.

(** The trace entry of a visit to [b]. *)
Definition entry_of (b : block) (e : sim_entry) : Prop :=
  sblock_id e = block_id b ∧ stype e = block_type b ∧ sprompt e = sprompt (new_entry b).

Lemma entry_of_new b : entry_of b (new_entry b).
Proof. done. Qed.
Lemma entry_of_event b ev : entry_of b (with_event ev (new_entry b)).
Proof. done. Qed.

(** Every iteration appends one entry for the current block. *)
Lemma step_trace ver events blocks owners s :
  ∃ e, entry_of (current s) e ∧
    match sim_step ver events blocks owners s with inl s' => strace s' | inr r => trace r end = strace s ++ [e].
Proof.
  assert (∀ tr, tr = strace s ++ [new_entry (current s)]
    ∨ (∃ ev, tr = strace s ++ [with_event ev (new_entry (current s))]) →
    ∃ e, entry_of (current s) e ∧ tr = strace s ++ [e]) as Hx.
  { intros tr [->|[ev ->]]; eauto using entry_of_new, entry_of_event. }
  unfold sim_step, finish, await, continue.
  destruct (current s) as [i p nxt|i p a tm ma mr brs t v l|i sc op cl h|i|i|i nxt u|i ph tm nxt nc sf];
    repeat case_match; simplify_eq/=; apply Hx; eauto.
Qed.

Definition needs_notice (b : block) : bool := is_record b || is_external b.

(** A prompt was played before. *)
Definition noticed (tr : list sim_entry) : Prop :=
  ∃ e p, e ∈ tr ∧ sprompt e = Some (Some p) ∧ p ≠ "".

Definition notice_rule (ver : version) (tr : list sim_entry) : Prop :=
  match ver with
  | V2 => False
  | V3 => ∃ e, last tr = Some e ∧ stype e = "play_prompt"
  | V4 => noticed tr
  end.

Definition entry_needs_notice (e : sim_entry) : bool :=
  bool_decide (stype e = "record_message") || bool_decide (stype e = "external_call").

Definition notices_ok (ver : version) (tr : list sim_entry) : Prop :=
  ∀ tr1 e tr2, tr = tr1 ++ e :: tr2 → entry_needs_notice e = true → notice_rule ver tr1.

Lemma entry_needs b e : entry_of b e → entry_needs_notice e = needs_notice b.
Proof. intros (_ & Ht & _). unfold entry_needs_notice. rewrite Ht. by destruct b. Qed.

Lemma notices_ok_snoc ver tr e :
  notices_ok ver tr → (entry_needs_notice e = true → notice_rule ver tr) → notices_ok ver (tr ++ [e]).
Proof.
  intros Htr He tr1 e' tr2 E Hn. destruct tr2 as [|e2 tr2 _] using rev_ind.
  - apply app_inj_tail in E as [-> ->]. by apply He.
  - rewrite app_comm_cons, (assoc_L (++)) in E. apply app_inj_tail in E as [E _]. by eapply Htr.
Qed.

Section Notice.
Context (ver : version) (root : block) (events : list string).
Abbreviation es := (owned_entries root None).
Abbreviation step := (sim_step ver events (block_table root) (index_owners ver root None ∅)).
Hypothesis ids : NoDup (block_ids root).
Hypothesis compiles : compilable ver None false root.

(** [b], owned by [o] and with notice [n], is below visited blocks only. *)
Inductive reached (tr : list sim_entry) : block → option string → bool → Prop :=
  | reached_root : reached tr root None false
  | reached_child b o n c e :
  reached tr b o n → e ∈ tr → entry_of b e → c ∈ children b →
  reached tr c (down_owner b o) (child_notice ver b n).

Lemma reached_app tr tr' b o n : reached tr b o n → reached (tr ++ tr') b o n.
Proof using Type.
  induction 1 as [|b o n c e _ IH He Hb Hc]; [constructor|].
  eapply reached_child; [done| |done|done]. apply elem_of_app. by left.
Qed.

Lemma reached_compilable tr b o n : reached tr b o n → compilable ver o n b.
Proof using compiles.
  induction 1 as [|b o n c e _ [_ IH] He Hb Hc]; [done|].
  rewrite <- cjobs_children in Hc. apply list_elem_of_omap in Hc as ([m oc] & Hj & E).
  simpl in E. subst oc. destruct (IH m (Some c) Hj) as (c' & [= <-] & ?). done.
Qed.

Lemma reached_entry tr b o n : reached tr b o n → ∃ k, es !! k = Some (b, o).
Proof using Type.
  clear. induction 1 as [|b o n c e _ [k Hk] He Hb Hc].
  - exists 0. by rewrite owned_entries_unfold.
  - destruct (child_after root k b o c Hk Hc) as (k' & _ & Hk'). by exists k'.
Qed.

(** The owning menu was visited on the way. *)
Lemma reached_owner tr b m n :
  reached tr b (Some m) n →
  ∃ menu om nm e, reached tr menu om nm ∧ e ∈ tr ∧ entry_of menu e ∧ is_collect menu = true ∧ block_id menu = m.
Proof using Type.
  clear. remember (Some m) as o eqn:Eo. intros H. revert m Eo.
  induction H as [|b o n c e Hr IH He Hb Hc]; intros m Eo; [done|].
  unfold down_owner in Eo. destruct (is_collect b) eqn:Ec.
  - injection Eo as <-. eauto 10.
  - by apply IH.
Qed.

Lemma reached_noticed tr b o n : ver = V4 → reached tr b o n → n = true → noticed tr.
Proof using Type.
  clear. intros Hver H. induction H as [|b o n c e _ IH He (_ & _ & Hp) _]; [done|].
  assert (∀ p, sprompt (new_entry b) = Some p → n || truthy p = true → noticed tr) as Hx.
  { intros p Hbp [Hn|Ht]%orb_true_iff; [by apply IH|]. destruct p as [p|]; [|done].
  exists e, p. split; [done|]. rewrite Hp, Hbp. split; [done|]. by intros ->. }
  rewrite Hver. destruct b; cbn [child_notice notice_after_play notice_after_menu notice_after_other];
  first [exact (Hx _ eq_refl)|exact IH].
Qed.

Definition notice_inv (s : sim_state) : Prop :=
  notices_ok ver (strace s)
  ∧ ∃ o n, reached (strace s) (current s) o n
    ∧ (ver = V3 → n = true → is_collect (current s) = false → notice_rule V3 (strace s)).

(** A block that needs a notice is announced when the loop gets to it. *)
Lemma inv_announced s : notice_inv s → needs_notice (current s) = true → notice_rule ver (strace s).
Proof using compiles.
  intros (_ & o & n & Hr & H3) Hn. destruct (reached_compilable _ _ _ _ Hr) as [Hck _].
  assert (n = true ∧ ver ≠ V2) as [-> Hver].
  { destruct (current s); try done; cbn [ccheck] in Hck; destruct ver, n; done. }
  destruct ver eqn:Ever; [done| |by eapply reached_noticed].
  apply H3; [done|done|]. by destruct (current s).
Qed.

Lemma step_notice s :
  notice_inv s →
  notices_ok ver (match step s with inl s' => strace s' | inr r => trace r end)
  ∧ ∀ s', step s = inl s' → notice_inv s'.
Proof using ids compiles.
  intros Hinv. destruct (step_trace ver events (block_table root) (index_owners ver root None ∅) s)
  as (e & He & Htr).
  assert (notices_ok ver (strace s ++ [e])) as Hok.
  { apply notices_ok_snoc; [apply Hinv|]. rewrite (entry_needs _ _ He). by apply inv_announced. }
  rewrite Htr. split; [done|]. intros s' Hs. rewrite Hs in Htr. split; [by rewrite Htr|]. rewrite Htr.
  destruct Hinv as (_ & o & n & Hr & _). destruct (reached_entry _ _ _ _ Hr) as [k Hk].
  assert (e ∈ strace s ++ [e]) as Hin by (apply elem_of_app; right; by left).
  pose proof (reached_compilable _ _ _ _ Hr) as [Hck _].
  assert ((∃ r, current s = ReturnToMenu r) ∨ ∀ r, current s ≠ ReturnToMenu r) as [[r Hret]|Hret]
  by (destruct (current s); eauto).
  - rewrite Hret in Hk, Hck, Hr. destruct o as [m|]; [|done].
  destruct (step_return ver root events ids compiles k r m s Hk Hret)
    as (km & om & p & a & tm & ma & mr & brs & t & v & l & c & e' & Hm & _ & -> & _ & _ & _ & Hs').
  cbv zeta in Hs'. rewrite Hs in Hs'. injection Hs' as ->. clear Hs Htr.
  destruct (reached_owner _ _ _ _ Hr) as (menu & om' & nm & em & Hrm & Hem & Hofm & Hcm & Hid).
  destruct (reached_entry _ _ _ _ Hrm) as [km' Hkm'].
  destruct (position_unique root ids _ _ _ _ _ _ Hm Hkm' (eq_sym Hid)) as (_ & <- & <-).
  cbn [current]. case_bool_decide.
  + eexists _, _. split.
    * eapply reached_child; [by apply reached_app|apply elem_of_app; left; exact Hem|exact Hofm|].
      unfold children. cbn [owned_children]. rewrite omap_app. apply elem_of_app. right.
      destruct t, v; csimpl; set_solver.
    * intros Hver. by rewrite Hver.
  + exists om, nm. split; [by apply reached_app|]. done.
  - destruct (step_routed ver root events s s' (ccheck_known _ _ _ _ Hck) Hret Hs) as (Hrt & _).
  apply routed_child in Hrt. exists (down_owner (current s) o), (child_notice ver (current s) n).
  split; [by eapply reached_child; [by apply reached_app| |..]|].
  intros Hver Hn _. exists e. split; [by rewrite last_snoc|]. destruct He as (_ & -> & _).
  rewrite Hver in Hn. by destruct (current s).
Qed.

Lemma sim_loop_notices fuel : ∀ s, notice_inv s →
  notices_ok ver (trace (sim_loop ver events (block_table root) (index_owners ver root None ∅) fuel s)).
Proof using ids compiles.
  induction fuel as [|fuel IH]; intros s Hinv; cbn [sim_loop]; [apply Hinv|].
  destruct (step_notice s Hinv) as [Hok Hnext]. destruct (step s) as [s'|r]; [|done]. by apply IH, Hnext.
Qed.

Lemma initial_notice : notice_inv (initial_sim root).
Proof using Type.
  split; [intros [|? ?] ? ? ?; done|]. exists None, false. split; [constructor|done].
Qed.
End Notice.

(** In a simulation of a compilable flow every Record message and External call
    step is announced: in V3 the step before it plays a prompt, and in V4 a step
    before it has a prompt.  No such step occurs in V2. *)
Theorem simulation_announces ver root events :
  compilable ver None false root → NoDup (block_ids root) →
  notices_ok ver (trace (simulate ver (Some root) events)).
Proof. intros Hc Hids. apply sim_loop_notices; [done..|apply initial_notice]. Qed.

Lemma simulation_announces_witness :
  notices_ok V4 (trace (simulate V4 (Some example_v4) ["external_not_connected"; "2"; "timeout"])).
Proof.
  apply simulation_announces.
  - exact (valid_at_compilable _ _ _ _ _ (pub_valid _ _ _ _ _ _ _ example_v4_publishable)).
  - exact (pub_block_ids _ _ _ _ _ _ _ example_v4_publishable).
Defined.
