(* ===== verification/SimulatorCorrect.v ===== *)
(** * Correctness of the simulators

    On publishable flows a simulation follows the compiled tape, never exceeds
    its 512 transitions, and is invalid only for an event the block does not
    know. *)
From stdpp Require Import base gmap sets strings numbers pretty list.
From S2P Require Import Prelude FlowTree Schemas Validation Compiler CompilerFacts Tape Layout Examples CompileCorrect Simulator SimulatorFacts SimulatorNotice.

(** ** Simulations follow the tape *)

Section Refinement.
Context (ver : version) (root : block) (rb : RecordingBehavior) (version : string)
  (code : list instruction) (durations : gmap string Z) (events : list string).
Abbreviation es := (owned_entries root None).
Abbreviation step := (sim_step ver events (block_table root) (index_owners ver root None ∅)).
Hypothesis emits : emitted ver root rb version code.

(** The state of the loop and the state of the tape agree. *)
Definition sim_rel (s : sim_state) (st : tape_state) : Prop :=
  (∃ o, es !! st.1 = Some (current s, o))
  ∧ ∀ index, st.2 !! index = (λ i, default 0%Z (menu_returns s !! iblock_id i)) <$> menus code !! index.

Lemma menus_ids_NoDup : NoDup (iblock_id <$> menus code).
Proof using emits.
  pose proof (em_ids _ _ _ _ _ emits) as Hids. rewrite <- (emitted_ids _ _ _ _ _ emits) in Hids.
  apply NoDup_fmap_2_strong.
  - intros i j [_ Hi]%list_elem_of_filter [_ Hj]%list_elem_of_filter Hij.
  apply list_elem_of_lookup in Hi as [k Hk]. apply list_elem_of_lookup in Hj as [k' Hk'].
  assert (k = k') as <-; [|congruence].
  apply (NoDup_lookup (iblock_id <$> code) k k' (iblock_id i) Hids); rewrite list_lookup_fmap.
  + by rewrite Hk.
  + by rewrite Hk', Hij.
  - apply NoDup_filter. by apply (NoDup_fmap_1 iblock_id).
Qed.

Lemma initial_rel : sim_rel (initial_sim root) (initial_state code).
Proof using Type.
  split.
  - exists None. by rewrite owned_entries_unfold.
  - intros index. cbn [initial_state snd initial_sim menu_returns]. unfold collect_pcs.
  rewrite length_fmap. fold (menus code). generalize (menus code) as l. intros l. revert index.
  induction l as [|x l IH]; intros [|index]; simpl; [done|done|by rewrite lookup_empty|apply IH].
Qed.

(** A path an event may select is an edge of the tape. *)
Lemma routed_edge k b o c returns :
  es !! k = Some (b, o) → routed b c →
  ∃ l w t, tape_edges durations code (k, returns) = Ok l ∧ (w, (t, returns)) ∈ l
  ∧ es !! t = Some (c, down_owner b o).
Proof using emits.
  intros Hk Hr. pose proof emits as [Hids Hc -> Hcode].
  apply routed_child in Hr as Hch.
  destruct (pc_of_child root Hids k b o c Hk Hch) as (t & Hpc & _ & Ht).
  destruct (code_at root rb _ code Hcode k b o Hk) as (i & Hi & _ & _ & Hop).
  unfold tape_edges. cbn [fst snd]. rewrite Hi. cbn [of_option mbind result_bind].
  clear Hi Hcode Hids Hc emits. revert Hop. generalize (iop i) as op. clear i. intros op Hop.
  cut (∃ l w, operation_edges durations code op returns = Ok l ∧ (w, (t, returns)) ∈ l).
  { intros (l & w & Hl & Hin). exists l, w, t. done. }
  destruct b as [i p nxt|i p a tm ma mr brs t' v l|i sc op' cl h|i|i|i nxt u|i ph tm nxt nc sf];
  cbn [routed emit_operation] in *; try done; inv_result; cbn [operation_edges].
  - do 2 eexists. split; [done|]. rewrite Hpc in *. simplify_eq. by left.
  - do 2 eexists. split; [done|]. apply list_elem_of_fmap. exists t. split; [done|].
  match goal with H : mapM _ _ = Ok _ |- _ => apply mapM_result_ok in H; rename H into Hm end.
  destruct Hr as [(br & Hbr & E)|[->| ->]]; [|rewrite Hpc in *; simplify_eq..].
  + apply elem_of_app. left. rewrite <- elem_of_sorted_branches in Hbr.
    apply list_elem_of_lookup in Hbr as [n Hn].
    destruct (Forall2_lookup_l _ _ _ _ _ Hm Hn) as (y & Hy & Hbr). cbn in Hbr.
    rewrite E, Hpc in Hbr. injection Hbr as <-. apply list_elem_of_fmap.
    eexists. split; [|by eapply list_elem_of_lookup_2]. done.
  + apply elem_of_app. right. by left.
  + apply elem_of_app. right. right. by left.
  - do 2 eexists. split; [done|]. destruct Hr as [->|[->| ->]]; rewrite Hpc in *; simplify_eq;
    [by left|by right; left|by right; right; left].
  - destruct Hr as [->| ->]; rewrite Hpc in *; simplify_eq; do 2 eexists; (split; [done|]);
    [by left|by right; left].
  - do 2 eexists. split; [done|]. destruct Hr as [->|[->| ->]]; rewrite Hpc in *; simplify_eq;
    [by left|by right; left|by right; right; left].
Qed.

(** Every iteration of the loop is an edge of the tape. *)
Lemma step_refines s s' st :
  sim_rel s st → step s = inl s' →
  ∃ l w st', tape_edges durations code st = Ok l ∧ (w, st') ∈ l ∧ sim_rel s' st'.
Proof using emits.
  destruct st as [k returns]. intros [[o Hk] Hret] Hstep. cbn [fst snd] in *.
  pose proof emits as [Hids Hc Hver Hcode]. pose proof menus_ids_NoDup as Hnd.
  assert ((∃ r, current s = ReturnToMenu r) ∨ ∀ r, current s ≠ ReturnToMenu r) as [[r Hr]|Hr]
  by (destruct (current s); eauto).
  - rewrite Hr in Hk. destruct (entry_compilable ver root k _ o Hc Hk) as (n & [Hck _]).
  destruct o as [m|]; [|done]. clear Hck n.
  destruct (step_return ver root events Hids Hc k r m s Hk Hr)
    as (km & om & p & a & tm & ma & mr & brs & t & v & l & c & e & Hm & Hrange & -> & _ & _ & _ & Hs).
  cbv zeta in Hs. rewrite Hs in Hstep. injection Hstep as <-. clear Hs.
  destruct (code_at root rb _ code Hcode k _ _ Hk) as (i & Hi & _ & _ & Hop).
  destruct (code_at root rb _ code Hcode km _ _ Hm) as (im & Him & _ & Hidm & Hopm).
  cbn [block_id] in Hidm. revert Hidm. cbn [emit_operation mbind option_bind] in Hop, Hopm.
  inv_result. intros Hidm.
  match goal with H : program_counter _ !! m = Some ?x |- _ =>
    assert (program_counter es !! m = Some km) as Hpcm
      by (apply counter_lookup; [done|]; eexists _, _; split; [exact Hm|done]);
    rewrite Hpcm in H; injection H as <- end.
  match goal with H : OpCollect _ _ _ _ _ _ _ ?x _ = iop im, H' : pc_of _ (Some c) = Ok ?x |- _ =>
    rename x into pl; symmetry in H; rename H into Hopm; rename H' into Hpl end.
  match goal with H : OpReturn km = iop i |- _ => symmetry in H; rename H into Hop end.
  destruct (menu_index root rb _ code Hcode km im Him) as (index & Hidx & Hmenu); [by rewrite Hopm|].
  assert (returns !! index = Some (default 0%Z (menu_returns s !! m))) as Hcount.
  { rewrite Hret, Hmenu. simpl. by rewrite Hidm. }
  unfold tape_edges. cbn [fst snd]. rewrite Hi. cbn [of_option mbind result_bind]. rewrite Hop.
  cbn [operation_edges]. rewrite Hidx. cbn [of_option mbind result_bind]. rewrite Him.
  cbn [of_option mbind result_bind]. rewrite Hopm, Hcount. cbn [of_option mbind result_bind].
  set (count := default 0%Z (menu_returns s !! m)) in *.
  destruct (decide (mr ≤ count)%Z) as [Hle|Hgt].
  + rewrite bool_decide_eq_false_2 by lia. rewrite bool_decide_eq_true_2 by done.
    do 2 eexists. exists (pl, returns). split; [done|]. split; [by left|]. split; [|done]. cbn.
    eexists. by apply (pc_of_child_inv root Hids km _ om c pl Hm); [|done];
      apply (job_child _ "Return limit has no first step."); cbn [cjobs]; apply elem_of_app; right; set_solver.
  + rewrite bool_decide_eq_true_2 by lia. rewrite bool_decide_eq_false_2 by done.
    do 2 eexists. exists (km, <[index:=(count + 1)%Z]> returns). split; [done|]. split; [by left|].
    split; cbn; [by eexists|]. intros index'. destruct (decide (index' = index)) as [->|Hne].
    * rewrite list_lookup_insert_eq by (by eapply lookup_lt_Some). rewrite Hmenu. simpl.
      by rewrite Hidm, lookup_insert_eq.
    * rewrite list_lookup_insert_ne by done. rewrite Hret.
      destruct (menus code !! index') as [i'|] eqn:Hi'; [|done]. simpl.
      rewrite lookup_insert_ne; [done|]. intros Heq. apply Hne.
      eapply (NoDup_lookup _ _ _ m Hnd); rewrite list_lookup_fmap.
      -- by rewrite Hi', Heq.
      -- by rewrite Hmenu, <- Hidm.
  - destruct (entry_compilable ver root k _ o Hc Hk) as (n & [Hck _]). apply ccheck_known in Hck.
  destruct (step_routed ver root events s s' Hck Hr Hstep) as (Hrt & Hmr & _).
  destruct (routed_edge k _ o (current s') returns Hk Hrt) as (l & w & t & Hl & Hin & Ht).
  exists l, w, (t, returns). split; [done|]. split; [done|]. split; [by eexists|]. cbn. by rewrite Hmr.
Qed.
End Refinement.

(** ** How simulations of publishable flows end *)

(** The messages for an event that the block does not know. *)
Definition unknown_outcome (ver : version) (events : list string) (msg : string) : Prop :=
  ∃ e, e ∈ events ∧
    (msg = schedule_error ver e
     ∨ msg = "Unknown or empty recording outcome: " +:+ e +:+ "."
     ∨ msg = "Unknown or empty external-call outcome: " +:+ e +:+ ".").

(** How a simulation may end: completely, waiting at a block of the flow, or at
    an unknown event. *)
Definition proper_end (ver : version) (root : block) (events : list string) (r : sim_result) : Prop :=
  match status r with
  | complete => awaiting_block_id r = None
  | invalid => unknown_outcome ver events (message r)
  | _ => ∃ i, awaiting_block_id r = Some i ∧ i ∈ block_ids root ∧ available r ≠ []
  end.

Lemma cjobs_some ver o n b :
  compilable ver o n b → ∀ c, c ∈ (cjobs b).*2 → is_Some c.
Proof.
  intros [_ H] c Hc. apply list_elem_of_fmap in Hc as ([m oc] & -> & Hj).
  destruct (H m oc Hj) as (c & -> & _). by eexists.
Qed.

Lemma attempts_some events brs t v maximum remaining : ∀ index ev index' ev',
  (∀ br, br ∈ brs → is_Some (branch_root br)) → is_Some t → is_Some v →
  0 < remaining ≤ maximum →
  attempts events brs t v maximum remaining index ev ≠ digit_routed index' ev' None.
Proof.
  induction remaining as [|n IH]; intros index ev index' ev' Hb [t' ->] [v' ->] Hr; [lia|].
  cbn [attempts]. destruct (events !! index) as [e|]; [|done].
  destruct (branch_by_digit brs e) as [br|] eqn:Ebr.
  - unfold branch_by_digit in Ebr. apply last_Some_elem_of, list_elem_of_filter in Ebr as [_ Ebr].
    destruct (Hb br Ebr) as [c ->]. done.
  - repeat case_bool_decide; try done; apply IH; try done; lia.
Qed.

Lemma sorted_digits_nonempty brs : brs ≠ [] → sorted_digits brs ≠ [].
Proof.
  destruct brs as [|br brs]; [done|]. intros _ H. unfold sorted_digits in H.
  apply fmap_nil_inv in H.
  assert (branch_digit br ∈ (filter (λ d, d ∈ branch_digit <$> br :: brs)
    [KHash; KStar; K0; K1; K2; K3; K4; K5; K6; K7; K8; K9])) as Hin.
  { apply list_elem_of_filter. split; [by left|]. destruct (branch_digit br); set_solver. }
  rewrite H in Hin. by apply elem_of_nil in Hin.
Qed.

Section Ends.
Context (ver : version) (root : block) (events : list string) (known scheds : gset string).
Abbreviation es := (owned_entries root None).
Abbreviation step := (sim_step ver events (block_table root) (index_owners ver root None ∅)).
Hypothesis ids : NoDup (block_ids root).
Hypothesis valid : valid_at ver known scheds root_ctx root.
Hypothesis fields : flow_fields root = true.

Lemma entry_fields k b o : es !! k = Some (b, o) → block_fields b = true.
Proof using fields.
  intros Hk. unfold flow_fields in fields. rewrite forallb_forall in fields. apply fields.
  apply list_elem_of_In. by eapply entry_in_preorder.
Qed.

Lemma step_ends k o s r :
  es !! k = Some (current s, o) → step s = inr r →
  proper_end ver root events r ∧ length (trace r) = S (length (strace s)).
Proof using ids valid fields.
  intros Hk Hstep. pose proof (valid_at_compilable _ _ _ _ _ valid) as Hc.
  destruct (entry_compilable ver root k _ o Hc Hk) as (n & Hcb). pose proof Hcb as [Hck _].
  pose proof (entry_fields k _ o Hk) as Hf.
  destruct (entry_valid ver root known scheds k _ o valid Hk) as (x & _ & [Hlocal _]).
  assert (block_id (current s) ∈ block_ids root) as Hin.
  { apply list_elem_of_fmap. exists (current s). split; [done|]. by eapply entry_in_preorder. }
  assert (∀ c, c ∈ (cjobs (current s)).*2 → is_Some c) as Hsome by (by eapply cjobs_some).
  destruct (current s) as [i p nxt|i p a tm ma mr brs t v l|i sc op cl h|i|i|i nxt u|i ph tm nxt nc sf] eqn:Es.
  - exfalso. unfold sim_step in Hstep. rewrite Es in Hstep. destruct nxt; [done|].
  destruct (Hsome None) as [? ?]; [by left|done].
  - unfold sim_step in Hstep. rewrite Es in Hstep. cbn [cjobs] in Hsome.
  assert ((∀ br, br ∈ brs → is_Some (branch_root br)) ∧ is_Some t ∧ is_Some v) as (Hb & Ht & Hv).
  { rewrite fmap_app in Hsome. csimpl in Hsome. split_and!.
    - intros br Hbr. apply Hsome. apply elem_of_app. left. rewrite <- list_fmap_compose.
      apply list_elem_of_fmap. exists br. by rewrite elem_of_sorted_branches.
    - apply Hsome. set_solver.
    - apply Hsome. set_solver. }
  unfold block_fields in Hf. rewrite !andb_true_iff, !in_range_spec in Hf.
  destruct (attempts _ _ _ _ _ _ _ _) as [at' ev|index' ev' [c|]] eqn:E; [|done|].
  + injection Hstep as <-. split.
    * eexists. split; [done|]. split; [done|]. apply sorted_digits_nonempty. intros ->.
      cbn [local_ok] in Hlocal. rewrite !andb_true_iff in Hlocal. by destruct Hlocal as [[_ ?] _].
    * cbn. by destruct ev; rewrite length_app; simpl; lia.
  + exfalso. eapply (attempts_some events brs t v); [done..| |exact E]. lia.
  - unfold sim_step in Hstep. rewrite Es in Hstep.
  destruct (events !! event_index s) as [e|] eqn:Ee.
  + destruct (schedule_target _ _ _ _) eqn:Et; [done|]. injection Hstep as <-.
    split; [|cbn; rewrite length_app; simpl; lia].
    exists e. split; [by eapply list_elem_of_lookup_2|]. by left.
  + injection Hstep as <-. split; [|cbn; rewrite length_app; simpl; lia]. eexists. by split_and!.
  - exfalso. destruct o as [m|]; [|done].
  destruct (step_return ver root events ids Hc k i m s Hk Es)
    as (km & om & ? & ? & ? & ? & ? & ? & ? & ? & ? & c & e & H).
  destruct H as (_ & _ & _ & _ & _ & _ & H). rewrite H in Hstep. done.
  - unfold sim_step in Hstep. rewrite Es in Hstep. injection Hstep as <-.
  split; [done|]. cbn. rewrite length_app. simpl. lia.
  - unfold sim_step in Hstep. rewrite Es in Hstep. cbn [ccheck] in Hck.
  destruct (supports_record ver); [|done].
  destruct (events !! event_index s) as [e|] eqn:Ee.
  + case_bool_decide.
    * injection Hstep as <-. split; [done|]. cbn. rewrite length_app. simpl. lia.
    * destruct (if bool_decide (e = "recorded") then _ else _) eqn:Et; [done|].
      injection Hstep as <-. split; [|cbn; rewrite length_app; simpl; lia].
      exists e. split; [by eapply list_elem_of_lookup_2|]. right. by left.
  + injection Hstep as <-. split; [|cbn; rewrite length_app; simpl; lia]. eexists. by split_and!.
  - unfold sim_step in Hstep. rewrite Es in Hstep. cbn [ccheck] in Hck.
  destruct (supports_external ver); [|done].
  destruct (events !! event_index s) as [e|] eqn:Ee.
  + destruct (external_target _ _ _ _) eqn:Et; [done|]. injection Hstep as <-.
    split; [|cbn; rewrite length_app; simpl; lia].
    exists e. split; [by eapply list_elem_of_lookup_2|]. right. by right.
  + injection Hstep as <-. split; [|cbn; rewrite length_app; simpl; lia]. eexists. by split_and!.
Qed.
End Ends.

(** ** Simulations are short

    A simulation moves down the tree, except for a return.  A counted return uses
    up one of the returns of its menu; a return-limit jump enters the return-limit
    path of the menu, which is lower than the menu and is never left again. *)

(** The returns that [b] still allows. *)
Definition menu_left (returns : gmap string Z) (b : block) : nat :=
  match b with
  | CollectDigit i _ _ _ _ mr _ _ _ _ => Z.to_nat (mr - default 0%Z (returns !! i))
  | _ => 0
  end.
Definition returns_left (root : block) (returns : gmap string Z) : nat :=
  sum_list_with (menu_left returns) (preorder root).

Lemma menu_left_other returns i z b : block_id b ≠ i → menu_left (<[i := z]> returns) b = menu_left returns b.
Proof. intros Hne. destruct b; try done. cbn. by rewrite lookup_insert_ne. Qed.

Lemma sum_list_with_ext {A} (f g : A → nat) l :
  (∀ x, x ∈ l → f x = g x) → sum_list_with f l = sum_list_with g l.
Proof. induction l as [|x l IH]; intros H; csimpl; [done|]. rewrite H by (by left). f_equal. apply IH. intros. apply H. by right. Qed.

Lemma sum_list_with_update {A} (f g : A → nat) l x :
  x ∈ l → NoDup l → (∀ y, y ∈ l → y ≠ x → f y = g y) → f x < g x →
  sum_list_with f l < sum_list_with g l.
Proof.
  induction l as [|y l IH]; intros Hx Hnd Hf Hlt; [by apply elem_of_nil in Hx|]. csimpl.
  apply NoDup_cons in Hnd as [Hy Hnd]. apply elem_of_cons in Hx as [->|Hx].
  - rewrite (sum_list_with_ext f g l); [lia|]. intros z Hz. apply Hf; [by right|]. by intros ->.
  - rewrite (Hf y); [|by left|by intros ->]. apply Nat.add_lt_mono_l, IH; try done.
    intros z Hz. apply Hf. by right.
Qed.

Lemma returns_left_decreases root i p a tm ma mr brs t v l returns :
  NoDup (block_ids root) → CollectDigit i p a tm ma mr brs t v l ∈ preorder root →
  let count := default 0%Z (returns !! i) in (count < mr)%Z →
  returns_left root (<[i := (count + 1)%Z]> returns) < returns_left root returns.
Proof.
  intros Hnd Hin count Hlt. unfold returns_left.
  apply (sum_list_with_update _ _ _ (CollectDigit i p a tm ma mr brs t v l)); [done| | |].
  - by apply (NoDup_fmap_1 block_id).
  - intros b Hb Hne. apply menu_left_other. intros Hid. apply Hne.
    apply list_elem_of_lookup in Hb as [k Hk]. apply list_elem_of_lookup in Hin as [k' Hk'].
    assert (k = k') as <-; [|congruence].
    apply (NoDup_lookup (block_ids root) k k' i Hnd); unfold block_ids; rewrite list_lookup_fmap.
    + by rewrite Hk, <- Hid.
    + by rewrite Hk'.
  - cbn. rewrite lookup_insert_eq. fold count. simpl. lia.
Qed.

Lemma sum_list_with_mul {A} (f g : A → nat) n l :
  (∀ x, x ∈ l → n * f x + 1 ≤ g x) → n * sum_list_with f l + length l ≤ sum_list_with g l.
Proof.
  induction l as [|x l IH]; intros H; csimpl; [lia|].
  specialize (H x ltac:(by left)) as Hx. assert (n * sum_list_with f l + length l ≤ sum_list_with g l).
  { apply IH. intros. apply H. by right. } nia.
Qed.

(** Four blocks per menu: a menu owns at least a digit path and its three others. *)
Definition menu_count (b : block) : nat := length (filter (λ c, is_collect c = true) (preorder b)).

Lemma menu_count_unfold b :
  menu_count b = (if is_collect b then 1 else 0) + sum_list_with menu_count (children b).
Proof.
  unfold menu_count at 1. rewrite preorder_unfold, filter_cons.
  assert (length (filter (λ c, is_collect c = true) (concat (preorder <$> children b)))
    = sum_list_with menu_count (children b)) as E.
  { induction (children b) as [|c l IH]; csimpl; [done|]. by rewrite filter_app, length_app, IH. }
  destruct (is_collect b); case_decide; try done; cbn [length]; by rewrite E.
Qed.

Lemma menu_children ver known scheds x b :
  valid_at ver known scheds x b → is_collect b = true → 4 ≤ length (children b).
Proof.
  intros [Hl Hc] Hb. destruct b as [|i p a tm ma mr brs t v l| | | | |]; try done.
  rewrite children_perm. cbn [pushed_children]. rewrite length_app.
  assert (∀ o y, (o, y) ∈ child_ctx ver x (CollectDigit i p a tm ma mr brs t v l) → is_Some o) as Hs.
  { intros o y H. destruct (Hc o y H) as (c & -> & _). by eexists. }
  cbn [child_ctx] in Hs. setoid_rewrite elem_of_app in Hs.
  destruct (Hs t _ ltac:(right; by left)) as [ct ->].
  destruct (Hs v _ ltac:(right; right; by left)) as [cv ->].
  destruct (Hs l _ ltac:(right; right; right; by left)) as [cl ->]. simpl.
  cbn [local_ok] in Hl. rewrite !andb_true_iff in Hl.
  destruct Hl as [[_ Hne] _]. apply negb_true_iff, bool_decide_eq_false in Hne. destruct brs as [|br brs]; [done|].
  destruct (Hs (branch_root br) _ ltac:(left; by left)) as [cb Hcb]. csimpl. rewrite Hcb. simpl. lia.
Qed.

Lemma menus_few ver known scheds x b : valid_at ver known scheds x b → 4 * menu_count b + 1 ≤ bsize b.
Proof.
  revert x. induction b as [b IH] using block_ind_children. intros x Hv.
  rewrite menu_count_unfold, bsize_unfold.
  assert (4 * sum_list_with menu_count (children b) + length (children b) ≤ sum_list_with bsize (children b)) as Hs.
  { apply sum_list_with_mul. intros c Hc. destruct (child_ctx_owner ver x b c Hc) as (y & Hy & _).
    destruct Hv as [_ Hv]. destruct (Hv _ _ Hy) as (c' & [= <-] & Hv'). by apply (IH c Hc y). }
  destruct (is_collect b) eqn:Ec; [|lia]. pose proof (menu_children _ _ _ _ _ Hv Ec). lia.
Qed.

Lemma returns_left_initial root :
  flow_fields root = true → returns_left root ∅ ≤ 3 * menu_count root.
Proof.
  unfold flow_fields, returns_left, menu_count. generalize (preorder root) as l. intros l Hf.
  induction l as [|b l IH]; [done|]. cbn [forallb] in Hf. apply andb_true_iff in Hf as [Hb Hf].
  specialize (IH Hf). csimpl. rewrite filter_cons.
  destruct b as [|i p a tm ma mr brs t v o| | | | |]; try (rewrite decide_False by done; cbn [menu_left]; lia).
  rewrite decide_True by done. cbn [menu_left length]. rewrite lookup_empty. simpl default.
  unfold block_fields in Hb. rewrite !andb_true_iff, !in_range_spec in Hb. lia.
Qed.

Definition triangle (h : nat) : nat := h * (h - 1) / 2.

Lemma triangle_step h h' : h < h' → h' ≤ 8 → h + triangle h ≤ triangle h'.
Proof.
  intros Hlt Hle. unfold triangle.
  do 9 (destruct h' as [|h']; [do 9 (destruct h as [|h]; [simpl; lia|]); lia|]). lia.
Qed.

Lemma owned_entries_child g og b o c :
  (b, o) ∈ owned_entries g og → c ∈ children b → (c, down_owner b o) ∈ owned_entries g og.
Proof.
  intros [k Hk]%list_elem_of_lookup Hc.
  destruct (entries_segment _ _ _ _ _ Hk) as (pre & post & -> & _).
  rewrite !elem_of_app. right. left. rewrite owned_entries_unfold. right.
  apply elem_of_concat_fmap. exists c. split; [done|]. rewrite owned_entries_unfold. by left.
Qed.

Lemma height_inside g og b o : (b, o) ∈ owned_entries g og → height b ≤ height g.
Proof.
  revert og. induction g as [g IH] using block_ind_children. intros og.
  rewrite owned_entries_unfold, elem_of_cons, elem_of_concat_fmap. intros [[= -> ->]|(c & Hc & Hin)]; [done|].
  apply IH in Hin; [|done]. apply height_child in Hc. lia.
Qed.

Lemma limit_child_last i p a tm ma mr brs t v c :
  c ∈ children (CollectDigit i p a tm ma mr brs t v (Some c)).
Proof.
  unfold children. cbn [owned_children]. rewrite omap_app. apply elem_of_app. right.
  destruct t, v; csimpl; set_solver.
Qed.

Section Termination.
Context (ver : version) (root : block) (events : list string) (known scheds : gset string).
Abbreviation es := (owned_entries root None).
Abbreviation step := (sim_step ver events (block_table root) (index_owners ver root None ∅)).
Hypothesis ids : NoDup (block_ids root).
Hypothesis valid : valid_at ver known scheds root_ctx root.
Hypothesis fields : flow_fields root = true.
Hypothesis low : height root ≤ 8.

(** A subtree that a simulation cannot leave: no block of it returns to a menu
  outside. *)
Definition closed (g : block) (og : option string) : Prop :=
  (∃ kg, es !! kg = Some (g, og)) ∧ ∀ r m, (ReturnToMenu r, Some m) ∈ owned_entries g og → og ≠ Some m.

Definition inside (g : block) (og : option string) (s : sim_state) : Prop :=
  ∃ o, (current s, o) ∈ owned_entries g og.

Definition sim_measure (g : block) (s : sim_state) : nat :=
  8 * returns_left root (menu_returns s) + height (current s) + triangle (height g).

Lemma entries_inside g og kg b o :
  es !! kg = Some (g, og) → (b, o) ∈ owned_entries g og → ∃ k, es !! k = Some (b, o).
Proof using Type.
  clear low.
  intros Hg [k Hk]%list_elem_of_lookup. destruct (entries_segment _ _ _ _ _ Hg) as (pre & post & -> & _).
  exists (length pre + k). rewrite lookup_app_r by lia. rewrite lookup_app_l.
  - by replace (length pre + k - length pre) with k by lia.
  - apply lookup_lt_Some in Hk. lia.
Qed.

(** The return-limit path of a menu is closed. *)
Lemma limit_closed km om i p a tm ma mr brs t v c :
  es !! km = Some (CollectDigit i p a tm ma mr brs t v (Some c), om) → closed c (Some i).
Proof using ids valid.
  intros Hm. pose proof (limit_child_last i p a tm ma mr brs t v c) as Hch.
  destruct (child_after root km _ om c Hm Hch) as (kc & _ & Hkc). split; [by exists kc|].
  intros r m Hin [= <-].
  destruct (entry_valid ver root known scheds km _ om valid Hm) as (x & _ & [_ Hval]).
  destruct (Hval (Some c) (Ctx (Some i) (Some i) (notice_after_menu ver (c_notice x) p)))
  as (c' & [= <-] & Hvc).
  { cbn [child_ctx]. apply elem_of_app. right. right. right. left. }
  refine (limit_path_no_return _ _ _ _ _ _ _ Hvc _ Hin).
(* the menu's identifier does not occur below it *)
  intros Hi. assert (NoDup (block_ids (CollectDigit i p a tm ma mr brs t v (Some c)))) as Hnd.
  { destruct (entries_segment _ _ _ _ _ Hm) as (pre & post & E & _).
  rewrite <- (owned_entries_ids root None), E, !fmap_app in ids.
  apply NoDup_app in ids as (_ & _ & ids'). apply NoDup_app in ids' as (ids' & _).
  by rewrite owned_entries_ids in ids'. }
  rewrite block_ids_unfold in Hnd. apply NoDup_cons in Hnd as [Hn _]. apply Hn.
  apply elem_of_concat_fmap. exists c. done.
Qed.

Lemma step_measure g og s s' :
  closed g og → inside g og s → step s = inl s' →
  ∃ g' og', closed g' og' ∧ inside g' og' s' ∧ sim_measure g' s' < sim_measure g s
  ∧ length (strace s') = S (length (strace s)).
Proof using ids valid low.
  intros [[kg Hg] Hclosed] [o Hin] Hstep. pose proof (valid_at_compilable _ _ _ _ _ valid) as Hc.
  destruct (entries_inside g og kg _ o Hg Hin) as [k Hk].
  pose proof (height_pos (current s)) as Hpos.
  assert (height g ≤ 8) as Hgl.
  { assert ((g, og) ∈ es) as H by (by eapply list_elem_of_lookup_2). apply height_inside in H. lia. }
  assert ((∃ r, current s = ReturnToMenu r) ∨ ∀ r, current s ≠ ReturnToMenu r) as [[r Hr]|Hr]
  by (destruct (current s); eauto).
  - rewrite Hr in Hk, Hin. destruct (entry_compilable ver root k _ o Hc Hk) as (n & [Hck _]).
  destruct o as [m|]; [|done]. clear Hck n.
  destruct (step_return ver root events ids Hc k r m s Hk Hr)
    as (km & om & p & a & tm & ma & mr & brs & t & v & l & c & e & Hm & Hrange & -> & _ & _ & _ & Hs).
  cbv zeta in Hs. rewrite Hs in Hstep. injection Hstep as <-. clear Hs.
  assert ((CollectDigit m p a tm ma mr brs t v (Some c), om) ∈ owned_entries g og) as Hmin.
  { apply list_elem_of_lookup in Hin as [j Hj].
    destruct (owner_position _ _ _ _ _ Hj) as [E|(jm & menu & om' & Hjm & _ & [= E] & _)].
    - exfalso. symmetry in E. apply (Hclosed r m); [by eapply list_elem_of_lookup_2|done].
    - apply list_elem_of_lookup_2 in Hjm as Hjm'.
      destruct (entries_inside g og kg _ _ Hg Hjm') as [k' Hk'].
      destruct (position_unique root ids _ _ _ _ _ _ Hm Hk' E) as (_ & -> & ->). done. }
  set (count := default 0%Z (menu_returns s !! m)).
  apply height_inside in Hmin as Hmh.
  destruct (decide (mr ≤ count)%Z) as [Hle|Hgt].
  + rewrite !bool_decide_eq_true_2 by done. exists c, (Some m).
    split; [by eapply limit_closed|]. split.
    { exists (Some m). rewrite owned_entries_unfold. by left. }
    split; [|simpl; rewrite length_app; simpl; lia].
    pose proof (height_child c _ (limit_child_last m p a tm ma mr brs t v c)) as Hh.
    unfold sim_measure. cbn [menu_returns current].
    pose proof (triangle_step (height c) (height g) ltac:(lia) Hgl). lia.
  + rewrite !bool_decide_eq_false_2 by done. exists g, og.
    split; [split; [by exists kg|done]|]. split; [by exists om|].
    split; [|simpl; rewrite length_app; simpl; lia].
    unfold sim_measure. cbn [menu_returns current].
    pose proof (returns_left_decreases root m p a tm ma mr brs t v (Some c) (menu_returns s) ids
      ltac:(by eapply entry_in_preorder) ltac:(fold count; lia)) as Hdec. fold count in Hdec. lia.
  - destruct (entry_compilable ver root k _ o Hc Hk) as (n & [Hck _]). apply ccheck_known in Hck.
  destruct (step_routed ver root events s s' Hck Hr Hstep) as (Hrt & Hmr & e & He & _).
  apply routed_child in Hrt as Hch. exists g, og. split; [split; [by exists kg|done]|].
  split; [eexists; by eapply owned_entries_child|]. split; [|rewrite He, length_app; simpl; lia].
  unfold sim_measure. rewrite Hmr. apply height_child in Hch. lia.
Qed.

(** A loop with enough iterations left ends properly. *)
Lemma sim_loop_ends fuel : ∀ g og s,
  closed g og → inside g og s → sim_measure g s < fuel →
  let r := sim_loop ver events (block_table root) (index_owners ver root None ∅) fuel s in
  proper_end ver root events r ∧ length (trace r) ≤ S (length (strace s) + sim_measure g s).
Proof using ids valid low fields.
  induction fuel as [|fuel IH]; intros g og s Hg Hin Hf; [lia|]. cbn [sim_loop].
  destruct (step s) as [s'|r] eqn:Hstep.
  - destruct (step_measure g og s s' Hg Hin Hstep) as (g' & og' & Hg' & Hin' & Hlt & Hlen).
  destruct (IH g' og' s' Hg' Hin' ltac:(lia)) as [Hend Htr]. split; [done|]. lia.
  - destruct Hg as [[kg Hg] _]. destruct Hin as [o Hin].
  destruct (entries_inside g og kg _ o Hg Hin) as [k Hk].
  destruct (step_ends ver root events known scheds ids valid fields k o s r Hk Hstep) as [He Hl].
  split; [done|]. lia.
Qed.

Lemma root_closed : closed root None.
Proof using Type. split; [exists 0; by rewrite owned_entries_unfold|done]. Qed.

Lemma initial_measure_small : bsize root ≤ 64 → sim_measure root (initial_sim root) ≤ 396.
Proof using valid fields low.
  intros Hs. unfold sim_measure. cbn [menu_returns initial_sim current].
  pose proof (menus_few _ _ _ _ _ valid). pose proof (returns_left_initial root fields).
  assert (triangle (height root) ≤ 28).
  { unfold triangle. revert low. generalize (height root) as h. intros h Hh.
  do 9 (destruct h as [|h]; [simpl; lia|]). lia. }
  lia.
Qed.
End Termination.

(** ** Whole simulations *)

(** A path of the tape, with the program counters it leaves. *)
Inductive tape_path (durations : gmap string Z) (code : list instruction)
    : tape_state → list nat → tape_state → Z → Prop :=
| tape_path_nil st : tape_path durations code st [] st 0
| tape_path_cons st l w st1 pcs st2 c :
    tape_edges durations code st = Ok l → (w, st1) ∈ l → tape_path durations code st1 pcs st2 c →
    tape_path durations code st (st.1 :: pcs) st2 (w + c).

Lemma tape_path_run durations code st pcs st' c :
  tape_path durations code st pcs st' c → tape_run durations code st st' c.
Proof. induction 1; [constructor|by eapply tape_run_step]. Qed.

(** The blocks at the given program counters. *)
Definition blocks_at (code : list instruction) (pcs : list nat) (names : list string) : Prop :=
  Forall2 (λ pc name, iblock_id <$> code !! pc = Some name) pcs names.

Section Whole.
Context (ver : version) (root : block) (rb : RecordingBehavior) (version : string)
  (code : list instruction) (durations : gmap string Z) (events : list string).
Abbreviation step := (sim_step ver events (block_table root) (index_owners ver root None ∅)).
Hypothesis emits : emitted ver root rb version code.

Lemma rel_block s st : sim_rel root code s st → iblock_id <$> code !! st.1 = Some (block_id (current s)).
Proof using emits.
  intros [[o Ho] _]. destruct emits as [_ _ Hver Hcode].
  destruct (code_at root rb _ code Hcode _ _ _ Ho) as (i & -> & _ & <- & _). done.
Qed.

Lemma end_halts s st : sim_rel root code s st → (∃ i, current s = EndCall i) → halted durations code st.
Proof using emits.
  intros [[o Ho] _] [i Hi]. destruct emits as [_ _ Hver Hcode].
  destruct (code_at root rb _ code Hcode _ _ _ Ho) as (ins & Hins & _ & _ & Hop). rewrite Hi in Hop.
  injection Hop as Hop. unfold halted, tape_edges. rewrite Hins. cbn. by rewrite <- Hop.
Qed.

Lemma step_message_end blocks owners s r :
  sim_step ver events blocks owners s = inr r → message r = "Call ended." → ∃ i, current s = EndCall i.
Proof using Type.
  clear emits. unfold sim_step, finish, await, continue.
  destruct (current s); repeat case_match; intros Hstep Hm; simplify_eq/=; eauto; by destruct ver.
Qed.

Lemma sim_loop_path fuel : ∀ s st,
  sim_rel root code s st →
  let r := sim_loop ver events (block_table root) (index_owners ver root None ∅) fuel s in
  ∃ pcs st' c names,
  tape_path durations code st pcs st' c
  ∧ sblock_id <$> trace r = (sblock_id <$> strace s) ++ names
  ∧ (blocks_at code pcs names ∨ blocks_at code (pcs ++ [st'.1]) names)
  ∧ (message r = "Call ended." → halted durations code st').
Proof using emits.
  induction fuel as [|fuel IH]; intros s st Hrel; cbn [sim_loop].
  { exists [], st, 0%Z, []. split; [constructor|]. cbn [trace message]. rewrite app_nil_r.
  split; [done|]. split; [left; constructor|done]. }
  destruct (SimulatorNotice.step_trace ver events (block_table root) (index_owners ver root None ∅) s)
  as (e & (Hid & _) & Htr).
  pose proof (rel_block s st Hrel) as Hblock.
  destruct (step s) as [s'|r] eqn:Hstep.
  - destruct (step_refines ver root rb version code durations events emits s s' st Hrel Hstep)
    as (l & w & st1 & Hl & Hin & Hrel').
  destruct (IH s' st1 Hrel') as (pcs & st' & c & names & Hpath & Hnames & Hblocks & Hend).
  exists (st.1 :: pcs), st', (w + c)%Z, (block_id (current s) :: names).
  split; [by eapply tape_path_cons|]. split.
  + rewrite Hnames, Htr, fmap_app. cbn. rewrite Hid, <- (assoc_L (++)). done.
  + split; [|done]. destruct Hblocks; [left|right]; by constructor.
  - exists [], st, 0%Z, [block_id (current s)]. split; [constructor|].
  rewrite Htr, fmap_app. cbn [fmap list_fmap]. rewrite Hid. split; [done|].
  split; [right; by repeat constructor|].
  intros Hm. eapply end_halts; [done|]. by eapply step_message_end.
Qed.
End Whole.

(** ** Properties *)

(** C5 Simulating a publishable flow takes at most 397 of the 512 transitions, and
    ends the call, waits for an event at a block of the flow, or stops at an
    event that the block does not know; no path of the flow is a dead end. *)
Theorem simulation_ends_properly ver zi configuration known sizes limit root events :
  publishable ver zi configuration known sizes limit root → flow_fields root = true →
  let r := simulate ver (Some root) events in
  proper_end ver root events r ∧ length (trace r) ≤ 397.
Proof.
  intros [_ _ _ Hv Hids _ Hsize Hh _] Hf r.
  pose proof (initial_measure_small ver root known _ Hv Hf Hh Hsize) as Hm.
  destruct (sim_loop_ends ver root events known _ Hids Hv Hf Hh 512 root None (initial_sim root)
    (root_closed root)) as [Hend Hlen].
  - exists None. rewrite owned_entries_unfold. by left.
  - lia.
  - split; [exact Hend|]. cbn [strace initial_sim length] in Hlen. unfold r, simulate. lia.
Qed.

(** C4 A simulation of a flow that compiles visits the blocks of a path of the
    compiled tape from its entry; when it ends the call, the path is complete; and
    in V3 and V4 the path takes at most the stated session length. *)
Theorem simulation_follows_tape ver root rb durations c events :
  compile_document ver (Some root) rb durations = Ok c →
  flow_fields root = true → recording_fields rb = true → map_Forall (λ _ d, 0 ≤ d)%Z durations →
  let code := instructions (compiled_program c) in
  let r := simulate ver (Some root) events in
  ∃ pcs st t, tape_path durations code (initial_state code) pcs st t
    ∧ (blocks_at code pcs (sblock_id <$> trace r) ∨ blocks_at code (pcs ++ [st.1]) (sblock_id <$> trace r))
    ∧ (message r = "Call ended." → halted durations code st)
    ∧ (∀ m, session_ms (compiled_program c) = Some m → (t ≤ m ≤ MAXIMUM_SESSION_MS)%Z).
Proof.
  intros (version & code & bound & He & Hb & ->)%compile_document_ok Hf Hr Hd. simpl instructions.
  destruct (sim_loop_path ver root rb version code durations events He 512 (initial_sim root) (initial_state code)
    (initial_rel root code)) as (pcs & st & t & names & Hpath & Hnames & Hblocks & Hend).
  exists pcs, st, t. split; [done|]. cbn [strace initial_sim fmap list_fmap app] in Hnames.
  unfold simulate. rewrite Hnames. split; [done|]. split; [done|].
  intros m Hsession. cbn [compiled_program session_ms] in Hsession. subst bound.
  apply session_bound_ok in Hb as (_ & Hm & Hle). split; [|done].
  eapply (maximum_cost_ok_bounds durations code _ _ [] (initial_state code) m); [|exact Hm|].
  - by eapply emitted_edges_nonneg.
  - by eapply tape_path_run.
Qed.

Lemma simulation_ends_properly_witness :
  proper_end V4 example_v4 ["external_not_connected"; "2"; "timeout"]
    (simulate V4 (Some example_v4) ["external_not_connected"; "2"; "timeout"]).
Proof.
  apply (simulation_ends_properly V4 example_zones (example_document example_v4) example_prompts example_sizes
    (128 * MIB) example_v4 _ example_v4_publishable).
  vm_compute. reflexivity.
Defined.

Lemma simulation_follows_tape_witness :
  ∃ pcs st t, tape_path example_durations (instructions (compiled_program example_compiled))
      (initial_state (instructions (compiled_program example_compiled))) pcs st t
    ∧ halted example_durations (instructions (compiled_program example_compiled)) st
    ∧ (t ≤ 117000)%Z.
Proof.
  destruct (simulation_follows_tape V4 example_v4 default_recording_behavior example_durations example_compiled
    ["external_completed"]) as (pcs & st & t & Hpath & _ & Hend & Hbound).
  - vm_compute. reflexivity.
  - vm_compute. reflexivity.
  - vm_compute. reflexivity.
  - apply map_Forall_to_list. vm_compute. repeat constructor; discriminate.
  - exists pcs, st, t. split; [exact Hpath|]. split.
    + apply Hend. vm_compute. reflexivity.
    + apply (Hbound 117000%Z). vm_compute. reflexivity.
Defined.
