(* ===== verification/LegacyGraph.v ===== *)
(** * Validation of version 1 flows

    The first configuration format is a graph of named nodes.  This file models
    [validate_configuration] of [validation.py] and its helpers [_walk],
    [_find_cycle], [_maximum_depth] and [_can_reach_end]. *)
From stdpp Require Import base gmap sets strings numbers pretty sorting relations list.
From S2P Require Import Prelude FlowTree Schemas Validation.

(** ** Nodes *)

Inductive FlowNode : Type :=
| PlayPromptNode (id prompt_id next : string)
| CollectDigitNode (id : string) (prompt_id : option string) (timeout_ms maximum_attempts : Z)
    (branches : list (string * string)) (on_timeout on_invalid : string)
| ScheduleBranchNode (id schedule_id on_open on_closed on_holiday : string)
| RepeatMenuNode (id target : string) (maximum_repeats : Z) (on_exhausted : string)
| EndCallNode (id : string).

Definition node_id (n : FlowNode) : string :=
  match n with
  | PlayPromptNode i _ _ | CollectDigitNode i _ _ _ _ _ _ | ScheduleBranchNode i _ _ _ _
  | RepeatMenuNode i _ _ _ | EndCallNode i => i
  end.
Definition is_end (n : FlowNode) : bool := match n with EndCallNode _ => true | _ => false end.

Record DraftConfiguration := {
  legacy_policy : CallerPolicy;
  legacy_schedules : list Schedule;
  root_node : string;
  nodes : list FlowNode;
}.

(** [CollectDigitNode.validate_branches] *)
Fixpoint check_branches (value : list (string * string)) : result unit :=
  match value with
  | [] => Ok tt
  | (digit, target) :: rest =>
      if negb (bool_decide (digit ∈ dtmf_str <$> DTMF_ORDER))
      then Raise (ValueError ("unsupported DTMF key: " +:+ digit))
      else if bool_decide (target = "") || (32 <? String.length target)
      then Raise (ValueError "invalid DTMF branch target")
      else check_branches rest
  end.
Definition validate_branches (value : list (string * string)) : result (list (string * string)) :=
  match value with
  | [] => Raise (ValueError "collect_digit requires at least one digit branch")
  | _ => _ ← check_branches value; Ok value
  end.

(** ** Graph searches *)

Abbreviation graph := (gmap string (list string)).

(** [_walk]: the head of [pending] is the end of the Python list. *)
Fixpoint walk_graph_loop (fuel : nat) (edges : graph) (visited : gset string) (pending : list string)
    : result (gset string) :=
  match pending with
  | [] => Ok visited
  | node :: pending =>
      match fuel with
      | 0 => Raise OutOfFuel
      | S fuel =>
          match edges !! node with
          | Some targets =>
              if bool_decide (node ∈ visited) then walk_graph_loop fuel edges visited pending
              else walk_graph_loop fuel edges ({[node]} ∪ visited) (reverse targets ++ pending)
          | None => walk_graph_loop fuel edges visited pending
          end
      end
  end.

(** The length of all the lists of edges. *)
Definition edge_count (edges : graph) : nat := map_fold (λ _ l n, length l + n) 0 edges.

Definition walk_graph (root : string) (edges : graph) : result (gset string) :=
  walk_graph_loop (S (edge_count edges)) edges ∅ [root].

(** [active.index(node)] *)
Fixpoint list_index (x : string) (l : list string) : nat :=
  match l with
  | [] => 0
  | y :: l => if decide (x = y) then 0 else S (list_index x l)
  end.

(** The loop [for target in edges[node]: found = visit(target); if found: return found]. *)
Fixpoint visit_targets (visit : string → gset string → result (list string + gset string))
    (targets : list string) (visited : gset string) : result (list string + gset string) :=
  match targets with
  | [] => Ok (inr visited)
  | t :: targets =>
      found ← visit t visited;
      match found with
      | inl cycle => Ok (inl cycle)
      | inr visited => visit_targets visit targets visited
      end
  end.

(** The inner [visit] of [_find_cycle]: a cycle, or the set of visited nodes. *)
Fixpoint cycle_visit (fuel : nat) (edges : graph) (active : list string) (node : string)
    (visited : gset string) : result (list string + gset string) :=
  match fuel with
  | 0 => Raise OutOfFuel
  | S fuel =>
      if bool_decide (node ∈ active) then Ok (inl (drop (list_index node active) active ++ [node]))
      else
        match edges !! node with
        | Some targets =>
            if bool_decide (node ∈ visited) then Ok (inr visited)
            else
              found ← visit_targets (cycle_visit fuel edges (active ++ [node])) targets visited;
              match found with
              | inl cycle => Ok (inl cycle)
              | inr visited => Ok (inr ({[node]} ∪ visited))
              end
        | None => Ok (inr visited)
        end
  end.

Definition find_cycle (root : string) (edges : graph) : result (option (list string)) :=
  found ← cycle_visit (S (S (size edges))) edges [] root ∅;
  Ok (match found with inl cycle => Some cycle | inr _ => None end).

(** The inner [depth] of [_maximum_depth], threading [memo]. *)
Fixpoint depth_targets (depth : string → gmap string nat → result (nat * gmap string nat))
    (targets : list string) (best : nat) (memo : gmap string nat) : result (nat * gmap string nat) :=
  match targets with
  | [] => Ok (best, memo)
  | t :: targets =>
      '(d, memo) ← depth t memo;
      depth_targets depth targets (best `max` d) memo
  end.

Fixpoint depth_visit (fuel : nat) (edges : graph) (active : gset string) (node : string)
    (memo : gmap string nat) : result (nat * gmap string nat) :=
  match fuel with
  | 0 => Raise OutOfFuel
  | S fuel =>
      match memo !! node with
      | Some d => Ok (d, memo)
      | None =>
          match edges !! node with
          | Some ((_ :: _) as targets) =>
              if bool_decide (node ∈ active) then Ok (1, memo)
              else
                '(best, memo) ← depth_targets (depth_visit fuel edges ({[node]} ∪ active)) targets 0 memo;
                Ok (S best, <[node := S best]> memo)
          | _ => Ok (1, memo)
          end
      end
  end.

Definition maximum_graph_depth (root : string) (edges : graph) : result nat :=
  '(d, _) ← depth_visit (S (S (size edges))) edges ∅ root ∅; Ok d.

(** [any(...)] of a generator. *)
Fixpoint any_result (f : string → result bool) (l : list string) : result bool :=
  match l with
  | [] => Ok false
  | x :: l => b ← f x; if b : bool then Ok true else any_result f l
  end.

Fixpoint can_reach_end (fuel : nat) (known : gmap string FlowNode) (edges : graph)
    (active : gset string) (node : string) : result bool :=
  match fuel with
  | 0 => Raise OutOfFuel
  | S fuel =>
      if bool_decide (node ∈ active) then Ok false
      else
        match known !! node with
        | None => Ok false
        | Some n =>
            if is_end n then Ok true
            else any_result (can_reach_end fuel known edges ({[node]} ∪ active))
                   (default [] (edges !! node))
        end
  end.

(** ** [validate_configuration] *)

(** What the loop over the nodes accumulates. *)
Record node_state := {
  node_errors : list string;
  node_prompts : gset string;
  regular_edges : graph;
  all_edges : graph;
  missing_node_reference : bool;
}.

(** [edges] and [bounded_repeat_edges] of a node. *)
Definition node_edges (n : FlowNode) : list string * list string :=
  match n with
  | PlayPromptNode _ _ nxt => ([nxt], [])
  | CollectDigitNode _ _ _ _ branches t v => (branches.*2 ++ [t; v], [])
  | ScheduleBranchNode _ _ o c h => ([o; c; h], [])
  | RepeatMenuNode _ target _ on_exhausted => ([on_exhausted], [target])
  | EndCallNode _ => ([], [])
  end.

Definition node_prompt (n : FlowNode) : gset string :=
  match n with
  | PlayPromptNode _ p _ => {[p]}
  | CollectDigitNode _ p _ _ _ _ _ => if truthy p then {[default "" p]} else ∅
  | _ => ∅
  end.

Definition schedule_errors (schedule_ids : gset string) (n : FlowNode) : list string :=
  match n with
  | ScheduleBranchNode i sc _ _ _ =>
      if bool_decide (sc ∈ schedule_ids) then []
      else ["Node " +:+ i +:+ " references missing schedule " +:+ sc +:+ "."]
  | _ => []
  end.

Definition missing_errors (known : gmap string FlowNode) (i : string) (targets : list string) : list string :=
  (λ t, "Node " +:+ i +:+ " references missing node " +:+ t +:+ ".")
    <$> filter (λ t, known !! t = None) targets.

Definition node_step (known : gmap string FlowNode) (schedule_ids : gset string)
    (s : node_state) (n : FlowNode) : node_state :=
  let '(edges, bounded_repeat_edges) := node_edges n in
  let missing := missing_errors known (node_id n) (edges ++ bounded_repeat_edges) in
  {| node_errors := node_errors s ++ schedule_errors schedule_ids n ++ missing;
     node_prompts := node_prompt n ∪ node_prompts s;
     regular_edges := <[node_id n := edges]> (regular_edges s);
     all_edges := <[node_id n := edges ++ bounded_repeat_edges]> (all_edges s);
     missing_node_reference := missing_node_reference s || negb (bool_decide (missing = [])) |}.

Fixpoint legacy_timezones (zoneinfo : string → zone_lookup) (scheds : list Schedule)
    (errs : list string) : result (list string) :=
  match scheds with
  | [] => Ok errs
  | s :: scheds =>
      match zoneinfo (timezone s) with
      | zone_found => legacy_timezones zoneinfo scheds errs
      | zone_not_found =>
          legacy_timezones zoneinfo scheds (errs ++ ["Schedule " +:+ sid s +:+ " has an unknown timezone."])
      | zone_raises e => Raise e
      end
  end.

Definition str_le (a b : string) : Prop := ¬ str_lt b a.
#[global] Instance str_le_dec : RelDecision str_le.
Proof. intros a b. unfold str_le. apply _. Defined.

(** [for node_id in reachable: if not _can_reach_end(...): ...; break] *)
Fixpoint first_stuck (known : gmap string FlowNode) (edges : graph) (l : list string)
    : result (list string) :=
  match l with
  | [] => Ok []
  | i :: l =>
      b ← can_reach_end (S (S (size edges))) known edges ∅ i;
      if b : bool then first_stuck known edges l
      else Ok ["Node " +:+ i +:+ " has no terminating path."]
  end.

(** The graph analyses that follow the checks of the nodes. *)
Definition analyse (iterate : gset string → list string) (known : gmap string FlowNode) (root : string)
    (regular all : graph) (errs : list string) : result (list string) :=
  reachable ← walk_graph root all;
  let unreachable := merge_sort str_le (elements ((dom known : gset string) ∖ reachable)) in
  let errs := errs ++
    (if bool_decide (unreachable = []) then []
     else ["Unreachable flow nodes: " +:+ String.concat ", " unreachable +:+ "."]) in
  cycle ← find_cycle root regular;
  let errs := errs ++ match cycle with
    | Some c => ["Unbounded flow cycle: " +:+ String.concat " -> " c +:+ "."]
    | None => []
    end in
  max_depth ← maximum_graph_depth root regular;
  let errs := errs ++
    (if 8 <? max_depth then ["Flow depth " +:+ pretty max_depth +:+ " exceeds the limit of 8."] else []) in
  stuck ← first_stuck known regular (iterate reachable);
  Ok (errs ++ stuck).

Section Validate.
(** Python iterates over a set in an unspecified order. *)
Context (iterate : gset string → list string) (zoneinfo : string → zone_lookup).

Definition initial_node_state (errs : list string) : node_state :=
  {| node_errors := errs; node_prompts := ∅; regular_edges := ∅; all_edges := ∅;
   missing_node_reference := false |}.

Definition validate_configuration (configuration : DraftConfiguration) (prompt_ids : gset string)
  (prompt_sizes : gmap string Z) (revision_asset_limit_bytes : Z) : result (list string) :=
  let flow_nodes := nodes configuration in
  let known : gmap string FlowNode := foldl (λ m n, <[node_id n := n]> m) ∅ flow_nodes in
  if negb (size known =? length flow_nodes) then Ok ["Flow node IDs must be unique."]
  else
  let no_root := negb (bool_decide (is_Some (known !! root_node configuration))) in
  let errs := if no_root then ["Flow root node does not exist."] else [] in
  let ids := sid <$> legacy_schedules configuration in
  let errs := errs ++ (if has_duplicates ids then ["Schedule IDs must be unique."] else []) in
  errs ← legacy_timezones zoneinfo (legacy_schedules configuration) errs;
  let s := foldl (node_step known (list_to_set ids)) (initial_node_state errs) flow_nodes in
  let errs := node_errors s
    ++ ((λ p, "Flow references missing prompt " +:+ p +:+ ".")
          <$> filter (λ p, p ∉ prompt_ids) (iterate (node_prompts s)))
    ++ (if bool_decide (revision_asset_limit_bytes < asset_bytes prompt_sizes (node_prompts s))%Z
        then ["Revision prompt assets exceed the 128 MiB limit."] else []) in
  if missing_node_reference s || no_root then Ok errs
  else
    analyse iterate known (root_node configuration) (regular_edges s) (all_edges s) errs.
End Validate.
