(* ===== verification/LegacyFacts.v ===== *)
(** * Correctness of the version 1 graph searches

    [_walk] computes reachability, [_find_cycle] decides whether the regular edges
    have a cycle, [_maximum_depth] is the length of a longest path of an acyclic
    graph, and in such a graph [_can_reach_end] is redundant. *)
From stdpp Require Import base gmap sets strings numbers pretty sorting relations list.
From S2P Require Import Prelude FlowTree Schemas Validation LegacyGraph.

Section Graph.
Context (edges : graph).

Definition edge (n m : string) : Prop := ∃ l, edges !! n = Some l ∧ m ∈ l.
(** Every path from [n] is finite. *)
Definition terminates (n : string) : Prop := Acc (λ m n, edge n m) n.
Definition chain (l : list string) : Prop :=
  ∀ i x y, l !! i = Some x → l !! S i = Some y → edge x y.

Lemma edge_dom n m : edge n m → is_Some (edges !! n).
Proof. intros (l & -> & _). by eexists. Qed.

(** ** [_walk] *)

(** The edges of the nodes that were not visited. *)
Definition edges_left (visited : gset string) : nat :=
  edge_count (filter (λ p : string * list string, p.1 ∉ visited) edges).

Lemma edges_left_visit visited n l :
  edges !! n = Some l → n ∉ visited →
  edges_left visited = length l + edges_left ({[n]} ∪ visited).
Proof.
  intros Hn Hv. unfold edges_left, edge_count.
  set (m := filter (λ p : string * list string, p.1 ∉ visited) edges).
  assert (m !! n = Some l) as Hm by (by apply map_lookup_filter_Some).
  rewrite (map_fold_delete_L (λ _ l k, length l + k) 0 n l m) by (try done; intros; lia).
  do 2 f_equal. apply map_eq. intros i. apply option_eq. intros x.
  rewrite lookup_delete_Some. unfold m. rewrite !map_lookup_filter_Some. simpl. set_solver.
Qed.

Lemma walk_total fuel : ∀ visited pending,
  length pending + edges_left visited ≤ fuel → ∃ X, walk_graph_loop fuel edges visited pending = Ok X.
Proof.
  induction fuel as [|fuel IH]; intros visited [|n pending] Hf; simpl in *; eauto; [lia|].
  destruct (edges !! n) as [l|] eqn:E; [|apply IH; lia]. case_bool_decide; [apply IH; lia|].
  apply IH. rewrite length_app, length_reverse. rewrite (edges_left_visit visited n l) in Hf by done. lia.
Qed.

Lemma walk_sound fuel : ∀ visited pending X,
  walk_graph_loop fuel edges visited pending = Ok X →
  (∀ n m, n ∈ visited → edge n m → is_Some (edges !! m) → m ∈ visited ∨ m ∈ pending) →
  (∀ n, n ∈ visited → is_Some (edges !! n)) →
  visited ⊆ X ∧ (∀ n, n ∈ pending → is_Some (edges !! n) → n ∈ X)
  ∧ (∀ n m, n ∈ X → edge n m → is_Some (edges !! m) → m ∈ X)
  ∧ (∀ n, n ∈ X → is_Some (edges !! n) ∧ (n ∈ visited ∨ ∃ p, p ∈ pending ∧ rtc edge p n)).
Proof.
  induction fuel as [|fuel IH]; intros visited [|n pending] X; cbn [walk_graph_loop]; try done.
  - intros [= <-] Hclosed Hdom. split_and!; try done; [set_solver| |auto].
  intros n m Hn He Hm. destruct (Hclosed n m Hn He Hm) as [?|?%elem_of_nil]; done.
  - intros [= <-] Hclosed Hdom. split_and!; try done; [set_solver| |auto].
  intros n m Hn He Hm. destruct (Hclosed n m Hn He Hm) as [?|?%elem_of_nil]; done.
  - destruct (edges !! n) as [l|] eqn:E; [case_bool_decide as Hv|]; intros HX Hclosed Hdom;
    apply IH in HX as (H1 & H2 & H3 & H4).
  + split_and!; [done| |done|].
    * intros k [->|Hk]%elem_of_cons Hks; [by apply H1|by apply H2].
    * intros k Hk. destruct (H4 k Hk) as [? [?|(p & Hp & ?)]]; (split; [done|]); [by left|].
      right. exists p. split; [by right|done].
  + intros k m Hk He Hm. destruct (Hclosed k m Hk He Hm) as [?|[->|?]%elem_of_cons]; auto.
  + done.
  + split_and!; [set_solver| |done|].
    * intros k [->|Hk]%elem_of_cons Hks; [apply H1; set_solver|]. apply H2; [|done].
      apply elem_of_app. by right.
    * intros k Hk. destruct (H4 k Hk) as [? [[->%elem_of_singleton|?]%elem_of_union|(p & Hp & ?)]];
        (split; [done|]).
      -- right. exists n. split; [by left|done].
      -- by left.
      -- right. apply elem_of_app in Hp as [Hp|Hp].
         ++ exists n. split; [by left|]. eapply rtc_l; [|done]. exists l.
            by rewrite elem_of_reverse in Hp.
         ++ exists p. split; [by right|done].
  + intros k m [->%elem_of_singleton|Hk]%elem_of_union He Hm.
    * destruct He as (l' & Hl' & Hin). rewrite E in Hl'. injection Hl' as <-.
      right. apply elem_of_app. left. by apply elem_of_reverse.
    * destruct (Hclosed k m Hk He Hm) as [?|[->|?]%elem_of_cons]; [left|left|right]; set_solver.
  + intros k [->%elem_of_singleton|Hk]%elem_of_union; [by eexists|by apply Hdom].
  + split_and!; [done| |done|].
    * intros k [->|Hk]%elem_of_cons Hks; [rewrite E in Hks; by destruct Hks|by apply H2].
    * intros k Hk. destruct (H4 k Hk) as [? [?|(p & Hp & ?)]]; (split; [done|]); [by left|].
      right. exists p. split; [by right|done].
  + intros k m Hk He Hm. destruct (Hclosed k m Hk He Hm) as [?|[->|?]%elem_of_cons]; auto.
    rewrite E in Hm. by destruct Hm.
  + done.
Qed.

(** [_walk] returns the known nodes reachable from the root. *)
Lemma walk_graph_spec root :
  ∃ X, walk_graph root edges = Ok X ∧ ∀ n, n ∈ X ↔ is_Some (edges !! n) ∧ rtc edge root n.
Proof.
  destruct (walk_total (S (edge_count edges)) ∅ [root]) as [X HX].
  { simpl. unfold edges_left. apply le_n_S. rewrite map_filter_id; [done|]. intros. simpl. set_solver. }
  exists X. split; [done|].
  destruct (walk_sound _ _ _ _ HX) as (_ & H2 & H3 & H4); [set_solver|set_solver|].
  intros n. split.
  - intros Hn. destruct (H4 n Hn) as [Hs [?|(p & ->%list_elem_of_singleton & Hp)]]; [set_solver|done].
  - intros [Hs Hr]. revert n Hr Hs.
  refine (rtc_ind_r (λ n, is_Some (edges !! n) → n ∈ X) root _ _).
  + intros Hs. apply H2; [by left|done].
  + intros y z _ Hyz IH Hs. apply (H3 y); [|done|done]. apply IH. by eapply edge_dom.
Qed.

(** ** Terminating nodes *)

Lemma terminates_step n m : terminates n → edge n m → terminates m.
Proof. intros [H] He. by apply H. Qed.

Lemma terminates_rtc n m : rtc edge n m → terminates n → terminates m.
Proof. induction 1 as [|x y z Hxy _ IH]; [done|]. intros Hx. apply IH. by eapply terminates_step. Qed.

Lemma terminates_no_loop n : terminates n → ¬ tc edge n n.
Proof.
  induction 1 as [n _ IH]. intros Hl. inversion Hl as [? ? He|? y ? He Hy]; subst.
  - by apply (IH n He).
  - apply (IH y He). eapply tc_r; [exact Hy|done].
Qed.

Lemma chain_snoc l x y : chain l → last l = Some x → edge x y → chain (l ++ [y]).
Proof.
  intros Hc Hl He i a b Ha Hb.
  destruct (decide (S i < length l)) as [Hlt|Hge].
  - rewrite lookup_app_l in Ha, Hb by lia. by apply (Hc i).
  - assert (S i = length l) as Hi.
  { apply lookup_lt_Some in Hb. rewrite length_app in Hb. simpl in Hb. lia. }
  rewrite lookup_app_r in Hb by lia. rewrite lookup_app_l in Ha by lia.
  rewrite last_lookup in Hl. replace (pred (length l)) with i in Hl by lia.
  replace (S i - length l) with 0 in Hb by lia. simplify_eq/=. done.
Qed.

Lemma chain_drop k l : chain l → chain (drop k l).
Proof. intros Hc i x y. rewrite !lookup_drop, Nat.add_succ_r. apply Hc. Qed.

Lemma chain_tail x l : chain (x :: l) → chain l.
Proof. apply (chain_drop 1). Qed.

Lemma chain_tc x l y : chain (x :: l) → last l = Some y → tc edge x y.
Proof.
  revert x. induction l as [|z l IH]; intros x Hc Hl; [done|].
  assert (edge x z) as He by (by apply (Hc 0)).
  destruct l as [|z' l]; [injection Hl as ->; by apply tc_once|].
  eapply tc_l; [done|]. apply IH; [by eapply chain_tail|done].
Qed.

Lemma list_index_lookup x (l : list string) : x ∈ l → l !! list_index x l = Some x.
Proof.
  induction l as [|y l IH]; intros Hx; [by apply elem_of_nil in Hx|]. simpl.
  case_decide as Hy; [by subst|]. simpl. apply IH. by apply elem_of_cons in Hx as [|].
Qed.

(** ** [_find_cycle] *)

(** The nodes under visit form a path to the current node. *)
Definition active_path (root : string) (active : list string) (node : string) : Prop :=
  chain (active ++ [node]) ∧ NoDup active ∧ (∀ a, a ∈ active → is_Some (edges !! a))
  ∧ (∀ a, a ∈ active ++ [node] → rtc edge root a).

Definition is_cycle (root : string) (c : list string) : Prop :=
  ∃ x l, c = x :: l ∧ chain c ∧ last l = Some x ∧ rtc edge root x.

Lemma active_size active : NoDup active → (∀ a, a ∈ active → is_Some (edges !! a)) →
  length active ≤ size edges.
Proof.
  intros Hnd Ha. rewrite <- (size_dom (D := gset string) edges), <- (size_list_to_set (C := gset string) active) by done.
  apply subseteq_size. intros a Hin%elem_of_list_to_set. by apply elem_of_dom, Ha.
Qed.

Lemma visit_targets_ok visit (I : gset string → Prop) targets : ∀ visited r,
  (∀ t v r, t ∈ targets → I v → visit t v = Ok r →
   match r with inl _ => True | inr v' => I v' ∧ v ⊆ v' ∧ terminates t end) →
  I visited → visit_targets visit targets visited = Ok r →
  match r with
  | inl c => ∃ t v, t ∈ targets ∧ I v ∧ visit t v = Ok (inl c)
  | inr v' => I v' ∧ visited ⊆ v' ∧ ∀ t, t ∈ targets → terminates t
  end.
Proof.
  induction targets as [|t targets IH]; intros visited r Hv HI; cbn [visit_targets].
  - intros [= <-]. split; [done|]. split; [done|]. by intros t ?%elem_of_nil.
  - intros (found & Hf & Hr)%result_bind_ok.
  pose proof (Hv t visited found ltac:(by left) HI Hf) as Hfound. destruct found as [c|v'].
  + injection Hr as <-. exists t, visited. split; [by left|done].
  + destruct Hfound as (HI' & Hsub & Ht).
    specialize (IH v' r (λ t v r Hin, Hv t v r ltac:(by right)) HI' Hr). destruct r as [c|v''].
    * destruct IH as (t' & v & Hin & ?). exists t', v. split; [by right|done].
    * destruct IH as (? & ? & Hts). split; [done|]. split; [set_solver|].
      intros t' [->|Hin]%elem_of_cons; [done|by apply Hts].
Qed.

Lemma cycle_visit_ok root fuel : ∀ active node visited r,
  active_path root active node → (∀ n, n ∈ visited → terminates n) →
  cycle_visit fuel edges active node visited = Ok r →
  match r with
  | inl c => is_cycle root c
  | inr v' => (∀ n, n ∈ v' → terminates n) ∧ visited ⊆ v' ∧ terminates node
  end.
Proof.
  induction fuel as [|fuel IH]; intros active node visited r Hact Hvis; [done|]. cbn [cycle_visit].
  destruct Hact as (Hc & Hnd & Hdom & Hreach). case_bool_decide as Ha.
  - intros [= <-]. pose proof (list_index_lookup _ _ Ha) as Hi. apply lookup_lt_Some in Hi as Hlt.
  set (k := list_index node active) in *.
  assert (drop k active ++ [node] = drop k (active ++ [node])) as E by (by rewrite drop_app_le by lia).
  destruct (drop k active) as [|x l] eqn:Ed.
  { apply (f_equal length) in Ed. rewrite length_drop in Ed. simpl in Ed. lia. }
  assert (x = node) as ->.
  { assert (drop k active !! 0 = Some x) as H by (by rewrite Ed). rewrite lookup_drop, Nat.add_0_r in H.
    congruence. }
  exists node, (l ++ [node]). split; [done|]. split; [rewrite E; by apply chain_drop|].
  split; [by rewrite last_snoc|]. apply Hreach. apply elem_of_app. by left.
  - destruct (edges !! node) as [targets|] eqn:E.
  2: { intros [= <-]. split; [done|]. split; [done|]. constructor. intros m (l & Hl & _). congruence. }
  case_bool_decide as Hv; [intros [= <-]; auto|].
  intros (found & Hf & Hr)%result_bind_ok.
  assert (∀ t, t ∈ targets → active_path root (active ++ [node]) t) as Hpath.
  { intros t Ht. assert (edge node t) as He by (by exists targets). split_and!.
    - apply (chain_snoc _ node); [done|by rewrite last_snoc|done].
    - apply NoDup_app. split; [done|]. split; [|apply NoDup_singleton].
      intros x Hx ->%list_elem_of_singleton. done.
    - intros a [Hin| ->%list_elem_of_singleton]%elem_of_app; [by apply Hdom|by eexists].
    - intros a [Hin| ->%list_elem_of_singleton]%elem_of_app; [by apply Hreach|].
      eapply rtc_r; [|done]. apply Hreach. apply elem_of_app. right. by left. }
  pose proof (visit_targets_ok (cycle_visit fuel edges (active ++ [node]))
    (λ v, ∀ n, n ∈ v → terminates n) targets visited found) as H.
  specialize (H ltac:(intros t v [c|v'] Ht Hv' Hvt; [done|];
    by destruct (IH _ _ _ _ (Hpath t Ht) Hv' Hvt) as (? & ? & ?)) Hvis Hf).
  destruct found as [c|v'].
  + injection Hr as <-. destruct H as (t & v & Ht & Hv' & Hvt). by apply (IH _ _ _ _ (Hpath t Ht) Hv' Hvt).
  + injection Hr as <-. destruct H as (HI & Hsub & Hts).
    assert (terminates node) as Hn.
    { constructor. intros m (l & Hl & Hm). rewrite E in Hl. injection Hl as <-. by apply Hts. }
    split; [|split; [set_solver|done]].
    intros n [->%elem_of_singleton|?]%elem_of_union; [done|by apply HI].
Qed.

Lemma visit_targets_total visit targets : ∀ visited,
  (∀ t v, t ∈ targets → ∃ r, visit t v = Ok r) → ∃ r, visit_targets visit targets visited = Ok r.
Proof.
  induction targets as [|t targets IH]; intros visited H; cbn [visit_targets]; [by eexists|].
  destruct (H t visited ltac:(by left)) as [[c|v'] ->]; cbn [mbind result_bind]; [by eexists|].
  apply IH. intros. apply H. by right.
Qed.

Lemma cycle_visit_total fuel : ∀ active node visited,
  NoDup active → (∀ a, a ∈ active → is_Some (edges !! a)) → S (size edges - length active) < fuel →
  ∃ r, cycle_visit fuel edges active node visited = Ok r.
Proof.
  induction fuel as [|fuel IH]; intros active node visited Hnd Hdom Hf; [lia|]. cbn [cycle_visit].
  case_bool_decide as Ha; [by eexists|]. destruct (edges !! node) as [targets|] eqn:E; [|by eexists].
  case_bool_decide; [by eexists|].
  assert (NoDup (active ++ [node])) as Hnd'.
  { apply NoDup_app. split; [done|]. split; [|apply NoDup_singleton].
  intros x Hx ->%list_elem_of_singleton. done. }
  assert (∀ a, a ∈ active ++ [node] → is_Some (edges !! a)) as Hdom'.
  { intros a [Hin| ->%list_elem_of_singleton]%elem_of_app; [by apply Hdom|by eexists]. }
  pose proof (active_size _ Hnd' Hdom') as Hs. rewrite length_app in Hs. simpl in Hs.
  destruct (visit_targets_total (cycle_visit fuel edges (active ++ [node])) targets visited) as [r ->].
  { intros t v _. apply IH; [done..|]. rewrite length_app. simpl. lia. }
  cbn [mbind result_bind]. destruct r; by eexists.
Qed.

Lemma find_cycle_spec root :
  ∃ r, find_cycle root edges = Ok r ∧
  match r with Some c => is_cycle root c ∧ ¬ terminates root | None => terminates root end.
Proof.
  unfold find_cycle. destruct (cycle_visit_total (S (S (size edges))) [] root ∅) as [r Hr];
  [constructor|by intros ? ?%elem_of_nil|simpl; lia|].
  rewrite Hr. cbn [mbind result_bind]. eexists. split; [done|].
  apply (cycle_visit_ok root) in Hr; [| |set_solver].
  - destruct r as [c|v']; [|by destruct Hr as (_ & _ & ?)]. split; [done|].
  destruct Hr as (x & l & -> & Hc & Hl & Hreach). intros Ht.
  apply (terminates_rtc _ _ Hreach) in Ht. apply (terminates_no_loop _ Ht). by eapply chain_tc.
  - split_and!; [|constructor|by intros ? ?%elem_of_nil|].
  + intros i x y Hx Hy. apply lookup_lt_Some in Hy. simpl in Hy. lia.
  + intros a ->%list_elem_of_singleton. done.
Qed.

(** ** [_maximum_depth] *)

(** [d] nodes lie on a longest path from [n]. *)
Definition longest_path (n : string) (d : nat) : Prop :=
  (∃ l, chain (n :: l) ∧ S (length l) = d) ∧ ∀ l, chain (n :: l) → S (length l) ≤ d.

Definition memo_ok (memo : gmap string nat) : Prop := ∀ n d, memo !! n = Some d → longest_path n d.

Lemma chain_cons n m l : edge n m → chain (m :: l) → chain (n :: m :: l).
Proof. intros He Hc [|i] x y Hx Hy; simpl in *; [by simplify_eq|]. by apply (Hc i). Qed.

Lemma longest_path_leaf n : (∀ m, ¬ edge n m) → longest_path n 1.
Proof.
  intros Hn. split.
  - exists []. split; [|done]. intros i x y _ Hy. simpl in Hy. by rewrite lookup_nil in Hy.
  - intros [|m l] Hc; [done|]. destruct (Hn m). by apply (Hc 0).
Qed.

Lemma depth_targets_ok depth targets : ∀ best memo r memo',
  (∀ t m d m', t ∈ targets → memo_ok m → depth t m = Ok (d, m') → longest_path t d ∧ memo_ok m') →
  memo_ok memo → depth_targets depth targets best memo = Ok (r, memo') →
  memo_ok memo' ∧ best ≤ r ∧ (∀ t, t ∈ targets → ∃ d, longest_path t d ∧ d ≤ r)
  ∧ (r = best ∨ ∃ t, t ∈ targets ∧ longest_path t r).
Proof.
  induction targets as [|t targets IH]; intros best memo r memo' Hd Hm; cbn [depth_targets].
  { intros [= <- <-]. split_and!; [done|done| |by left]. by intros t ?%elem_of_nil. }
  intros ([d m'] & Ht & Hr)%result_bind_ok. apply Hd in Ht as [Hl Hm']; [|by left|done].
  apply IH in Hr as (Hm'' & Hle & Hall & Hmax); [| |done].
  2: { intros t' m1 d1 m1' Hin. apply Hd. by right. }
  split; [done|]. split; [lia|]. split.
  - intros t' [->|Hin]%elem_of_cons; [exists d; split; [done|lia]|by apply Hall].
  - destruct Hmax as [->|(t' & Hin & ?)]; [|right; exists t'; split; [by right|done]].
  destruct (Nat.max_spec best d) as [[_ ->]|[_ ->]]; [|by left]. right. exists t. split; [by left|done].
Qed.

Lemma depth_visit_ok fuel : ∀ active node memo d memo',
  (∀ a, a ∈ active → tc edge a node) → terminates node → memo_ok memo →
  depth_visit fuel edges active node memo = Ok (d, memo') → longest_path node d ∧ memo_ok memo'.
Proof.
  induction fuel as [|fuel IH]; intros active node memo d memo' Hact Ht Hm; [done|]. cbn [depth_visit].
  destruct (memo !! node) as [d'|] eqn:Em.
  { intros [= <- <-]. split; [by apply Hm|done]. }
  destruct (edges !! node) as [[|t0 ts]|] eqn:E.
  - intros [= <- <-]. split; [|done]. apply longest_path_leaf. intros m (l & Hl & Hin).
  rewrite E in Hl. injection Hl as <-. by apply elem_of_nil in Hin.
  - set (targets := t0 :: ts) in *. case_bool_decide as Ha.
  { exfalso. by apply (terminates_no_loop _ Ht), Hact. }
  intros ([best memo1] & Hts & [= <- <-])%result_bind_ok.
  assert (∀ t, t ∈ targets → edge node t) as He by (intros t Hin; by exists targets).
  apply depth_targets_ok in Hts as (Hm1 & _ & Hall & Hmax); [| |done].
  2: { intros t m1 d1 m1' Hin. apply IH.
       - intros a [->%elem_of_singleton|Hin']%elem_of_union; [by apply tc_once, He|].
         eapply tc_r; [by apply Hact|by apply He].
       - by eapply terminates_step; [|apply He]. }
  assert (longest_path node (S best)) as Hl.
  { split.
    - destruct Hmax as [->|(t & Hin & (l & Hc & Hlen) & _)].
      + destruct (Hall t0 ltac:(by left)) as (d & [(l & _ & Hlen) _] & Hle). lia.
      + exists (t :: l). split; [apply chain_cons; [by apply He|done]|simpl; lia].
    - intros [|m l] Hc; [simpl; lia|]. assert (edge node m) as Hedge by (by apply (Hc 0)).
      destruct Hedge as (targets' & Hl & Hin). rewrite E in Hl. injection Hl as <-.
      destruct (Hall m Hin) as (d & [_ Hub] & Hle). specialize (Hub l (chain_tail _ _ Hc)).
      simpl. lia. }
  split; [done|]. intros n' d [[<- <-]|[_ Hn']]%lookup_insert_Some; [done|by apply Hm1].
  - intros [= <- <-]. split; [|done]. apply longest_path_leaf. intros m (l & Hl & Hin). congruence.
Qed.

Lemma depth_targets_total depth targets : ∀ best memo,
  (∀ t m, t ∈ targets → ∃ r, depth t m = Ok r) → ∃ r, depth_targets depth targets best memo = Ok r.
Proof.
  induction targets as [|t targets IH]; intros best memo H; cbn [depth_targets]; [by eexists|].
  destruct (H t memo ltac:(by left)) as [[d m'] ->]. cbn [mbind result_bind].
  apply IH. intros. apply H. by right.
Qed.

Lemma active_set_size (active : gset string) : (∀ a, a ∈ active → is_Some (edges !! a)) →
  size active ≤ size edges.
Proof.
  intros Ha. rewrite <- (size_dom (D := gset string) edges). apply subseteq_size.
  intros a Hin. by apply elem_of_dom, Ha.
Qed.

Lemma depth_visit_total fuel : ∀ active node memo,
  (∀ a, a ∈ active → is_Some (edges !! a)) → S (size edges - size active) < fuel →
  ∃ r, depth_visit fuel edges active node memo = Ok r.
Proof.
  induction fuel as [|fuel IH]; intros active node memo Hdom Hf; [lia|]. cbn [depth_visit].
  destruct (memo !! node); [by eexists|]. destruct (edges !! node) as [[|t0 ts]|] eqn:E; [by eexists| |by eexists].
  case_bool_decide as Ha; [by eexists|].
  assert (∀ a, a ∈ {[node]} ∪ active → is_Some (edges !! a)) as Hdom'.
  { intros a [->%elem_of_singleton|Hin]%elem_of_union; [by eexists|by apply Hdom]. }
  pose proof (active_set_size _ Hdom') as Hs. rewrite size_union, size_singleton in Hs by set_solver.
  destruct (depth_targets_total (depth_visit fuel edges ({[node]} ∪ active)) (t0 :: ts) 0 memo) as [[b m] ->].
  { intros t m _. apply IH; [done|]. rewrite size_union, size_singleton by set_solver. lia. }
  by eexists.
Qed.

Lemma maximum_graph_depth_spec root :
  ∃ d, maximum_graph_depth root edges = Ok d ∧ (terminates root → longest_path root d).
Proof.
  unfold maximum_graph_depth.
  destruct (depth_visit_total (S (S (size edges))) ∅ root ∅) as [[d m] Hd]; [set_solver|lia|].
  rewrite Hd. eexists. split; [done|]. intros Ht.
  apply depth_visit_ok in Hd as [? _]; [done|set_solver|done|].
  intros n d' Hn. by rewrite lookup_empty in Hn.
Qed.

(** ** [_can_reach_end] *)

Section End.
Context (known : gmap string FlowNode).

Lemma any_result_total f l : (∀ x, x ∈ l → ∃ b, f x = Ok b) → ∃ b, any_result f l = Ok b.
Proof.
  induction l as [|x l IH]; intros H; cbn [any_result]; [by eexists|].
  destruct (H x ltac:(by left)) as [[|] ->]; cbn [mbind result_bind]; [by eexists|].
  apply IH. intros. apply H. by right.
Qed.

Lemma can_reach_end_total fuel : ∀ active node,
  (∀ a, a ∈ active → is_Some (edges !! a)) → S (size edges - size active) < fuel →
  ∃ b, can_reach_end fuel known edges active node = Ok b.
Proof.
  induction fuel as [|fuel IH]; intros active node Hdom Hf; [lia|]. cbn [can_reach_end].
  case_bool_decide as Ha; [by eexists|]. destruct (known !! node) as [n|]; [|by eexists].
  destruct (is_end n); [by eexists|]. apply any_result_total. intros t Ht.
  destruct (edges !! node) as [targets|] eqn:E; [|by apply elem_of_nil in Ht].
  assert (∀ a, a ∈ {[node]} ∪ active → is_Some (edges !! a)) as Hdom'.
  { intros a [->%elem_of_singleton|Hin]%elem_of_union; [by eexists|by apply Hdom]. }
  pose proof (active_set_size _ Hdom') as Hs. rewrite size_union, size_singleton in Hs by set_solver.
  apply IH; [done|]. rewrite size_union, size_singleton by set_solver. lia.
Qed.

Lemma any_result_true f l b x :
  any_result f l = Ok b → x ∈ l → (∀ c, f x = Ok c → c = true) → b = true.
Proof.
  revert b. induction l as [|y l IH]; intros b; cbn [any_result]; [by intros _ ?%elem_of_nil|].
  intros (c & Hc & Hb)%result_bind_ok [->|Hx]%elem_of_cons Ht.
  - rewrite (Ht c Hc) in Hb. by injection Hb.
  - destruct c; [by injection Hb|]. by eapply IH.
Qed.

Lemma any_result_found f l : any_result f l = Ok true → ∃ x, x ∈ l ∧ f x = Ok true.
Proof.
  induction l as [|y l IH]; cbn [any_result]; [done|].
  intros ([|] & Hc & Hb)%result_bind_ok.
  - exists y. split; [by left|done].
  - destruct (IH Hb) as (x & Hx & ?). exists x. split; [by right|done].
Qed.

(** [l] leads from [n] to an end. *)
Definition end_path (n : string) (l : list string) : Prop :=
  chain (n :: l) ∧ ∃ e, last (n :: l) = Some e ∧ is_end <$> known !! e = Some true.

Lemma can_reach_end_sound fuel : ∀ active node,
  can_reach_end fuel known edges active node = Ok true → ∃ l, end_path node l.
Proof.
  induction fuel as [|fuel IH]; intros active node; [done|]. cbn [can_reach_end].
  case_bool_decide; [done|]. destruct (known !! node) as [n|] eqn:E; [|done].
  destruct (is_end n) eqn:Ee.
  - intros _. exists []. split; [|exists node; rewrite E; simpl; by rewrite Ee].
  intros i x y _ Hy. simpl in Hy. by rewrite lookup_nil in Hy.
  - intros (t & Ht & Hl)%any_result_found. destruct (edges !! node) as [ts|] eqn:El; [|by apply elem_of_nil in Ht].
  destruct (IH _ _ Hl) as (l & Hc & e & Hlast & He). exists (t :: l). split; [|by exists e].
  apply chain_cons; [by exists ts|done].
Qed.

Lemma chain_suffix l1 x l2 : chain (l1 ++ x :: l2) → chain (x :: l2).
Proof. intros Hc. apply (chain_drop (length l1)) in Hc. by rewrite drop_app_length in Hc. Qed.

Lemma can_reach_end_complete k : ∀ l active node fuel b,
  length l ≤ k → end_path node l → (∀ x, x ∈ node :: l → (x ∉ active) ∧ is_Some (known !! x)) →
  can_reach_end fuel known edges active node = Ok b → b = true.
Proof.
  induction k as [|k IH]; intros l active node fuel b Hk (Hc & e & Hlast & He) Hav.
  all: destruct fuel as [|fuel]; [done|]; cbn [can_reach_end].
  all: destruct (Hav node ltac:(by left)) as [Hna [n Hn]].
  all: rewrite bool_decide_eq_false_2 by done; rewrite Hn.
  all: destruct (is_end n) eqn:Ee; [by intros [= <-]|].
  - destruct l; simpl in Hk; [|lia]. injection Hlast as <-. rewrite Hn in He. simpl in He. congruence.
  - destruct l as [|m l]; [injection Hlast as <-; rewrite Hn in He; simpl in He; congruence|].
  destruct (decide (node ∈ m :: l)) as [Hin|Hnin].
  + (* shortcut the loop *)
  apply list_elem_of_split in Hin as (l1 & l2 & E). rewrite E in *.
  intros Hb. apply (IH l2 active node (S fuel) b).
  * rewrite length_app in Hk. simpl in Hk. lia.
  * split; [by apply (chain_suffix (node :: l1))|]. exists e. split; [|done].
  by rewrite app_comm_cons, last_app_cons in Hlast.
  * intros x Hx. apply Hav. right. apply elem_of_app. by right.
  * cbn [can_reach_end]. rewrite bool_decide_eq_false_2 by done. by rewrite Hn, Ee.
  + intros Hb. eapply (any_result_true _ _ b m); [exact Hb| |].
  * destruct (Hc 0 node m eq_refl eq_refl) as (ts & -> & ?). done.
  * intros c. apply (IH l).
  -- simpl in Hk. lia.
  -- split; [by eapply chain_tail|]. by exists e.
  -- intros x Hx. destruct (Hav x ltac:(by right)). split; [|done]. set_solver.
Qed.
End End.
End Graph.

(** ** Properties *)

(** [_walk] returns exactly the known nodes reachable from the root. *)
Theorem walk_is_reachability edges root :
  ∃ X, walk_graph root edges = Ok X ∧ ∀ n, n ∈ X ↔ is_Some (edges !! n) ∧ rtc (edge edges) root n.
Proof. apply walk_graph_spec. Qed.

(** [_find_cycle] returns a cycle reachable from the root, or none when every
    path from the root is finite. *)
Theorem find_cycle_decides edges root :
  ∃ r, find_cycle root edges = Ok r ∧
    match r with Some c => is_cycle edges root c ∧ ¬ terminates edges root | None => terminates edges root end.
Proof. apply find_cycle_spec. Qed.

(** On an acyclic graph the memoised [_maximum_depth] is the number of nodes on
    a longest path; on any graph it terminates. *)
Theorem maximum_depth_exact edges root :
  ∃ d, maximum_graph_depth root edges = Ok d ∧ (terminates edges root → longest_path edges root d).
Proof. apply maximum_graph_depth_spec. Qed.
