(* ===== verification/LegacyCorrect.v ===== *)
(** * What the version 1 validator accepts

    A characterization of the configurations on which [validate_configuration]
    reports nothing, and a configuration with an unbounded cycle that it accepts. *)
From stdpp Require Import base gmap sets strings numbers pretty sorting relations list.
From S2P Require Import Prelude FlowTree Schemas Validation Examples LegacyGraph LegacyFacts.

(** ** The loop over the nodes *)

Definition all_targets (n : FlowNode) : list string := (node_edges n).1 ++ (node_edges n).2.
Definition index_nodes (l : list FlowNode) (m : gmap string FlowNode) : gmap string FlowNode :=
  foldl (λ m n, <[node_id n := n]> m) m l.

Lemma index_nodes_lookup l : ∀ m i n,
  NoDup (node_id <$> l) → (∀ j, j ∈ node_id <$> l → m !! j = None) →
  index_nodes l m !! i = Some n ↔ m !! i = Some n ∨ n ∈ l ∧ node_id n = i.
Proof.
  induction l as [|x l IH]; intros m i n Hnd Hm; csimpl in *; [set_solver|].
  apply NoDup_cons in Hnd as [Hx Hnd]. unfold index_nodes in *. cbn [foldl]. rewrite IH; [|done|].
  - rewrite lookup_insert_Some, elem_of_cons. split.
    + intros [[[<- <-]|[Hne ?]]|[? ?]]; auto.
    + intros [Hmi|[[->|?] <-]]; auto. left. right. split; [|done].
      intros <-. rewrite Hm in Hmi; [done|by left].
  - intros j Hj. rewrite lookup_insert_ne by (by intros <-). apply Hm. by right.
Qed.

Lemma index_nodes_size l : size (index_nodes l ∅) = length l ↔ NoDup (node_id <$> l).
Proof.
  assert (dom (index_nodes l ∅) = (list_to_set (node_id <$> l) : gset string)) as Hdom.
  { unfold index_nodes. assert (∀ m : gmap string FlowNode,
      dom (foldl (λ m n, <[node_id n := n]> m) m l) = dom m ∪ (list_to_set (node_id <$> l) : gset string)) as H.
    { induction l as [|x l IH]; intros m; csimpl; [set_solver|]. rewrite IH, dom_insert_L. set_solver. }
    rewrite H. set_solver. }
  rewrite <- (size_dom (D := gset string)), Hdom, <- has_duplicates_false. unfold has_duplicates.
  rewrite length_fmap, negb_false_iff, Nat.eqb_eq. done.
Qed.

Section Loop.
Context (known : gmap string FlowNode) (schedule_ids : gset string).
Abbreviation step := (node_step known schedule_ids).

Definition own_errors (n : FlowNode) : list string :=
  schedule_errors schedule_ids n ++ missing_errors known (node_id n) (all_targets n).

Lemma node_step_eq s n :
  step s n = {| node_errors := node_errors s ++ own_errors n;
              node_prompts := node_prompt n ∪ node_prompts s;
              regular_edges := <[node_id n := (node_edges n).1]> (regular_edges s);
              all_edges := <[node_id n := all_targets n]> (all_edges s);
              missing_node_reference := missing_node_reference s
                || negb (bool_decide (missing_errors known (node_id n) (all_targets n) = [])) |}.
Proof. unfold node_step, own_errors, all_targets. by destruct (node_edges n). Qed.

Lemma loop_errors l : ∀ s, node_errors (foldl step s l) = node_errors s ++ concat (own_errors <$> l).
Proof.
  induction l as [|n l IH]; intros s; csimpl; [by rewrite app_nil_r|].
  rewrite IH, node_step_eq. simpl. by rewrite <- (assoc_L (++)).
Qed.

Lemma loop_prompts l : ∀ s p,
  p ∈ node_prompts (foldl step s l) ↔ p ∈ node_prompts s ∨ ∃ n, n ∈ l ∧ p ∈ node_prompt n.
Proof.
  induction l as [|n l IH]; intros s p; cbn [foldl]; [set_solver|].
  rewrite IH, node_step_eq. cbn [node_prompts]. rewrite elem_of_union. setoid_rewrite elem_of_cons.
  naive_solver.
Qed.

Lemma loop_edges l : ∀ s m,
  (∀ i, regular_edges s !! i = (λ n, (node_edges n).1) <$> m !! i) →
  (∀ i, all_edges s !! i = all_targets <$> m !! i) →
  (∀ i, regular_edges (foldl step s l) !! i = (λ n, (node_edges n).1) <$> index_nodes l m !! i)
  ∧ ∀ i, all_edges (foldl step s l) !! i = all_targets <$> index_nodes l m !! i.
Proof.
  induction l as [|n l IH]; intros s m Hr Ha; [done|]. unfold index_nodes. cbn [foldl].
  apply IH; rewrite node_step_eq; intros i; simpl;
  (destruct (decide (i = node_id n)) as [->|Hne];
   [by rewrite !lookup_insert_eq|by rewrite !lookup_insert_ne]).
Qed.

Lemma missing_errors_nil i ts : missing_errors known i ts = [] ↔ ∀ t, t ∈ ts → is_Some (known !! t).
Proof.
  unfold missing_errors. split.
  - intros H%fmap_nil_inv t Ht. destruct (known !! t) eqn:E; [by eexists|].
  assert (t ∈ filter (λ t, known !! t = None) ts) as Hin by (by apply list_elem_of_filter).
  rewrite H in Hin. by apply elem_of_nil in Hin.
  - intros H. rewrite list_filter_none; [done|]. apply Forall_forall. intros t Ht Hn.
  destruct (H t Ht). congruence.
Qed.

Lemma loop_missing l : ∀ s,
  missing_node_reference (foldl step s l) = false ↔
  missing_node_reference s = false ∧ ∀ n t, n ∈ l → t ∈ all_targets n → is_Some (known !! t).
Proof.
  induction l as [|n l IH]; intros s; cbn [foldl]; [set_solver|].
  rewrite IH, node_step_eq. cbn [missing_node_reference].
  rewrite orb_false_iff, negb_false_iff, bool_decide_eq_true, missing_errors_nil.
  setoid_rewrite elem_of_cons. naive_solver.
Qed.
End Loop.

Lemma legacy_timezones_nil zi scheds errs :
  legacy_timezones zi scheds errs = Ok [] ↔
  errs = [] ∧ Forall (λ s, zi (timezone s) = zone_found) scheds.
Proof.
  revert errs. induction scheds as [|s scheds IH]; intros errs; simpl.
  - split; [intros [= ->]; by split|by intros [-> _]].
  - rewrite Forall_cons. destruct (zi (timezone s)); rewrite ?IH; [naive_solver| |naive_solver].
    split; [|naive_solver]. intros [H _]. by apply app_nil in H as [].
Qed.

Lemma legacy_timezones_prefix zi scheds errs errs' :
  legacy_timezones zi scheds errs = Ok errs' → errs `prefix_of` errs'.
Proof.
  revert errs. induction scheds as [|s scheds IH]; intros errs; simpl; [by intros [= ->]|].
  destruct (zi (timezone s)); [apply IH| |done]. intros Hc%IH. etrans; [|done]. by eexists.
Qed.

(** ** Acceptable configurations *)

Section Accept.
Context (zoneinfo : string → zone_lookup).

(** An edge of the graph given by [targets]. *)
Definition node_edge (targets : FlowNode → list string) (l : list FlowNode) (i j : string) : Prop :=
  ∃ n, n ∈ l ∧ node_id n = i ∧ j ∈ targets n.
Definition regular (n : FlowNode) : list string := (node_edges n).1.

Record legacy_ok (c : DraftConfiguration) (prompt_ids : gset string) (sizes : gmap string Z)
  (limit : Z) : Prop := {
  lg_ids : NoDup (node_id <$> nodes c);
  lg_root : root_node c ∈ node_id <$> nodes c;
  lg_schedule_ids : NoDup (sid <$> legacy_schedules c);
  lg_zones : Forall (λ s, zoneinfo (timezone s) = zone_found) (legacy_schedules c);
  lg_schedules : ∀ i sc o cl h, ScheduleBranchNode i sc o cl h ∈ nodes c → sc ∈ sid <$> legacy_schedules c;
  lg_targets : ∀ n t, n ∈ nodes c → t ∈ all_targets n → t ∈ node_id <$> nodes c;
  lg_prompts : ∀ n p, n ∈ nodes c → p ∈ node_prompt n → p ∈ prompt_ids;
  lg_assets : (asset_bytes sizes (⋃ (node_prompt <$> nodes c)) ≤ limit)%Z;
  lg_reached : ∀ i, i ∈ node_id <$> nodes c → rtc (node_edge all_targets (nodes c)) (root_node c) i;
  lg_acyclic : Acc (λ j i, node_edge regular (nodes c) i j) (root_node c);
  lg_depth : ∀ l, (∀ k i j, (root_node c :: l) !! k = Some i → (root_node c :: l) !! S k = Some j →
  node_edge regular (nodes c) i j) → length (root_node c :: l) ≤ 8;
  lg_ends : ∀ i, i ∈ node_id <$> nodes c → ∃ e, e ∈ nodes c ∧ is_end e = true
  ∧ rtc (node_edge regular (nodes c)) i (node_id e);
  }.

Lemma edge_iff (targets : FlowNode → list string) (edges : graph) l i j :
  NoDup (node_id <$> l) → (∀ i, edges !! i = targets <$> index_nodes l ∅ !! i) →
  edge edges i j ↔ node_edge targets l i j.
Proof using Type.
  intros Hnd He. unfold edge, node_edge. rewrite He. split.
  - intros (ts & Hts & Hj). apply fmap_Some in Hts as (n & Hn & ->).
  apply index_nodes_lookup in Hn as [Hn|[Hn Hi]]; [by rewrite lookup_empty in Hn|eauto|done|].
  intros; apply lookup_empty.
  - intros (n & Hn & <- & Hj). exists (targets n). split; [|done].
  rewrite (proj2 (index_nodes_lookup l ∅ (node_id n) n Hnd ltac:(intros; apply lookup_empty))); [done|].
  by right.
Qed.

Lemma rtc_iff {R R' : string → string → Prop} i j : (∀ i j, R i j ↔ R' i j) → rtc R i j ↔ rtc R' i j.
Proof using Type. intros H. split; apply rtc_subrel; intros ? ?; apply H. Qed.

Lemma Acc_iff {R R' : string → string → Prop} i : (∀ i j, R i j ↔ R' i j) → Acc R i ↔ Acc R' i.
Proof using Type.
  intros H. split; induction 1 as [x _ IH]; constructor; intros y Hy; apply IH; by apply H.
Qed.

Lemma first_stuck_nil known edges l :
  (∀ i, i ∈ l → ∃ b, can_reach_end (S (S (size edges))) known edges ∅ i = Ok b) →
  ∃ r, first_stuck known edges l = Ok r ∧
  (r = [] ↔ ∀ i, i ∈ l → can_reach_end (S (S (size edges))) known edges ∅ i = Ok true).
Proof using Type.
  induction l as [|i l IH]; intros H; cbn [first_stuck].
  - exists []. split; [done|]. split; [by intros _ i ?%elem_of_nil|done].
  - destruct (H i ltac:(by left)) as [b Hb].
  destruct IH as (r & Hr & Hiff); [intros; apply H; by right|].
  rewrite Hb. cbn [mbind result_bind]. destruct b.
  + exists r. split; [done|]. rewrite Hiff. setoid_rewrite elem_of_cons. split; [|auto].
    intros Ha j [->|?]; auto.
  + eexists. split; [done|]. split; [done|]. intros Ha. specialize (Ha i ltac:(by left)). congruence.
Qed.

Lemma end_path_rtc edges known i :
  (∃ l, end_path edges known i l) ↔
  ∃ e n, rtc (edge edges) i e ∧ known !! e = Some n ∧ is_end n = true.
Proof using Type.
  split.
  - intros (l & Hc & e & Hl & He). apply fmap_Some in He as (n & Hn & Hend).
  exists e, n. split; [|done]. destruct l as [|x l]; [by injection Hl as ->|].
  apply tc_rtc. by eapply chain_tc.
  - intros (e & n & Hr & Hn & He). revert Hn. induction Hr as [x|x y z Hxy _ IH]; intros Hn.
  + exists []. split; [|exists x; split; [done|]; rewrite Hn; simpl; by rewrite He].
    intros k a b _ Hb. simpl in Hb. by rewrite lookup_nil in Hb.
  + destruct (IH Hn) as (l & Hc & e' & Hl & He'). exists (y :: l). split; [by apply chain_cons|]. by exists e'.
Qed.

Lemma path_known (edges : graph) (known : gmap string FlowNode) l : ∀ i,
  (∀ i t, edge edges i t → is_Some (known !! t)) → chain edges (i :: l) → is_Some (known !! i) →
  ∀ x, x ∈ i :: l → is_Some (known !! x).
Proof using Type.
  induction l as [|y l IH]; intros i He Hc Hi x Hx.
  - by apply list_elem_of_singleton in Hx as ->.
  - apply elem_of_cons in Hx as [->|Hx]; [done|].
  apply (IH y He); [by eapply chain_tail| |done]. apply (He i). by apply (Hc 0).
Qed.

Lemma size_index_nodes (l : list FlowNode) : negb (size (index_nodes l ∅) =? length l) = false ↔ NoDup (node_id <$> l).
Proof using Type. rewrite negb_false_iff, Nat.eqb_eq. apply index_nodes_size. Qed.
End Accept.

Section Analysis.
Context (c : DraftConfiguration) (prompt_ids : gset string) (sizes : gmap string Z) (limit : Z)
  (errs : list string).
Hypothesis ids : NoDup (node_id <$> nodes c).
Abbreviation known := (index_nodes (nodes c) ∅).
Context (s : node_state).
Hypothesis Hs : s = foldl (node_step known (list_to_set (sid <$> legacy_schedules c)))
  (initial_node_state errs) (nodes c).

Lemma known_lookup i n : known !! i = Some n ↔ n ∈ nodes c ∧ node_id n = i.
Proof using ids.
  rewrite index_nodes_lookup, lookup_empty; [naive_solver|done|intros; apply lookup_empty].
Qed.

Lemma known_is_some i : is_Some (known !! i) ↔ i ∈ node_id <$> nodes c.
Proof using ids.
  rewrite list_elem_of_fmap. split.
  - intros [n Hn]. apply known_lookup in Hn as [? <-]. eauto.
  - intros (n & -> & ?). exists n. by apply known_lookup.
Qed.

Lemma state_edges :
  (∀ i, regular_edges s !! i = regular <$> known !! i) ∧ ∀ i, all_edges s !! i = all_targets <$> known !! i.
Proof using Hs. rewrite Hs. apply loop_edges; intros i; simpl; by rewrite !lookup_empty. Qed.

Lemma regular_iff i j : edge (regular_edges s) i j ↔ node_edge regular (nodes c) i j.
Proof using ids Hs. apply edge_iff; [done|]. apply state_edges. Qed.
Lemma all_iff i j : edge (all_edges s) i j ↔ node_edge all_targets (nodes c) i j.
Proof using ids Hs. apply edge_iff; [done|]. apply state_edges. Qed.

Lemma all_edges_some i : is_Some (all_edges s !! i) ↔ i ∈ node_id <$> nodes c.
Proof using ids Hs. rewrite (proj2 state_edges), fmap_is_Some. apply known_is_some. Qed.

Lemma own_errors_nil :
  node_errors s = [] ↔ errs = []
  ∧ (∀ i sc o cl h, ScheduleBranchNode i sc o cl h ∈ nodes c → sc ∈ sid <$> legacy_schedules c)
  ∧ (∀ n t, n ∈ nodes c → t ∈ all_targets n → is_Some (known !! t)).
Proof using ids Hs.
  rewrite Hs, loop_errors. cbn [initial_node_state node_errors]. rewrite app_nil.
  assert (concat (own_errors known (list_to_set (sid <$> legacy_schedules c)) <$> nodes c) = [] ↔
  ∀ n, n ∈ nodes c → own_errors known (list_to_set (sid <$> legacy_schedules c)) n = []) as ->.
  { generalize (index_nodes (nodes c) ∅) as kn. intros kn. generalize (nodes c) as l. intros l.
  induction l as [|n l IH]; csimpl; [set_solver|].
  rewrite app_nil, IH. setoid_rewrite elem_of_cons. naive_solver. }
  unfold own_errors. setoid_rewrite app_nil. setoid_rewrite missing_errors_nil.
  split.
  - intros (-> & H). split; [done|]. split.
  + intros i sc o cl h Hn. destruct (H _ Hn) as [Hsc _]. cbn [schedule_errors] in Hsc.
    case_bool_decide as Hin; [|done]. by apply elem_of_list_to_set in Hin.
  + intros n t Hn. by apply (H n Hn).
  - intros (-> & Hsc & Ht). split; [done|]. intros n Hn. split; [|intros t; by apply Ht].
  destruct n; try done. cbn [schedule_errors]. rewrite bool_decide_eq_true_2; [done|].
  apply elem_of_list_to_set. by eapply Hsc.
Qed.

Lemma prompts_union : node_prompts s = ⋃ (node_prompt <$> nodes c).
Proof using ids Hs.
  apply set_eq. intros p. rewrite Hs, loop_prompts, elem_of_union_list. cbn [initial_node_state node_prompts].
  setoid_rewrite list_elem_of_fmap. set_solver.
Qed.

Lemma missing_prompts_nil (iterate : gset string → list string) :
  (∀ X, iterate X ≡ₚ elements X) →
  (λ p, "Flow references missing prompt " +:+ p +:+ ".") <$> filter (λ p, p ∉ prompt_ids) (iterate (node_prompts s)) = []
  ↔ ∀ n p, n ∈ nodes c → p ∈ node_prompt n → p ∈ prompt_ids.
Proof using ids Hs.
  intros iterate_perm.
  assert (∀ p, p ∈ iterate (node_prompts s) ↔ ∃ n, n ∈ nodes c ∧ p ∈ node_prompt n) as Hin.
  { intros p. rewrite (iterate_perm (node_prompts s)), elem_of_elements, Hs, loop_prompts. set_solver. }
  split.
  - intros H%fmap_nil_inv n p Hn Hp. destruct (decide (p ∈ prompt_ids)) as [|Hnin]; [done|].
  assert (p ∈ filter (λ p, p ∉ prompt_ids) (iterate (node_prompts s))) as Hf.
  { apply list_elem_of_filter. split; [done|]. apply Hin. eauto. }
  rewrite H in Hf. by apply elem_of_nil in Hf.
  - intros H. rewrite list_filter_none; [done|]. apply Forall_forall. intros p (n & Hn & Hp)%Hin Hnin.
  apply Hnin. by eapply H.
Qed.
End Analysis.

Lemma if_nil {A} (b : bool) (x : A) : (if b then [] else [x]) = [] ↔ b = true.
Proof. by destruct b. Qed.

Lemma merge_sort_nil (l : list string) : merge_sort str_le l = [] ↔ l = [].
Proof. pose proof (merge_sort_Permutation str_le l) as H. split; [intros E; rewrite E in H; by apply Permutation_nil_l in H|by intros ->]. Qed.

Lemma analyse_total iterate known root regular all errs :
  (∀ X, iterate X ≡ₚ elements X) → 
  ∃ r, analyse iterate known root regular all errs = Ok r ∧ errs `prefix_of` r ∧
    (r = [] ↔ errs = []
      ∧ (∀ i, is_Some (known !! i) → is_Some (all !! i) ∧ rtc (edge all) root i)
      ∧ terminates regular root
      ∧ (terminates regular root → ∀ l, chain regular (root :: l) → length (root :: l) ≤ 8)
      ∧ ∀ i, is_Some (all !! i) → rtc (edge all) root i →
          can_reach_end (S (S (size regular))) known regular ∅ i = Ok true).
Proof.
  intros Hiter. unfold analyse.
  destruct (walk_graph_spec all root) as (X & -> & HX). cbn [mbind result_bind].
  destruct (find_cycle_spec regular root) as (cyc & -> & Hcyc). cbn [mbind result_bind].
  destruct (maximum_graph_depth_spec regular root) as (d & -> & Hd). cbn [mbind result_bind].
  destruct (first_stuck_nil known regular (iterate X)) as (r & -> & Hr).
  { intros i _. apply can_reach_end_total; [set_solver|]. rewrite size_empty. lia. }
  cbn [mbind result_bind]. eexists. split; [done|]. split; [rewrite <- !(assoc_L (++)); by eexists|].
  rewrite !app_nil, if_nil, bool_decide_eq_true, merge_sort_nil, elements_empty_iff, if_singleton_nil, Nat.ltb_ge, Hr.
  assert (match cyc with Some c => ["Unbounded flow cycle: " +:+ String.concat " -> " c +:+ "."] | None => [] end = []
    ↔ terminates regular root) as ->.
  { destruct cyc as [c|]; [|done]. destruct Hcyc as [_ Hn]. by split. }
  setoid_rewrite (Hiter X). setoid_rewrite elem_of_elements. setoid_rewrite HX.
  assert ((dom known : gset string) ∖ X ≡ ∅ ↔ ∀ i, is_Some (known !! i) → is_Some (all !! i) ∧ rtc (edge all) root i) as ->.
  { setoid_rewrite <- HX. split.
    - intros H i Hi%elem_of_dom. destruct (decide (i ∈ X)) as [|Hn]; [done|]. exfalso.
      apply (not_elem_of_empty (C := gset string) i). rewrite <- H. by apply elem_of_difference.
    - intros H i. split; [|by intros ?%not_elem_of_empty].
      intros [Hi%elem_of_dom Hn]%elem_of_difference. by destruct Hn; apply H. }
  assert (terminates regular root → (d ≤ 8 ↔ ∀ l, chain regular (root :: l) → length (root :: l) ≤ 8)) as Hdl.
  { intros Ht. destruct (Hd Ht) as [(l & Hc & Hl) Hub]. split.
    - intros Hle l' Hc'. specialize (Hub l' Hc'). simpl. lia.
    - intros H. specialize (H l Hc). simpl in H. lia. }
  split.
  - intros ((((-> & H1) & H2) & H3) & H4). split_and!; try done; [|by intros i ? ?; apply H4].
    intros Ht. by apply Hdl.
  - intros (-> & H1 & H2 & H3 & H4). split_and!; try done; [by apply Hdl, H3|]. intros i [? ?]. by apply H4.
Qed.

Lemma reached_known (edges : graph) root i :
  (∀ j t, edge edges j t → is_Some (edges !! t)) → is_Some (edges !! root) → rtc (edge edges) root i → is_Some (edges !! i).
Proof. intros H Hr Hi. induction Hi as [|x y z Hxy _ IH]; [done|]. apply IH. by eapply H. Qed.

Lemma validate_configuration_accepts iterate zi c prompt_ids sizes limit :
  (∀ X, iterate X ≡ₚ elements X) →
  validate_configuration iterate zi c prompt_ids sizes limit = Ok [] ↔ legacy_ok zi c prompt_ids sizes limit.
Proof.
  intros Hiter. unfold validate_configuration. fold (index_nodes (nodes c) ∅).
  destruct (negb (size (index_nodes (nodes c) ∅) =? length (nodes c))) eqn:Hsize.
  { split; [done|]. intros [Hids]. apply size_index_nodes in Hids. congruence. }
  apply size_index_nodes in Hsize as Hids. clear Hsize.
  set (no_root := negb (bool_decide (is_Some (index_nodes (nodes c) ∅ !! root_node c)))).
  assert (no_root = false ↔ root_node c ∈ node_id <$> nodes c) as Hroot.
  { unfold no_root. rewrite negb_false_iff, bool_decide_eq_true. by apply known_is_some. }
  set (errs0 := (if no_root then ["Flow root node does not exist."] else [])
    ++ (if has_duplicates (sid <$> legacy_schedules c) then ["Schedule IDs must be unique."] else [])).
  assert (errs0 = [] ↔ no_root = false ∧ NoDup (sid <$> legacy_schedules c)) as Herrs0.
  { unfold errs0. rewrite app_nil, !if_singleton_nil, has_duplicates_false. done. }
  rewrite result_bind_ok.
  assert (∀ errs, missing_node_reference (foldl (node_step (index_nodes (nodes c) ∅)
      (list_to_set (sid <$> legacy_schedules c))) (initial_node_state errs) (nodes c)) = false ↔
      ∀ n t, n ∈ nodes c → t ∈ all_targets n → is_Some (index_nodes (nodes c) ∅ !! t)) as Hmissing.
  { intros errs. rewrite loop_missing. cbn [initial_node_state missing_node_reference]. naive_solver. }
  split.
  - intros (errs & Hz & H).
    specialize (Hmissing errs). remember (foldl _ (initial_node_state errs) (nodes c)) as s eqn:Hs in H, Hmissing.
    destruct (missing_node_reference s || no_root) eqn:Hm.
    { exfalso. injection H as H. rewrite !app_nil in H. destruct H as (Hn & _).
      apply (own_errors_nil c errs Hids s Hs) in Hn as (-> & _ & Ht). apply Hmissing in Ht.
      apply legacy_timezones_nil in Hz as [Hz _]. apply Herrs0 in Hz as [Hz _].
      by rewrite Ht, Hz in Hm. }
    match type of H with analyse ?it ?kn ?ro ?re ?al ?e = _ =>
      destruct (analyse_total it kn ro re al e Hiter) as (r & Hr & _ & Hiff) end.
    rewrite Hr in H. injection H as ->. clear Hr.
    destruct (proj1 Hiff eq_refl) as (Herr & Hreach & Hacyc & Hdepth & Hend). clear Hiff.
    rewrite !app_nil in Herr. destruct Herr as (Hnode & Hprompts & Hassets).
    apply (own_errors_nil c errs Hids s Hs) in Hnode as (-> & Hsched & Hrefs).
    apply legacy_timezones_nil in Hz as [Hz Hzones]. apply Herrs0 in Hz as [Hnr Hsids].
    pose proof (proj1 (missing_prompts_nil c prompt_ids [] Hids s Hs iterate Hiter) Hprompts) as Hp. clear Hprompts.
    apply if_singleton_nil, bool_decide_eq_false, Z.nlt_ge in Hassets.
    rewrite (prompts_union c [] Hids s Hs) in Hassets.
    pose proof (regular_iff c [] Hids s Hs) as Hreg. pose proof (all_iff c [] Hids s Hs) as Hall.
    pose proof (all_edges_some c [] Hids s Hs) as Hsome.
    split; [exact Hids|by apply Hroot|exact Hsids|exact Hzones|exact Hsched| |exact Hp|exact Hassets|..].
    + intros n t Hn Ht. apply known_is_some; [done|]. by eapply Hrefs.
    + intros i Hi. apply known_is_some in Hi; [|done]. rewrite <- (rtc_iff _ _ Hall). by apply Hreach.
    + eapply (Acc_iff (root_node c)); [|exact Hacyc]. intros i j. by rewrite Hreg.
    + intros l Hl. apply Hdepth; [done|]. intros k i j Hi Hj. apply Hreg. by eapply Hl.
    + intros i Hi. apply Hsome in Hi as Hi'. apply known_is_some in Hi as Hki; [|done].
      destruct (Hreach i Hki) as [_ Hri]. specialize (Hend i Hi' Hri).
      apply can_reach_end_sound in Hend. apply end_path_rtc in Hend as (e & n & Hre & Hn & He).
      apply known_lookup in Hn as [Hn <-]; [|done]. exists n. split_and!; [done|done|].
      by rewrite <- (rtc_iff _ _ Hreg).
  - intros [_ Hr Hsids Hzones Hsched Htargets Hprompts Hassets Hreach Hacyc Hdepth Hends].
    apply Hroot in Hr as Hnr. exists []. split; [apply legacy_timezones_nil; by rewrite Herrs0|].
    specialize (Hmissing []). remember (foldl _ (initial_node_state []) (nodes c)) as s eqn:Hs in Hmissing |- *.
    assert (∀ n t, n ∈ nodes c → t ∈ all_targets n → is_Some (index_nodes (nodes c) ∅ !! t)) as Hrefs.
    { intros n t Hn Ht. apply known_is_some; [done|]. by eapply Htargets. }
    assert (missing_node_reference s = false) as -> by (by apply Hmissing). rewrite Hnr. cbn [orb].
    match goal with |- analyse ?it ?kn ?ro ?re ?al ?e = _ =>
      destruct (analyse_total it kn ro re al e Hiter) as (r & -> & _ & Hiff) end.
    f_equal. apply Hiff. clear Hiff.
    pose proof (regular_iff c [] Hids s Hs) as Hreg. pose proof (all_iff c [] Hids s Hs) as Hall.
    pose proof (all_edges_some c [] Hids s Hs) as Hsome.
    split; [|split; [|split; [|split]]].
    + rewrite !app_nil. split; [by apply (own_errors_nil c [] Hids s Hs)|]. split; [by apply (missing_prompts_nil c prompt_ids [] Hids s Hs iterate Hiter)|].
      apply if_singleton_nil, bool_decide_eq_false, Z.nlt_ge. by rewrite (prompts_union c [] Hids s Hs).
    + intros i Hi%known_is_some; [|done]. split; [by apply Hsome|]. rewrite (rtc_iff _ _ Hall). by apply Hreach.
    + eapply (Acc_iff (root_node c)); [|exact Hacyc]. intros i j. by rewrite Hreg.
    + intros _ l Hl. apply Hdepth. intros k i j Hi Hj. apply Hreg. by eapply Hl.
    + intros i Hi%Hsome _. destruct (Hends i Hi) as (e & He & Hee & Hre).
      destruct (can_reach_end_total (regular_edges s) (index_nodes (nodes c) ∅) (S (S (size (regular_edges s)))) ∅ i)
        as [b Hb]; [set_solver|rewrite size_empty; lia|].
      rewrite Hb. f_equal.
      assert (∃ l, end_path (regular_edges s) (index_nodes (nodes c) ∅) i l) as [l Hl].
      { apply end_path_rtc. exists (node_id e), e. rewrite (rtc_iff _ _ Hreg). split; [done|].
        split; [by apply known_lookup|done]. }
      eapply (can_reach_end_complete (regular_edges s) (index_nodes (nodes c) ∅) (length l) l ∅ i); [done|done| |exact Hb].
      intros x Hx. split; [set_solver|]. destruct Hl as [Hc _].
      eapply path_known; [|exact Hc| |exact Hx].
      * intros j t Hjt. apply Hreg in Hjt as (n & Hn & _ & Ht). apply (Hrefs n t Hn).
        apply elem_of_app. by left.
      * by apply known_is_some.
Qed.

Lemma legacy_timezones_total zi scheds errs :
  (∀ s, s ∈ scheds → ∀ e, zi (timezone s) ≠ zone_raises e) → ∃ errs', legacy_timezones zi scheds errs = Ok errs'.
Proof.
  revert errs. induction scheds as [|s scheds IH]; intros errs H; simpl; [by eexists|].
  destruct (zi (timezone s)) eqn:E; [apply IH; set_solver..|].
  exfalso. by eapply (H s); [left|].
Qed.

(** ** Properties *)

(** C6 The version 1 validator reports nothing exactly on the configurations whose
    references resolve, whose nodes are all reachable and can all reach an end,
    and whose regular edges, followed from the root, have no cycle and no path of
    more than eight nodes. *)
Theorem legacy_validator_exact iterate zi c prompt_ids sizes limit :
  (∀ X, iterate X ≡ₚ elements X) →
  validate_configuration iterate zi c prompt_ids sizes limit = Ok [] ↔ legacy_ok zi c prompt_ids sizes limit.
Proof. apply validate_configuration_accepts. Qed.

(** The version 1 validator always terminates with a list of errors, on cyclic
    graphs too, unless looking up a timezone raises. *)
Theorem legacy_validator_total iterate zi c prompt_ids sizes limit :
  (∀ X, iterate X ≡ₚ elements X) →
  (∀ s, s ∈ legacy_schedules c → ∀ e, zi (timezone s) ≠ zone_raises e) →
  ∃ errs, validate_configuration iterate zi c prompt_ids sizes limit = Ok errs.
Proof.
  intros Hiter Hz. unfold validate_configuration. destruct (negb _); [by eexists|].
  match goal with |- context [legacy_timezones zi _ ?e] =>
    destruct (legacy_timezones_total zi (legacy_schedules c) e Hz) as [errs ->] end.
  cbn [mbind result_bind]. destruct (_ || _); [by eexists|].
  match goal with |- ∃ _, analyse ?it ?kn ?ro ?re ?al ?e = _ =>
    destruct (analyse_total it kn ro re al e Hiter) as (r & -> & _) end.
  by eexists.
Qed.

(** A graph with a self-loop behind the bounded repeat edge of its root. *)
Definition example_hidden_cycle : DraftConfiguration :=
  {| legacy_policy := default_caller_policy; legacy_schedules := []; root_node := "r";
     nodes := [RepeatMenuNode "r" "m" 2 "end";
               CollectDigitNode "m" None 5000 3 [("1", "end")] "m" "end";
               EndCallNode "end"] |}.

(** The version 1 validator looks for cycles only along the regular edges from
    the root, so it accepts a flow in which a bounded repeat leads to a menu that
    is its own timeout target, an unbounded cycle of the flow. *)
Theorem legacy_validator_misses_cycle :
  validate_configuration elements example_zones example_hidden_cycle ∅ ∅ 0 = Ok []
  ∧ node_edge regular (nodes example_hidden_cycle) "m" "m"
  ∧ rtc (node_edge all_targets (nodes example_hidden_cycle)) (root_node example_hidden_cycle) "m".
Proof.
  split; [vm_compute; reflexivity|]. split.
  - eexists. split; [right; left|]. split; [done|]. cbn. set_solver.
  - apply rtc_once. eexists. split; [left|]. split; [done|]. cbn. set_solver.
Qed.

Definition example_legacy : DraftConfiguration :=
  {| legacy_policy := default_caller_policy; legacy_schedules := example_schedules; root_node := "hello";
     nodes := [PlayPromptNode "hello" prompt_a "menu";
               CollectDigitNode "menu" (Some prompt_b) 5000 3 [("1", "office"); ("2", "again")] "bye" "bye";
               ScheduleBranchNode "office" "office" "bye" "bye" "bye";
               RepeatMenuNode "again" "menu" 2 "bye";
               EndCallNode "bye"] |}.

Lemma legacy_validator_exact_witness :
  legacy_ok example_zones example_legacy example_prompts example_sizes (128 * MIB).
Proof.
  apply (legacy_validator_exact elements example_zones example_legacy example_prompts example_sizes (128 * MIB)).
  - intros X. reflexivity.
  - vm_compute. reflexivity.
Defined.

Lemma legacy_validator_total_witness :
  ∃ errs, validate_configuration elements example_zones example_hidden_cycle ∅ ∅ 0 = Ok errs.
Proof.
  apply legacy_validator_total.
  - intros X. reflexivity.
  - intros s Hs. by apply elem_of_nil in Hs.
Defined.
