(* ===== verification/Json.v ===== *)
(** * Canonical JSON

    [canonical_json_bytes] of [crypto.py]: [json.dumps] with sorted keys, compact
    separators and no ASCII escaping, as UTF-8 bytes.  A document is a [json]
    value whose strings are UTF-8 byte strings; objects keep their members in the
    order of the Python dictionary.  [json_loads] models [json.loads] on documents
    without fractional numbers. *)
From Stdlib Require Import Ascii DecimalString DecimalZ.
From stdpp Require Import base gmap sets strings numbers list.
From S2P Require Import Prelude FlowTree Schemas.

Inductive json : Type :=
| JNull
| JBool (b : bool)
| JInt (z : Z)
| JStr (s : string)
| JList (l : list json)
| JObj (members : list (string * json)).

(** ** [json.dumps(document, sort_keys=True, separators=(",", ":"), ensure_ascii=False)] *)

Definition byte_of (n : nat) : ascii := ascii_of_nat n.
Definition dquote : ascii := byte_of 34.
Definition backslash : ascii := byte_of 92.
Definition hex_digit (n : nat) : ascii := if n <? 10 then byte_of (48 + n) else byte_of (87 + n).

Definition escape_char (c : ascii) : list ascii :=
  let n := nat_of_ascii c in
  if n =? 34 then [backslash; dquote]
  else if n =? 92 then [backslash; backslash]
  else if n =? 8 then [backslash; "b"%char]
  else if n =? 9 then [backslash; "t"%char]
  else if n =? 10 then [backslash; "n"%char]
  else if n =? 12 then [backslash; "f"%char]
  else if n =? 13 then [backslash; "r"%char]
  else if n <? 32 then [backslash; "u"%char; "0"%char; "0"%char; hex_digit (n / 16); hex_digit (n mod 16)]
  else [c].

Definition print_string (s : string) : list ascii :=
  dquote :: concat (escape_char <$> String.list_ascii_of_string s) ++ [dquote].

Definition print_int (z : Z) : list ascii := String.list_ascii_of_string (NilZero.string_of_int (Z.to_int z)).

(** [",".join(l)] *)
Fixpoint join_comma (l : list (list ascii)) : list ascii :=
  match l with
  | [] => []
  | [x] => x
  | x :: l => x ++ ","%char :: join_comma l
  end.

(** [sorted(members)] as [sort_keys] does it: the keys are compared as strings. *)
Fixpoint insert_key {A} (p : string * A) (l : list (string * A)) : list (string * A) :=
  match l with
  | [] => [p]
  | q :: l' => if decide (str_lt q.1 p.1) then q :: insert_key p l' else p :: l
  end.
Definition sort_keys {A} (l : list (string * A)) : list (string * A) := foldr insert_key [] l.

Definition print_member (p : string * list ascii) : list ascii := print_string p.1 ++ ":"%char :: p.2.

Fixpoint dumps (j : json) : list ascii :=
  match j with
  | JNull => ["n"; "u"; "l"; "l"]%char
  | JBool true => ["t"; "r"; "u"; "e"]%char
  | JBool false => ["f"; "a"; "l"; "s"; "e"]%char
  | JInt z => print_int z
  | JStr s => print_string s
  | JList l => "["%char :: join_comma (map dumps l) ++ ["]"%char]
  | JObj members =>
      "{"%char :: join_comma (print_member <$> sort_keys (map (λ '(k, v), (k, dumps v)) members))
        ++ ["}"%char]
  end.

Definition canonical_json_bytes (document : json) : list ascii := dumps document.

(** ** [json.loads] *)

Definition is_space (c : ascii) : bool :=
  let n := nat_of_ascii c in (n =? 32) || (n =? 9) || (n =? 10) || (n =? 13).
Fixpoint skip_space (l : list ascii) : list ascii :=
  match l with
  | c :: l' => if is_space c then skip_space l' else l
  | [] => []
  end.

Definition hex_value (c : ascii) : option N :=
  if char_in 48 57 c then Some (N_of_ascii c - 48)%N
  else if char_in 97 102 c then Some (N_of_ascii c - 87)%N
  else if char_in 65 70 c then Some (N_of_ascii c - 55)%N
  else None.
Definition hex4 (a b c d : ascii) : option N :=
  a ← hex_value a; b ← hex_value b; c ← hex_value c; d ← hex_value d;
  Some (((a * 16 + b) * 16 + c) * 16 + d)%N.

(** The UTF-8 bytes of a code point. *)
Definition utf8 (n : N) : list ascii :=
  let tail k := ascii_of_N (128 + N.shiftr n k mod 64) in
  if (n <? 128)%N then [ascii_of_N n]
  else if (n <? 2048)%N then [ascii_of_N (192 + N.shiftr n 6); tail 0%N]
  else if (n <? 65536)%N then [ascii_of_N (224 + N.shiftr n 12); tail 6%N; tail 0%N]
  else [ascii_of_N (240 + N.shiftr n 18); tail 12%N; tail 6%N; tail 0%N].

Definition high_surrogate (n : N) : bool := (55296 <=? n)%N && (n <=? 56319)%N.
Definition low_surrogate (n : N) : bool := (56320 <=? n)%N && (n <=? 57343)%N.

Definition json_error : exn := ValueError "json.decoder.JSONDecodeError".

Definition simple_escape (c : ascii) : option ascii :=
  let n := nat_of_ascii c in
  if n =? 34 then Some c else if n =? 92 then Some c else if n =? 47 then Some c
  else if n =? 98 then Some (byte_of 8) else if n =? 116 then Some (byte_of 9)
  else if n =? 110 then Some (byte_of 10) else if n =? 102 then Some (byte_of 12)
  else if n =? 114 then Some (byte_of 13) else None.

(** The bytes of a string after its opening quote, and what follows the closing one. *)
Fixpoint scan_string (l : list ascii) : result (list ascii * list ascii) :=
  match l with
  | [] => Raise json_error
  | c :: l =>
      if decide (c = dquote) then Ok ([], l)
      else if decide (c = backslash) then
        match l with
        | e :: l =>
            if decide (e = "u"%char) then
              match l with
              | a :: b :: c :: d :: l =>
                  n ← of_option json_error (hex4 a b c d);
                  if high_surrogate n then
                    match l with
                    | b1 :: u1 :: a :: b :: c :: d :: l =>
                        m ← of_option json_error (hex4 a b c d);
                        if bool_decide (b1 = backslash) && bool_decide (u1 = "u"%char) && low_surrogate m
                        then
                          '(s, rest) ← scan_string l;
                          Ok (utf8 (65536 + (n - 55296) * 1024 + (m - 56320)) ++ s, rest)
                        else Raise json_error
                    | _ => Raise json_error
                    end
                  else if low_surrogate n then Raise json_error
                  else
                    '(s, rest) ← scan_string l;
                    Ok (utf8 n ++ s, rest)
              | _ => Raise json_error
              end
            else
              x ← of_option json_error (simple_escape e);
              '(s, rest) ← scan_string l;
              Ok (x :: s, rest)
        | [] => Raise json_error
        end
      else if nat_of_ascii c <? 32 then Raise json_error
      else
        '(s, rest) ← scan_string l;
        Ok (c :: s, rest)
  end.

Definition is_number_char (c : ascii) : bool := char_in 48 57 c || char_in 45 45 c.
Fixpoint span_number (l : list ascii) : list ascii * list ascii :=
  match l with
  | c :: l' => if is_number_char c then let '(n, rest) := span_number l' in (c :: n, rest) else ([], l)
  | [] => ([], [])
  end.

(** An optional sign, then [0] or digits without a leading zero. *)
Definition number_syntax (l : list ascii) : bool :=
  let digits := match l with c :: l' => if decide (c = "-"%char) then l' else l | [] => [] end in
  match digits with
  | [] => false
  | [c] => char_in 48 57 c
  | c :: l => char_in 49 57 c && forallb (char_in 48 57) l
  end.

Definition parse_int (l : list ascii) : result (json * list ascii) :=
  let '(n, rest) := span_number l in
  if number_syntax n then
    d ← of_option json_error (NilZero.int_of_string (String.string_of_list_ascii n));
    Ok (JInt (Z.of_int d), rest)
  else Raise json_error.

Fixpoint expect (word l : list ascii) : option (list ascii) :=
  match word, l with
  | [], _ => Some l
  | a :: word, b :: l => if decide (a = b) then expect word l else None
  | _, _ => None
  end.

(** [d[k] = v] on a dictionary in insertion order. *)
Fixpoint dict_set {A} (k : string) (v : A) (d : list (string * A)) : list (string * A) :=
  match d with
  | [] => [(k, v)]
  | (k', v') :: d => if decide (k = k') then (k, v) :: d else (k', v') :: dict_set k v d
  end.

Fixpoint parse_value (fuel : nat) (l : list ascii) {struct fuel} : result (json * list ascii) :=
  match fuel with
  | 0 => Raise OutOfFuel
  | S fuel =>
      let l := skip_space l in
      match l with
      | [] => Raise json_error
      | c :: rest =>
          if decide (c = dquote) then
            '(s, rest) ← scan_string rest;
            Ok (JStr (String.string_of_list_ascii s), rest)
          else if decide (c = "["%char) then
            match skip_space rest with
            | [] => Raise json_error
            | c :: l =>
                if decide (c = "]"%char) then Ok (JList [], l)
                else '(items, rest) ← parse_items fuel (c :: l); Ok (JList items, rest)
            end
          else if decide (c = "{"%char) then
            match skip_space rest with
            | [] => Raise json_error
            | c :: l =>
                if decide (c = "}"%char) then Ok (JObj [], l)
                else '(members, rest) ← parse_members fuel (c :: l) []; Ok (JObj members, rest)
            end
          else
            match expect ["n"; "u"; "l"; "l"]%char l, expect ["t"; "r"; "u"; "e"]%char l,
                  expect ["f"; "a"; "l"; "s"; "e"]%char l with
            | Some rest, _, _ => Ok (JNull, rest)
            | _, Some rest, _ => Ok (JBool true, rest)
            | _, _, Some rest => Ok (JBool false, rest)
            | _, _, _ => parse_int l
            end
      end
  end
with parse_items (fuel : nat) (l : list ascii) {struct fuel} : result (list json * list ascii) :=
  match fuel with
  | 0 => Raise OutOfFuel
  | S fuel =>
      '(v, rest) ← parse_value fuel l;
      match skip_space rest with
      | c :: rest =>
          if decide (c = ","%char) then '(vs, rest) ← parse_items fuel rest; Ok (v :: vs, rest)
          else if decide (c = "]"%char) then Ok ([v], rest)
          else Raise json_error
      | [] => Raise json_error
      end
  end
with parse_members (fuel : nat) (l : list ascii) (d : list (string * json)) {struct fuel}
    : result (list (string * json) * list ascii) :=
  match fuel with
  | 0 => Raise OutOfFuel
  | S fuel =>
      match skip_space l with
      | c :: rest =>
          if decide (c = dquote) then
            '(k, rest) ← scan_string rest;
            match skip_space rest with
            | c :: rest =>
                if decide (c = ":"%char) then
                  '(v, rest) ← parse_value fuel rest;
                  let d := dict_set (String.string_of_list_ascii k) v d in
                  match skip_space rest with
                  | c :: rest =>
                      if decide (c = ","%char) then parse_members fuel rest d
                      else if decide (c = "}"%char) then Ok (d, rest)
                      else Raise json_error
                  | [] => Raise json_error
                  end
                else Raise json_error
            | [] => Raise json_error
            end
          else Raise json_error
      | [] => Raise json_error
      end
  end.

Definition json_loads (l : list ascii) : result json :=
  '(j, rest) ← parse_value (S (2 * length l)) l;
  match skip_space rest with [] => Ok j | _ => Raise json_error end.

(** ** Dictionaries have distinct keys *)

Fixpoint dict_keys_ok (j : json) : Prop :=
  match j with
  | JList l => foldr (λ x P, dict_keys_ok x ∧ P) True l
  | JObj members => NoDup members.*1 ∧ foldr (λ p P, dict_keys_ok p.2 ∧ P) True members
  | _ => True
  end.

(** Equality of documents with distinct keys: the order of a dictionary's members
    does not count. *)
Inductive json_equiv : Equiv json :=
| je_refl j : j ≡ j
| je_trans i j k : i ≡ j → j ≡ k → i ≡ k
| je_members l k : l ≡ₚ k → JObj l ≡ JObj k
| je_item l x y k : x ≡ y → JList (l ++ x :: k) ≡ JList (l ++ y :: k)
| je_member l i x y k : x ≡ y → JObj (l ++ (i, x) :: k) ≡ JObj (l ++ (i, y) :: k).
#[export] Existing Instance json_equiv.

(** The document with every dictionary's members in key order. *)
Fixpoint sorted_document (j : json) : json :=
  match j with
  | JList l => JList (map sorted_document l)
  | JObj members => JObj (sort_keys (map (λ '(k, v), (k, sorted_document v)) members))
  | _ => j
  end.

Section JsonInd.
Context (P : json → Prop).
Context (HN : P JNull) (HB : ∀ b, P (JBool b)) (HI : ∀ z, P (JInt z)) (HS : ∀ s, P (JStr s)).
Context (HL : ∀ l, Forall P l → P (JList l)).
Context (HO : ∀ l, Forall (λ p, P p.2) l → P (JObj l)).

Fixpoint json_nested_ind (j : json) : P j :=
  match j with
  | JNull => HN
  | JBool b => HB b
  | JInt z => HI z
  | JStr s => HS s
  | JList l =>
    HL l ((fix go l : Forall P l :=
             match l with [] => Forall_nil_2 _ | x :: l => Forall_cons_2 _ _ _ (json_nested_ind x) (go l) end) l)
  | JObj l =>
    HO l ((fix go l : Forall (λ p, P p.2) l :=
             match l with [] => Forall_nil_2 _ | x :: l => Forall_cons_2 _ _ _ (json_nested_ind x.2) (go l) end) l)
  end.
End JsonInd.

(** ** Sorting members *)

Lemma str_lt_trans a b c : str_lt a b → str_lt b c → str_lt a c.
Proof.
  unfold str_lt. revert b c. induction a as [|x a IH]; intros [|y b] [|z c]; simpl; try done.
  rewrite !ascii_compare_nat.
  destruct (Nat.compare_spec (nat_of_ascii x) (nat_of_ascii y)); try done;
    destruct (Nat.compare_spec (nat_of_ascii y) (nat_of_ascii z)); try done;
    destruct (Nat.compare_spec (nat_of_ascii x) (nat_of_ascii z)); try done; try lia; eauto.
Qed.

Lemma str_lt_irrefl a : ¬ str_lt a a.
Proof.
  unfold str_lt. induction a as [|x a IH]; simpl; [done|].
  rewrite ascii_compare_nat, Nat.compare_refl. done.
Qed.

Lemma insert_key_perm {A} (p : string * A) l : insert_key p l ≡ₚ p :: l.
Proof.
  induction l as [|q l IH]; simpl; [done|]. case_decide; [|done].
  rewrite IH. apply Permutation_swap.
Qed.

Lemma sort_keys_perm {A} (l : list (string * A)) : sort_keys l ≡ₚ l.
Proof. induction l as [|p l IH]; simpl; [done|]. by rewrite insert_key_perm, IH. Qed.

Lemma str_lt_asym a b : str_lt a b → ¬ str_lt b a.
Proof. intros H1 H2. by eapply str_lt_irrefl, str_lt_trans. Qed.

Lemma insert_key_swap {A} (p q : string * A) l :
  p.1 ≠ q.1 → insert_key p (insert_key q l) = insert_key q (insert_key p l).
Proof.
  intros Hne. assert (Hpq : str_lt p.1 q.1 ∨ str_lt q.1 p.1).
  { destruct (str_lt_trichotomy p.1 q.1) as [?|[?|?]]; auto; done. }
  revert p q Hne Hpq. induction l as [|r l IH]; intros p q Hne Hpq.
  - cbn [insert_key]. destruct Hpq as [H|H].
    + by rewrite (decide_False (P := str_lt q.1 p.1)), (decide_True (P := str_lt p.1 q.1)) by eauto using str_lt_asym.
    + by rewrite (decide_True (P := str_lt q.1 p.1)), (decide_False (P := str_lt p.1 q.1)) by eauto using str_lt_asym.
  - cbn [insert_key]. destruct (decide (str_lt r.1 q.1)), (decide (str_lt r.1 p.1)); cbn [insert_key].
    + rewrite !decide_True by done. f_equal. by apply IH.
    + rewrite (decide_True (P := str_lt r.1 q.1)), (decide_False (P := str_lt r.1 p.1)) by done.
      rewrite decide_True; [done|]. destruct Hpq as [?|?]; [done|]. exfalso; eauto using str_lt_trans.
    + rewrite (decide_True (P := str_lt r.1 p.1)), (decide_False (P := str_lt r.1 q.1)) by done.
      rewrite decide_True; [done|]. destruct Hpq as [?|?]; [|done]. exfalso; eauto using str_lt_trans.
    + destruct Hpq as [H|H].
      * rewrite (decide_False (P := str_lt q.1 p.1)), (decide_True (P := str_lt p.1 q.1)) by eauto using str_lt_asym.
        by rewrite decide_False.
      * rewrite (decide_True (P := str_lt q.1 p.1)), (decide_False (P := str_lt p.1 q.1)) by eauto using str_lt_asym.
        by rewrite decide_False.
Qed.

Lemma sort_keys_permutation {A} (l k : list (string * A)) :
  l ≡ₚ k → NoDup l.*1 → sort_keys l = sort_keys k.
Proof.
  induction 1 as [|p l k _ IH|p q l|l k j H1 IH1 _ IH2]; csimpl; intros Hnd.
  - done.
  - f_equal. apply IH. by inversion Hnd.
  - apply insert_key_swap. inversion Hnd; set_solver.
  - rewrite IH1 by done. apply IH2. by rewrite <- H1.
Qed.

Lemma insert_key_map {A B} (f : A → B) k v l :
  insert_key (k, f v) (map (λ '(k, v), (k, f v)) l) = map (λ '(k, v), (k, f v)) (insert_key (k, v) l).
Proof. induction l as [|[i x] l IH]; simpl; [done|]. case_decide; simpl; by rewrite ?IH. Qed.

Lemma sort_keys_map {A B} (f : A → B) l :
  sort_keys (map (λ '(k, v), (k, f v)) l) = map (λ '(k, v), (k, f v)) (sort_keys l).
Proof. induction l as [|[i x] l IH]; simpl; [done|]. by rewrite IH, insert_key_map. Qed.

(** ** Reading back what was written *)

Lemma scan_escape c l s rest :
  scan_string l = Ok (s, rest) → scan_string (escape_char c ++ l) = Ok (c :: s, rest).
Proof.
  intros H. destruct c as [[] [] [] [] [] [] [] []];
    match goal with |- context [escape_char ?c] =>
      let e := eval vm_compute in (escape_char c) in change (escape_char c) with e end;
    simpl; rewrite H; reflexivity.
Qed.

Lemma scan_print_string s rest :
  scan_string (concat (escape_char <$> String.list_ascii_of_string s) ++ dquote :: rest)
  = Ok (String.list_ascii_of_string s, rest).
Proof.
  induction s as [|c s IH]; csimpl; [done|].
  rewrite <- (assoc_L (++)). by apply scan_escape.
Qed.

(** What may follow a value inside a document. *)
Definition ends_value (rest : list ascii) : Prop :=
  match rest with [] => True | c :: _ => is_number_char c = false end.

Lemma span_number_app l rest :
  forallb is_number_char l = true → ends_value rest → span_number (l ++ rest) = (l, rest).
Proof.
  intros Hl Hr. induction l as [|c l IH]; simpl in *.
  - destruct rest as [|c rest]; simpl in *; [done|]. by rewrite Hr.
  - apply andb_true_iff in Hl as [-> Hl]. by rewrite IH.
Qed.

Lemma print_uint_digits u :
  forallb (char_in 48 57) (String.list_ascii_of_string (NilEmpty.string_of_uint u)) = true.
Proof. induction u; simpl; done. Qed.

Lemma digits_number_chars l : forallb (char_in 48 57) l = true → forallb is_number_char l = true.
Proof.
  induction l as [|c l IH]; simpl; [done|]. intros [H ?]%andb_true_iff.
  unfold is_number_char at 1. rewrite H. by apply IH.
Qed.

(** Digits without a leading zero. *)
Definition plain (u : Decimal.uint) : Prop :=
  u = Decimal.D0 Decimal.Nil ∨ (u ≠ Decimal.Nil ∧ ∀ v, u ≠ Decimal.D0 v).

Lemma nzhead_plain u : Decimal.nzhead u = Decimal.Nil ∨ plain (Decimal.nzhead u).
Proof. induction u; simpl; try (by left); try (by right; right); done. Qed.

Lemma to_int_plain z :
  (∃ u, Z.to_int z = Decimal.Pos u ∧ plain u) ∨ (∃ u, Z.to_int z = Decimal.Neg u ∧ plain u).
Proof.
  assert (E : Z.to_int z = Decimal.norm (Z.to_int z)) by (by rewrite <- DecimalZ.to_of, DecimalZ.of_to).
  rewrite E. clear E. destruct (Z.to_int z) as [u|u]; cbn [Decimal.norm].
  - left. eexists; split; [done|]. unfold Decimal.unorm.
    destruct (nzhead_plain u) as [->|H]; [by left|].
    destruct (Decimal.nzhead u) eqn:E; try done. by left.
  - destruct (nzhead_plain u) as [->|H]; [left; eexists; split; [done|by left]|].
    right. destruct (Decimal.nzhead u) eqn:E; [by destruct H as [?|[? ?]]|..]; by eexists.
Qed.

Lemma plain_syntax u : plain u →
  let l := String.list_ascii_of_string (NilEmpty.string_of_uint u) in
  match l with [] => false | [c] => char_in 48 57 c | c :: l => char_in 49 57 c && forallb (char_in 48 57) l end = true.
Proof.
  intros [->|[H1 H2]]; [done|]. cbv zeta.
  pose proof (print_uint_digits u) as Hd.
  destruct u; try done; try (by exfalso; eapply H2);
    simpl in *; (destruct (String.list_ascii_of_string _) eqn:E; [done|]); exact Hd.
Qed.

Lemma parse_print_int z rest : ends_value rest → parse_int (print_int z ++ rest) = Ok (JInt z, rest).
Proof.
  intros Hr. unfold parse_int, print_int.
  assert (Hs : ∃ l, String.list_ascii_of_string (NilZero.string_of_int (Z.to_int z)) = l ∧
    forallb is_number_char l = true ∧ number_syntax l = true).
  { destruct (to_int_plain z) as [(u & -> & Hu)|(u & -> & Hu)]; eexists; (split; [done|]);
      pose proof (plain_syntax u Hu) as Hp; cbv zeta in Hp;
      pose proof (digits_number_chars _ (print_uint_digits u)) as Hn.
    - assert (NilZero.string_of_int (Decimal.Pos u) = NilEmpty.string_of_uint u) as ->.
      { by destruct u; [destruct Hu as [?|[? _]]|..]. }
      split; [done|]. unfold number_syntax.
      destruct (String.list_ascii_of_string (NilEmpty.string_of_uint u)) as [|c l]; [done|].
      rewrite decide_False; [done|]. intros ->. by destruct l.
    - assert (NilZero.string_of_int (Decimal.Neg u) = String "-" (NilEmpty.string_of_uint u)) as ->.
      { by destruct u; [destruct Hu as [?|[? _]]|..]. }
      split; [simpl; done|]. unfold number_syntax. cbn [String.list_ascii_of_string].
      by rewrite decide_True. }
  destruct Hs as (l & E & Hn & Hsy). rewrite E, span_number_app, Hsy by done.
  rewrite <- E, String.string_of_list_ascii_of_string, NilZero.isi.
  - cbn. by rewrite DecimalZ.of_to.
  - intros Hnil. destruct (to_int_plain z) as [(u & Hz & Hu)|(u & Hz & Hu)]; rewrite Hz in Hnil; [|done].
    injection Hnil as ->. by destruct Hu as [?|[? _]].
  - intros Hnil. destruct (to_int_plain z) as [(u & Hz & Hu)|(u & Hz & Hu)]; rewrite Hz in Hnil; [done|].
    injection Hnil as ->. by destruct Hu as [?|[? _]].
Qed.

(** A printed value starts with none of the characters the reader skips or closes on. *)
Definition starts_value (l : list ascii) : Prop :=
  match l with [] => False | c :: _ => is_space c = false ∧ c ≠ "]"%char ∧ c ≠ "}"%char end.

Lemma print_int_start z : ∃ c l, print_int z = c :: l ∧ is_number_char c = true.
Proof.
  unfold print_int. destruct (to_int_plain z) as [(u & -> & Hu)|(u & -> & Hu)].
  - destruct u; [destruct Hu as [?|[? _]]; done|..]; (eexists _, _; split; [reflexivity|done]).
  - eexists _, _. split; [reflexivity|done].
Qed.

Lemma number_char_start c : is_number_char c = true →
  is_space c = false ∧ ¬ (c ∈ ["]"; "}"; "["; "{"; "n"; "t"; "f"]%char) ∧ c ≠ dquote.
Proof.
  intros H. split; [|split].
  - destruct c as [[] [] [] [] [] [] [] []]; vm_compute in H |- *; congruence.
  - intros Hin. repeat (apply elem_of_cons in Hin as [->|Hin]; [vm_compute in H; congruence|]).
    by apply elem_of_nil in Hin.
  - intros ->. vm_compute in H. congruence.
Qed.

Lemma dumps_start j : starts_value (dumps j).
Proof.
  destruct j as [|[]|z| | |]; cbn [dumps]; try (unfold print_string; simpl; done).
  destruct (print_int_start z) as (c & l & -> & Hc%number_char_start). simpl. set_solver.
Qed.

Lemma skip_start l rest : starts_value l → skip_space (l ++ rest) = l ++ rest.
Proof. destruct l as [|c l]; simpl; [done|]. by intros (-> & _). Qed.

Definition reads (j : json) : Prop := ∀ fuel rest,
  ends_value rest → 2 * length (dumps j) < fuel →
  parse_value fuel (dumps j ++ rest) = Ok (sorted_document j, rest).

Lemma join_comma_cons x y l : join_comma (x :: y :: l) = x ++ ","%char :: join_comma (y :: l).
Proof. done. Qed.

Lemma read_items l : Forall reads l → l ≠ [] → ∀ fuel rest,
  2 * length (join_comma (map dumps l)) + 1 < fuel →
  parse_items fuel (join_comma (map dumps l) ++ "]"%char :: rest) = Ok (map sorted_document l, rest).
Proof.
  induction 1 as [|j l Hj Hl IH]; [done|]. intros _ fuel rest Hf.
  destruct fuel as [|fuel]; [lia|]. destruct l as [|j' l].
  - cbn [map join_comma parse_items] in *. rewrite Hj by (done || lia). by vm_compute.
  - cbn [map] in *. rewrite join_comma_cons in *. rewrite length_app in Hf. cbn [length] in Hf.
    rewrite <- (assoc_L (++)). cbn [parse_items app].
    rewrite Hj by (done || lia). cbn [mbind result_bind].
    change (skip_space (","%char :: ?l)) with (","%char :: l).
    cbn iota. rewrite decide_True by done. rewrite IH by (done || lia). done.
Qed.

Lemma dict_set_fresh {A} k (v : A) d : k ∉ d.*1 → dict_set k v d = d ++ [(k, v)].
Proof.
  induction d as [|[i x] d IH]; csimpl; [done|]. intros H.
  rewrite decide_False by set_solver. by rewrite IH by set_solver.
Qed.

Definition printed_members (l : list (string * json)) : list ascii :=
  join_comma (print_member <$> map (λ '(k, v), (k, dumps v)) l).

Lemma printed_members_cons k v p l :
  printed_members ((k, v) :: p :: l) = print_member (k, dumps v) ++ ","%char :: printed_members (p :: l).
Proof. by destruct p. Qed.

(** One member, up to the comma or brace after it. *)
Lemma read_member k v fuel rest d :
  reads v → ends_value rest → 2 * length (dumps v) < fuel →
  parse_members (S fuel) (print_member (k, dumps v) ++ rest) d =
    match skip_space rest with
    | c :: rest =>
        if decide (c = ","%char) then parse_members fuel rest (dict_set k (sorted_document v) d)
        else if decide (c = "}"%char) then Ok (dict_set k (sorted_document v) d, rest)
        else Raise json_error
    | [] => Raise json_error
    end.
Proof.
  intros Hv He Hf. unfold print_member, print_string. cbn [fst snd].
  rewrite <- !(assoc_L (++)). cbn [app]. rewrite <- !(assoc_L (++)). cbn [app].
  cbn [parse_members].
  change (skip_space (dquote :: ?l)) with (dquote :: l). cbn iota.
  rewrite decide_True by done. rewrite scan_print_string. cbn [mbind result_bind].
  change (skip_space (":"%char :: ?l)) with (":"%char :: l). cbn iota.
  rewrite decide_True by done. rewrite Hv by (done || lia). cbn [mbind result_bind].
  by rewrite String.string_of_list_ascii_of_string.
Qed.

Lemma print_member_length k v : length (dumps v) < length (print_member (k, dumps v)).
Proof. unfold print_member. rewrite length_app. simpl. lia. Qed.

Lemma read_members l : Forall (λ p, reads p.2) l → l ≠ [] → NoDup l.*1 → ∀ d fuel rest,
  (∀ k, k ∈ d.*1 → k ∉ l.*1) → 2 * length (printed_members l) + 1 < fuel →
  parse_members fuel (printed_members l ++ "}"%char :: rest) d
    = Ok (d ++ map (λ '(k, v), (k, sorted_document v)) l, rest).
Proof.
  induction 1 as [|[k v] l Hj Hl IH]; [done|]. intros _ Hnd d fuel rest Hd Hf.
  destruct fuel as [|fuel]; [lia|]. pose proof (print_member_length k v) as Hlen.
  csimpl in Hnd. cbn [snd] in Hj. assert (Hd' : ∀ i, i ∈ d.*1 → i ∉ k :: l.*1) by exact Hd. clear Hd.
  inversion Hnd as [|? ? Hk Hnd']; subst. destruct l as [|p l].
  - change (printed_members [(k, v)]) with (print_member (k, dumps v)) in *.
    rewrite read_member by (done || lia). cbn.
    rewrite dict_set_fresh by set_solver. done.
  - rewrite printed_members_cons in *. rewrite length_app in Hf. cbn [length] in Hf.
    rewrite <- (assoc_L (++)). cbn [app]. rewrite read_member by (done || lia).
    change (skip_space (","%char :: ?l)) with (","%char :: l). cbn iota.
    rewrite decide_True by done. rewrite IH; [|done|done| |lia].
    + rewrite dict_set_fresh by set_solver. by rewrite <- (assoc_L (++)).
    + rewrite dict_set_fresh by set_solver. intros i. rewrite fmap_app. set_solver.
Qed.

Lemma reads_all j : dict_keys_ok j → reads j.
Proof.
  induction j as [|b|z|s|l IH|l IH] using json_nested_ind; intros Hok fuel rest He Hf;
    (destruct fuel as [|fuel]; [lia|]); cbn [parse_value];
    rewrite (skip_start _ _ (dumps_start _)).
  - done.
  - by destruct b.
  - cbn [dumps]. pose proof (parse_print_int z rest He) as Hp.
    destruct (print_int_start z) as (c & l & E & (_ & Hc & Hq)%number_char_start).
    rewrite E in *. cbn [app] in *. cbn [expect].
    rewrite !decide_False by (done || set_solver). exact Hp.
  - cbn [dumps]. unfold print_string. cbn [app]. rewrite decide_True by done.
    rewrite <- (assoc_L (++)). cbn [app]. rewrite scan_print_string. cbn [mbind result_bind].
    by rewrite String.string_of_list_ascii_of_string.
  - cbn [dumps app] in *. rewrite decide_False, decide_True by done.
    destruct l as [|j l]; [done|].
    assert (Hall : Forall reads (j :: l)).
    { clear -IH Hok. cbn [dict_keys_ok] in Hok. revert Hok.
      induction IH as [|x k Hx _ IHk]; [by constructor|]. simpl. intros [? ?]. constructor; auto. }
    assert (Hst : starts_value (join_comma (map dumps (j :: l)))).
    { pose proof (dumps_start j). destruct l; simpl; destruct (dumps j); done. }
    rewrite <- (assoc_L (++)). cbn [app]. rewrite (skip_start _ _ Hst).
    cbn [length] in Hf. rewrite length_app in Hf. cbn [length] in Hf.
    pose proof (read_items (j :: l) Hall) as Hr. cbn [sorted_document].
    destruct (join_comma (map dumps (j :: l))) as [|c k] eqn:E; [done|].
    cbn [app]. rewrite decide_False by apply Hst. change (c :: k ++ ?r) with ((c :: k) ++ r).
    rewrite Hr by (done || lia). done.
  - cbn [dumps app] in *. rewrite decide_False, decide_False, decide_True by done.
    rewrite sort_keys_map in *. cbn [sorted_document]. rewrite sort_keys_map.
    pose proof (sort_keys_perm l) as Hperm. 
    change (join_comma (print_member <$> map (λ '(k, v), (k, dumps v)) (sort_keys l)))
      with (printed_members (sort_keys l)) in *.
    assert (Forall (λ p, reads p.2) (sort_keys l) ∧ NoDup (sort_keys l).*1) as [Hall Hnd].
    { rewrite Hperm. cbn [dict_keys_ok] in Hok. destruct Hok as [Hnd Hok]. split; [|done].
      clear -IH Hok. induction IH as [|x k Hx _ IHk]; [by constructor|]. simpl in Hok.
      destruct Hok. constructor; auto. }
    destruct (sort_keys l) as [|[k v] m]; [done|].
    rewrite <- (assoc_L (++)). cbn [app].
    assert (Hst : ∃ r, printed_members ((k, v) :: m) = dquote :: r) by (destruct m; by eexists).
    rewrite skip_start by (by destruct Hst as [? ->]).
    cbn [length] in Hf. rewrite length_app in Hf. cbn [length] in Hf.
    pose proof (read_members ((k, v) :: m) Hall ltac:(done) Hnd [] fuel rest ltac:(set_solver) ltac:(lia)) as Hr.
    destruct Hst as [r E]. rewrite E in *. cbn [app] in *. rewrite decide_False by done.
    by rewrite Hr.
Qed.

Lemma json_loads_sorted j : dict_keys_ok j → json_loads (canonical_json_bytes j) = Ok (sorted_document j).
Proof.
  intros Hok. unfold json_loads, canonical_json_bytes.
  pose proof (reads_all j Hok (S (2 * length (dumps j))) [] I ltac:(lia)) as H.
  rewrite app_nil_r in H. by rewrite H.
Qed.

(** ** Equality of documents *)

Lemma foldr_and_Forall {A} (P : A → Prop) l : foldr (λ x Q, P x ∧ Q) True l ↔ Forall P l.
Proof. induction l as [|x l IH]; simpl; [done|]. by rewrite Forall_cons, IH. Qed.

Lemma keys_ok_list l : dict_keys_ok (JList l) ↔ Forall dict_keys_ok l.
Proof. cbn [dict_keys_ok]. by rewrite <- foldr_and_Forall. Qed.

Lemma keys_ok_members l : dict_keys_ok (JObj l) ↔ NoDup l.*1 ∧ Forall (λ p, dict_keys_ok p.2) l.
Proof. cbn [dict_keys_ok]. by rewrite <- foldr_and_Forall. Qed.

Lemma json_equiv_keys j k : j ≡ k → (dict_keys_ok j ↔ dict_keys_ok k).
Proof.
  induction 1 as [j|i j k _ IH1 _ IH2|l k Hp|l x y k _ IH|l i x y k _ IH]; [done|by rewrite IH1| | |].
  - by rewrite !keys_ok_members, Hp.
  - by rewrite !keys_ok_list, !Forall_app, !Forall_cons, IH.
  - rewrite !keys_ok_members, !Forall_app, !Forall_cons, !fmap_app. cbn [snd]. by rewrite IH.
Qed.

Lemma json_equiv_dumps j k : j ≡ k → dict_keys_ok j → dumps j = dumps k.
Proof.
  induction 1 as [j|i j k H1 IH1 _ IH2|l k Hp|l x y k _ IH|l i x y k _ IH]; intros Hok.
  - done.
  - rewrite IH1 by done. apply IH2. by rewrite <- (json_equiv_keys _ _ H1).
  - cbn [dumps]. rewrite !sort_keys_map. apply keys_ok_members in Hok as [Hnd _].
    by rewrite (sort_keys_permutation l k).
  - apply keys_ok_list, Forall_app in Hok as [_ Hok]. inversion Hok; subst.
    cbn [dumps]. rewrite !map_app. cbn [map]. by rewrite IH.
  - apply keys_ok_members in Hok as [_ [_ Hok]%Forall_app]. inversion Hok; subst.
    cbn [dumps]. rewrite !map_app. cbn [map]. by rewrite IH.
Qed.

Lemma json_equiv_list l k : Forall2 (≡) l k → JList l ≡ JList k.
Proof.
  intros H. change (JList ([] ++ l) ≡ JList ([] ++ k)). generalize (@nil json) as pre.
  induction H as [|x y l k Hxy _ IH]; intros pre; [apply je_refl|].
  eapply je_trans; [by apply je_item|]. specialize (IH (pre ++ [y])).
  by rewrite <- !(assoc_L (++)) in IH.
Qed.

Lemma json_equiv_obj l k : Forall2 (λ p q, p.1 = q.1 ∧ p.2 ≡ q.2) l k → JObj l ≡ JObj k.
Proof.
  intros H. change (JObj ([] ++ l) ≡ JObj ([] ++ k)). generalize (@nil (string * json)) as pre.
  induction H as [|[i x] [? y] l k [Hi Hxy] _ IH]; intros pre; [apply je_refl|]. cbn [fst snd] in *. destruct Hi.
  eapply je_trans; [by apply je_member|]. specialize (IH (pre ++ [(i, y)])).
  by rewrite <- !(assoc_L (++)) in IH.
Qed.

Lemma sorted_document_equiv j : sorted_document j ≡ j.
Proof.
  induction j as [|b|z|s|l IH|l IH] using json_nested_ind; cbn [sorted_document]; try apply je_refl.
  - apply json_equiv_list. induction IH; constructor; done.
  - eapply je_trans; [apply je_members, sort_keys_perm|].
    apply json_equiv_obj. induction IH as [|[i x] l Hx _ IHl]; constructor; done.
Qed.

#[global] Instance json_equiv_equivalence : Equivalence (≡@{json}).
Proof.
  split; [intros j; apply je_refl| |intros i j k; apply je_trans].
  intros j k. induction 1 as [j|i j k _ IH1 _ IH2|l k Hp|l x y k _ IH|l i x y k _ IH].
  - apply je_refl.
  - by eapply je_trans.
  - by apply je_members.
  - by apply je_item.
  - by apply je_member.
Qed.

(** ** Theorems *)

(** C14 reading back a canonical document gives the document with its members in key
    order, which Python's [==] does not tell apart from the one that was written. *)
Theorem canonical_round_trip j : dict_keys_ok j →
  ∃ k, json_loads (canonical_json_bytes j) = Ok k ∧ k ≡ j ∧ canonical_json_bytes k = canonical_json_bytes j.
Proof.
  intros Hok. exists (sorted_document j). pose proof (sorted_document_equiv j) as Heq.
  split; [by apply json_loads_sorted|]. split; [done|]. apply json_equiv_dumps; [done|].
  by apply (json_equiv_keys _ _ Heq).
Qed.

(** Two documents have the same canonical bytes, and so the same digest and
    signature, exactly when they differ at most in the order of object members. *)
Theorem canonical_bytes_exact j k : dict_keys_ok j → dict_keys_ok k →
  canonical_json_bytes j = canonical_json_bytes k ↔ j ≡ k.
Proof.
  intros Hj Hk. split; [|intros Heq; by apply json_equiv_dumps].
  intros E. pose proof (json_loads_sorted j Hj) as Lj. rewrite E, json_loads_sorted in Lj by done.
  injection Lj as E'. etrans; [symmetry; apply sorted_document_equiv|].
  rewrite <- E'. apply sorted_document_equiv.
Qed.

(** A document with every kind of value, an escape and unsorted keys. *)
Definition example_json : json :=
  JObj [("b", JList [JInt (-12); JInt 0; JBool true; JNull; JObj []]);
        ("a", JStr (String "009" (String "034" "x/"))); ("aa", JObj [("z", JBool false); ("y", JList [])])].
Definition example_json_moved : json :=
  JObj [("aa", JObj [("y", JList []); ("z", JBool false)]); ("b", JList [JInt (-12); JInt 0; JBool true; JNull; JObj []]);
        ("a", JStr (String "009" (String "034" "x/")))].

(** Single quotes for double ones, to keep expected texts readable. *)
Definition requote (c : ascii) : ascii := if decide (c = "'"%char) then dquote else c.

Lemma example_json_keys : dict_keys_ok example_json ∧ dict_keys_ok example_json_moved.
Proof. split; cbn; repeat split; try (apply (bool_decide_unpack _); vm_compute; exact I); exact I. Defined.

Theorem canonical_round_trip_witness :
  canonical_json_bytes example_json =
    requote <$> String.list_ascii_of_string "{'a':'\t\'x/','aa':{'y':[],'z':false},'b':[-12,0,true,null,{}]}" ∧
  ∃ k, json_loads (canonical_json_bytes example_json) = Ok k ∧ k ≡ example_json ∧
    canonical_json_bytes k = canonical_json_bytes example_json.
Proof. split; [by vm_compute|]. exact (canonical_round_trip _ (proj1 example_json_keys)). Defined.

Theorem canonical_bytes_exact_witness :
  canonical_json_bytes example_json = canonical_json_bytes example_json_moved ↔ example_json ≡ example_json_moved.
Proof. exact (canonical_bytes_exact _ _ (proj1 example_json_keys) (proj2 example_json_keys)). Defined.
