(* ===== verification/Crypto.v ===== *)
(** * Keys, digests and the data cipher ([crypto.py])

    The standard library's [base64], [hashlib.sha256] and [hmac] are executable
    definitions on byte lists; AES-GCM and Ed25519 come from the third-party
    [cryptography] package and are the operations of the class [Cryptography], with
    their documented behaviour in [CryptographyLaws]. *)
From Stdlib Require Import Ascii.
From stdpp Require Import base gmap sets strings numbers pretty list.
From S2P Require Import Prelude FlowTree Schemas Json.

Abbreviation bytes := (list ascii).

Definition to_bytes (s : string) : bytes := String.list_ascii_of_string s.
Definition of_bytes (l : bytes) : string := String.string_of_list_ascii l.

(** ** [base64.b64encode] and [base64.b64decode(..., validate=True)] *)

Definition BASE64_ALPHABET : bytes :=
  to_bytes "ABCDEFGHIJKLMNOPQRSTUVWXYZabcdefghijklmnopqrstuvwxyz0123456789+/".

Definition sextet (n : N) : ascii := nth (N.to_nat (n mod 64)) BASE64_ALPHABET "="%char.
Definition base64_value (c : ascii) : option N :=
  if char_in 65 90 c then Some (N_of_ascii c - 65)%N
  else if char_in 97 122 c then Some (N_of_ascii c - 71)%N
  else if char_in 48 57 c then Some (N_of_ascii c + 4)%N
  else if char_in 43 43 c then Some 62%N
  else if char_in 47 47 c then Some 63%N
  else None.

Fixpoint b64encode (l : bytes) : bytes :=
  match l with
  | a :: b :: c :: l =>
      let a := N_of_ascii a in let b := N_of_ascii b in let c := N_of_ascii c in
      sextet (N.shiftr a 2) :: sextet (N.shiftl a 4 + N.shiftr b 4)
        :: sextet (N.shiftl b 2 + N.shiftr c 6) :: sextet c :: b64encode l
  | [a; b] =>
      let a := N_of_ascii a in let b := N_of_ascii b in
      [sextet (N.shiftr a 2); sextet (N.shiftl a 4 + N.shiftr b 4); sextet (N.shiftl b 2); "="%char]
  | [a] =>
      let a := N_of_ascii a in
      [sextet (N.shiftr a 2); sextet (N.shiftl a 4); "="%char; "="%char]
  | [] => []
  end.

Definition binascii_error : exn := ValueError "binascii.Error".
Definition octet (n : N) : ascii := ascii_of_N (n mod 256).

Fixpoint b64decode (l : bytes) : result bytes :=
  match l with
  | [] => Ok []
  | a :: b :: c :: d :: l =>
      x ← of_option binascii_error (base64_value a);
      y ← of_option binascii_error (base64_value b);
      match base64_value c, base64_value d with
      | Some z, Some w =>
          rest ← b64decode l;
          Ok (octet (N.shiftl x 2 + N.shiftr y 4) :: octet (N.shiftl y 4 + N.shiftr z 2)
                :: octet (N.shiftl z 6 + w) :: rest)
      | Some z, None =>
          if decide (d = "="%char ∧ l = [])
          then Ok [octet (N.shiftl x 2 + N.shiftr y 4); octet (N.shiftl y 4 + N.shiftr z 2)]
          else Raise binascii_error
      | None, _ =>
          if decide (c = "="%char ∧ d = "="%char ∧ l = [])
          then Ok [octet (N.shiftl x 2 + N.shiftr y 4)]
          else Raise binascii_error
      end
  | _ => Raise binascii_error
  end.

(** ** [hashlib.sha256] *)

Module Sha256.
Definition word (n : N) : N := (n mod 4294967296)%N.
Definition add (l : list N) : N := word (foldr N.add 0%N l).
Definition rotr (k n : N) : N := N.lor (N.shiftr n k) (word (N.shiftl n (32 - k))).
Definition xor3 (a b c : N) : N := N.lxor a (N.lxor b c).
Definition big0 (x : N) : N := xor3 (rotr 2 x) (rotr 13 x) (rotr 22 x).
Definition big1 (x : N) : N := xor3 (rotr 6 x) (rotr 11 x) (rotr 25 x).
Definition small0 (x : N) : N := xor3 (rotr 7 x) (rotr 18 x) (N.shiftr x 3).
Definition small1 (x : N) : N := xor3 (rotr 17 x) (rotr 19 x) (N.shiftr x 10).
Definition ch (x y z : N) : N := N.lxor (N.land x y) (N.ldiff z x).
Definition maj (x y z : N) : N := xor3 (N.land x y) (N.land x z) (N.land y z).

Definition constants : list N :=
  [1116352408; 1899447441; 3049323471; 3921009573; 961987163; 1508970993; 2453635748; 2870763221;
  3624381080; 310598401; 607225278; 1426881987; 1925078388; 2162078206; 2614888103; 3248222580;
  3835390401; 4022224774; 264347078; 604807628; 770255983; 1249150122; 1555081692; 1996064986;
  2554220882; 2821834349; 2952996808; 3210313671; 3336571891; 3584528711; 113926993; 338241895;
  666307205; 773529912; 1294757372; 1396182291; 1695183700; 1986661051; 2177026350; 2456956037;
  2730485921; 2820302411; 3259730800; 3345764771; 3516065817; 3600352804; 4094571909; 275423344;
  430227734; 506948616; 659060556; 883997877; 958139571; 1322822218; 1537002063; 1747873779;
  1955562222; 2024104815; 2227730452; 2361852424; 2428436474; 2756734187; 3204031479; 3329325298]%N.

Definition initial : list N :=
  [1779033703; 3144134277; 1013904242; 2773480762; 1359893119; 2600822924; 528734635; 1541459225]%N.

(** The message schedule, newest word first. *)
Fixpoint extend (k : nat) (w : list N) : list N :=
  match k with
  | 0 => w
  | S k => extend k (add [small1 (nth 1 w 0%N); nth 6 w 0%N; small0 (nth 14 w 0%N); nth 15 w 0%N] :: w)
  end.

Definition round (s : list N) (kw : N * N) : list N :=
  match s with
  | [a; b; c; d; e; f; g; h] =>
    let t1 := add [h; big1 e; ch e f g; kw.1; kw.2] in
    let t2 := add [big0 a; maj a b c] in
    [add [t1; t2]; a; b; c; add [d; t1]; e; f; g]
  | _ => s
  end.

Definition compress (s block : list N) : list N :=
  zip_with (λ x y, add [x; y]) s (foldl round s (zip constants (rev (extend 48 (rev block))))).

Fixpoint words (l : bytes) : list N :=
  match l with
  | a :: b :: c :: d :: l =>
    (((N_of_ascii a * 256 + N_of_ascii b) * 256 + N_of_ascii c) * 256 + N_of_ascii d)%N :: words l
  | _ => []
  end.

Fixpoint big_endian (k : nat) (n : N) : bytes :=
  match k with 0 => [] | S k => big_endian k (n / 256)%N ++ [octet n] end.

Definition pad (l : bytes) : bytes :=
  l ++ octet 128 :: replicate ((119 - length l mod 64) mod 64) (octet 0)
  ++ big_endian 8 (8 * N.of_nat (length l))%N.

Fixpoint blocks (k : nat) (s w : list N) : list N :=
  match k with 0 => s | S k => blocks k (compress s (take 16 w)) (drop 16 w) end.

Definition digest (l : bytes) : bytes :=
  let w := words (pad l) in
  concat (big_endian 4 <$> blocks (length w / 16) initial w).
End Sha256.

Definition sha256 : bytes → bytes := Sha256.digest.

(** [digest.hex()] *)
Definition hex_of (l : bytes) : string :=
  of_bytes (concat ((λ c, [hex_digit (nat_of_ascii c / 16); hex_digit (nat_of_ascii c mod 16)]) <$> l)).
Definition sha256_hexdigest (l : bytes) : string := hex_of (sha256 l).

(** [hmac.new(key, message, hashlib.sha256).hexdigest()] *)
Definition hmac_sha256_hexdigest (key message : bytes) : string :=
  let key := if 64 <? length key then sha256 key else key in
  let key := key ++ replicate (64 - length key) (octet 0) in
  let xored k := (λ c, octet (N.lxor k (N_of_ascii c))) <$> key in
  sha256_hexdigest (xored 92%N ++ sha256 (xored 54%N ++ message)).

(** ** [crypto.py] *)

Class Cryptography := {
  aes_gcm_encrypt : bytes → bytes → bytes → bytes → bytes; (* key, nonce, plaintext, associated data *)
  aes_gcm_decrypt : bytes → bytes → bytes → bytes → option bytes; (* [None] for [InvalidTag] *)
  ed25519_sign : bytes → bytes → bytes; (* private key, message *)
}.

(** Decryption recovers the plaintext and the ciphertext carries a 16-byte tag. *)
Class CryptographyLaws `{Cryptography} : Prop := {
  aes_gcm_open key nonce plaintext data :
    aes_gcm_decrypt key nonce (aes_gcm_encrypt key nonce plaintext data) data = Some plaintext;
  aes_gcm_length key nonce plaintext data :
    length (aes_gcm_encrypt key nonce plaintext data) = length plaintext + 16;
  aes_gcm_decrypt_length key nonce ciphertext plaintext data :
    16 ≤ length ciphertext → aes_gcm_decrypt key nonce ciphertext data = Some plaintext → length ciphertext = length plaintext + 16;
}.

Definition decode_key (value : bytes) (expected_bytes : nat) (label : string) : result bytes :=
  match b64decode value with
  | Raise _ => Raise (RuntimeError (label +:+ " is not valid base64"))
  | Ok decoded =>
      if decide (length decoded = expected_bytes) then Ok decoded
      else Raise (RuntimeError (label +:+ " must decode to " +:+ pretty expected_bytes +:+ " bytes"))
  end.

Section Cipher.
Context `{Cryptography}.

Definition ASSOCIATED_DATA : bytes := to_bytes "ivrdroid-v1".

(** [RevisionSigner]: its constructor, and [sign] with the key it keeps. *)
Definition revision_signer (private_key_b64 : bytes) : result bytes :=
  decode_key private_key_b64 32 "configuration signing key".
Definition sign (key : bytes) (document : json) : string * bytes :=
  let canonical := canonical_json_bytes document in
  (sha256_hexdigest canonical, b64encode (ed25519_sign key canonical)).

(** [DataCipher]: its constructor, and the methods with the key it keeps; the nonce
  is the 12 bytes of [os.urandom]. *)
Definition data_cipher (key_b64 : bytes) : result bytes :=
  decode_key key_b64 32 "data encryption key".
Definition encrypt (key nonce plaintext : bytes) : bytes :=
  b64encode (nonce ++ aes_gcm_encrypt key nonce plaintext ASSOCIATED_DATA).
Definition decrypt (key encoded : bytes) : result bytes :=
  payload ← b64decode encoded;
  if length payload <? 29 then Raise (ValueError "encrypted value is truncated")
  else of_option (OtherException "InvalidTag")
       (aes_gcm_decrypt key (take 12 payload) (drop 12 payload) ASSOCIATED_DATA).
End Cipher.

Definition digest_pairing_code (code hmac_key_b64 : bytes) : result string :=
  key ← decode_key hmac_key_b64 32 "pairing HMAC key";
  Ok (hmac_sha256_hexdigest key code).
Definition digest_device_token (token : bytes) : string := sha256_hexdigest token.

(** [mask_phone]; phone numbers are ASCII. *)
Definition mask_phone (phone : option string) : string :=
  match phone with
  | None => "Unknown"
  | Some p =>
      if decide (p = "") then "Unknown"
      else if String.length p <=? 7 then "***"
      else String.substring 0 3 p +:+ "-***-" +:+ String.substring (String.length p - 4) 4 p
  end.

(** ** Base64 round trip *)

Lemma base64_value_sextet n : base64_value (sextet n) = Some (n mod 64)%N.
Proof.
  unfold sextet. assert (H : (n mod 64 < 64)%N) by (apply N.mod_lt; lia).
  revert H. generalize (n mod 64)%N as k. intros k H.
  rewrite <- (N2Nat.id k) at 2. assert (Hk : N.to_nat k < 64) by lia. revert Hk.
  generalize (N.to_nat k) as m. clear. intros m Hm.
  do 64 (destruct m as [|m]; [by vm_compute|]). lia.
Qed.

Lemma ascii_bound a : (N_of_ascii a < 256)%N.
Proof. apply N_ascii_bounded. Qed.

Lemma octet_of_ascii n a : (n mod 256 = N_of_ascii a)%N → octet n = a.
Proof. unfold octet. intros ->. apply ascii_N_embedding. Qed.

Ltac sextets :=
  apply octet_of_ascii; rewrite ?N.shiftl_mul_pow2, ?N.shiftr_div_pow2;
  repeat match goal with |- context [N_of_ascii ?a] =>
    lazymatch goal with H : (N_of_ascii a < 256)%N |- _ => fail | _ => pose proof (ascii_bound a) end end;
  cbn [N.pow Pos.pow Pos.iter Pos.mul]; zify; Z.to_euclidean_division_equations; lia.

Lemma sextets_first a k : (k < 16)%N →
  octet (N.shiftl (N.shiftr (N_of_ascii a) 2 mod 64) 2 + N.shiftr ((N.shiftl (N_of_ascii a) 4 + k) mod 64) 4) = a.
Proof. intros. sextets. Qed.

Lemma sextets_second a b k : (k < 4)%N →
  octet (N.shiftl ((N.shiftl (N_of_ascii a) 4 + N.shiftr (N_of_ascii b) 4) mod 64) 4
         + N.shiftr ((N.shiftl (N_of_ascii b) 2 + k) mod 64) 2) = b.
Proof. intros. sextets. Qed.

Lemma sextets_third b c :
  octet (N.shiftl ((N.shiftl (N_of_ascii b) 2 + N.shiftr (N_of_ascii c) 6) mod 64) 6
         + N_of_ascii c mod 64) = c.
Proof. sextets. Qed.

Lemma b64_value_pad : base64_value "="%char = None.
Proof. done. Qed.

Lemma length_three {A} (l : list A) (P : list A → Prop) :
  P [] → (∀ a, P [a]) → (∀ a b, P [a; b]) → (∀ a b c l, P l → P (a :: b :: c :: l)) → P l.
Proof.
  intros H0 H1 H2 H3. induction l as [l IH] using (induction_ltof1 _ (@length A)); unfold ltof in IH.
  destruct l as [|a [|b [|c l]]]; [done..|]. apply H3, IH. simpl. lia.
Qed.

Lemma b64_round_trip l : b64decode (b64encode l) = Ok l.
Proof.
  induction l as [|a|a b|a b c l IH] using length_three; [done|..];
    cbn [b64encode b64decode]; rewrite ?base64_value_sextet, ?b64_value_pad; cbn [of_option mbind result_bind].
  - rewrite decide_True by done. do 2 f_equal.
    etrans; [|apply (sextets_first a 0%N); lia]. by rewrite N.add_0_r.
  - rewrite decide_True by done. f_equal. f_equal; [|f_equal].
    + apply sextets_first. rewrite N.shiftr_div_pow2. pose proof (ascii_bound b).
      apply N.Div0.div_lt_upper_bound. simpl. lia.
    + etrans; [|apply (sextets_second a b 0%N); lia]. by rewrite N.add_0_r.
  - rewrite IH. cbn [mbind result_bind]. f_equal. f_equal; [|f_equal; [|f_equal]].
    + apply sextets_first. rewrite N.shiftr_div_pow2. pose proof (ascii_bound b).
      apply N.Div0.div_lt_upper_bound. simpl. lia.
    + apply sextets_second. rewrite N.shiftr_div_pow2. pose proof (ascii_bound c).
      apply N.Div0.div_lt_upper_bound. simpl. lia.
    + apply sextets_third.
Qed.

Lemma decrypt_encrypt `{CryptographyLaws} key nonce plaintext : length nonce = 12 →
  decrypt key (encrypt key nonce plaintext) =
    if decide (plaintext = []) then Raise (ValueError "encrypted value is truncated") else Ok plaintext.
Proof.
  intros Hn. unfold decrypt, encrypt. rewrite b64_round_trip. cbn [mbind result_bind].
  rewrite length_app, aes_gcm_length, Hn, take_app_length', drop_app_length' by done.
  rewrite aes_gcm_open. destruct plaintext as [|c l]; [done|].
  rewrite decide_False by done. destruct (Nat.ltb_spec (12 + (length (c :: l) + 16)) 29); [simpl in *; lia|done].
Qed.

Lemma decode_key_ok value n label key :
  decode_key value n label = Ok key ↔ b64decode value = Ok key ∧ length key = n.
Proof. unfold decode_key. destruct (b64decode value); [case_decide|]; naive_solver. Qed.

(** A cryptographic suite that satisfies the laws: a tag of sixteen zero bytes. *)
Definition plain_suite : Cryptography := {|
  aes_gcm_encrypt _ _ plaintext _ := plaintext ++ replicate 16 (octet 0);
  aes_gcm_decrypt _ _ ciphertext _ := Some (take (length ciphertext - 16) ciphertext);
  ed25519_sign _ message := message;
|}.

Lemma plain_suite_laws : @CryptographyLaws plain_suite.
Proof.
  split; simpl; intros.
  - rewrite length_app. rewrite take_app_length'; [done|]. simpl. lia.
  - by rewrite length_app.
  - intros. simplify_eq. rewrite length_take. lia.
Qed.

(** Under a configured key, decrypting what [DataCipher.encrypt] wrote gives the
    text back, except for the empty text, which [decrypt] reports as truncated. *)
Theorem data_cipher_round_trip `{CryptographyLaws} key_b64 key nonce plaintext :
  data_cipher key_b64 = Ok key → length nonce = 12 →
  length key = 32 ∧
  decrypt key (encrypt key nonce plaintext) =
    if decide (plaintext = []) then Raise (ValueError "encrypted value is truncated") else Ok plaintext.
Proof.
  intros [_ Hk]%decode_key_ok Hn. split; [done|]. by apply decrypt_encrypt.
Qed.

Theorem data_cipher_round_trip_witness :
  length (replicate 32 (octet 7)) = 32 ∧
  @decrypt plain_suite (replicate 32 (octet 7))
    (@encrypt plain_suite (replicate 32 (octet 7)) (replicate 12 (octet 9)) (to_bytes "{}")) = Ok (to_bytes "{}").
Proof.
  exact (@data_cipher_round_trip plain_suite plain_suite_laws (b64encode (replicate 32 (octet 7)))
    (replicate 32 (octet 7)) (replicate 12 (octet 9)) (to_bytes "{}") ltac:(vm_compute; reflexivity)
    ltac:(reflexivity)).
Defined.

Example sha256_empty : sha256_hexdigest [] = "e3b0c44298fc1c149afbf4c8996fb92427ae41e4649b934ca495991b7852b855".
Proof. by vm_compute. Qed.
Example sha256_abc :
  sha256_hexdigest (to_bytes "abc") = "ba7816bf8f01cfea414140de5dae2223b00361a396177a9cb410ff61f20015ad".
Proof. by vm_compute. Qed.
Example hmac_fox :
  hmac_sha256_hexdigest (to_bytes "key") (to_bytes "The quick brown fox jumps over the lazy dog")
  = "f7bc83f430538424b13298e6aa6fb143ef4d59a14946175997479dbc2d1a3cd8".
Proof. by vm_compute. Qed.
