(* ===== verification/Documents.v ===== *)
(** * Configuration documents as JSON

    What [model_dump(mode="json")] writes for the models of [schemas.py], field by
    field in declaration order, and what [model_validate] makes of a parsed document:
    the declared fields, defaults, constraints and validators, with unknown keys
    refused ([StrictModel]).  [pydantic]'s conversions between JSON types (a number
    given as text, say) do not occur for documents the program wrote and are refused
    here.  Every refusal is the one exception [validation_error]. *)
From Stdlib Require Import Ascii.
From stdpp Require Import base gmap sets strings numbers pretty list.
From S2P Require Import Prelude FlowTree Schemas Validation Compiler LegacyGraph Json.

(** ** [model_dump] *)

Definition dump_option {A} (f : A → json) (o : option A) : json :=
  match o with Some x => f x | None => JNull end.

Definition dump_mode (m : CallerPolicyMode) : json :=
  JStr match m with
       | IVR_DISABLED => "IVR_DISABLED" | ALLOWLIST_ONLY => "ALLOWLIST_ONLY"
       | ACCEPT_ALL => "ACCEPT_ALL" | ACCEPT_ALL_EXCEPT_BLOCKLIST => "ACCEPT_ALL_EXCEPT_BLOCKLIST"
       end.
Definition dump_entry (e : CallerEntry) : json := JObj [("label", JStr (label e)); ("e164", JStr (e164 e))].
Definition dump_policy (p : CallerPolicy) : json :=
  JObj [("mode", dump_mode (mode p)); ("route_unknown_callers", JBool (route_unknown_callers p));
        ("allowlist", JList (map dump_entry (allowlist p)));
        ("blocklist", JList (map dump_entry (blocklist p)))].

Definition dump_window (w : WeeklyWindow) : json :=
  JObj [("weekday", JInt (weekday w)); ("start", JStr (start w)); ("end", JStr (wend w))].

(** [date.isoformat()] *)
Definition digit_char (n : Z) : ascii := ascii_of_nat (48 + Z.to_nat (n mod 10)).
Definition two_digits (n : Z) : string := String (digit_char (n / 10)) (String (digit_char n) "").
Definition isoformat (d : Z * Z * Z) : string :=
  let '(y, m, d) := d in
  two_digits (y / 100) +:+ two_digits y +:+ "-" +:+ two_digits m +:+ "-" +:+ two_digits d.

Definition dump_state (s : exception_state) : json :=
  JStr match s with state_open => "open" | state_closed => "closed" | state_holiday => "holiday" end.
Definition dump_exception (e : ScheduleException) : json :=
  JObj [("date", JStr (isoformat (edate e))); ("state", dump_state (state e))].
Definition dump_schedule (s : Schedule) : json :=
  JObj [("id", JStr (sid s)); ("name", JStr (sname s)); ("timezone", JStr (timezone s));
        ("weekly", JList (map dump_window (weekly s)));
        ("exceptions", JList (map dump_exception (exceptions s)))].

Definition dump_recording (r : RecordingBehavior) : json :=
  JObj [("maximum_duration_seconds", JInt (maximum_duration_seconds r));
        ("finish_key", dump_option JStr (finish_key r))].

(** [allow_prompt_barge_in] is left out when it is false ([exclude_if]). *)
Fixpoint dump_block (b : block) : json :=
  let next o := match o with Some c => dump_block c | None => JNull end in
  match b with
  | PlayPrompt i p n =>
      JObj [("block_id", JStr i); ("type", JStr "play_prompt"); ("prompt_id", dump_option JStr p);
            ("next", next n)]
  | CollectDigit i p barge tm ma mr brs t v l =>
      JObj ([("block_id", JStr i); ("type", JStr "collect_digit"); ("prompt_id", dump_option JStr p)]
            ++ (if barge then [("allow_prompt_barge_in", JBool true)] else [])
            ++ [("timeout_ms", JInt tm); ("maximum_attempts", JInt ma); ("maximum_menu_returns", JInt mr);
                ("branches", JList (map (λ br, match br with DigitBranch j k r =>
                   JObj [("branch_id", JStr j); ("digit", JStr (dtmf_str k));
                         ("root", match r with Some c => dump_block c | None => JNull end)] end) brs));
                ("on_timeout", next t); ("on_invalid", next v); ("on_return_limit", next l)])
  | ScheduleBranch i sc o c h =>
      JObj [("block_id", JStr i); ("type", JStr "schedule_branch"); ("schedule_id", dump_option JStr sc);
            ("on_open", next o); ("on_closed", next c); ("on_holiday", next h)]
  | ReturnToMenu i => JObj [("block_id", JStr i); ("type", JStr "return_to_menu")]
  | EndCall i => JObj [("block_id", JStr i); ("type", JStr "end_call")]
  | RecordMessage i n u =>
      JObj [("block_id", JStr i); ("type", JStr "record_message"); ("next", next n); ("on_unavailable", next u)]
  | ExternalCall i phone seconds n nc sf =>
      JObj [("block_id", JStr i); ("type", JStr "external_call"); ("phone_number", JStr phone);
            ("answer_timeout_seconds", JInt seconds); ("next", next n); ("on_not_connected", next nc);
            ("on_system_failure", next sf)]
  end.

(** [FlowDefinitionV2.model_dump] *)
Definition dump_flow (root : option block) : json := JObj [("root", dump_option dump_block root)].

(** [source_document]: [configuration.model_dump(mode="json", exclude={"edit_version"})]. *)
Definition source_members (ver : version) (c : FlowDocument) : list (string * json) :=
  [("schema_version", JInt (version_number ver)); ("caller_policy", dump_policy (caller_policy c));
   ("schedules", JList (map dump_schedule (schedules c)))]
  ++ match ver with V2 => [] | _ => [("recording_behavior", dump_recording (recording_behavior c))] end
  ++ [("flow", dump_flow (flow c))].
Definition source_document (ver : version) (c : FlowDocument) : json := JObj (source_members ver c).

(** [DraftConfiguration.model_dump(mode="json")] *)
Definition dump_node (n : FlowNode) : json :=
  match n with
  | PlayPromptNode i p nxt =>
      JObj [("id", JStr i); ("type", JStr "play_prompt"); ("prompt_id", JStr p); ("next", JStr nxt)]
  | CollectDigitNode i p tm ma brs t v =>
      JObj [("id", JStr i); ("type", JStr "collect_digit"); ("prompt_id", dump_option JStr p);
            ("timeout_ms", JInt tm); ("maximum_attempts", JInt ma);
            ("branches", JObj (map (λ '(k, x), (k, JStr x)) brs)); ("on_timeout", JStr t); ("on_invalid", JStr v)]
  | ScheduleBranchNode i sc o c h =>
      JObj [("id", JStr i); ("type", JStr "schedule_branch"); ("schedule_id", JStr sc);
            ("on_open", JStr o); ("on_closed", JStr c); ("on_holiday", JStr h)]
  | RepeatMenuNode i t m e =>
      JObj [("id", JStr i); ("type", JStr "repeat_menu"); ("target", JStr t); ("maximum_repeats", JInt m);
            ("on_exhausted", JStr e)]
  | EndCallNode i => JObj [("id", JStr i); ("type", JStr "end_call")]
  end.
Definition dump_legacy_flow (c : DraftConfiguration) : json :=
  JObj [("root_node", JStr (root_node c)); ("nodes", JList (map dump_node (nodes c)))].
Definition legacy_document (c : DraftConfiguration) : json :=
  JObj [("schema_version", JInt 1); ("caller_policy", dump_policy (legacy_policy c));
        ("schedules", JList (map dump_schedule (legacy_schedules c))); ("flow", dump_legacy_flow c)].

(** ** [model_validate] *)

Definition validation_error : exn := ValueError "ValidationError".

(** A validator's complaint becomes a [ValidationError]. *)
Definition validated {A} (m : result A) : result A :=
  match m with Ok a => Ok a | Raise _ => Raise validation_error end.
Definition require (ok : bool) : result unit := if ok then Ok tt else Raise validation_error.

Fixpoint assoc {A} (k : string) (l : list (string * A)) : option A :=
  match l with
  | [] => None
  | (i, x) :: l => if decide (i = k) then Some x else assoc k l
  end.

Definition load_str (p : string → bool) (j : json) : result string :=
  match j with JStr s => if p s then Ok s else Raise validation_error | _ => Raise validation_error end.
Definition load_int (lo hi : Z) (j : json) : result Z :=
  match j with JInt z => if in_range lo hi z then Ok z else Raise validation_error | _ => Raise validation_error end.
Definition load_bool (j : json) : result bool :=
  match j with JBool b => Ok b | _ => Raise validation_error end.
Definition load_option {A} (f : json → result A) (j : json) : result (option A) :=
  match j with JNull => Ok None | _ => Some <$> f j end.
Definition load_list {A} (maximum : nat) (f : json → result A) (j : json) : result (list A) :=
  match j with
  | JList l => if length l <=? maximum then mapM f l else Raise validation_error
  | _ => Raise validation_error
  end.

(** A field of a model, required or with its default. *)
Definition required {A} (k : string) (f : json → result A) (o : list (string * json)) : result A :=
  match assoc k o with Some j => f j | None => Raise validation_error end.
Definition optional {A} (k : string) (f : json → result A) (d : A) (o : list (string * json)) : result A :=
  match assoc k o with Some j => f j | None => Ok d end.
(** [ConfigDict(extra="forbid")] *)
Definition load_object {A} (fields : list string) (f : list (string * json) → result A) (j : json) : result A :=
  match j with
  | JObj o => if forallb (λ k, bool_decide (k ∈ fields)) o.*1 then f o else Raise validation_error
  | _ => Raise validation_error
  end.

(** The length in code points of UTF-8 text. *)
Definition py_len (s : string) : nat :=
  length (filter (λ c, negb (char_in 128 191 c) = true) (String.list_ascii_of_string s)).
Definition str_length (lo hi : nat) (s : string) : bool := (lo <=? py_len s) && (py_len s <=? hi).

Definition load_mode : json → result CallerPolicyMode := λ j,
  s ← load_str (λ _, true) j;
  if decide (s = "IVR_DISABLED") then Ok IVR_DISABLED
  else if decide (s = "ALLOWLIST_ONLY") then Ok ALLOWLIST_ONLY
  else if decide (s = "ACCEPT_ALL") then Ok ACCEPT_ALL
  else if decide (s = "ACCEPT_ALL_EXCEPT_BLOCKLIST") then Ok ACCEPT_ALL_EXCEPT_BLOCKLIST
  else Raise validation_error.

(** [^\+[1-9][0-9]{7,14}$] *)
Definition e164_pattern (s : string) : bool :=
  match s with
  | String p (String c rest) =>
      char_in 43 43 p && char_in 49 57 c && (7 <=? String.length rest) && (String.length rest <=? 14)
        && forallb (char_in 48 57) (String.list_ascii_of_string rest)
  | _ => false
  end.
Definition load_entry : json → result CallerEntry := load_object ["label"; "e164"] (λ o,
  label ← required "label" (load_str (str_length 1 120)) o;
  e164 ← required "e164" (load_str e164_pattern) o;
  Ok {| label := label; e164 := e164 |}).
Definition load_policy : json → result CallerPolicy :=
  load_object ["mode"; "route_unknown_callers"; "allowlist"; "blocklist"] (λ o,
  mode ← optional "mode" load_mode ALLOWLIST_ONLY o;
  route ← optional "route_unknown_callers" load_bool false o;
  allow ← optional "allowlist" (load_list 1000 load_entry) [] o;
  block ← optional "blocklist" (load_list 1000 load_entry) [] o;
  validated (unique_numbers {| mode := mode; route_unknown_callers := route; allowlist := allow; blocklist := block |})).

Definition load_window : json → result WeeklyWindow := load_object ["weekday"; "start"; "end"] (λ o,
  weekday ← required "weekday" (load_int 0 6) o;
  start ← required "start" (load_str time_pattern) o;
  wend ← required "end" (load_str time_pattern) o;
  validated (ordered {| weekday := weekday; start := start; wend := wend |})).

(** A calendar date in ISO form. *)
Definition leap_year (y : Z) : bool :=
  bool_decide (y mod 4 = 0)%Z && (negb (bool_decide (y mod 100 = 0)%Z) || bool_decide (y mod 400 = 0)%Z).
Definition days_in_month (y m : Z) : Z :=
  if bool_decide (m = 2)%Z then (if leap_year y then 29 else 28)
  else if bool_decide (m ∈ [4; 6; 9; 11])%Z then 30 else 31.
Definition valid_date (d : Z * Z * Z) : bool :=
  let '(y, m, d) := d in in_range 1 9999 y && in_range 1 12 m && in_range 1 (days_in_month y m) d.
Definition read_digits (l : list ascii) : Z := foldl (λ n c, 10 * n + Z.of_nat (digit_val c))%Z 0%Z l.
Definition parse_date (s : string) : option (Z * Z * Z) :=
  match String.list_ascii_of_string s with
  | [a; b; c; d; h1; e; f; h2; g; h] =>
      let date := (read_digits [a; b; c; d], read_digits [e; f], read_digits [g; h]) in
      if forallb (char_in 48 57) [a; b; c; d; e; f; g; h] && forallb (char_in 45 45) [h1; h2] && valid_date date
      then Some date else None
  | _ => None
  end.
Definition load_date (j : json) : result (Z * Z * Z) :=
  s ← load_str (λ _, true) j; of_option validation_error (parse_date s).
Definition load_state (j : json) : result exception_state :=
  s ← load_str (λ _, true) j;
  if decide (s = "open") then Ok state_open
  else if decide (s = "closed") then Ok state_closed
  else if decide (s = "holiday") then Ok state_holiday
  else Raise validation_error.
Definition load_exception : json → result ScheduleException := load_object ["date"; "state"] (λ o,
  date ← required "date" load_date o;
  state ← required "state" load_state o;
  Ok {| edate := date; state := state |}).
Definition load_schedule : json → result Schedule :=
  load_object ["id"; "name"; "timezone"; "weekly"; "exceptions"] (λ o,
  id ← required "id" (load_str NODE_ID_PATTERN) o;
  name ← required "name" (load_str (str_length 1 120)) o;
  timezone ← optional "timezone" (load_str (str_length 1 80)) "Asia/Tehran" o;
  weekly ← optional "weekly" (load_list 64 load_window) [] o;
  exceptions ← optional "exceptions" (load_list 366 load_exception) [] o;
  validated (no_overlaps_or_duplicate_exceptions
    {| sid := id; sname := name; timezone := timezone; weekly := weekly; exceptions := exceptions |})).

Definition load_recording : json → result RecordingBehavior :=
  load_object ["maximum_duration_seconds"; "finish_key"] (λ o,
  seconds ← optional "maximum_duration_seconds" (load_int 10 180) 60%Z o;
  finish ← optional "finish_key" (load_option (load_str (λ _, true))) (Some "#") o;
  finish ← validated (supported_finish_key finish);
  Ok {| maximum_duration_seconds := seconds; finish_key := finish |}).

(** ** Flow blocks: the class is chosen by the discriminator [type] *)

Definition load_digit (j : json) : result dtmf :=
  s ← load_str (λ _, true) j;
  of_option validation_error (list_find (λ k, dtmf_str k = s) DTMF_ORDER ≫= λ p, Some p.2).

Definition id_field : list (string * json) → result string := required "block_id" (load_str BLOCK_ID_PATTERN).

Fixpoint load_block (fuel : nat) (j : json) : result block :=
  match fuel with
  | 0 => Raise OutOfFuel
  | S fuel =>
      let next k := optional k (load_option (load_block fuel)) None in
      let prompt := optional "prompt_id" (load_option (load_str PROMPT_ID_PATTERN)) None in
      type ← (match j with JObj o => required "type" (load_str (λ _, true)) o | _ => Raise validation_error end);
      if decide (type = "play_prompt") then
        load_object ["block_id"; "type"; "prompt_id"; "next"] (λ o,
          i ← id_field o; p ← prompt o; n ← next "next" o; Ok (PlayPrompt i p n)) j
      else if decide (type = "collect_digit") then
        load_object ["block_id"; "type"; "prompt_id"; "allow_prompt_barge_in"; "timeout_ms"; "maximum_attempts";
                     "maximum_menu_returns"; "branches"; "on_timeout"; "on_invalid"; "on_return_limit"] (λ o,
          i ← id_field o; p ← prompt o;
          barge ← optional "allow_prompt_barge_in" load_bool false o;
          tm ← optional "timeout_ms" (load_int 1000 15000) 5000%Z o;
          ma ← optional "maximum_attempts" (load_int 1 3) 3%Z o;
          mr ← optional "maximum_menu_returns" (load_int 1 3) 2%Z o;
          brs ← optional "branches" (load_list 12 (load_object ["branch_id"; "digit"; "root"] (λ o,
                  i ← required "branch_id" (load_str BLOCK_ID_PATTERN) o;
                  k ← required "digit" load_digit o;
                  r ← next "root" o; Ok (DigitBranch i k r)))) [] o;
          t ← next "on_timeout" o; v ← next "on_invalid" o; l ← next "on_return_limit" o;
          _ ← require (negb (barge && bool_decide (p = None)));
          Ok (CollectDigit i p barge tm ma mr brs t v l)) j
      else if decide (type = "schedule_branch") then
        load_object ["block_id"; "type"; "schedule_id"; "on_open"; "on_closed"; "on_holiday"] (λ o,
          i ← id_field o;
          sc ← optional "schedule_id" (load_option (load_str NODE_ID_PATTERN)) None o;
          op ← next "on_open" o; c ← next "on_closed" o; h ← next "on_holiday" o;
          Ok (ScheduleBranch i sc op c h)) j
      else if decide (type = "return_to_menu") then
        load_object ["block_id"; "type"] (λ o, i ← id_field o; Ok (ReturnToMenu i)) j
      else if decide (type = "end_call") then
        load_object ["block_id"; "type"] (λ o, i ← id_field o; Ok (EndCall i)) j
      else if decide (type = "record_message") then
        load_object ["block_id"; "type"; "next"; "on_unavailable"] (λ o,
          i ← id_field o; n ← next "next" o; u ← next "on_unavailable" o; Ok (RecordMessage i n u)) j
      else if decide (type = "external_call") then
        load_object ["block_id"; "type"; "phone_number"; "answer_timeout_seconds"; "next"; "on_not_connected";
                     "on_system_failure"] (λ o,
          i ← id_field o;
          phone ← required "phone_number" (λ j, s ← load_str (λ _, true) j; validated (validate_phone_number s)) o;
          seconds ← optional "answer_timeout_seconds" (load_int 5 120) 30%Z o;
          n ← next "next" o; nc ← next "on_not_connected" o; sf ← next "on_system_failure" o;
          Ok (ExternalCall i phone seconds n nc sf)) j
      else Raise validation_error
  end.

(** The nesting depth of a document bounds the recursion over it. *)
Fixpoint json_depth (j : json) : nat :=
  match j with
  | JList l => S (max_list (map json_depth l))
  | JObj members => S (max_list (map (λ '(_, v), json_depth v) members))
  | _ => 1
  end.

Definition load_flow (j : json) : result (option block) :=
  load_object ["root"] (optional "root" (load_option (load_block (json_depth j))) None) j.

Definition load_version (n : Z) : json → result Z := load_int n n.

Definition load_edit_version (j : json) : result Z :=
  match j with
  | JInt z => if bool_decide (0 ≤ z)%Z then Ok z else Raise validation_error
  | _ => Raise validation_error
  end.

(** The model validators of the flow documents. *)
Definition release_check (ver : version) (root : option block) : result unit :=
  match ver with
  | V2 => release_two_has_no_recording root
  | V3 => release_three_has_no_external_calls root
  | V4 => Ok tt
  end.

(** [DraftConfigurationV2], [V3] and [V4.model_validate] *)
Definition load_document (ver : version) : json → result FlowDocument :=
  load_object (["schema_version"; "edit_version"; "caller_policy"; "schedules"; "flow"]
               ++ match ver with V2 => [] | _ => ["recording_behavior"] end) (λ o,
  _ ← optional "schema_version" (load_version (version_number ver)) (version_number ver) o;
  version ← optional "edit_version" load_edit_version 0%Z o;
  policy ← optional "caller_policy" load_policy default_caller_policy o;
  scheds ← optional "schedules" (load_list 32 load_schedule) [] o;
  recording ← match ver with
              | V2 => Ok default_recording_behavior
              | _ => optional "recording_behavior" load_recording default_recording_behavior o
              end;
  root ← optional "flow" load_flow None o;
  _ ← validated (release_check ver root);
  Ok {| edit_version := version; caller_policy := policy; schedules := scheds;
        recording_behavior := recording; flow := root |}).

(** [DraftConfigurationV2()], [V3()] and [V4()] *)
Definition blank_document : FlowDocument :=
  {| edit_version := 0; caller_policy := default_caller_policy; schedules := [];
     recording_behavior := default_recording_behavior; flow := None |}.

(** ** Version 1 configurations *)

Definition load_branches (j : json) : result (list (string * string)) :=
  match j with
  | JObj o =>
      if length o <=? 12 then
        value ← mapM (λ p, s ← load_str (λ _, true) p.2; Ok (p.1, s)) o;
        validated (validate_branches value)
      else Raise validation_error
  | _ => Raise validation_error
  end.

Definition load_node (j : json) : result FlowNode :=
  let node k := required k (load_str NODE_ID_PATTERN) in
  type ← (match j with JObj o => required "type" (load_str (λ _, true)) o | _ => Raise validation_error end);
  if decide (type = "play_prompt") then
    load_object ["id"; "type"; "prompt_id"; "next"] (λ o,
      i ← node "id" o; p ← required "prompt_id" (load_str PROMPT_ID_PATTERN) o; n ← node "next" o;
      Ok (PlayPromptNode i p n)) j
  else if decide (type = "collect_digit") then
    load_object ["id"; "type"; "prompt_id"; "timeout_ms"; "maximum_attempts"; "branches"; "on_timeout"; "on_invalid"] (λ o,
      i ← node "id" o; p ← optional "prompt_id" (load_option (load_str PROMPT_ID_PATTERN)) None o;
      tm ← optional "timeout_ms" (load_int 1000 15000) 5000%Z o;
      ma ← optional "maximum_attempts" (load_int 1 3) 3%Z o;
      brs ← optional "branches" load_branches [] o;
      t ← node "on_timeout" o; v ← node "on_invalid" o;
      Ok (CollectDigitNode i p tm ma brs t v)) j
  else if decide (type = "schedule_branch") then
    load_object ["id"; "type"; "schedule_id"; "on_open"; "on_closed"; "on_holiday"] (λ o,
      i ← node "id" o; sc ← node "schedule_id" o; op ← node "on_open" o; c ← node "on_closed" o;
      h ← node "on_holiday" o; Ok (ScheduleBranchNode i sc op c h)) j
  else if decide (type = "repeat_menu") then
    load_object ["id"; "type"; "target"; "maximum_repeats"; "on_exhausted"] (λ o,
      i ← node "id" o; t ← node "target" o;
      m ← optional "maximum_repeats" (load_int 1 3) 2%Z o; e ← node "on_exhausted" o;
      Ok (RepeatMenuNode i t m e)) j
  else if decide (type = "end_call") then
    load_object ["id"; "type"] (λ o, i ← node "id" o; Ok (EndCallNode i)) j
  else Raise validation_error.

Definition default_legacy_flow : string * list FlowNode := ("end", [EndCallNode "end"]).
Definition load_legacy_flow : json → result (string * list FlowNode) :=
  load_object ["root_node"; "nodes"] (λ o,
  root ← required "root_node" (load_str NODE_ID_PATTERN) o;
  nodes ← required "nodes" (load_list 64 load_node) o;
  _ ← require (1 <=? length nodes);
  Ok (root, nodes)).

(** [DraftConfiguration.model_validate] *)
Definition load_legacy_document : json → result DraftConfiguration :=
  load_object ["schema_version"; "caller_policy"; "schedules"; "flow"] (λ o,
  _ ← optional "schema_version" (load_version 1) 1%Z o;
  policy ← optional "caller_policy" load_policy default_caller_policy o;
  scheds ← optional "schedules" (load_list 32 load_schedule) [] o;
  flow ← optional "flow" load_legacy_flow default_legacy_flow o;
  Ok {| legacy_policy := policy; legacy_schedules := scheds; root_node := flow.1; nodes := flow.2 |}).

(** [DraftConfiguration()] *)
Definition blank_legacy_document : DraftConfiguration :=
  {| legacy_policy := default_caller_policy; legacy_schedules := [];
     root_node := default_legacy_flow.1; nodes := default_legacy_flow.2 |}.

(** ** Well-formed documents: what the models guarantee of a value *)

Definition entry_fields (e : CallerEntry) : bool := str_length 1 120 (label e) && e164_pattern (e164 e).
Definition policy_fields (p : CallerPolicy) : bool :=
  (length (allowlist p) <=? 1000) && forallb entry_fields (allowlist p)
  && (length (blocklist p) <=? 1000) && forallb entry_fields (blocklist p) && is_ok (unique_numbers p).
Definition window_fields (w : WeeklyWindow) : bool :=
  in_range 0 6 (weekday w) && time_pattern (start w) && time_pattern (wend w) && is_ok (ordered w).
Definition schedule_fields (s : Schedule) : bool :=
  NODE_ID_PATTERN (sid s) && str_length 1 120 (sname s) && str_length 1 80 (timezone s)
  && (length (weekly s) <=? 64) && forallb window_fields (weekly s)
  && (length (exceptions s) <=? 366) && forallb (λ e, valid_date (edate e)) (exceptions s)
  && is_ok (no_overlaps_or_duplicate_exceptions s).
Definition document_fields (ver : version) (c : FlowDocument) : bool :=
  bool_decide (0 ≤ edit_version c)%Z && policy_fields (caller_policy c)
  && (length (schedules c) <=? 32) && forallb schedule_fields (schedules c)
  && match ver with
     | V2 => bool_decide (recording_behavior c = default_recording_behavior)
     | _ => recording_fields (recording_behavior c)
     end
  && match flow c with Some root => flow_fields root | None => true end
  && is_ok (release_check ver (flow c)).
