(* ===== verification/DocumentsRound.v ===== *)
(** * Configuration documents: the round trip

    Every well-formed document is read back from what was dumped, and every document
    that loads is well formed. *)
From Stdlib Require Import Ascii.
From stdpp Require Import base gmap sets strings numbers pretty list.
From S2P Require Import Prelude FlowTree Schemas Validation Compiler LegacyGraph Json Documents DocumentsFacts.

(** ** Reading one dumped field *)

(** [reads_back] evaluates a reader on an object with literal keys. *)
Ltac literal_keys :=
  lazymatch goal with |- load_object ?fields ?f (JObj ?o) = _ =>
    change (load_object fields f (JObj o)) with
      (if forallb (λ k, bool_decide (k ∈ fields)) o.*1 then f o else Raise validation_error)
  end; cbn [fmap list_fmap fst app map];
  match goal with |- (if ?c then _ else _) = _ =>
    let E := fresh in assert (E : c = true) by (vm_compute; reflexivity); rewrite E; clear E end.
Ltac pick_fields :=
  unfold required, optional; cbn [assoc];
  repeat first [rewrite decide_True by done | rewrite decide_False by done]; cbn [assoc].

Lemma load_str_ok p s : p s = true → load_str p (JStr s) = Ok s.
Proof. by cbn; intros ->. Qed.
Lemma load_int_ok lo hi z : in_range lo hi z = true → load_int lo hi (JInt z) = Ok z.
Proof. by cbn; intros ->. Qed.
Lemma load_list_ok {A} n (f : json → result A) (d : A → json) (p : A → bool) l :
  (∀ x, p x = true → f (d x) = Ok x) → (length l <=? n) = true → forallb p l = true →
  load_list n f (JList (map d l)) = Ok l.
Proof.
  intros Hf Hn Hp. cbn [load_list]. rewrite length_map, Hn.
  change (map d l) with (d <$> l). rewrite mapM_result_map. apply mapM_result_ok.
  clear Hn. induction l as [|x l IH]; simpl in *; [constructor|].
  apply andb_true_iff in Hp as [Hx Hp]. constructor; [by apply Hf|by apply IH].
Qed.
Lemma load_option_str_ok p o : optional_field p o = true →
  load_option (load_str p) (dump_option JStr o) = Ok o.
Proof. destruct o as [s|]; cbn; [|done]. by intros ->. Qed.

Lemma is_ok_validated {A} (m : result A) a : m = Ok a → validated m = Ok a.
Proof. by intros ->. Qed.

Ltac split_fields H :=
  repeat match type of H with (_ && _)%bool = true =>
    let H' := fresh H in apply andb_true_iff in H as [H H'] end.

Lemma load_entry_dump e : entry_fields e = true → load_entry (dump_entry e) = Ok e.
Proof.
  intros H. unfold entry_fields in H. split_fields H.
  unfold load_entry, dump_entry. literal_keys. pick_fields.
  rewrite !load_str_ok by done. by destruct e.
Qed.

Lemma unique_numbers_ok p : is_ok (unique_numbers p) = true → unique_numbers p = Ok p.
Proof. unfold unique_numbers. by repeat case_match. Qed.

Lemma load_policy_dump p : policy_fields p = true → load_policy (dump_policy p) = Ok p.
Proof.
  intros H. unfold policy_fields in H. split_fields H.
  unfold load_policy, dump_policy. literal_keys. pick_fields.
  rewrite !(load_list_ok _ load_entry dump_entry entry_fields) by auto using load_entry_dump.
  assert (load_mode (dump_mode (mode p)) = Ok (mode p)) as -> by (by destruct (mode p)).
  cbn [mbind result_bind load_bool]. apply is_ok_validated.
  pose proof (unique_numbers_ok p ltac:(done)) as E. destruct p. exact E.
Qed.

Lemma ordered_ok w : is_ok (ordered w) = true → ordered w = Ok w.
Proof. unfold ordered. by repeat case_match. Qed.

Lemma load_window_dump w : window_fields w = true → load_window (dump_window w) = Ok w.
Proof.
  intros H. unfold window_fields in H. split_fields H.
  unfold load_window, dump_window. literal_keys. pick_fields.
  rewrite load_int_ok, !load_str_ok by done. cbn [mbind result_bind]. apply is_ok_validated.
  pose proof (ordered_ok w ltac:(done)) as E. destruct w. exact E.
Qed.

(** ** Dates *)

Lemma digit_char_ok n : char_in 48 57 (digit_char n) = true ∧ Z.of_nat (digit_val (digit_char n)) = (n mod 10)%Z.
Proof.
  unfold digit_char, digit_val, char_in.
  assert (H : (0 ≤ n mod 10 < 10)%Z) by (apply Z.mod_pos_bound; lia).
  rewrite nat_ascii_embedding by lia. split; [|lia].
  apply andb_true_iff. rewrite !Nat.leb_le. lia.
Qed.

Lemma days_in_month_bound y m : (28 ≤ days_in_month y m ≤ 31)%Z.
Proof. unfold days_in_month. repeat case_match; lia. Qed.

Lemma parse_date_isoformat d : valid_date d = true → parse_date (isoformat d) = Some d.
Proof.
  destruct d as [[y m] d]. intros H. unfold parse_date, isoformat, two_digits.
  match goal with |- context [String.list_ascii_of_string ?s] =>
    change (String.list_ascii_of_string s) with
      [digit_char (y / 100 / 10); digit_char (y / 100); digit_char (y / 10); digit_char y; "-"%char;
       digit_char (m / 10); digit_char m; "-"%char; digit_char (d / 10); digit_char d] end.
  unfold read_digits. cbn [foldl forallb].
  rewrite !(proj1 (digit_char_ok _)), !(proj2 (digit_char_ok _)).
  assert (H' := H). unfold valid_date, in_range in H'. split_fields H'.
  repeat match goal with E : bool_decide _ = true |- _ => apply bool_decide_eq_true in E end.
  pose proof (days_in_month_bound y m).
  match goal with |- (if _ && _ && valid_date ?x then _ else _) = _ => replace x with (y, m, d) end.
  - by rewrite H.
  - f_equal; [f_equal|]; Z.to_euclidean_division_equations; lia.
Qed.

Lemma load_exception_dump e : valid_date (edate e) = true → load_exception (dump_exception e) = Ok e.
Proof.
  intros H. unfold load_exception, dump_exception. literal_keys. pick_fields.
  unfold load_date. rewrite load_str_ok by done. cbn [mbind result_bind].
  rewrite parse_date_isoformat by done. destruct e as [d []]; reflexivity.
Qed.

Lemma no_overlaps_ok s :
  is_ok (no_overlaps_or_duplicate_exceptions s) = true → no_overlaps_or_duplicate_exceptions s = Ok s.
Proof. unfold no_overlaps_or_duplicate_exceptions. by repeat case_match. Qed.

Lemma load_schedule_dump s : schedule_fields s = true → load_schedule (dump_schedule s) = Ok s.
Proof.
  intros H. unfold schedule_fields in H. split_fields H.
  unfold load_schedule, dump_schedule. literal_keys. pick_fields.
  rewrite !load_str_ok by done.
  rewrite (load_list_ok _ load_window dump_window window_fields) by auto using load_window_dump.
  rewrite (load_list_ok _ load_exception dump_exception (λ e, valid_date (edate e))) by auto using load_exception_dump.
  cbn [mbind result_bind]. apply is_ok_validated.
  pose proof (no_overlaps_ok s ltac:(done)) as E. destruct s. exact E.
Qed.

Lemma supported_finish_key_ok k : is_ok (supported_finish_key k) = true → supported_finish_key k = Ok k.
Proof. unfold supported_finish_key. by repeat case_match. Qed.

Lemma load_recording_dump r : recording_fields r = true → load_recording (dump_recording r) = Ok r.
Proof.
  intros H. unfold recording_fields in H. split_fields H.
  unfold load_recording, dump_recording. literal_keys. pick_fields.
  rewrite load_int_ok, load_option_str_ok by (done || by destruct (finish_key r)).
  cbn [mbind result_bind]. rewrite (is_ok_validated _ _ (supported_finish_key_ok _ ltac:(done))).
  by destruct r.
Qed.

(** ** Blocks *)

Definition next_json (o : option block) : json := match o with Some c => dump_block c | None => JNull end.
Definition branch_json (br : branch) : json :=
  match br with DigitBranch j k r =>
    JObj [("branch_id", JStr j); ("digit", JStr (dtmf_str k)); ("root", next_json r)] end.

Lemma dump_block_object b : ∃ o, dump_block b = JObj o ∧
  assoc "type" o = Some (JStr (block_type b)).
Proof. destruct b as [i p n|i p [] tm ma mr brs t v l|i sc o c h|i|i|i n u|i ph s n nc sf]; by eexists. Qed.

Lemma load_digit_dump k : load_digit (JStr (dtmf_str k)) = Ok k.
Proof. by destruct k. Qed.

Ltac in_children :=
  let own := (apply list_elem_of_omap; eexists; split; [|reflexivity]; rewrite ?elem_of_cons; tauto) in
  intros; subst; apply elem_of_pushed_children; cbn [pushed_children option_list];
  first [by apply list_elem_of_singleton | own | apply elem_of_app; right; own
        |apply elem_of_app; left; apply list_elem_of_omap; by eauto].

(** The class chosen by the discriminator. *)
Ltac discriminate_type :=
  match goal with |- required "type" ?f ?o ≫= ?k = ?r =>
    let t := eval cbv in (required "type" f (map (λ p, (p.1, if decide (p.1 = "type") then p.2 else JNull)) o)) in
    change (required "type" f o ≫= k) with (t ≫= k)
  end; cbn [mbind result_bind];
  repeat first [rewrite decide_False by done | rewrite decide_True by done].

Section LoadBlock.
Context (fuel : nat) (b : block).
Hypothesis Hload : ∀ c, c ∈ children b → load_block fuel (dump_block c) = Ok c.

Lemma load_next o : (∀ c, o = Some c → c ∈ children b) → load_option (load_block fuel) (next_json o) = Ok o.
Proof using Hload.
  intros Ho. destruct o as [c|]; [|done]. cbn [next_json].
  specialize (Hload c (Ho c eq_refl)). destruct (dump_block_object c) as (m & E & _).
  rewrite E in *. cbn [load_option]. by rewrite Hload.
Qed.

Lemma load_branches_dump brs :
  (length brs <=? 12) = true → forallb (λ br, BLOCK_ID_PATTERN (branch_id br)) brs = true →
  (∀ br c, br ∈ brs → branch_root br = Some c → c ∈ children b) →
  load_list 12 (load_object ["branch_id"; "digit"; "root"] (λ o,
  i ← required "branch_id" (load_str BLOCK_ID_PATTERN) o;
  k ← required "digit" load_digit o;
  r ← optional "root" (load_option (load_block fuel)) None o; Ok (DigitBranch i k r)))
  (JList (map branch_json brs)) = Ok brs.
Proof using Hload.
  intros Hn Hp Hc. cbn [load_list]. rewrite length_map, Hn.
  change (map branch_json brs) with (branch_json <$> brs). rewrite mapM_result_map. apply mapM_result_ok.
  clear Hn. induction brs as [|[i k r] brs IH]; [constructor|].
  cbn [forallb branch_id] in Hp. apply andb_true_iff in Hp as [Hi Hp]. constructor.
  - unfold compose, branch_json. literal_keys. pick_fields.
  rewrite load_str_ok by done. rewrite load_digit_dump, load_next; [done|].
  intros c ->. by eapply (Hc (DigitBranch i k (Some c))); [left|].
  - apply IH; [done|]. intros br c Hbr. apply Hc. by right.
Qed.

Lemma map_branch_json brs :
  map (λ br, match br with DigitBranch j k r =>
  JObj [("branch_id", JStr j); ("digit", JStr (dtmf_str k));
        ("root", match r with Some c => dump_block c | None => JNull end)] end) brs = map branch_json brs.
Proof. done. Qed.

Lemma validate_phone_ok s : is_ok (validate_phone_number s) = true → validate_phone_number s = Ok s.
Proof. unfold validate_phone_number. by repeat case_match. Qed.

(** One block, its children being read back. *)
Lemma load_block_step : block_fields b = true → load_block (S fuel) (dump_block b) = Ok b.
Proof using Hload.
  intros Hf. unfold block_fields in Hf. apply andb_true_iff in Hf as [Hi Hf].
  assert (Hnext : ∀ o, (∀ c, o = Some c → c ∈ children b) → load_option (load_block fuel) (next_json o) = Ok o)
  by apply load_next.
  pose proof load_branches_dump as Hbrs. clear Hload.
  destruct b as [i p n|i p barge tm ma mr brs t v l|i sc o c h|i|i|i n u|i ph s n nc sf];
  cbn [block_id] in Hi; cbn [load_block dump_block];
  repeat match goal with |- context [match ?o with Some c => dump_block c | None => JNull end] =>
    change (match o with Some c => dump_block c | None => JNull end) with (next_json o) end;
  [|rewrite map_branch_json; destruct barge; cbn [app]|..]; split_fields Hf;
  discriminate_type; literal_keys; pick_fields; unfold id_field, required; pick_fields;
  rewrite ?load_str_ok by done; cbn [mbind result_bind];
  try (rewrite load_option_str_ok by done);
  try (rewrite (is_ok_validated _ _ (validate_phone_ok _ ltac:(eassumption))));
  rewrite ?load_int_ok by done; cbn [mbind result_bind load_bool];
  try (unfold required, optional in Hbrs; rewrite Hbrs by (done || in_children); clear Hbrs);
  cbn [mbind result_bind]; rewrite ?Hnext by in_children; cbn [mbind result_bind]; try done.
  by destruct p.
Qed.
End LoadBlock.

(** ** The nesting depth covers the blocks *)

Lemma json_depth_member k v o : (k, v) ∈ o → json_depth v < json_depth (JObj o).
Proof.
  intros H. cbn [json_depth]. apply Nat.lt_succ_r, max_list_elem_of_le.
  change (map ?f ?l) with (f <$> l). apply list_elem_of_fmap. by exists (k, v).
Qed.
Lemma json_depth_item v l : v ∈ l → json_depth v < json_depth (JList l).
Proof.
  intros H. cbn [json_depth]. apply Nat.lt_succ_r, max_list_elem_of_le.
  change (map ?f ?l) with (f <$> l). apply list_elem_of_fmap. by exists v.
Qed.

Lemma child_member b c : c ∈ children b →
  (∃ k o, dump_block b = JObj o ∧ (k, dump_block c) ∈ o) ∨
  (∃ k o brs i d, dump_block b = JObj o ∧ (k, JList (map branch_json brs)) ∈ o ∧ DigitBranch i d (Some c) ∈ brs).
Proof.
  rewrite <- elem_of_pushed_children.
  assert (Hown : ∀ l : list (option block), c ∈ omap id l → Some c ∈ l).
  { intros l (x & Hx & E)%list_elem_of_omap. by destruct E. }
  destruct b as [i p n|i p barge tm ma mr brs t v l|i sc o e h|i|i|i n u|i ph s n nc sf];
    cbn [pushed_children]; intros H; try (by apply elem_of_nil in H).
  - destruct n; [|by apply elem_of_nil in H]. apply list_elem_of_singleton in H as ->.
    left. eexists "next", _. split; [reflexivity|]. set_solver.
  - apply elem_of_app in H as [([j d r] & Hbr & E)%list_elem_of_omap|H%Hown].
    + cbn in E. subst r. right. eexists "branches", _, brs, j, d. split; [reflexivity|].
      split; [|done]. rewrite !elem_of_app. right; right. set_solver.
    + left. rewrite !elem_of_cons in H.
      destruct H as [<-|[<-|[<-|H%elem_of_nil]]]; [| | |done].
      * eexists "on_timeout", _. split; [reflexivity|]. rewrite !elem_of_app. right; right. set_solver.
      * eexists "on_invalid", _. split; [reflexivity|]. rewrite !elem_of_app. right; right. set_solver.
      * eexists "on_return_limit", _. split; [reflexivity|]. rewrite !elem_of_app. right; right. set_solver.
  - apply Hown in H. left. rewrite !elem_of_cons in H. destruct H as [<-|[<-|[<-|H%elem_of_nil]]]; [| | |done].
    + eexists "on_open", _. split; [reflexivity|]. set_solver.
    + eexists "on_closed", _. split; [reflexivity|]. set_solver.
    + eexists "on_holiday", _. split; [reflexivity|]. set_solver.
  - apply Hown in H. left. rewrite !elem_of_cons in H. destruct H as [<-|[<-|H%elem_of_nil]]; [| |done].
    + eexists "next", _. split; [reflexivity|]. set_solver.
    + eexists "on_unavailable", _. split; [reflexivity|]. set_solver.
  - apply Hown in H. left. rewrite !elem_of_cons in H. destruct H as [<-|[<-|[<-|H%elem_of_nil]]]; [| | |done].
    + eexists "next", _. split; [reflexivity|]. set_solver.
    + eexists "on_not_connected", _. split; [reflexivity|]. set_solver.
    + eexists "on_system_failure", _. split; [reflexivity|]. set_solver.
Qed.

Lemma child_depth b c : c ∈ children b → json_depth (dump_block c) < json_depth (dump_block b).
Proof.
  intros [(k & o & -> & Hin)|(k & o & brs & i & d & -> & Hin & Hbr)]%child_member.
  - by eapply json_depth_member.
  - pose proof (json_depth_member _ _ _ Hin).
    assert (Hb : branch_json (DigitBranch i d (Some c)) ∈ map branch_json brs).
    { change (map ?f ?l) with (f <$> l). apply list_elem_of_fmap. by eexists. }
    pose proof (json_depth_item _ _ Hb). enough (json_depth (dump_block c) < json_depth (branch_json (DigitBranch i d (Some c)))) by lia.
    apply (json_depth_member "root"). set_solver.
Qed.

Lemma flow_fields_unfold b : flow_fields b = true ↔
  block_fields b = true ∧ ∀ c, c ∈ children b → flow_fields c = true.
Proof.
  unfold flow_fields. setoid_rewrite forallb_forall. setoid_rewrite <- list_elem_of_In. split.
  - intros H. split; [apply H, preorder_self|]. intros c Hc d Hd. apply H, elem_of_preorder. eauto.
  - intros [Hb Hc] c [->|(d & Hd & Hin)]%elem_of_preorder; [done|]. by apply (Hc d).
Qed.

Lemma load_block_dump b : flow_fields b = true → ∀ fuel,
  json_depth (dump_block b) ≤ fuel → load_block fuel (dump_block b) = Ok b.
Proof.
  induction b as [b IH] using block_ind_children. intros [Hb Hc]%flow_fields_unfold fuel Hf.
  destruct fuel as [|fuel].
  - destruct (dump_block_object b) as (o & E & _). rewrite E in Hf. cbn in Hf. lia.
  - apply load_block_step; [|done]. intros c Hin. apply IH; [done|by apply Hc|].
    pose proof (child_depth b c Hin). lia.
Qed.

Lemma load_flow_dump root :
  match root with Some r => flow_fields r | None => true end = true → load_flow (dump_flow root) = Ok root.
Proof.
  intros Hf. unfold load_flow. assert (Hd : json_depth (dump_option dump_block root) ≤ json_depth (dump_flow root)).
  { apply Nat.lt_le_incl, (json_depth_member "root"). set_solver. }
  revert Hd. generalize (json_depth (dump_flow root)) as fuel. intros fuel Hd.
  unfold dump_flow. literal_keys. pick_fields. destruct root as [r|]; [|done]. cbn [dump_option] in *.
  destruct (dump_block_object r) as (o & E & _). pose proof (load_block_dump r Hf fuel Hd) as Hr.
  rewrite E in *. cbn [load_option]. by rewrite Hr.
Qed.
