(* ===== verification/DocumentsStore.v ===== *)
(** * Stored configuration documents

    The document that [services.py] encrypts is read back as the configuration it
    came from, whatever order the stored members have. *)
From Stdlib Require Import Ascii.
From stdpp Require Import base gmap sets strings numbers pretty list.
From S2P Require Import Prelude FlowTree Schemas Validation Compiler LegacyGraph Json Documents DocumentsFacts DocumentsRound Examples.

(** ** Dumped documents have distinct keys *)

Lemma keys_ok_obj o : bool_decide (NoDup o.*1) = true → Forall (λ p, dict_keys_ok p.2) o → dict_keys_ok (JObj o).
Proof. intros H Hf. apply keys_ok_members. split; [|done]. by apply bool_decide_eq_true in H. Qed.
Lemma keys_ok_map {A} (f : A → json) l : (∀ x, x ∈ l → dict_keys_ok (f x)) → dict_keys_ok (JList (map f l)).
Proof.
  intros H. apply keys_ok_list, Forall_forall. intros j Hj. change (map f l) with (f <$> l) in Hj.
  apply list_elem_of_fmap in Hj as (x & -> & Hx). by apply H.
Qed.
Ltac literal_members := apply keys_ok_obj; [vm_compute; reflexivity|]; repeat (apply Forall_cons_2); try apply Forall_nil_2; try exact I; cbn [snd].

Lemma dump_policy_keys p : dict_keys_ok (dump_policy p).
Proof. literal_members; apply keys_ok_map; intros e _; literal_members. Qed.
Lemma dump_schedule_keys s : dict_keys_ok (dump_schedule s).
Proof. literal_members; apply keys_ok_map; intros e _; literal_members. Qed.
Lemma dump_option_keys o : dict_keys_ok (dump_option JStr o).
Proof. by destruct o. Qed.
Lemma dump_recording_keys r : dict_keys_ok (dump_recording r).
Proof. literal_members. apply dump_option_keys. Qed.

Lemma next_json_keys b o : (∀ c, c ∈ children b → dict_keys_ok (dump_block c)) →
  (∀ c, o = Some c → c ∈ children b) → dict_keys_ok (next_json o).
Proof. destruct o as [c|]; [|done]. intros Hc Ho. by apply Hc, Ho. Qed.

Lemma dump_block_keys b : dict_keys_ok (dump_block b).
Proof.
  induction b as [b IH] using block_ind_children.
  assert (Hn : ∀ o, (∀ c, o = Some c → c ∈ children b) → dict_keys_ok (next_json o))
    by (intros o; by apply next_json_keys).
  clear IH. destruct b as [i p n|i p [] tm ma mr brs t v l|i sc o c h|i|i|i n u|i ph s n nc sf];
    cbn [dump_block]; rewrite ?map_branch_json; literal_members; try apply dump_option_keys;
    try (apply Hn; in_children).
  all: apply keys_ok_map; intros [j d r] Hbr; literal_members; apply Hn; in_children.
Qed.

Lemma dump_flow_keys root : dict_keys_ok (dump_flow root).
Proof. literal_members. destruct root; [apply dump_block_keys|done]. Qed.

Lemma source_document_keys ver c : dict_keys_ok (source_document ver c).
Proof.
  unfold source_document, source_members. destruct ver; cbn [app]; literal_members;
    auto using dump_policy_keys, dump_recording_keys, dump_flow_keys;
    apply keys_ok_map; intros s _; apply dump_schedule_keys.
Qed.

(** ** The round trip of a stored document *)

Lemma stable_equiv {A} (f : json → result A) `{Hf : !Stable f} j k : dict_keys_ok j → j ≡ k → f j = f k.
Proof.
  intros Hj Heq. assert (Hk : dict_keys_ok k) by (by apply (json_equiv_keys _ _ Heq)).
  rewrite <- (Hf j Hj), <- (Hf k Hk). f_equal.
  pose proof (json_loads_sorted j Hj) as E. unfold canonical_json_bytes in E.
  rewrite (json_equiv_dumps j k) in E by done. fold (canonical_json_bytes k) in E.
  rewrite json_loads_sorted in E by done. by injection E.
Qed.

(** [document["edit_version"] = n] on a parsed document. *)
Definition with_edit_version (n : Z) (j : json) : json :=
  match j with JObj o => JObj (dict_set "edit_version" (JInt n) o) | _ => j end.

Definition set_edit_version (n : Z) (c : FlowDocument) : FlowDocument :=
  {| edit_version := n; caller_policy := caller_policy c; schedules := schedules c;
     recording_behavior := recording_behavior c; flow := flow c |}.

Lemma with_edit_version_equiv n o : dict_keys_ok (JObj o) → "edit_version" ∉ o.*1 →
  with_edit_version n (sorted_document (JObj o)) ≡ JObj (o ++ [("edit_version", JInt n)]).
Proof.
  intros Hok Hfresh. cbn [sorted_document with_edit_version].
  rewrite dict_set_fresh by (by rewrite sort_keys_perm, map_keys).
  etrans; [apply je_members; by rewrite sort_keys_perm|].
  apply json_equiv_obj. apply Forall2_app; [|by repeat constructor].
  clear. induction o as [|[k v] o IH]; constructor; [|done]. split; [done|]. apply sorted_document_equiv.
Qed.

Lemma validated_ok {A} (m : result A) a : validated m = Ok a ↔ m = Ok a.
Proof. destruct m; naive_solver. Qed.
Lemma is_ok_tt (m : result unit) : is_ok m = true → m = Ok tt.
Proof. by destruct m as [[]|]. Qed.

Lemma load_document_dump ver c n : document_fields ver c = true → (0 ≤ n)%Z →
  load_document ver (JObj (source_members ver c ++ [("edit_version", JInt n)])) = Ok (set_edit_version n c).
Proof.
  intros H Hn. unfold document_fields in H. split_fields H.
  pose proof (is_ok_validated _ _ (is_ok_tt _ ltac:(eassumption))) as Hrel.
  assert (Hpol := load_policy_dump _ ltac:(eassumption)).
  assert (Hsch := load_list_ok 32 load_schedule dump_schedule schedule_fields (schedules c)
    load_schedule_dump ltac:(eassumption) ltac:(eassumption)).
  assert (Hflow := load_flow_dump _ ltac:(eassumption)).
  assert (Hver : load_edit_version (JInt n) = Ok n) by (by cbn; rewrite bool_decide_true).
  unfold load_document, source_members; destruct ver; cbn [app];
    try (assert (Hrec := load_recording_dump _ ltac:(eassumption)));
    literal_keys; pick_fields; rewrite ?Hver, Hpol, Hsch, Hflow; cbn [load_version load_int version_number];
    cbn [mbind result_bind]; rewrite ?Hrec, Hrel; cbn [mbind result_bind]; try done.
  match goal with E : bool_decide (recording_behavior c = _) = true |- _ => apply bool_decide_eq_true in E end.
  unfold set_edit_version. by match goal with E : recording_behavior c = _ |- _ => rewrite E end.
Qed.

Lemma versioned_keys ver c n : dict_keys_ok (JObj (source_members ver c ++ [("edit_version", JInt n)])).
Proof.
  pose proof (source_document_keys ver c) as Hok.
  apply keys_ok_members in Hok as [Hnd Hall]. apply keys_ok_members. split.
  - rewrite fmap_app. apply NoDup_app. split; [done|]. split; [|apply NoDup_singleton].
    intros k Hin ->%list_elem_of_singleton. revert Hin. by destruct ver; vm_compute; set_solver.
  - apply Forall_app. split; [done|]. by repeat constructor.
Qed.

Lemma load_source ver c n : document_fields ver c = true → (0 ≤ n)%Z →
  load_document ver (with_edit_version n (sorted_document (source_document ver c))) = Ok (set_edit_version n c).
Proof.
  intros Hc Hn. pose proof (source_document_keys ver c) as Hok.
  pose proof (versioned_keys ver c n) as Hk.
  rewrite <- (load_document_dump ver c n) by done.
  symmetry. apply (stable_equiv _ _ _ Hk). symmetry. apply with_edit_version_equiv; [done|].
  destruct ver; intros Hin; revert Hin; vm_compute; set_solver.
Qed.

(** C12 the text a draft is stored as is read back as the configuration it came from,
    under the version of its row: no field of a well-formed configuration is lost, and
    none that is left out when it has its default comes back changed. *)
Theorem stored_document_round_trip ver c n : document_fields ver c = true → (0 ≤ n)%Z →
  ∃ j, json_loads (canonical_json_bytes (source_document ver c)) = Ok j ∧
    load_document ver (with_edit_version n j) = Ok (set_edit_version n c).
Proof.
  intros Hc Hn. exists (sorted_document (source_document ver c)).
  split; [apply json_loads_sorted, source_document_keys|by apply load_source].
Qed.

(** Two configurations have the same stored text, and so the same source digest,
    exactly when they agree in everything but the edit version. *)
Theorem stored_document_exact ver c d : document_fields ver c = true → document_fields ver d = true →
  canonical_json_bytes (source_document ver c) = canonical_json_bytes (source_document ver d)
    ↔ set_edit_version 0 c = set_edit_version 0 d.
Proof.
  intros Hc Hd. split; intros E.
  - pose proof (load_source ver c 0 Hc ltac:(done)) as Lc. pose proof (load_source ver d 0 Hd ltac:(done)) as Ld.
    pose proof (json_loads_sorted _ (source_document_keys ver c)) as Jc.
    rewrite E, (json_loads_sorted _ (source_document_keys ver d)) in Jc.
    assert (Jeq : sorted_document (source_document ver d) = sorted_document (source_document ver c)) by congruence.
    rewrite Jeq, Lc in Ld. congruence.
  - f_equal. destruct c, d. unfold set_edit_version in E. simpl in *. by injection E as -> -> -> ->.
Qed.

Lemma example_v4_fields : document_fields V4 (example_document example_v4) = true.
Proof. vm_compute. reflexivity. Defined.
Lemma example_v3_fields : document_fields V4 (example_document example_v3) = true.
Proof. vm_compute. reflexivity. Defined.

Theorem stored_document_round_trip_witness :
  ∃ j, json_loads (canonical_json_bytes (source_document V4 (example_document example_v4))) = Ok j ∧
    load_document V4 (with_edit_version 7 j) = Ok (set_edit_version 7 (example_document example_v4)).
Proof. exact (stored_document_round_trip V4 _ 7 example_v4_fields ltac:(done)). Defined.

Theorem stored_document_exact_witness :
  canonical_json_bytes (source_document V4 (example_document example_v4))
    = canonical_json_bytes (source_document V4 (example_document example_v3))
  ↔ set_edit_version 0 (example_document example_v4) = set_edit_version 0 (example_document example_v3).
Proof. exact (stored_document_exact V4 _ _ example_v4_fields example_v3_fields). Defined.
