(* ===== verification/DocumentsSound.v ===== *)
(** * Loading establishes the model invariants

    [Gives f P]: whatever [f] returns satisfies [P].  Every document that
    [model_validate] returns is well formed. *)
From Stdlib Require Import Ascii.
From stdpp Require Import base gmap sets strings numbers pretty list.
From S2P Require Import Prelude FlowTree Schemas Validation Compiler LegacyGraph Json Documents DocumentsRound DocumentsStore Examples.

Definition Gives {I A} (f : I → result A) (P : A → Prop) : Prop := ∀ i x, f i = Ok x → P x.

Lemma gives_str p : Gives (load_str p) (λ s, p s = true).
Proof. intros j x; destruct j; simpl; repeat case_match; naive_solver. Qed.
Lemma gives_int lo hi : Gives (load_int lo hi) (λ z, in_range lo hi z = true).
Proof. intros j x; destruct j; simpl; repeat case_match; naive_solver. Qed.
Lemma gives_option {A} (f : json → result A) P : Gives f P →
  Gives (load_option f) (λ o, ∀ x, o = Some x → P x).
Proof.
  intros Hf j o H x ->. unfold load_option in H.
  assert (Hj : Some <$> f j = Ok (Some x)) by (by destruct j). clear H.
  apply result_fmap_ok in Hj as (y & Hy & [= ->]). by eapply Hf.
Qed.
Lemma gives_option_str p : Gives (load_option (load_str p)) (λ o, optional_field p o = true).
Proof.
  intros j o H. pose proof (gives_option _ _ (gives_str p) j o H) as Ho.
  destruct o; [|done]. by apply Ho.
Qed.
Lemma gives_list {A} n (f : json → result A) (p : A → bool) : Gives f (λ x, p x = true) →
  Gives (load_list n f) (λ l, (length l <=? n) = true ∧ forallb p l = true).
Proof.
  intros Hf [| | | |js|] l; simpl; try done. destruct (length js <=? n) eqn:E; [|done].
  intros H%mapM_result_ok. rewrite <- (Forall2_length _ _ _ H). split; [done|].
  clear E. induction H as [|j x js l Hx _ IH]; simpl; [done|]. rewrite IH. by rewrite (Hf _ _ Hx).
Qed.
Lemma gives_object {A} fields (f : _ → result A) P : Gives f P → Gives (load_object fields f) P.
Proof. intros Hf j x; destruct j; simpl; try done. case_match; [|done]. apply Hf. Qed.
Lemma gives_required {A} k (f : json → result A) P : Gives f P → Gives (required k f) P.
Proof. intros Hf o x. unfold required. destruct (assoc k o); [apply Hf|done]. Qed.
Lemma gives_optional {A} k (f : json → result A) d (P : A → Prop) : Gives f P → P d → Gives (optional k f d) P.
Proof. intros Hf Hd o x. unfold optional. destruct (assoc k o); [apply Hf|]. by intros [= <-]. Qed.
Lemma gives_any {A} (f : json → result A) : Gives f (λ _, True).
Proof. done. Qed.

Create HintDb gives.
#[export] Hint Extern 0 (Gives (load_str _) _) => apply gives_str : gives.
#[export] Hint Extern 0 (Gives (load_int _ _) _) => apply gives_int : gives.
#[export] Hint Extern 0 (Gives (load_option (load_str _)) _) => apply gives_option_str : gives.
#[export] Hint Extern 0 (Gives (load_list _ _) _) => apply gives_list : gives.

(** [learn] replaces every successful read by what is known of its result. *)
Ltac learn := inv_result; repeat match goal with
  | H : required ?k ?f _ = Ok _ |- _ =>
      let G := fresh in eassert (G : Gives f _) by (eauto 3 with gives nocore);
      apply (gives_required k f _ G) in H; cbn beta in H; clear G
  | H : optional ?k ?f ?d _ = Ok _ |- _ =>
      let G := fresh in eassert (G : Gives f _) by (eauto 3 with gives nocore);
      apply (gives_optional k f d _ G) in H; [|done]; cbn beta in H; clear G
  | H : validated _ = Ok _ |- _ => apply (proj1 (validated_ok _ _)) in H
  end.
Ltac fields := repeat match goal with
  | H : _ ∧ _ |- _ => destruct H
  | H : _ = true |- _ => rewrite H; clear H end; try done.

Lemma gives_entry : Gives load_entry (λ e, entry_fields e = true).
Proof. apply gives_object. intros o e H. learn. unfold entry_fields. simpl. fields. Qed.
#[export] Hint Extern 0 (Gives load_entry _) => apply gives_entry : gives.

Lemma unique_numbers_self p q : unique_numbers p = Ok q → q = p ∧ is_ok (unique_numbers p) = true.
Proof. intros H. rewrite H. split; [|done]. revert H. unfold unique_numbers. repeat case_match; congruence. Qed.

Lemma gives_policy : Gives load_policy (λ p, policy_fields p = true).
Proof.
  apply gives_object. intros o p H. unfold load_mode in H. inv_result.
  repeat match goal with E : optional "mode" _ _ _ = _ |- _ => clear E
    | E : optional "route_unknown_callers" _ _ _ = _ |- _ => clear E end. learn.
  match goal with E : unique_numbers _ = _ |- _ => apply unique_numbers_self in E as [-> E] end.
  unfold policy_fields. simpl. fields.
Qed.

Lemma ordered_self w v : ordered w = Ok v → v = w ∧ is_ok (ordered w) = true.
Proof. intros H. rewrite H. split; [|done]. revert H. unfold ordered. repeat case_match; congruence. Qed.

Lemma gives_window : Gives load_window (λ w, window_fields w = true).
Proof.
  apply gives_object. intros o w H. learn.
  match goal with E : ordered _ = _ |- _ => apply ordered_self in E as [-> E] end.
  unfold window_fields. simpl. fields.
Qed.

Lemma gives_date : Gives load_date (λ d, valid_date d = true).
Proof.
  intros j d H. unfold load_date in H. inv_result. unfold parse_date in H.
  repeat case_match; simplify_eq; try done.
  match goal with E : (_ && _)%bool = true |- _ => by apply andb_true_iff in E as [_ ?] end.
Qed.
#[export] Hint Extern 0 (Gives load_window _) => apply gives_window : gives.
#[export] Hint Extern 0 (Gives load_date _) => apply gives_date : gives.

Lemma gives_exception : Gives load_exception (λ e, valid_date (edate e) = true).
Proof.
  apply gives_object. intros o e H. inv_result.
  match goal with E : required "state" _ _ = _ |- _ => clear E end. learn. done.
Qed.
#[export] Hint Extern 0 (Gives load_exception _) => apply gives_exception : gives.

Lemma no_overlaps_self s t : no_overlaps_or_duplicate_exceptions s = Ok t →
  t = s ∧ is_ok (no_overlaps_or_duplicate_exceptions s) = true.
Proof.
  intros H. rewrite H. split; [|done]. revert H.
  unfold no_overlaps_or_duplicate_exceptions. repeat case_match; congruence.
Qed.

Lemma gives_schedule : Gives load_schedule (λ s, schedule_fields s = true).
Proof.
  apply gives_object. intros o s H.
  pose proof (gives_list 366 load_exception (λ e, valid_date (edate e)) gives_exception). learn.
  match goal with E : no_overlaps_or_duplicate_exceptions _ = _ |- _ => apply no_overlaps_self in E as [-> E] end.
  unfold schedule_fields. simpl. fields.
Qed.

Lemma finish_key_self v w : supported_finish_key v = Ok w → w = v ∧ is_ok (supported_finish_key v) = true.
Proof. intros H. rewrite H. split; [|done]. revert H. unfold supported_finish_key. repeat case_match; congruence. Qed.

Lemma gives_recording : Gives load_recording (λ r, recording_fields r = true).
Proof.
  apply gives_object. intros o r H. learn.
  match goal with E : supported_finish_key _ = _ |- _ => apply finish_key_self in E as [-> E] end.
  unfold recording_fields. simpl. fields.
Qed.
#[export] Hint Extern 0 (Gives load_schedule _) => apply gives_schedule : gives.
#[export] Hint Extern 0 (Gives load_recording _) => apply gives_recording : gives.
#[export] Hint Extern 0 (Gives load_policy _) => apply gives_policy : gives.

(** ** Blocks *)

Definition branch_ok (br : branch) : bool :=
  BLOCK_ID_PATTERN (branch_id br) && match branch_root br with Some c => flow_fields c | None => true end.

Section GivesBlock.
Context (fuel : nat) (IH : Gives (load_block fuel) (λ b, flow_fields b = true)).

Lemma gives_next : Gives (load_option (load_block fuel)) (λ o, ∀ x, o = Some x → flow_fields x = true).
Proof using IH. by apply gives_option. Qed.

Lemma gives_branch : Gives (load_object ["branch_id"; "digit"; "root"] (λ o,
  i ← required "branch_id" (load_str BLOCK_ID_PATTERN) o;
  k ← required "digit" load_digit o;
  r ← optional "root" (load_option (load_block fuel)) None o; Ok (DigitBranch i k r)))
  (λ br, branch_ok br = true).
Proof using IH.
  apply gives_object. intros o br H. pose proof gives_next as Hn. inv_result.
  match goal with E : required "digit" _ _ = _ |- _ => clear E end.
  match goal with E : optional "root" _ _ _ = _ |- _ => apply (gives_optional _ _ _ _ Hn) in E; [|done] end.
  learn. unfold branch_ok. simpl. apply andb_true_iff. split; [done|].
  match goal with E : ∀ x, ?r = Some x → _ |- _ => destruct r; [by apply E|done] end.
Qed.

Lemma children_fields b : block_fields b = true →
  (∀ c, c ∈ pushed_children b → flow_fields c = true) → flow_fields b = true.
Proof.
  intros Hb Hc. apply flow_fields_unfold. split; [done|].
  intros c Hin. apply Hc. by apply elem_of_pushed_children.
Qed.

Lemma option_children (l : list (option block)) c : c ∈ omap id l → Some c ∈ l.
Proof. intros (x & Hx & E)%list_elem_of_omap. by destruct E. Qed.
End GivesBlock.

Lemma require_ok b u : require b = Ok u → b = true.
Proof. by destruct b. Qed.

Lemma gives_phone : Gives (λ j, s ← load_str (λ _, true) j; validated (validate_phone_number s))
  (λ s, is_ok (validate_phone_number s) = true).
Proof.
  intros j s H. inv_result. apply (proj1 (validated_ok _ _)) in H.
  assert (s = x) as -> by (clear -H; unfold validate_phone_number in H; revert H; destruct (phone_number_pattern x), (is_obvious_emergency_number x); simpl; congruence).
  by rewrite H.
Qed.

Lemma branches_ok brs : forallb branch_ok brs = true →
  forallb (λ br, BLOCK_ID_PATTERN (branch_id br)) brs = true ∧
  ∀ c, c ∈ omap branch_root brs → flow_fields c = true.
Proof.
  intros H. rewrite !forallb_forall in *. split.
  - intros br Hbr. specialize (H br Hbr). by apply andb_true_iff in H as [? _].
  - intros c (br & Hbr%list_elem_of_In & E)%list_elem_of_omap. specialize (H br Hbr).
    apply andb_true_iff in H as [_ H]. by rewrite E in H.
Qed.

Ltac children_known :=
  intros c Hc; try (by apply elem_of_nil in Hc);
  first [apply option_children in Hc | match type of Hc with _ ∈ option_list ?o =>
           destruct o; [apply list_elem_of_singleton in Hc as ->|by apply elem_of_nil in Hc] end; by eauto];
  repeat (apply elem_of_cons in Hc as [Hc|Hc]; [by eauto|]); by apply elem_of_nil in Hc.

Lemma gives_block fuel : Gives (load_block fuel) (λ b, flow_fields b = true).
Proof.
  induction fuel as [|fuel IH]; intros j b; [done|]. cbn [load_block].
  pose proof (gives_next fuel IH) as Hn. pose proof (gives_branch fuel IH) as Hbr.
  pose proof (gives_list 12 _ _ Hbr) as Hbrs. clear Hbr IH. intros H.
  apply result_bind_ok in H as (type & _ & H). unfold id_field in H. revert b H.
  assert (Hgo : ∀ fields m, Gives m (λ b, flow_fields b = true) →
    ∀ b, load_object fields m j = Ok b → flow_fields b = true) by (intros fields m Hm; by apply gives_object).
  repeat (case_decide; [clear -Hn Hbrs Hgo; apply Hgo; clear Hgo; intros o b H; inv_result|]); try done.
  all: repeat match goal with
    | E : optional _ (load_option (load_block _)) _ _ = _ |- _ =>
        apply (gives_optional _ _ _ _ Hn) in E; [|done]
    | E : optional "branches" _ _ _ = _ |- _ => apply (gives_optional _ _ _ _ Hbrs) in E; [|done]
    | E : optional "allow_prompt_barge_in" _ _ _ = _ |- _ => clear E
    | E : required "phone_number" _ _ = _ |- _ => apply (gives_required _ _ _ gives_phone) in E
    | E : require _ = _ |- _ => apply require_ok in E
    end.
  all: clear Hn Hbrs.
  all: learn; repeat match goal with
    | E : _ ∧ forallb branch_ok _ = true |- _ => destruct E as [? E]; apply branches_ok in E as [? ?] end.
  all: apply children_fields; [unfold block_fields; simpl; fields|cbn [pushed_children]].
  all: try children_known.
  intros c [Hin|Hin]%elem_of_app; [by auto|]. revert c Hin. children_known.
Qed.

Lemma gives_flow : Gives load_flow (λ o, match o with Some r => flow_fields r | None => true end = true).
Proof.
  intros j o H. unfold load_flow in H. revert H. generalize (json_depth j) as fuel. intros fuel. revert j o.
  apply (gives_object _ _ (λ o, match o with Some r => flow_fields r | None => true end = true)). intros m x H.
  apply (gives_optional _ _ _ _ (gives_next fuel (gives_block fuel))) in H; [|done].
  destruct x as [r|]; [by apply H|done].
Qed.

Lemma gives_edit_version : Gives load_edit_version (λ z, bool_decide (0 ≤ z)%Z = true).
Proof. intros j z. destruct j; simpl; repeat case_match; naive_solver. Qed.

#[export] Hint Extern 0 (Gives load_flow _) => apply gives_flow : gives.
#[export] Hint Extern 0 (Gives load_edit_version _) => apply gives_edit_version : gives.

(** C13 every document that [model_validate] accepts is well formed: the constraints of
    all its fields and blocks and the cross-field validators of its release hold. *)
Theorem loaded_documents_well_formed ver j c : load_document ver j = Ok c → document_fields ver c = true.
Proof.
  revert j c. apply (gives_object _ _ (λ c, document_fields ver c = true)). intros o c H. inv_result.
  repeat match goal with
    | E : optional "schema_version" _ _ _ = _ |- _ => clear E
    | E : validated _ = Ok _ |- _ => apply (proj1 (validated_ok _ _)) in E end.
  match goal with E : release_check _ ?root = Ok ?u |- _ => destruct u; assert (is_ok (release_check ver root) = true) by (by rewrite E) end.
  destruct ver; simplify_eq; learn; unfold document_fields; simpl in *; fields.
Qed.

Theorem loaded_documents_well_formed_witness :
  load_document V4 (source_document V4 (example_document example_v4))
    = Ok (set_edit_version 0 (example_document example_v4)) ∧
  document_fields V4 (set_edit_version 0 (example_document example_v4)) = true.
Proof.
  assert (H : load_document V4 (source_document V4 (example_document example_v4))
    = Ok (set_edit_version 0 (example_document example_v4))) by (vm_compute; reflexivity).
  split; [exact H|]. exact (loaded_documents_well_formed V4 _ _ H).
Defined.
