(* ===== verification/Store.v ===== *)
(** * The control plane's database

    The tables of [models.py] that drafts, revisions, prompts and devices live in, as
    one state, and the transactions over it.  A transaction that raises changes
    nothing: the session is closed without a commit. *)
From Stdlib Require Import Ascii.
From stdpp Require Import base gmap sets strings numbers pretty list.
From S2P Require Import Prelude FlowTree Schemas Json Crypto Documents.

(** A UTC [datetime] and its [isoformat()]; microseconds are left out when zero. *)
Record datetime := { date : Z * Z * Z; hour : Z; minute : Z; second : Z; microsecond : Z }.
#[global] Instance datetime_eq_dec : EqDecision datetime.
Proof. solve_decision. Defined.

Definition datetime_isoformat (t : datetime) : string :=
  isoformat (date t) +:+ "T" +:+ two_digits (hour t) +:+ ":" +:+ two_digits (minute t) +:+ ":"
  +:+ two_digits (second t)
  +:+ (if bool_decide (microsecond t = 0)%Z then ""
       else "." +:+ two_digits (microsecond t / 10000) +:+ two_digits (microsecond t / 100)
                +:+ two_digits (microsecond t))
  +:+ "+00:00".

(** [Draft] *)
Record draft_row := {
  document_encrypted : bytes; row_version : Z; updated_at : datetime; updated_by : string }.
(** [LegacyDraftArchive] *)
Record archive_row := {
  archive_schema_version : Z; archive_document : bytes; archived_at : datetime; archived_by : string }.
(** [Prompt] *)
Record prompt_row := {
  prompt_id : string; prompt_name : string; prompt_version : Z; content_hash : string;
  size_bytes : Z; duration_ms : Z; storage_name : string; prompt_created : datetime }.
(** [Revision] *)
Record revision_row := {
  revision_schema_version : Z; manifest_encrypted : bytes; manifest_sha256 : string;
  signature_b64 : bytes; source_revision_id : option Z; published_at : datetime; published_by : string }.
(** [Device]; its [status] is the JSON document of the last report, [None] for null. *)
Record device_row := {
  display_name : string; token_hash : string; app_version : string; helper_version : string;
  status_document : option (list (string * json)); desired_revision_id : option Z;
  active_revision_id : option Z; last_seen_at : option datetime; enrolled_at : datetime;
  revoked_at : option datetime }.
(** [AuditLog] *)
Record audit_row := { audit_actor : string; action : string; target : string; details : json }.

Record store := {
  drafts : gmap Z draft_row;
  archive : list archive_row;
  prompts : gmap string prompt_row;
  revisions : gmap Z revision_row;
  next_revision : Z;
  devices : gmap string device_row;
  audit_log : list audit_row;
}.

Definition empty_store : store :=
  {| drafts := ∅; archive := []; prompts := ∅; revisions := ∅; next_revision := 1; devices := ∅; audit_log := [] |}.

Definition with_draft (id : Z) (r : draft_row) (s : store) : store :=
  {| drafts := <[id := r]> (drafts s); archive := archive s; prompts := prompts s; revisions := revisions s;
     next_revision := next_revision s; devices := devices s; audit_log := audit_log s |}.
Definition with_archived (r : archive_row) (s : store) : store :=
  {| drafts := drafts s; archive := archive s ++ [r]; prompts := prompts s; revisions := revisions s;
     next_revision := next_revision s; devices := devices s; audit_log := audit_log s |}.
Definition with_revision (id : Z) (r : revision_row) (s : store) : store :=
  {| drafts := drafts s; archive := archive s; prompts := prompts s; revisions := <[id := r]> (revisions s);
     next_revision := Z.max (next_revision s) (id + 1); devices := devices s; audit_log := audit_log s |}.
Definition with_devices (f : device_row → device_row) (s : store) : store :=
  {| drafts := drafts s; archive := archive s; prompts := prompts s; revisions := revisions s;
     next_revision := next_revision s; devices := f <$> devices s; audit_log := audit_log s |}.

(** [services.audit] *)
Definition audit (actor action target : string) (details : json) (s : store) : store :=
  {| drafts := drafts s; archive := archive s; prompts := prompts s; revisions := revisions s;
     next_revision := next_revision s; devices := devices s;
     audit_log := audit_log s ++ [{| audit_actor := actor; action := action; target := target; details := details |}] |}.

(** ** Python operations on parsed documents *)

(** [document.get(k)] *)
Definition get_member (k : string) (j : json) : result (option json) :=
  match j with JObj o => Ok (assoc k o) | _ => Raise (AttributeError "get") end.
(** [document[k]] *)
Definition get_item (k : string) (j : json) : result json :=
  match j with JObj o => of_option (KeyError k) (assoc k o) | _ => Raise (TypeError "indices") end.

(** [value == n]; [True] is [1]. *)
Definition equals_int (v : option json) (n : Z) : bool :=
  match v with
  | Some (JInt z) => bool_decide (z = n)
  | Some (JBool b) => bool_decide ((if b then 1 else 0) = n)%Z
  | _ => false
  end.

(** [int(value)] of a number, a truth value or a decimal text. *)
Definition py_int (v : json) : result Z :=
  match v with
  | JInt z => Ok z
  | JBool b => Ok (if b then 1 else 0)%Z
  | JStr s => of_option (ValueError "invalid literal for int()") (Z.of_int <$> DecimalString.NilZero.int_of_string s)
  | _ => Raise (TypeError "int() argument")
  end.
