(* ===== verification/Drafts.v ===== *)
(** * Editable drafts ([services.py])

    The two authoring lanes: row 1 holds the V1, V2 or V3 draft, row 4 the V4 draft.
    A save names the version it was made from and is refused when the row has moved
    on.  [seen] is the database the transaction read, [s] the one its UPDATE or INSERT
    meets; they differ when another transaction commits in between. *)
From Stdlib Require Import Ascii.
From stdpp Require Import base gmap sets strings numbers pretty list.
From S2P Require Import Prelude FlowTree Schemas Validation Compiler LegacyGraph Json Crypto Documents DocumentsStore Store.

Definition V4_DRAFT_ID : Z := 4.

(** What an operation draws from [os.urandom] and [uuid4], the time and the actor. *)
Record request := { now : datetime; nonce : nat → bytes; uuid_hex : string; actor : string }.

Section Drafts.
Context `{Cryptography} (key : bytes).

(** [cipher.encrypt(canonical_json_bytes(document).decode("utf-8"))] *)
Definition seal (n : bytes) (document : json) : bytes := encrypt key n (canonical_json_bytes document).
(** [json.loads(cipher.decrypt(encrypted))] *)
Definition unseal (encrypted : bytes) : result json := decrypt key encrypted ≫= json_loads.

(** [document.get("schema_version")] *)
Definition schema_version (j : json) : result (option json) := get_member "schema_version" j.

(** [document["edit_version"] = n] *)
Definition set_item_edit_version (n : Z) (j : json) : result json :=
  match j with JObj _ => Ok (with_edit_version n j) | _ => Raise (TypeError "item assignment") end.

(** A model built from the fields of another: the release validator runs. *)
Definition construct (ver : version) (c : FlowDocument) : result FlowDocument :=
  _ ← validated (release_check ver (flow c)); Ok c.

Definition read_draft (s : store) (id : Z) : option draft_row := drafts s !! id.

(** ** Version 1 *)

Definition load_draft (s : store) : result DraftConfiguration :=
  match read_draft s 1 with
  | None => Ok blank_legacy_document
  | Some draft => unseal (document_encrypted draft) ≫= load_legacy_document
  end.

Definition store_draft (r : request) (c : DraftConfiguration) (s : store) : draft_row * store :=
  let encrypted := seal (nonce r 0) (legacy_document c) in
  let version := match read_draft s 1 with None => 1 | Some draft => row_version draft + 1 end%Z in
  let row := {| document_encrypted := encrypted; row_version := version; updated_at := now r; updated_by := actor r |} in
  (row, with_draft 1 row s).

(** ** Saving a lane *)

(** The conditional UPDATE, or the INSERT of a first row. *)
Definition write_row (r : request) (id current : Z) (encrypted : bytes) (inserting : bool) (s : store) : result store :=
  let row := {| document_encrypted := encrypted; row_version := current + 1; updated_at := now r;
              updated_by := actor r |} in
  match read_draft s id with
  | None =>
    if inserting then Ok (with_draft id row s)
    else Raise (DraftConflictError "Draft changed while this save was being applied.")
  | Some draft =>
    if inserting then Raise (OtherException "IntegrityError")
    else if decide (row_version draft = current) then Ok (with_draft id row s)
    else Raise (DraftConflictError "Draft changed while this save was being applied.")
  end.

(** What [store_draft_v2] does before its UPDATE: the first V1 document is archived. *)
Definition archive_version_one (r : request) (draft : draft_row) (seen s : store) : result store :=
  previous ← unseal (document_encrypted draft);
  version ← schema_version previous;
  if equals_int version 1 then
  match archive seen with
  | [] => Ok (with_archived {| archive_schema_version := 1; archive_document := document_encrypted draft;
                               archived_at := now r; archived_by := updated_by draft |} s)
  | _ => Ok s
  end
  else Ok s.

Definition store_lane (ver : version) (id : Z) (before : draft_row → store → store → result store)
  (r : request) (c : FlowDocument) (seen s : store) : result (FlowDocument * store) :=
  let draft := read_draft seen id in
  let current := match draft with None => 0%Z | Some draft => row_version draft end in
  if decide (edit_version c = current) then
  let encrypted := seal (nonce r 0) (source_document ver c) in
  s ← match draft with None => Ok s | Some draft => before draft seen s end;
  s ← write_row r id current encrypted (bool_decide (draft = None)) s;
  Ok (set_edit_version (current + 1) c, s)
  else Raise (DraftConflictError ("Draft changed from version " +:+ pretty (edit_version c) +:+ " to "
                                +:+ pretty current +:+ ".")).

Definition store_draft_v2 (r : request) := store_lane V2 1 (archive_version_one r) r.
Definition store_draft_v3 := store_lane V3 1 (λ _ _ s, Ok s).
Definition store_draft_v4 := store_lane V4 V4_DRAFT_ID (λ _ _ s, Ok s).

(** ** Version 2 *)

Definition load_draft_v2 (s : store) : result FlowDocument :=
  match read_draft s 1 with
  | None => Ok blank_document
  | Some draft =>
    document ← unseal (document_encrypted draft);
    version ← schema_version document;
    if equals_int version 2 then
      set_item_edit_version (row_version draft) document ≫= load_document V2
    else
      legacy ← load_legacy_document document;
      construct V2 {| edit_version := row_version draft; caller_policy := legacy_policy legacy;
                      schedules := legacy_schedules legacy;
                      recording_behavior := default_recording_behavior; flow := None |}
  end.

Definition initialize_v2_draft (r : request) (seen s : store) : result (FlowDocument * store) :=
  match read_draft seen 1 with
  | None => store_draft_v2 r blank_document seen s
  | Some draft =>
    document ← unseal (document_encrypted draft);
    version ← schema_version document;
    if equals_int version 2 then c ← load_draft_v2 seen; Ok (c, s)
    else
      legacy ← load_legacy_document document;
      c ← construct V2 {| edit_version := row_version draft; caller_policy := legacy_policy legacy;
                          schedules := legacy_schedules legacy;
                          recording_behavior := default_recording_behavior; flow := None |};
      store_draft_v2 r c seen s
  end.

(** ** Version 3 *)

Definition load_draft_v3 (s : store) : result FlowDocument :=
  match read_draft s 1 with
  | None => Ok blank_document
  | Some draft =>
    document ← unseal (document_encrypted draft);
    version ← schema_version document;
    if equals_int version 3 then set_item_edit_version (row_version draft) document ≫= load_document V3
    else Raise (RuntimeError "The editable draft has not been migrated to V3.")
  end.

(** [int(document.get("schema_version", 1))] *)
Definition stored_version (document : json) : result Z :=
  version ← schema_version document; py_int (default (JInt 1) version).

Definition initialize_v3_draft (r : request) (seen s : store) : result (FlowDocument * store) :=
  match read_draft seen 1 with
  | None => store_draft_v3 r blank_document seen s
  | Some draft =>
    document ← unseal (document_encrypted draft);
    version ← schema_version document;
    if equals_int version 3 then c ← load_draft_v3 seen; Ok (c, s)
    else
      number ← stored_version document;
      let s := with_archived {| archive_schema_version := number; archive_document := document_encrypted draft;
                                archived_at := now r; archived_by := updated_by draft |} s in
      promoted ← (if decide (number = 2%Z) then
          document ← set_item_edit_version (row_version draft) document;
          previous ← load_document V2 document;
          construct V3 {| edit_version := row_version draft; caller_policy := caller_policy previous;
                          schedules := schedules previous; recording_behavior := default_recording_behavior;
                          flow := flow previous |}
        else
          previous_v1 ← load_legacy_document document;
          construct V3 {| edit_version := row_version draft; caller_policy := legacy_policy previous_v1;
                          schedules := legacy_schedules previous_v1;
                          recording_behavior := default_recording_behavior; flow := None |});
      store_draft_v3 r promoted seen s
  end.

(** ** Version 4 *)

Definition load_draft_v4 (s : store) : result FlowDocument :=
  match read_draft s V4_DRAFT_ID with
  | None => Ok blank_document
  | Some draft =>
    document ← unseal (document_encrypted draft);
    version ← schema_version document;
    if equals_int version 4 then set_item_edit_version (row_version draft) document ≫= load_document V4
    else Raise (RuntimeError "The editable draft has not been cloned to V4.")
  end.

(** The V4 document made from the draft of lane 1, at version 0. *)
Definition promote_v4 (source : draft_row) (document : json) : result FlowDocument :=
  number ← stored_version document;
  if decide (number = 3%Z) then
  document ← set_item_edit_version (row_version source) document;
  previous ← load_document V3 document;
  construct V4 (set_edit_version 0 previous)
  else if decide (number = 2%Z) then
  document ← set_item_edit_version (row_version source) document;
  previous ← load_document V2 document;
  construct V4 {| edit_version := 0; caller_policy := caller_policy previous; schedules := schedules previous;
                  recording_behavior := default_recording_behavior; flow := flow previous |}
  else
  previous ← load_legacy_document document;
  construct V4 {| edit_version := 0; caller_policy := legacy_policy previous;
                  schedules := legacy_schedules previous;
                  recording_behavior := default_recording_behavior; flow := None |}.

Definition initialize_v4_draft (r : request) (seen s : store) : result (FlowDocument * store) :=
  match read_draft seen V4_DRAFT_ID with
  | Some _ => c ← load_draft_v4 seen; Ok (c, s)
  | None =>
    match read_draft seen 1 with
    | None => store_draft_v4 r blank_document seen s
    | Some source =>
        document ← unseal (document_encrypted source);
        promoted ← promote_v4 source document;
        store_draft_v4 r promoted seen s
    end
  end.
End Drafts.
