(* ===== verification/DraftsCorrect.v ===== *)
(** * Properties of the draft lanes

    Saves of one lane happen one after the other even when transactions interleave,
    what was saved last is what loads, and promoting a draft to the next version
    keeps its content and happens once. *)
From Stdlib Require Import Ascii.
From stdpp Require Import base gmap sets strings numbers pretty list.
From S2P Require Import Prelude FlowTree Schemas Validation Compiler LegacyGraph Json Crypto Documents DocumentsFacts DocumentsRound DocumentsStore DocumentsSound Store Drafts Examples.

Section Lanes.
Context `{CryptographyLaws} (key : bytes).

Lemma unseal_seal n j : length n = 12 → dict_keys_ok j → unseal key (seal key n j) = Ok (sorted_document j).
Proof using Type*.
  intros Hn Hj. unfold unseal, seal. rewrite decrypt_encrypt by done.
  rewrite decide_False.
  - cbn [mbind result_bind]. by apply json_loads_sorted.
  - pose proof (dumps_start j) as Hs. unfold canonical_json_bytes. by destruct (dumps j).
Qed.

Lemma source_schema_version ver c :
  schema_version (sorted_document (source_document ver c)) = Ok (Some (JInt (version_number ver))).
Proof.
  unfold schema_version, get_member, source_document. cbn [sorted_document].
  rewrite assoc_sorted by (by destruct (proj1 (keys_ok_members _) (source_document_keys ver c))). done.
Qed.

Lemma read_with_draft i j row s :
  read_draft (with_draft i row s) j = if decide (i = j) then Some row else read_draft s j.
Proof.
  unfold read_draft. cbn [with_draft drafts]. case_decide as E; [subst; by rewrite lookup_insert_eq|].
  by rewrite lookup_insert_ne.
Qed.

(** A row that holds a configuration of version [ver]. *)
Definition holds (ver : version) (row : draft_row) (c : FlowDocument) : Prop :=
  ∃ n, length n = 12 ∧ document_encrypted row = seal key n (source_document ver c).

Lemma holds_unseal ver row c : holds ver row c →
  unseal key (document_encrypted row) = Ok (sorted_document (source_document ver c)).
Proof using Type*. intros (n & Hn & ->). apply unseal_seal; [done|apply source_document_keys]. Qed.

Lemma set_item_source ver c n : document_fields ver c = true → (0 ≤ n)%Z →
  (set_item_edit_version n (sorted_document (source_document ver c)) ≫= load_document ver)
  = Ok (set_edit_version n c).
Proof. intros. by apply load_source. Qed.

Definition load_lane (ver : version) (s : store) : result FlowDocument :=
  match ver with V2 => load_draft_v2 key s | V3 => load_draft_v3 key s | V4 => load_draft_v4 key s end.
Definition lane (ver : version) : Z := match ver with V4 => V4_DRAFT_ID | _ => 1 end.

Lemma load_held ver s row c : read_draft s (lane ver) = Some row → holds ver row c →
  document_fields ver c = true → (0 ≤ row_version row)%Z →
  load_lane ver s = Ok (set_edit_version (row_version row) c).
Proof using Type*.
  intros Hr Hh Hc Hv. pose proof (holds_unseal _ _ _ Hh) as Hu.
  destruct ver; cbn [load_lane lane] in *; unfold load_draft_v2, load_draft_v3, load_draft_v4;
  rewrite Hr, Hu; cbn [mbind result_bind]; rewrite source_schema_version; cbn [mbind result_bind];
  cbn [equals_int version_number]; rewrite bool_decide_true by done; by apply set_item_source.
Qed.

(** ** One save *)

Definition lane_version (s : store) (id : Z) : Z :=
  match read_draft s id with None => 0 | Some row => row_version row end.

Definition preserves_drafts (before : draft_row → store → store → result store) : Prop :=
  ∀ d seen s s', before d seen s = Ok s' → drafts s' = drafts s.

Lemma archive_preserves r : preserves_drafts (archive_version_one key r).
Proof using Type.
  intros d seen s s' E. unfold archive_version_one in E. inv_result.
  case_match; inv_result; [|done]. destruct (archive seen); by simplify_eq.
Qed.

Lemma write_row_ok r id current encrypted inserting s s' : (inserting = true → current = 0%Z) →
  write_row r id current encrypted inserting s = Ok s' →
  current = lane_version s id ∧
  s' = with_draft id {| document_encrypted := encrypted; row_version := current + 1; updated_at := now r;
                      updated_by := actor r |} s.
Proof using Type.
  intros Hi E. unfold write_row, lane_version in *. destruct (read_draft s id).
  - destruct inserting; [done|]. case_decide; [|done]. by injection E as <-.
  - destruct inserting; [|done]. injection E as <-. split; [by apply Hi|done].
Qed.

(** A save that succeeds was made from the version the row has when it is written. *)
Lemma store_lane_ok ver id before r c seen s c' s' : preserves_drafts before →
  store_lane key ver id before r c seen s = Ok (c', s') →
  edit_version c = lane_version s id ∧ c' = set_edit_version (edit_version c + 1) c ∧
  drafts s' = <[id := {| document_encrypted := seal key (nonce r 0) (source_document ver c);
                       row_version := edit_version c + 1; updated_at := now r; updated_by := actor r |}]> (drafts s).
Proof using Type.
  intros Hb E. unfold store_lane in E. case_decide as Hv; [|done].
  apply result_bind_ok in E as (s1 & H1 & E). apply result_bind_ok in E as (s2 & H2 & E). injection E as <- <-.
  assert (Hd : drafts s1 = drafts s).
  { destruct (read_draft seen id); [by eapply Hb|by injection H1 as <-]. }
  apply write_row_ok in H2 as [Hcur ->].
  - rewrite <- Hv in *. split; [|split; [done|]].
  + rewrite Hcur. unfold lane_version, read_draft. by rewrite Hd.
  + cbn [with_draft drafts]. by rewrite Hd.
  - intros Hn%bool_decide_eq_true. by rewrite Hn.
Qed.

Lemma ok_inj {A} (a b : A) : Ok a = Ok b → a = b.
Proof. congruence. Qed.

(** A save touches no revision. *)
Lemma store_lane_revisions ver id before r c seen s c' s' :
  (∀ d seen s s', before d seen s = Ok s' → revisions s = revisions s') →
  store_lane key ver id before r c seen s = Ok (c', s') → revisions s' = revisions s.
Proof using Type.
  intros Hb E. unfold store_lane in E. case_decide as Hv; [|done].
  apply result_bind_ok in E as (s1 & H1 & E). apply result_bind_ok in E as (s2 & H2 & E). injection E as <- <-.
  transitivity (revisions s1).
  - unfold write_row in H2. destruct (read_draft s1 id); repeat case_match; by inv_result.
  - destruct (read_draft seen id); [symmetry; by eapply Hb|by injection H1 as <-].
Qed.

Definition store_version (ver : version) (r : request) (c : FlowDocument) (seen s : store)
  : result (FlowDocument * store) :=
  match ver with
  | V2 => store_draft_v2 key r c seen s
  | V3 => store_draft_v3 key r c seen s
  | V4 => store_draft_v4 key r c seen s
  end.

Lemma store_version_ok ver r c seen s c' s' : store_version ver r c seen s = Ok (c', s') →
  edit_version c = lane_version s (lane ver) ∧ c' = set_edit_version (edit_version c + 1) c ∧
  drafts s' = <[lane ver := {| document_encrypted := seal key (nonce r 0) (source_document ver c);
                             row_version := edit_version c + 1; updated_at := now r;
                             updated_by := actor r |}]> (drafts s).
Proof using Type.
  destruct ver; apply store_lane_ok; [apply archive_preserves| |]; intros d seen' s1 s2 E; by injection E as <-.
Qed.

(** ** Interleaved transactions

  A committed save reads some earlier database and writes the current one. *)
Inductive history : list store → list (version * FlowDocument) → Prop :=
  | history_start : history [empty_store] []
  | history_save past s log ver r c seen c' s' :
  history (s :: past) log → seen ∈ s :: past → length (nonce r 0) = 12 →
  store_version ver r c seen s = Ok (c', s') → history (s' :: s :: past) (log ++ [(ver, c)]).

Definition lane_log (id : Z) (log : list (version * FlowDocument)) : list (version * FlowDocument) :=
  filter (λ e, lane e.1 = id) log.

Lemma history_lane past s log id : history (s :: past) log →
  edit_version <$> (lane_log id log).*2 = Z.of_nat <$> seq 0 (length (lane_log id log)) ∧
  lane_version s id = Z.of_nat (length (lane_log id log)) ∧
  ∀ ver c, last (lane_log id log) = Some (ver, c) → ∃ row, read_draft s id = Some row ∧ holds ver row c.
Proof using Type.
  remember (s :: past) as ss eqn:Es. intros Hh. revert s past Es.
  induction Hh as [|past0 s0 log ver r c seen c1 s1 Hh IH Hin Hn Hst]; intros s past [= <- <-].
  - done.
  - destruct (IH _ _ eq_refl) as (Hlog & Hver & Hlast). clear IH.
  apply store_version_ok in Hst as (Hv & _ & Hd). unfold lane_log in *. rewrite filter_app.
  destruct (decide (lane ver = id)) as [<-|Hne].
  + rewrite filter_cons_True, filter_nil by done. rewrite length_app, Nat.add_1_r, seq_S. rewrite !fmap_app, Hlog.
    split; [|split].
    * csimpl. by rewrite Hv, Hver.
    * unfold lane_version, read_draft. rewrite Hd, lookup_insert_eq. simpl. lia.
    * intros ver' c0. rewrite last_snoc. intros [= <- <-]. eexists. split.
      -- unfold read_draft. by rewrite Hd, lookup_insert_eq.
      -- by exists (nonce r 0).
  + rewrite filter_cons_False, filter_nil, app_nil_r by done.
    unfold lane_version, read_draft in *. rewrite Hd, lookup_insert_ne by done. done.
Qed.

Lemma history_versions past s log id : history (s :: past) log → (0 ≤ lane_version s id)%Z.
Proof using Type. intros Hh. destruct (history_lane _ _ _ id Hh) as (_ & -> & _). lia. Qed.

(** ** Promotions *)

Lemma stored_version_source ver c :
  stored_version (sorted_document (source_document ver c)) = Ok (version_number ver).
Proof. unfold stored_version. by rewrite source_schema_version. Qed.

Lemma document_fields_version ver c n : document_fields ver c = true → (0 ≤ n)%Z →
  document_fields ver (set_edit_version n c) = true.
Proof.
  unfold document_fields, set_edit_version. simpl. intros Hf Hn. rewrite (bool_decide_true (0 ≤ n)%Z) by done.
  split_fields Hf. rewrite !andb_true_iff. split_and!; done.
Qed.

Lemma promoted_fields_v4 ver c : document_fields ver c = true → document_fields V4 (set_edit_version 0 c) = true.
Proof.
  unfold document_fields, set_edit_version. simpl. intros Hf. split_fields Hf.
  rewrite !andb_true_iff. split_and!; try done.
  destruct ver; [|done..].
  match goal with E : bool_decide (_ = default_recording_behavior) = true |- _ =>
  apply bool_decide_eq_true in E; rewrite E; by vm_compute end.
Qed.

Lemma release_two_three root : is_ok (release_two_has_no_recording root) = true →
  release_three_has_no_external_calls root = Ok tt.
Proof.
  intros Hr%is_ok_tt. destruct root as [b|]; [|done]. rewrite release_two_spec in Hr. apply release_three_spec.
  intros c Hc. by destruct (Hr c Hc) as (_ & ? & ?).
Qed.

Lemma promoted_fields_v3 c : document_fields V2 c = true → document_fields V3 c = true.
Proof.
  unfold document_fields. intros Hf. split_fields Hf.
  rewrite !andb_true_iff. split_and!; try done.
  - match goal with E : bool_decide (_ = default_recording_behavior) = true |- _ =>
    apply bool_decide_eq_true in E; rewrite E; by vm_compute end.
  - cbn [release_check] in *. by rewrite release_two_three.
Qed.

Lemma save_first_v4 r c s : read_draft s V4_DRAFT_ID = None → edit_version c = 0%Z →
  store_draft_v4 key r c s s = Ok (set_edit_version 1 c,
  with_draft V4_DRAFT_ID {| document_encrypted := seal key (nonce r 0) (source_document V4 c); row_version := 1;
                            updated_at := now r; updated_by := actor r |} s).
Proof using Type.
  intros Hn Hv. unfold store_draft_v4, store_lane, write_row. rewrite Hn. rewrite decide_True by done.
  cbn [mbind result_bind]. by rewrite Hn.
Qed.

Lemma save_next_v3 r c s row : read_draft s 1 = Some row → edit_version c = row_version row → ∀ s1,
  drafts s1 = drafts s →
  store_draft_v3 key r c s s1 = Ok (set_edit_version (row_version row + 1) c,
  with_draft 1 {| document_encrypted := seal key (nonce r 0) (source_document V3 c);
                  row_version := row_version row + 1; updated_at := now r; updated_by := actor r |} s1).
Proof using Type.
  intros Hr Hv s1 Hd. unfold store_draft_v3, store_lane, write_row, read_draft in *. rewrite Hr, Hv.
  rewrite decide_True by done. cbn [mbind result_bind]. rewrite ?Hd, ?Hr. by rewrite ?decide_True.
Qed.
End Lanes.

(** ** Theorems *)

Section Theorems.
Context `{CryptographyLaws} (key : bytes).

(** C9 whatever earlier database each transaction read, the saves that commit on a lane
  were made from the versions 0, 1, 2, ... in that order, one each, so no save
  overwrites one it has not seen; and the lane loads as the last of them. *)
Theorem accepted_saves_are_serial past s log ver : history key (s :: past) log →
  edit_version <$> (lane_log (lane ver) log).*2 = Z.of_nat <$> seq 0 (length (lane_log (lane ver) log)) ∧
  ∀ c, last (lane_log (lane ver) log) = Some (ver, c) → document_fields ver c = true →
  load_lane key ver s = Ok (set_edit_version (Z.of_nat (length (lane_log (lane ver) log))) c).
Proof using Type*.
  intros Hh. destruct (history_lane key past s log (lane ver) Hh) as (Hlog & Hver & Hlast).
  split; [done|]. intros c Hl Hc. destruct (Hlast _ _ Hl) as (row & Hr & Hheld).
  assert (row_version row = Z.of_nat (length (lane_log (lane ver) log))) as <-.
  { rewrite <- Hver. unfold lane_version. by rewrite Hr. }
  eapply load_held; [done|done|done|].
  pose proof (history_versions key past s log (lane ver) Hh) as Hz. unfold lane_version in Hz. by rewrite Hr in Hz.
Qed.

(** A save of an uninterrupted V3 or V4 transaction succeeds exactly when it was made
  from the current version; it then replaces the one row by the sealed document, and
  otherwise nothing is written. *)
Theorem save_exact ver r c s : ver ≠ V2 →
  store_version key ver r c s s =
  if decide (edit_version c = lane_version s (lane ver)) then
    Ok (set_edit_version (edit_version c + 1) c,
        with_draft (lane ver)
          {| document_encrypted := seal key (nonce r 0) (source_document ver c);
             row_version := edit_version c + 1; updated_at := now r; updated_by := actor r |} s)
  else Raise (DraftConflictError ("Draft changed from version " +:+ pretty (edit_version c) +:+ " to "
                                  +:+ pretty (lane_version s (lane ver)) +:+ ".")).
Proof using Type.
  intros Hver. unfold store_version, lane_version. destruct ver; [done|..]; cbn [lane];
  unfold store_draft_v3, store_draft_v4, store_lane, write_row; case_decide as Hv; [|done| |done];
  rewrite Hv; destruct (read_draft s _) as [row|] eqn:E; cbn [mbind result_bind];
  rewrite ?E; rewrite ?decide_True by done; done.
Qed.

(** The first V4 draft is the V2 or V3 draft of lane 1 at version 1, field by field;
  lane 1 and the archive stay as they are, and asking again changes nothing. *)
Theorem v4_clone_keeps_lane_one ver r r' s row c : ver ≠ V4 →
  read_draft s V4_DRAFT_ID = None → read_draft s 1 = Some row → holds key ver row c →
  document_fields ver c = true → (0 ≤ row_version row)%Z → length (nonce r 0) = 12 →
  ∃ s', initialize_v4_draft key r s s = Ok (set_edit_version 1 c, s') ∧
  read_draft s' 1 = Some row ∧ archive s' = archive s ∧
  load_draft_v4 key s' = Ok (set_edit_version 1 c) ∧
  initialize_v4_draft key r' s' s' = Ok (set_edit_version 1 c, s').
Proof using Type*.
  intros Hver H4 H1 Hh Hc Hrow Hn. pose proof (promoted_fields_v4 ver c Hc) as Hp.
  assert (Hpro : promote_v4 row (sorted_document (source_document ver c)) = Ok (set_edit_version 0 c)).
  { unfold promote_v4. rewrite stored_version_source. cbn [mbind result_bind].
  pose proof (load_source ver c (row_version row) Hc Hrow) as Hl.
  destruct ver; [| |done]; cbn [version_number] in *.
  - rewrite decide_False, decide_True by done. unfold set_item_edit_version in *.
    cbn [sorted_document source_document mbind result_bind] in *. rewrite Hl. cbn [mbind result_bind].
    unfold document_fields in Hc. split_fields Hc.
    match goal with E : bool_decide (_ = default_recording_behavior) = true |- _ =>
      apply bool_decide_eq_true in E; unfold set_edit_version; rewrite E end. done.
  - rewrite decide_True by done. unfold set_item_edit_version in *.
    cbn [sorted_document source_document mbind result_bind] in *. by rewrite Hl. }
  unfold initialize_v4_draft at 1. rewrite H4, H1, (holds_unseal key ver row c Hh). cbn [mbind result_bind].
  rewrite Hpro. cbn [mbind result_bind]. rewrite save_first_v4 by done.
  eexists. split; [done|].
  assert (Hload : ∀ s', read_draft s' V4_DRAFT_ID = Some {| document_encrypted := seal key (nonce r 0) (source_document V4 (set_edit_version 0 c));
    row_version := 1; updated_at := now r; updated_by := actor r |} → load_draft_v4 key s' = Ok (set_edit_version 1 c)).
  { intros s' Hs'. pose proof (load_held key V4 s' _ (set_edit_version 0 c) Hs') as Hl. cbn [load_lane row_version] in Hl.
  rewrite Hl; [done| |done|done]. by exists (nonce r 0). }
  assert (Hnew := read_with_draft V4_DRAFT_ID V4_DRAFT_ID). setoid_rewrite decide_True in Hnew; [|done].
  split; [by rewrite read_with_draft, decide_False|]. split; [done|]. split; [by apply Hload|].
  unfold initialize_v4_draft. rewrite Hnew. by rewrite Hload.
Qed.

(** Promoting a V2 draft to V3 archives its ciphertext, keeps its policy, schedules and
  flow under the next version, and happens once. *)
Theorem v3_promotion_archives_once r r' s row c :
  read_draft s 1 = Some row → holds key V2 row c → document_fields V2 c = true →
  (0 ≤ row_version row)%Z → length (nonce r 0) = 12 →
  let promoted := set_edit_version (row_version row + 1) c in
  ∃ s', initialize_v3_draft key r s s = Ok (promoted, s') ∧
  archive s' = archive s ++ [{| archive_schema_version := 2; archive_document := document_encrypted row;
                                archived_at := now r; archived_by := updated_by row |}] ∧
  load_draft_v3 key s' = Ok promoted ∧ initialize_v3_draft key r' s' s' = Ok (promoted, s').
Proof using Type*.
  intros H1 Hh Hc Hrow Hn promoted. pose proof (promoted_fields_v3 c Hc) as Hp.
  pose proof (load_source V2 c (row_version row) Hc Hrow) as Hl.
  unfold initialize_v3_draft at 1. rewrite H1, (holds_unseal key V2 row c Hh). cbn [mbind result_bind].
  rewrite source_schema_version. cbn [mbind result_bind equals_int version_number].
  rewrite bool_decide_false by done. rewrite stored_version_source. cbn [mbind result_bind version_number].
  rewrite decide_True by done. unfold set_item_edit_version.
  cbn [sorted_document source_document mbind result_bind] in *. rewrite Hl. cbn [mbind result_bind].
  assert (Hrel : validated (release_check V3 (flow c)) = Ok tt).
  { apply is_ok_validated, is_ok_tt. unfold document_fields in Hp. by apply andb_true_iff in Hp as [_ ?]. }
  unfold construct. cbn [set_edit_version flow caller_policy schedules recording_behavior]. rewrite Hrel.
  cbn [mbind result_bind].
  assert (Hrec : {| edit_version := row_version row; caller_policy := caller_policy c; schedules := schedules c;
    recording_behavior := default_recording_behavior; flow := flow c |} = set_edit_version (row_version row) c).
  { unfold document_fields in Hc. split_fields Hc. unfold set_edit_version.
  match goal with E : bool_decide (_ = default_recording_behavior) = true |- _ =>
    apply bool_decide_eq_true in E; by rewrite E end. }
  rewrite Hrec. erewrite save_next_v3 by done. eexists. split; [done|]. split; [done|].
  assert (Hload : ∀ s', read_draft s' 1 = Some {| document_encrypted := seal key (nonce r 0)
      (source_document V3 (set_edit_version (row_version row) c)); row_version := row_version row + 1;
      updated_at := now r; updated_by := actor r |} → load_draft_v3 key s' = Ok promoted).
  { intros s' Hs'. pose proof (load_held key V3 s' _ (set_edit_version (row_version row) c) Hs') as Hlo.
  cbn [load_lane row_version] in Hlo. rewrite Hlo; [done| | |lia].
  - by exists (nonce r 0).
  - by apply document_fields_version. }
  assert (Hnew := read_with_draft 1 1). setoid_rewrite decide_True in Hnew; [|done].
  split; [by apply Hload|]. unfold initialize_v3_draft. rewrite Hnew. cbn [document_encrypted].
  rewrite unseal_seal by (done || apply source_document_keys). cbn [mbind result_bind].
  rewrite source_schema_version. cbn [mbind result_bind equals_int version_number].
  rewrite bool_decide_true by done. by rewrite Hload.
Qed.
End Theorems.

(** ** The theorems at concrete databases *)

#[local] Existing Instance plain_suite.
#[local] Existing Instance plain_suite_laws.

Definition example_key : bytes := replicate 32 (octet 7).
Definition example_request : request :=
  {| now := {| date := (2025, 9, 19)%Z; hour := 8; minute := 30; second := 5; microsecond := 0 |};
     nonce := λ n, replicate 12 (octet (N.of_nat n));
     uuid_hex := "0123456789abcdef0123456789abcdef"; actor := "admin@example.com" |}.

Definition saved (root : block) (n : Z) : FlowDocument := set_edit_version n (example_document root).

(** Two lanes; the V4 transaction read the empty database and commits after the V3 one. *)
Lemma example_history : ∃ past s,
  history example_key (s :: past)
    [(V3, saved example_v3 0); (V4, saved example_v4 0); (V3, saved example_v2 1)].
Proof.
  eexists _, _.
  change [(V3, saved example_v3 0); (V4, saved example_v4 0); (V3, saved example_v2 1)] with
    ((([] ++ [(V3, saved example_v3 0)]) ++ [(V4, saved example_v4 0)]) ++ [(V3, saved example_v2 1)]).
  eapply (history_save _ _ _ _ V3 example_request (saved example_v2 1)).
  - eapply (history_save _ _ _ _ V4 example_request (saved example_v4 0) empty_store).
    + eapply (history_save _ _ _ _ V3 example_request (saved example_v3 0) empty_store).
      * apply history_start.
      * by left.
      * done.
      * cbn [store_version]. reflexivity.
    + right. by left.
    + done.
    + cbn [store_version]. reflexivity.
  - left.
  - done.
  - cbn [store_version]. reflexivity.
Defined.

Theorem accepted_saves_are_serial_witness : ∃ s, load_lane example_key V3 s = Ok (saved example_v2 2).
Proof.
  destruct example_history as (past & s & Hh). exists s.
  exact (proj2 (accepted_saves_are_serial example_key past s _ V3 Hh) (saved example_v2 1)
    ltac:(vm_compute; reflexivity) ltac:(vm_compute; reflexivity)).
Defined.

Theorem save_exact_witness :
  is_ok (store_version example_key V4 example_request (saved example_v4 3) empty_store empty_store) = false.
Proof.
  rewrite (save_exact example_key V4 example_request (saved example_v4 3) empty_store ltac:(done)). reflexivity.
Defined.

Definition example_row (ver : version) (root : block) : draft_row :=
  {| document_encrypted := seal example_key (nonce example_request 0) (source_document ver (saved root 5));
     row_version := 5; updated_at := now example_request; updated_by := "admin@example.com" |}.

Lemma example_row_holds ver root : holds example_key ver (example_row ver root) (saved root 5).
Proof. exists (nonce example_request 0). split; reflexivity. Defined.

Theorem v4_clone_keeps_lane_one_witness : ∃ s',
  initialize_v4_draft example_key example_request (with_draft 1 (example_row V3 example_v3) empty_store)
    (with_draft 1 (example_row V3 example_v3) empty_store) = Ok (saved example_v3 1, s').
Proof.
  destruct (v4_clone_keeps_lane_one example_key V3 example_request example_request
    (with_draft 1 (example_row V3 example_v3) empty_store) (example_row V3 example_v3) (saved example_v3 5)
    ltac:(done) ltac:(reflexivity) ltac:(reflexivity) (example_row_holds V3 example_v3)
    ltac:(vm_compute; reflexivity) ltac:(done) ltac:(reflexivity)) as (s' & Hs & _).
  exists s'. exact Hs.
Defined.

Theorem v3_promotion_archives_once_witness : ∃ s',
  initialize_v3_draft example_key example_request (with_draft 1 (example_row V2 example_v2) empty_store)
    (with_draft 1 (example_row V2 example_v2) empty_store) = Ok (saved example_v2 6, s').
Proof.
  destruct (v3_promotion_archives_once example_key example_request example_request
    (with_draft 1 (example_row V2 example_v2) empty_store) (example_row V2 example_v2) (saved example_v2 5)
    ltac:(reflexivity) (example_row_holds V2 example_v2)
    ltac:(vm_compute; reflexivity) ltac:(done) ltac:(reflexivity)) as (s' & Hs & _).
  exists s'. exact Hs.
Defined.
