(* ===== verification/Revisions.v ===== *)
(** * Published revisions ([services.py])

    The manifests that devices download: the caller policy, schedules, flow and
    prompts of a configuration and, from version 2 on, its compiled program with the
    digests of source and program; and the signed, encrypted rows they are kept in. *)
From Stdlib Require Import Ascii.
From stdpp Require Import base gmap sets strings numbers pretty sorting list.
From S2P Require Import Prelude FlowTree Schemas Validation Compiler LegacyGraph Json Crypto Documents DocumentsStore Store Drafts.

(** ** The compiled program as JSON *)

Definition dump_pc (n : nat) : json := JInt (Z.of_nat n).

Definition op_name (op : operation) : string :=
  match op with
  | OpPlay _ _ => "play_prompt"
  | OpCollect _ _ _ _ _ _ _ _ _ => "collect_digit"
  | OpSchedule _ _ _ _ => "schedule_branch"
  | OpReturn _ => "return_to_menu"
  | OpEnd => "end_call"
  | OpRecord _ _ _ _ => "record_message"
  | OpExternal _ _ _ _ _ => "external_call"
  end.

(** What [instruction.update(...)] adds. *)
Definition op_members (op : operation) : list (string * json) :=
  match op with
  | OpPlay p n => [("prompt_id", dump_option JStr p); ("next_pc", dump_pc n)]
  | OpCollect p tm ma mr brs t v l barge =>
      [("prompt_id", dump_option JStr p); ("timeout_ms", JInt tm); ("maximum_attempts", JInt ma);
       ("maximum_menu_returns", JInt mr);
       ("branches", JList (map (λ '(k, n), JObj [("digit", JStr (dtmf_str k)); ("target_pc", dump_pc n)]) brs));
       ("on_timeout_pc", dump_pc t); ("on_invalid_pc", dump_pc v); ("on_return_limit_pc", dump_pc l)]
      ++ match barge with Some b => [("allow_prompt_barge_in", JBool b)] | None => [] end
  | OpSchedule sc o c h =>
      [("schedule_id", dump_option JStr sc); ("on_open_pc", dump_pc o); ("on_closed_pc", dump_pc c);
       ("on_holiday_pc", dump_pc h)]
  | OpReturn m => [("menu_pc", dump_pc m)]
  | OpEnd => []
  | OpRecord ms k n u =>
      [("maximum_duration_ms", JInt ms); ("finish_key", dump_option JStr k); ("next_pc", dump_pc n);
       ("on_unavailable_pc", dump_pc u)]
  | OpExternal phone ms n nc sf =>
      [("phone_number", JStr phone); ("answer_timeout_ms", JInt ms); ("next_pc", dump_pc n);
       ("on_not_connected_pc", dump_pc nc); ("on_system_failure_pc", dump_pc sf)]
  end.
Definition dump_instruction (i : instruction) : json :=
  JObj ([("pc", dump_pc (ipc i)); ("block_id", JStr (iblock_id i)); ("op", JStr (op_name (iop i)))] ++ op_members (iop i)).

(** The session bound has a different name in each version. *)
Definition dump_program (p : program) : json :=
  JObj ([("version", JInt (pversion p)); ("entry_pc", dump_pc (entry_pc p))]
        ++ match session_ms p with
           | None => []
           | Some ms => [(if bool_decide (pversion p = 3)%Z then "maximum_session_ms"
                          else "maximum_automated_session_ms", JInt ms)]
           end
        ++ [("instructions", JList (map dump_instruction (instructions p)))]).

(** The document whose digest is [source_sha256]. *)
Definition source_json (ver : version) (root : option block) (r : RecordingBehavior) : json :=
  match ver with
  | V2 => dump_flow root
  | _ => JObj [("flow", dump_flow root); ("recording_behavior", dump_recording r)]
  end.

(** [_sha256] of the compilers. *)
Definition json_sha256 (document : json) : string := sha256_hexdigest (canonical_json_bytes document).

(** ** Prompts *)

Definition PROMPT_FORMAT : string := "audio/wav;codec=pcm_s16le;rate=48000;channels=2".

Definition prompt_document (p : prompt_row) : json :=
  JObj [("id", JStr (prompt_id p)); ("name", JStr (prompt_name p)); ("version", JInt (prompt_version p));
        ("content_hash", JStr (content_hash p)); ("size_bytes", JInt (size_bytes p));
        ("duration_ms", JInt (duration_ms p)); ("format", JStr PROMPT_FORMAT)].

Definition prompt_le (p q : prompt_row) : Prop := ¬ str_lt (prompt_id q) (prompt_id p).
#[global] Instance prompt_le_dec : RelDecision prompt_le.
Proof. intros p q. unfold prompt_le. apply _. Defined.
(** [sorted(prompts, key=lambda item: item.id)] *)
Definition sorted_prompts (l : list prompt_row) : list prompt_row := merge_sort prompt_le l.

(** [prompts_for_configuration_v2], [v3] and [v4]: the rows whose key is used. *)
Definition prompts_for_configuration (c : FlowDocument) (s : store) : list prompt_row :=
  let identifiers := prompt_ids (flow c) in
  if decide (identifiers = ∅) then []
  else (map_to_list (filter (λ p, p.1 ∈ identifiers) (prompts s))).*2.

(** [prompts_for_configuration] of a version 1 configuration. *)
Definition prompts_for_version_one (c : DraftConfiguration) (s : store) : list prompt_row :=
  let identifiers : gset string := filter (λ p, p ≠ "") (⋃ (node_prompt <$> nodes c)) in
  if decide (identifiers = ∅) then []
  else (map_to_list (filter (λ p, p.1 ∈ identifiers) (prompts s))).*2.

(** [{prompt.id: prompt.duration_ms for prompt in prompts}] and the like. *)
Definition prompt_table {A} (f : prompt_row → A) (l : list prompt_row) : gmap string A :=
  foldl (λ m p, <[prompt_id p := f p]> m) ∅ l.

(** ** Manifests *)

Definition rolled_back (source : option Z) : list (string * json) :=
  match source with Some i => [("rolled_back_from", JInt i)] | None => [] end.

(** [build_manifest] *)
Definition build_manifest (revision_id : Z) (c : DraftConfiguration) (prompts : list prompt_row)
    (published_at : datetime) (rolled_back_from : option Z) : json :=
  JObj ([("schema_version", JInt 1); ("revision_id", JInt revision_id);
         ("published_at", JStr (datetime_isoformat published_at)); ("caller_policy", dump_policy (legacy_policy c));
         ("schedules", JList (map dump_schedule (legacy_schedules c))); ("flow", dump_legacy_flow c);
         ("prompts", JList (map prompt_document (sorted_prompts prompts)))] ++ rolled_back rolled_back_from).

(** What the compilers return, with the digests. *)
Definition compiled_members (ver : version) (c : FlowDocument) (out : compiled) : list (string * json) :=
  [("compiler_version", JStr (compiler_version out));
   ("source_sha256", JStr (json_sha256 (source_json ver (flow c) (recording_behavior c))));
   ("program_sha256", JStr (json_sha256 (dump_program (compiled_program out))));
   ("program", dump_program (compiled_program out))].

Definition compile_configuration (ver : version) (c : FlowDocument) (prompts : list prompt_row) : result compiled :=
  match ver with
  | V2 => compile_flow (flow c)
  | V3 => compile_flow_v3 (flow c) (recording_behavior c) (prompt_table duration_ms prompts)
  | V4 => compile_flow_v4 (flow c) (recording_behavior c) (prompt_table duration_ms prompts)
  end.

Definition manifest_members (ver : version) (revision_id : Z) (c : FlowDocument) (prompts : list prompt_row)
    (published_at : datetime) (rolled_back_from : option Z) (out : compiled) : list (string * json) :=
  [("schema_version", JInt (version_number ver)); ("revision_id", JInt revision_id);
   ("published_at", JStr (datetime_isoformat published_at)); ("caller_policy", dump_policy (caller_policy c));
   ("schedules", JList (map dump_schedule (schedules c)))]
  ++ match ver with V2 => [] | _ => [("recording_behavior", dump_recording (recording_behavior c))] end
  ++ [("flow", dump_flow (flow c))] ++ compiled_members ver c out
  ++ [("prompts", JList (map prompt_document (sorted_prompts prompts)))] ++ rolled_back rolled_back_from.

Definition build_manifest_version (ver : version) (revision_id : Z) (c : FlowDocument) (prompts : list prompt_row)
    (published_at : datetime) (rolled_back_from : option Z) : result json :=
  out ← compile_configuration ver c prompts;
  Ok (JObj (manifest_members ver revision_id c prompts published_at rolled_back_from out)).
Definition build_manifest_v2 := build_manifest_version V2.
Definition build_manifest_v3 := build_manifest_version V3.
Definition build_manifest_v4 := build_manifest_version V4.

(** ** Signed rows *)

Section Revisions.
Context `{Cryptography} (key signing_key : bytes).

(** The pending row is inserted to learn its number, then completed. *)
Definition create_revision_with (schema_version : Z) (manifest : Z → result json) (r : request)
  (source : option Z) (s : store) : result (Z * store) :=
  let id := next_revision s in
  let s := with_revision id
  {| revision_schema_version := schema_version; manifest_encrypted := encrypt key (nonce r 0) (to_bytes "{}");
     manifest_sha256 := "pending-" +:+ uuid_hex r; signature_b64 := to_bytes "pending";
     source_revision_id := source; published_at := now r; published_by := actor r |} s in
  manifest ← manifest id;
  let '(digest, signature) := sign signing_key manifest in
  Ok (id, with_revision id
  {| revision_schema_version := schema_version; manifest_encrypted := seal key (nonce r 1) manifest;
     manifest_sha256 := digest; signature_b64 := signature;
     source_revision_id := source; published_at := now r; published_by := actor r |} s).

Definition create_revision (c : DraftConfiguration) (prompts : list prompt_row) (r : request)
  (source : option Z) : store → result (Z * store) :=
  create_revision_with 1 (λ id, Ok (build_manifest id c prompts (now r) source)) r source.
Definition create_revision_version (ver : version) (c : FlowDocument) (prompts : list prompt_row) (r : request)
  (source : option Z) : store → result (Z * store) :=
  create_revision_with (version_number ver) (λ id, build_manifest_version ver id c prompts (now r) source) r source.
Definition create_revision_v2 := create_revision_version V2.
Definition create_revision_v3 := create_revision_version V3.
Definition create_revision_v4 := create_revision_version V4.

Definition load_manifest (revision : revision_row) : result json := unseal key (manifest_encrypted revision).
End Revisions.
