(* ===== verification/V4Api.v ===== *)
(** * The V4 administration interface ([v4_api.py])

    Saving, validating, publishing and rolling back V4 configurations.  A handler is a
    transaction on the database; one that raises leaves it as it was.  [zoneinfo] is
    the timezone database and [limit] the setting [revision_asset_limit_bytes]. *)
From Stdlib Require Import Ascii.
From stdpp Require Import base gmap sets strings numbers pretty list.
From S2P Require Import Prelude FlowTree Schemas Validation Compiler Simulator LegacyGraph Json Crypto Documents DocumentsStore Store Drafts Revisions.

(** ** Capabilities *)

(** The children pushed on [pending] by [_uses_prompt_barge_in]. *)
Definition barge_children (b : block) : list block :=
  match b with
  | PlayPrompt _ _ n => option_list n
  | CollectDigit _ _ _ _ _ _ brs t v l => omap id [t; v; l] ++ omap branch_root brs
  | ScheduleBranch _ _ o c h => omap id [o; c; h]
  | RecordMessage _ n u => omap id [n; u]
  | ExternalCall _ _ _ n nc sf => omap id [n; nc; sf]
  | ReturnToMenu _ | EndCall _ => []
  end.
Fixpoint barge_loop (fuel : nat) (pending : list block) : result bool :=
  match pending with
  | [] => Ok false
  | b :: rest =>
      match fuel with
      | 0 => Raise OutOfFuel
      | S fuel => if barge_in b then Ok true else barge_loop fuel (reverse (barge_children b) ++ rest)
      end
  end.
Definition uses_prompt_barge_in (c : FlowDocument) : result bool :=
  match flow c with None => Ok false | Some root => barge_loop (bsize root) [root] end.

(** [n in versions] *)
Definition py_contains (n : Z) (versions : json) : result bool :=
  match versions with
  | JList l => Ok (existsb (λ j, equals_int (Some j) n) l)
  | JObj _ => Ok false
  | _ => Raise (TypeError "argument is not iterable")
  end.
(** [value in {1, 2}] *)
Definition protocol_supported (v : option json) : result bool :=
  match v with
  | Some (JList _) | Some (JObj _) => Raise (TypeError "unhashable type")
  | _ => Ok (equals_int v 1 || equals_int v 2)
  end.
Definition is_true (v : option json) : bool := match v with Some (JBool true) => true | _ => false end.

Definition default_versions : json := JList [JInt 1; JInt 2].
(** [device.status or {}] *)
Definition device_status (d : device_row) : list (string * json) := default [] (status_document d).

Definition compatible_v4 (prompt_barge_in_required : bool) (d : device_row) : result bool :=
  let status := device_status d in
  four ← py_contains 4 (default default_versions (assoc "runtime_versions" status));
  if (four : bool) && is_true (assoc "external_call_control_capable" status)
       && is_true (assoc "conversation_recording_capable" status) then
    protocol ← protocol_supported (assoc "call_control_protocol_version" status);
    Ok (protocol && (negb prompt_barge_in_required || is_true (assoc "prompt_barge_in_capable" status)))
  else Ok false.

(** [select(Device).where(Device.revoked_at.is_(None))] *)
Definition active_devices (s : store) : list device_row :=
  filter (λ d, revoked_at d = None) (map_to_list (devices s)).*2.

(** The display names of the devices on which [compatible] fails. *)
Definition incompatible (compatible : device_row → result bool) (l : list device_row) : result (list string) :=
  checked ← mapM (λ d, ok ← compatible d; Ok (d, ok)) l;
  Ok (display_name <$> (filter (λ p, p.2 = false) checked).*1).

Fixpoint join (sep : string) (l : list string) : string :=
  match l with [] => "" | [x] => x | x :: l => x +:+ sep +:+ join sep l end.

Definition require_v4_device_capabilities (s : store) (c : FlowDocument) : result unit :=
  match active_devices s with
  | [] => Raise (HTTPException 409
            ["V4 cannot be published until at least one active device reports capability status."])
  | active =>
      required ← uses_prompt_barge_in c;
      names ← incompatible (compatible_v4 required) active;
      match names with
      | [] => Ok tt
      | _ => Raise (HTTPException 409
               ["V4 cannot be assigned until every active device reports runtime V4, " +:+
                "external-call control, conversation recording, call-control protocol 1" +:+
                (if (required : bool) then ", and prompt interruption" else "") +:+ ": " +:+ join ", " names])
      end
  end.

(** [instruction.get("op") == "record_message" for instruction in manifest["program"]["instructions"]] *)
Definition records_message (manifest : json) : result bool :=
  program ← get_member "program" manifest;
  instructions ← get_member "instructions" (default (JObj []) program);
  match default (JList []) instructions with
  | JList l => foldM (λ (found : bool) i, if found then Ok true else
                 op ← get_member "op" i; Ok (match op with Some (JStr o) => bool_decide (o = "record_message") | _ => false end))
               false l
  | JObj _ | JStr _ => Raise (AttributeError "get")
  | _ => Raise (TypeError "object is not iterable")
  end.
Definition compatible_revision (schema_version : Z) (recording_required : bool) (d : device_row) : result bool :=
  let status := device_status d in
  known ← py_contains schema_version (default default_versions (assoc "runtime_versions" status));
  Ok (known && negb (recording_required && negb (is_true (assoc "recording_capable" status)))).
Definition require_immutable_revision_capabilities (s : store) (revision : revision_row) (manifest : json) : result unit :=
  recording ← (if bool_decide (revision_schema_version revision = 3)%Z then records_message manifest else Ok false);
  names ← incompatible (compatible_revision (revision_schema_version revision) recording) (active_devices s);
  match names with
  | [] => Ok tt
  | _ => Raise (HTTPException 409 ["Rollback revision is incompatible with active devices: " +:+ join ", " names])
  end.

(** ** Handlers *)

Section Handlers.
Context `{Cryptography} (key signing_key : bytes) (zoneinfo : string → zone_lookup) (limit : Z).

Definition validation_errors (s : store) (c : FlowDocument) : result (list string) :=
  let rows := prompts_for_configuration c s in
  errors ← validate_configuration_v4 zoneinfo c (list_to_set (prompt_id <$> rows)) (prompt_table size_bytes rows) limit;
  match errors with
  | [] =>
    match compile_flow_v4 (flow c) (recording_behavior c) (prompt_table duration_ms rows) with
    | Ok _ => Ok []
    | Raise (TypeError m) | Raise (ValueError m) => Ok [m]
    | Raise e => Raise e
    end
  | _ => Ok (dict_fromkeys errors)
  end.

Definition get_draft_v4 (r : request) (s : store) : result (FlowDocument * store) :=
  let cloned :=
  '(c, s) ← initialize_v4_draft key r s s;
  Ok (c, audit (actor r) "draft.v4_cloned" "configuration" (JObj [("edit_version", JInt (edit_version c))]) s) in
  match read_draft s V4_DRAFT_ID with
  | Some _ =>
    match load_draft_v4 key s with
    | Ok c => Ok (c, s)
    | Raise (RuntimeError _) => cloned
    | Raise e => Raise e
    end
  | None => cloned
  end.

Definition put_draft_v4 (r : request) (c : FlowDocument) (s : store) : result (FlowDocument * store) :=
  match store_draft_v4 key r c s s with
  | Raise (DraftConflictError m) => Raise (HTTPException 409 [m])
  | Raise e => Raise e
  | Ok (saved, s) =>
    Ok (saved, audit (actor r) "draft.v4_updated" "configuration" (JObj [("edit_version", JInt (edit_version saved))]) s)
  end.

(** [select(Revision.id).order_by(Revision.id.desc())] *)
Definition latest_revision_id (s : store) : option Z :=
  match (map_to_list (revisions s)).*1 with [] => None | i :: l => Some (foldr Z.max i l) end.

(** [update(Device).where(Device.revoked_at.is_(None)).values(desired_revision_id=id)] *)
Definition assign_revision (id : Z) (d : device_row) : device_row :=
  match revoked_at d with
  | Some _ => d
  | None => {| display_name := display_name d; token_hash := token_hash d; app_version := app_version d;
               helper_version := helper_version d; status_document := status_document d; desired_revision_id := Some id;
               active_revision_id := active_revision_id d; last_seen_at := last_seen_at d; enrolled_at := enrolled_at d;
               revoked_at := None |}
  end.

(** [PublishDraftRequestV4] *)
Record publish_request := { reviewed_edit_version : Z; base_revision_id : option Z }.

Definition check_review (body : option publish_request) (c : FlowDocument) (s : store) : result unit :=
  match body with
  | None => Ok tt
  | Some body =>
    if decide (edit_version c ≠ reviewed_edit_version body)
    then Raise (HTTPException 409 ["The draft changed after review. Review the current draft before publishing."])
    else if decide (latest_revision_id s ≠ base_revision_id body)
    then Raise (HTTPException 409 ["The published revision changed after review. Review the draft again."])
    else Ok tt
  end.

(** [configuration or load_draft_v4(...)]; a model is true. *)
Definition validate_draft_v4 (c : option FlowDocument) (s : store) : result (bool * list string) :=
    candidate ← match c with Some c => Ok c | None => load_draft_v4 key s end;
    errors ← validation_errors s candidate;
    Ok (bool_decide (errors = []), errors).

(** [{"status": "invalid", "trace": [], "message": " ".join(errors)}] *)
Definition invalid_result (errors : list string) : sim_result :=
    {| status := invalid; trace := []; message := join " " errors; awaiting_block_id := None; available := [] |}.
Definition simulate_draft_v4 (c : FlowDocument) (events : list string) (s : store) : result sim_result :=
    errors ← validation_errors s c;
    Ok (match errors with [] => simulate_v4 (flow c) events | _ => invalid_result errors end).

Definition reject_errors (code : Z) (errors : list string) : result unit :=
  match errors with [] => Ok tt | _ => Raise (HTTPException code errors) end.

Definition revision_name (id : Z) : string := "revision:" +:+ pretty id.

(** The handler takes no lock: its checks read the database [seen] by its transaction, and the
    revision is added to [s], the database when it commits. *)
Definition publish_draft_v4_seen (r : request) (body : option publish_request) (seen s : store) : result (Z * store) :=
  configuration ← load_draft_v4 key seen;
  _ ← check_review body configuration seen;
  errors ← validation_errors seen configuration;
  _ ← reject_errors 422 errors;
  _ ← require_v4_device_capabilities seen configuration;
  '(id, s) ← create_revision_v4 key signing_key configuration (prompts_for_configuration configuration seen) r None s;
  let s := with_devices (assign_revision id) s in
  Ok (id, audit (actor r) "revision.v4_published" (revision_name id) (JObj []) s).
Definition publish_draft_v4 (r : request) (body : option publish_request) (s : store) : result (Z * store) :=
  publish_draft_v4_seen r body s s.

(** The configuration of a V4 manifest under the draft's version. *)
Definition manifest_configuration (manifest : json) (version : Z) : result FlowDocument :=
  policy ← get_item "caller_policy" manifest;
  scheds ← get_item "schedules" manifest;
  recording ← get_item "recording_behavior" manifest;
  root ← get_item "flow" manifest;
  load_document V4 (JObj [("schema_version", JInt 4); ("edit_version", JInt version); ("caller_policy", policy);
                        ("schedules", scheds); ("recording_behavior", recording); ("flow", root)]).

Definition rollback_v4_revision (r : request) (revision_id : Z) (s : store) : result (Z * store) :=
  source ← of_option (HTTPException 404 ["Revision not found"]) (revisions s !! revision_id);
  if decide (revision_schema_version source ≠ 4%Z)
  then Raise (HTTPException 409 ["Use activate-rollback for an immutable V1/V2/V3 revision."])
  else
  manifest ← load_manifest key source;
  current ← load_draft_v4 key s;
  configuration ← manifest_configuration manifest (edit_version current);
  errors ← validation_errors s configuration;
  _ ← reject_errors 409 errors;
  _ ← require_v4_device_capabilities s configuration;
  '(id, s) ← create_revision_v4 key signing_key configuration (prompts_for_configuration configuration s) r
               (Some revision_id) s;
  '(_, s) ← store_draft_v4 key {| now := now r; nonce := λ n, nonce r (n + 2); uuid_hex := uuid_hex r; actor := actor r |}
              configuration s s;
  let s := with_devices (assign_revision id) s in
  Ok (id, audit (actor r) "revision.rollback_published" (revision_name id)
            (JObj [("source_revision_id", JInt revision_id)]) s).

Definition activate_immutable_revision (r : request) (revision_id : Z) (s : store) : result (Z * store) :=
  source ← of_option (HTTPException 404 ["Revision not found"]) (revisions s !! revision_id);
  if decide (¬ (revision_schema_version source ∈ [1; 2; 3]%Z))
  then Raise (HTTPException 409 ["Only immutable V1/V2/V3 rollback uses this endpoint."])
  else
  manifest ← load_manifest key source;
  _ ← require_immutable_revision_capabilities s source manifest;
  let affected := length (active_devices s) in
  let s := with_devices (assign_revision revision_id) s in
  Ok (revision_id, audit (actor r) "revision.legacy_rollback_activated" (revision_name revision_id)
        (JObj [("schema_version", JInt (revision_schema_version source)); ("affected_devices", JInt (Z.of_nat affected))]) s).

(** [RevisionDetail] of [revision_detail_v4]: version, flow and the legacy flag. *)
Definition revision_detail_v4 (revision_id : Z) (s : store) : result (Z * option json * bool) :=
  revision ← of_option (HTTPException 404 ["Revision not found"]) (revisions s !! revision_id);
  manifest ← load_manifest key revision;
  root ← get_member "flow" manifest;
  Ok (revision_schema_version revision, root, bool_decide (revision_schema_version revision ≠ 4%Z)).
End Handlers.
