(* ===== verification/V4ApiCorrect.v ===== *)
(** * Properties of publication

    Publishing succeeds exactly for reviewed, publishable drafts on capable devices;
    what it stores is the signed manifest of that draft with its compiled program; and a
    rollback restores the configuration of an earlier revision. *)
From Stdlib Require Import Ascii.
From stdpp Require Import base gmap sets strings numbers pretty list.
From S2P Require Import Prelude FlowTree Schemas Validation Compiler LegacyGraph Json Crypto Documents DocumentsFacts DocumentsRound DocumentsStore DocumentsSound Store Drafts DraftsCorrect Revisions V4Api Examples.

(** ** Capabilities *)

Lemma barge_children_perm b : barge_children b ≡ₚ pushed_children b.
Proof. destruct b; cbn [barge_children pushed_children]; try done. by rewrite (comm (++)). Qed.

Lemma barge_loop_exact fuel pending : sum_list_with bsize pending ≤ fuel →
  barge_loop fuel pending = Ok (existsb barge_in (concat (preorder <$> pending))).
Proof.
  revert pending. induction fuel as [|fuel IH]; intros [|b rest] Hf; cbn [barge_loop]; try done.
  - csimpl in Hf. pose proof (bsize_pos b). lia.
  - csimpl in Hf. rewrite fmap_cons. cbn [concat]. rewrite (preorder_unfold b). cbn [app existsb].
    destruct (barge_in b); [done|]. cbn [orb].
    rewrite bsize_unfold, children_perm, <- barge_children_perm in Hf.
    rewrite IH by (rewrite sum_list_with_app, sum_list_with_reverse; lia). f_equal.
    rewrite fmap_app, concat_app, !existsb_app. f_equal.
    assert (Hp : concat (preorder <$> reverse (barge_children b)) ≡ₚ concat (preorder <$> children b)).
    { apply concat_perm. by rewrite reverse_Permutation, barge_children_perm, children_perm. }
    apply eq_true_iff_eq. rewrite !existsb_exists. setoid_rewrite <- list_elem_of_In. by setoid_rewrite Hp.
Qed.

Definition menus_interrupt (root : option block) : bool :=
  match root with Some root => existsb barge_in (preorder root) | None => false end.

Lemma uses_prompt_barge_in_ok c : uses_prompt_barge_in c = Ok (menus_interrupt (flow c)).
Proof.
  unfold uses_prompt_barge_in, menus_interrupt. destruct (flow c) as [root|]; [|done].
  rewrite barge_loop_exact by (csimpl; lia). csimpl. by rewrite app_nil_r.
Qed.

Lemma incompatible_nil compatible l :
  incompatible compatible l = Ok [] ↔ ∀ d, d ∈ l → compatible d = Ok true.
Proof.
  unfold incompatible. rewrite result_bind_ok. split.
  - intros (checked & Hm & H) d Hd. injection H as H. apply fmap_nil_inv in H. apply fmap_nil_inv in H.
    apply mapM_result_ok in Hm. apply list_elem_of_lookup in Hd as [i Hi].
    destruct (Forall2_lookup_l _ _ _ _ _ Hm Hi) as ([d' ok] & Hok & Hc). inv_result.
    destruct ok; [done|]. exfalso. assert (Hin : (d', false) ∈ checked) by (by eapply list_elem_of_lookup_2).
    assert ((d', false) ∈ filter (λ p, p.2 = false) checked) as Hf by (by apply list_elem_of_filter).
    rewrite H in Hf. by apply elem_of_nil in Hf.
  - intros Hall. exists ((λ d, (d, true)) <$> l). split.
    + apply mapM_result_ok. induction l as [|d l IH]; constructor.
      * by rewrite Hall by (by left).
      * apply IH. intros d' Hd'. apply Hall. by right.
    + rewrite list_filter_none; [done|]. apply Forall_fmap, Forall_forall. done.
Qed.

Definition capable (s : store) (c : FlowDocument) : Prop :=
  active_devices s ≠ [] ∧ ∀ d, d ∈ active_devices s → compatible_v4 (menus_interrupt (flow c)) d = Ok true.

Lemma require_v4_ok s c : require_v4_device_capabilities s c = Ok tt ↔ capable s c.
Proof.
  unfold require_v4_device_capabilities, capable. destruct (active_devices s) as [|d l] eqn:E; [naive_solver|].
  rewrite uses_prompt_barge_in_ok. cbn [mbind result_bind]. rewrite <- incompatible_nil.
  split.
  - intros H. apply result_bind_ok in H as ([|? ?] & H & Hn); [done|discriminate].
  - intros [_ H]. rewrite H. done.
Qed.

(** ** Validation *)

Section Publish.
Context `{CryptographyLaws} (key signing_key : bytes) (zoneinfo : string → zone_lookup) (limit : Z).

Definition publishable_in (s : store) (c : FlowDocument) (root : block) : Prop :=
  let rows := prompts_for_configuration c s in
  publishable V4 zoneinfo c (list_to_set (prompt_id <$> rows)) (prompt_table size_bytes rows) limit root.

Lemma validation_errors_nil s c : validation_errors zoneinfo limit s c = Ok [] ↔
  ∃ root out, publishable_in s c root ∧ compile_configuration V4 c (prompts_for_configuration c s) = Ok out.
Proof using Type.
  unfold validation_errors, publishable_in. set (rows := prompts_for_configuration c s).
  change (compile_configuration V4 c rows) with
  (compile_flow_v4 (flow c) (recording_behavior c) (prompt_table duration_ms rows)).
  rewrite result_bind_ok. split.
  - intros ([|e errs] & Hv & Hc).
  + apply validate_document_accepts in Hv as [root Hroot]. exists root.
    destruct (compile_flow_v4 _ _ _) as [out|[]]; try discriminate. by exists out.
  + exfalso. injection Hc as Hc. by apply (dict_fromkeys_nil (e :: errs)) in Hc.
  - intros (root & out & Hp & Hc). exists []. split; [|by rewrite Hc].
  apply validate_document_accepts. by exists root.
Qed.

(** ** Revision rows *)

Definition manifest (id : Z) (r : request) (c : FlowDocument) (rows : list prompt_row) (source : option Z)
  (out : compiled) : json :=
  JObj (manifest_members V4 id c rows (now r) source out).
Definition pending_row (r : request) (source : option Z) : revision_row :=
  {| revision_schema_version := 4; manifest_encrypted := encrypt key (nonce r 0) (to_bytes "{}");
   manifest_sha256 := "pending-" +:+ uuid_hex r; signature_b64 := to_bytes "pending";
   source_revision_id := source; published_at := now r; published_by := actor r |}.
Definition published_row (id : Z) (r : request) (c : FlowDocument) (rows : list prompt_row) (source : option Z)
  (out : compiled) : revision_row :=
  {| revision_schema_version := 4; manifest_encrypted := seal key (nonce r 1) (manifest id r c rows source out);
   manifest_sha256 := (sign signing_key (manifest id r c rows source out)).1;
   signature_b64 := (sign signing_key (manifest id r c rows source out)).2;
   source_revision_id := source; published_at := now r; published_by := actor r |}.

Lemma create_revision_ok c rows r source s id s' :
  create_revision_v4 key signing_key c rows r source s = Ok (id, s') ↔
  ∃ out, compile_configuration V4 c rows = Ok out ∧ id = next_revision s ∧
  s' = with_revision id (published_row id r c rows source out) (with_revision id (pending_row r source) s).
Proof using Type.
  unfold create_revision_v4, create_revision_version, create_revision_with, build_manifest_version.
  rewrite result_bind_ok. setoid_rewrite result_bind_ok. split.
  - intros (m & (out & Hc & [= <-]) & E). destruct (sign signing_key _) as [digest signature] eqn:Es.
  injection E as <- <-. exists out. split; [done|]. split; [done|]. unfold published_row, manifest. by rewrite Es.
  - intros (out & Hc & -> & ->). eexists. split; [by exists out|].
  unfold published_row, manifest. by destruct (sign signing_key _).
Qed.

(** The database after a publication. *)
Definition published_store (r : request) (c : FlowDocument) (out : compiled) (s : store) : store :=
  let id := next_revision s in
  audit (actor r) "revision.v4_published" (revision_name id) (JObj [])
  (with_devices (assign_revision id)
    (with_revision id (published_row id r c (prompts_for_configuration c s) None out)
      (with_revision id (pending_row r None) s))).

(** ** Keys of manifests *)

Lemma keys_ok_app l k : NoDup (l ++ k).*1 → Forall (λ p, dict_keys_ok p.2) l → Forall (λ p, dict_keys_ok p.2) k →
  dict_keys_ok (JObj (l ++ k)).
Proof using Type. intros. apply keys_ok_members. split; [done|by apply Forall_app]. Qed.

Lemma dump_instruction_keys i : dict_keys_ok (dump_instruction i).
Proof using Type.
  destruct i as [n b op]. unfold dump_instruction. cbn [ipc iblock_id iop].
  destruct op as [p n'|p tm ma mr brs t v l [b'|]|sc o c h|m| |ms k n' u|ph ms n' nc sf]; cbn [op_members app op_name];
  literal_members; try apply dump_option_keys; apply keys_ok_map; intros [k m] _; literal_members.
Qed.

Lemma dump_program_keys p : dict_keys_ok (dump_program p).
Proof using Type.
  unfold dump_program. destruct (session_ms p) as [ms|]; cbn [app].
  - case_bool_decide; literal_members; apply keys_ok_map; intros i _; apply dump_instruction_keys.
  - literal_members; apply keys_ok_map; intros i _; apply dump_instruction_keys.
Qed.

Lemma manifest_keys id r c rows source out : dict_keys_ok (manifest id r c rows source out).
Proof using Type.
  unfold manifest, manifest_members, compiled_members, rolled_back.
  destruct source; cbn [app]; literal_members;
  auto using dump_policy_keys, dump_recording_keys, dump_flow_keys, dump_program_keys;
  apply keys_ok_map; intros x _; first [apply dump_schedule_keys | literal_members].
Qed.

Lemma load_published id r c rows source out : length (nonce r 1) = 12 →
  load_manifest key (published_row id r c rows source out) = Ok (sorted_document (manifest id r c rows source out)).
Proof using Type*. intros Hn. apply unseal_seal; [done|apply manifest_keys]. Qed.

Lemma sign_equiv j k : dict_keys_ok j → j ≡ k → sign signing_key j = sign signing_key k.
Proof using Type.
  intros Hj Heq. unfold sign, canonical_json_bytes. by rewrite (json_equiv_dumps j k).
Qed.

(** ** Revision numbers *)

(** Revision numbers are handed out in increasing order. *)
Definition fresh_revisions (s : store) : Prop := ∀ i, is_Some (revisions s !! i) → (i < next_revision s)%Z.

Lemma latest_revision_spec s i :
  latest_revision_id s = Some i → is_Some (revisions s !! i) ∧ ∀ j, is_Some (revisions s !! j) → (j ≤ i)%Z.
Proof using Type.
  unfold latest_revision_id. destruct (map_to_list (revisions s)).*1 as [|k l] eqn:E; [done|]. intros [= <-].
  assert (Hin : ∀ j, is_Some (revisions s !! j) ↔ j ∈ k :: l).
  { intros j. rewrite <- E, list_elem_of_fmap. split.
  - intros [row Hr]. exists (j, row). by rewrite elem_of_map_to_list.
  - intros ([j' row] & -> & Hr%elem_of_map_to_list). by exists row. }
  setoid_rewrite Hin. split; [apply zmax_list_elem|]. intros j Hj. by apply zmax_list_upper.
Qed.

Lemma latest_revision_none s : latest_revision_id s = None → ∀ i, revisions s !! i = None.
Proof using Type.
  unfold latest_revision_id. destruct (map_to_list (revisions s)).*1 as [|k l] eqn:E; [|done]. intros _ i.
  apply fmap_nil_inv, map_to_list_empty_iff in E. by rewrite E, lookup_empty.
Qed.

Lemma fresh_none s : fresh_revisions s → revisions s !! next_revision s = None.
Proof using Type.
  intros Hf. destruct (revisions s !! next_revision s) eqn:E; [|done].
  assert (next_revision s < next_revision s)%Z by (apply Hf; by rewrite E). lia.
Qed.

Lemma published_lookup r c out s i : revisions (published_store r c out s) !! i =
  if decide (i = next_revision s) then Some (published_row i r c (prompts_for_configuration c s) None out)
  else revisions s !! i.
Proof using Type.
  unfold published_store. cbn [audit with_devices with_revision revisions].
  case_decide as E; [subst; by rewrite lookup_insert_eq|]. by rewrite !lookup_insert_ne by done.
Qed.

Lemma latest_published r c out s : fresh_revisions s →
  latest_revision_id (published_store r c out s) = Some (next_revision s).
Proof using Type.
  intros Hf. destruct (latest_revision_id (published_store r c out s)) as [i|] eqn:E.
  - apply latest_revision_spec in E as [Hi Hmax]. f_equal.
  assert (next_revision s ≤ i)%Z by (apply Hmax; rewrite published_lookup, decide_True by done; done).
  rewrite published_lookup in Hi. case_decide; [done|]. apply Hf in Hi. lia.
  - pose proof (latest_revision_none _ E (next_revision s)) as Hn. by rewrite published_lookup, decide_True in Hn.
Qed.

Lemma check_review_ok body c s : check_review body c s = Ok tt ↔
  match body with
  | None => True
  | Some b => edit_version c = reviewed_edit_version b ∧ latest_revision_id s = base_revision_id b
  end.
Proof using Type. unfold check_review. destruct body; [|done]. repeat case_decide; naive_solver. Qed.

Lemma publish_ok r body s id s' :
  publish_draft_v4 key signing_key zoneinfo limit r body s = Ok (id, s') ↔
  ∃ c root out, load_draft_v4 key s = Ok c ∧ check_review body c s = Ok tt ∧ publishable_in s c root ∧
  compile_configuration V4 c (prompts_for_configuration c s) = Ok out ∧ capable s c ∧
  id = next_revision s ∧ s' = published_store r c out s.
Proof using Type.
  unfold publish_draft_v4, publish_draft_v4_seen. split.
  - intros E. apply result_bind_ok in E as (c & Hl & E). apply result_bind_ok in E as ([] & Hr & E).
  apply result_bind_ok in E as ([|? ?] & Hv & E); [|discriminate]. cbn [reject_errors mbind result_bind] in E.
  apply result_bind_ok in E as ([] & Hc & E). apply result_bind_ok in E as ([id' s1] & Hcr & E).
  injection E as <- <-. apply validation_errors_nil in Hv as (root & out & Hp & Hout).
  apply create_revision_ok in Hcr as (out' & Hout' & -> & ->). rewrite Hout in Hout'. injection Hout' as <-.
  exists c, root, out. split; [done|]. split; [done|]. split; [done|]. split; [done|].
  split; [by apply require_v4_ok|]. done.
  - intros (c & root & out & Hl & Hr & Hp & Hout & Hc & -> & ->). rewrite Hl. cbn [mbind result_bind]. rewrite Hr.
  cbn [mbind result_bind]. rewrite (proj2 (validation_errors_nil s c)) by eauto. cbn [mbind result_bind reject_errors].
  rewrite (proj2 (require_v4_ok s c) Hc). cbn [mbind result_bind].
  rewrite (proj2 (create_revision_ok c _ r None s _ _)) by eauto. done.
Qed.

(** ** Configurations in manifests *)

Lemma assoc_dict_set {A} k (v : A) l : assoc k (dict_set k v l) = Some v.
Proof using Type.
  induction l as [|[i x] l IH]; cbn [dict_set assoc]; [by rewrite decide_True|].
  case_decide as E; cbn [assoc]; [by rewrite decide_True|]. by rewrite decide_False.
Qed.

Lemma loaded_version ver n j c : load_document ver (with_edit_version n j) = Ok c →
  match j with JObj _ => edit_version c = n ∧ (0 ≤ n)%Z | _ => True end.
Proof using Type.
  destruct j as [| | | | |o]; try done. cbn [with_edit_version]. unfold load_document. cbn [load_object].
  case_match; [|done]. intros E. apply result_bind_ok in E as (v & _ & E). apply result_bind_ok in E as (n' & Hn & E).
  unfold optional in Hn. rewrite assoc_dict_set in Hn. cbn [load_edit_version] in Hn.
  case_bool_decide; [|done]. injection Hn as <-. inv_result. done.
Qed.

Lemma draft_version s c : load_draft_v4 key s = Ok c → edit_version c = lane_version s V4_DRAFT_ID ∧ (0 ≤ edit_version c)%Z.
Proof using Type.
  unfold load_draft_v4, lane_version. destruct (read_draft s V4_DRAFT_ID) as [row|]; [|by intros [= <-]].
  intros E. apply result_bind_ok in E as (j & _ & E). apply result_bind_ok in E as (v & _ & E).
  case_match; [|done]. apply result_bind_ok in E as (j' & Hj & E). destruct j as [| | | | |o]; try done.
  injection Hj as <-. apply (loaded_version V4 _ (JObj o)) in E as [-> ?]. done.
Qed.

Lemma manifest_configuration_ok id r c rows source out v : document_fields V4 c = true → (0 ≤ v)%Z →
  manifest_configuration (sorted_document (manifest id r c rows source out)) v = Ok (set_edit_version v c).
Proof using Type.
  intros Hc Hv. pose proof (manifest_keys id r c rows source out) as Hk.
  pose proof (proj1 (proj1 (keys_ok_members _) Hk)) as Hnd.
  unfold manifest_configuration, get_item. unfold manifest in *. cbn [sorted_document].
  rewrite !assoc_sorted by done. unfold manifest_members at 1 2 3 4. cbn [app assoc].
  repeat first [rewrite decide_True by done | rewrite decide_False by done]. cbn [fmap option_fmap option_map of_option mbind result_bind].
  rewrite <- (load_document_dump V4 c v) by done. symmetry.
  apply stable_equiv; [apply _|apply versioned_keys|].
  cbn [source_members app version_number].
  transitivity (JObj [("schema_version", JInt 4); ("edit_version", JInt v); ("caller_policy", dump_policy (caller_policy c));
  ("schedules", JList (map dump_schedule (schedules c))); ("recording_behavior", dump_recording (recording_behavior c));
  ("flow", dump_flow (flow c))]).
  - apply je_members, perm_skip. symmetry. apply (Permutation_cons_append [_; _; _; _]).
  - apply json_equiv_obj. repeat (apply Forall2_cons_2; [split; [done|cbn [snd];
    first [apply je_refl | symmetry; apply sorted_document_equiv]]|]). apply Forall2_nil_2.
Qed.

(** ** Rolling back *)

Lemma save_v4_exact r c s : edit_version c = lane_version s V4_DRAFT_ID →
  store_draft_v4 key r c s s =
  Ok (set_edit_version (edit_version c + 1) c,
      with_draft V4_DRAFT_ID
        {| document_encrypted := seal key (nonce r 0) (source_document V4 c);
           row_version := edit_version c + 1; updated_at := now r; updated_by := actor r |} s).
Proof using Type.
  intros Hv. unfold store_draft_v4, store_lane, write_row. unfold lane_version in Hv.
  rewrite decide_True by done. rewrite Hv.
  destruct (read_draft s V4_DRAFT_ID) as [row|] eqn:E; cbn [mbind result_bind]; rewrite E; [|done].
  rewrite bool_decide_false by done. by rewrite decide_True.
Qed.

Definition later (r : request) : request :=
  {| now := now r; nonce := λ n, nonce r (n + 2); uuid_hex := uuid_hex r; actor := actor r |}.

(** The database after a rollback to the configuration [c] of revision [rid]. *)
Definition rolled_back_store (r : request) (c : FlowDocument) (rid : Z) (out : compiled) (s : store) : store :=
  let id := next_revision s in
  audit (actor r) "revision.rollback_published" (revision_name id) (JObj [("source_revision_id", JInt rid)])
  (with_devices (assign_revision id)
    (with_draft V4_DRAFT_ID
      {| document_encrypted := seal key (nonce r 2) (source_document V4 c);
         row_version := edit_version c + 1; updated_at := now r; updated_by := actor r |}
      (with_revision id (published_row id r c (prompts_for_configuration c s) (Some rid) out)
        (with_revision id (pending_row r (Some rid)) s)))).

Lemma rollback_ok r rid s id s' source n r0 c0 rows0 source0 out0 : length n = 12 →
  revisions s !! rid = Some source → revision_schema_version source = 4%Z →
  manifest_encrypted source = seal key n (manifest rid r0 c0 rows0 source0 out0) →
  document_fields V4 c0 = true →
  rollback_v4_revision key signing_key zoneinfo limit r rid s = Ok (id, s') ↔
  ∃ current out, let c := set_edit_version (lane_version s V4_DRAFT_ID) c0 in
  load_draft_v4 key s = Ok current ∧ validation_errors zoneinfo limit s c = Ok [] ∧ capable s c ∧
  compile_configuration V4 c (prompts_for_configuration c s) = Ok out ∧
  id = next_revision s ∧ s' = rolled_back_store r c rid out s.
Proof using Type*.
  intros Hn Hsrc Hver Hman Hc0. cbn zeta. unfold rollback_v4_revision. rewrite Hsrc. cbn [of_option mbind result_bind].
  rewrite decide_False by (rewrite Hver; by intros []). unfold load_manifest.
  rewrite Hman, unseal_seal by (done || apply manifest_keys). cbn [mbind result_bind].
  rewrite result_bind_ok. split.
  - intros (current & Hcur & E). pose proof (draft_version _ _ Hcur) as [Hv Hpos].
  rewrite manifest_configuration_ok in E by done. cbn [mbind result_bind] in E. rewrite Hv in E.
  apply result_bind_ok in E as ([|? ?] & Hval & E); [|discriminate]. cbn [reject_errors mbind result_bind] in E.
  apply result_bind_ok in E as ([] & Hcap & E). apply result_bind_ok in E as ([id' s1] & Hcr & E).
  apply create_revision_ok in Hcr as (out & Hout & -> & ->). rewrite save_v4_exact in E by done.
  injection E as <- <-. exists current, out. by rewrite <- require_v4_ok.
  - intros (current & out & Hcur & Hval & Hcap & Hout & -> & ->). exists current. split; [done|].
  pose proof (draft_version _ _ Hcur) as [Hv Hpos]. rewrite manifest_configuration_ok by done.
  cbn [mbind result_bind]. rewrite Hv, Hval. cbn [reject_errors mbind result_bind].
  rewrite (proj2 (require_v4_ok s _) Hcap). cbn [mbind result_bind].
  rewrite (proj2 (create_revision_ok _ _ r (Some rid) s _ _)) by eauto. cbn [mbind result_bind].
  by rewrite save_v4_exact.
Qed.
End Publish.

(** ** Theorems *)

Section Theorems.
Context `{CryptographyLaws} (key signing_key : bytes) (zoneinfo : string → zone_lookup) (limit : Z).

(** C7 publishing succeeds exactly when the draft loads, was the one reviewed, is
  publishable with the stored prompts, compiles within the session limit, and every
  active device (at least one) is capable of it; the result is then determined:
  a new revision, assigned to the active devices, and an audit entry. *)
Theorem publish_v4_exact r body s id s' :
  publish_draft_v4 key signing_key zoneinfo limit r body s = Ok (id, s') ↔
  ∃ c root out, load_draft_v4 key s = Ok c ∧
  match body with
  | None => True
  | Some b => edit_version c = reviewed_edit_version b ∧ latest_revision_id s = base_revision_id b
  end ∧
  publishable_in zoneinfo limit s c root ∧
  compile_configuration V4 c (prompts_for_configuration c s) = Ok out ∧ capable s c ∧
  id = next_revision s ∧ s' = published_store key signing_key r c out s.
Proof using Type. rewrite publish_ok. by setoid_rewrite check_review_ok. Qed.

(** C8 what a publication stores can be verified by a device: the new row, which
  replaces none, decrypts to the manifest of the draft with its compiled program, and
  its digest and signature are those of that document.  Drafts and earlier revisions
  stay, every active device is assigned the new revision and no revoked one is. *)
Theorem published_revision_verifies r body s id s' : fresh_revisions s → length (nonce r 1) = 12 →
  publish_draft_v4 key signing_key zoneinfo limit r body s = Ok (id, s') →
  ∃ c out row m, load_draft_v4 key s = Ok c ∧ compile_configuration V4 c (prompts_for_configuration c s) = Ok out ∧
  revisions s !! id = None ∧ revisions s' !! id = Some row ∧
  load_manifest key row = Ok m ∧ m ≡ manifest id r c (prompts_for_configuration c s) None out ∧
  (manifest_sha256 row, signature_b64 row) = sign signing_key m ∧
  drafts s' = drafts s ∧ (∀ i, i ≠ id → revisions s' !! i = revisions s !! i) ∧
  (∀ i d, devices s !! i = Some d → ∃ d', devices s' !! i = Some d' ∧
     match revoked_at d with None => desired_revision_id d' = Some id | Some _ => d' = d end).
Proof using Type*.
  intros Hf Hn (c & root & out & Hl & _ & _ & Hout & _ & -> & ->)%publish_ok.
  set (rows := prompts_for_configuration c s). set (id := next_revision s).
  exists c, out, (published_row key signing_key id r c rows None out), (sorted_document (manifest id r c rows None out)).
  split; [done|]. split; [done|]. split; [by apply fresh_none|].
  split; [by rewrite published_lookup, decide_True|]. split; [by apply load_published|].
  pose proof (sorted_document_equiv (manifest id r c rows None out)) as Heq. split; [done|]. split.
  { rewrite (sign_equiv signing_key _ _ (proj2 (json_equiv_keys _ _ Heq) (manifest_keys id r c rows None out)) Heq).
  cbn [published_row manifest_sha256 signature_b64]. by destruct (sign _ _). }
  split; [done|]. split; [intros i Hi; by rewrite published_lookup, decide_False|].
  intros i d Hd. exists (assign_revision id d). split.
  - unfold published_store. cbn [audit with_devices with_revision devices]. by rewrite lookup_fmap, Hd.
  - unfold assign_revision. by destruct (revoked_at d).
Qed.

(** C10 rolling back to a V4 revision publishes the policy, schedules, recording behaviour
  and flow of that revision again and makes them the next version of the draft. *)
Theorem rollback_restores r rid s id s' source n r0 c0 rows0 source0 out0 :
  (∀ i, length (nonce r i) = 12) → length n = 12 →
  revisions s !! rid = Some source → revision_schema_version source = 4%Z →
  manifest_encrypted source = seal key n (manifest rid r0 c0 rows0 source0 out0) →
  document_fields V4 c0 = true →
  rollback_v4_revision key signing_key zoneinfo limit r rid s = Ok (id, s') →
  let c := set_edit_version (lane_version s V4_DRAFT_ID) c0 in
  load_draft_v4 key s' = Ok (set_edit_version (lane_version s V4_DRAFT_ID + 1) c0) ∧
  ∃ out row m, compile_configuration V4 c (prompts_for_configuration c s) = Ok out ∧
  revisions s' !! id = Some row ∧ load_manifest key row = Ok m ∧
  m ≡ manifest id r c (prompts_for_configuration c s) (Some rid) out.
Proof using Type*.
  intros Hn Hn0 Hsrc Hver Hman Hc0 E c.
  apply (rollback_ok key signing_key zoneinfo limit r rid s id s' source n r0 c0 rows0 source0 out0) in E
  as (current & out & Hcur & _ & _ & Hout & -> & ->); try done.
  apply draft_version in Hcur as [Hcv Hpos]. rewrite Hcv in Hpos. split.
  - set (s' := rolled_back_store _ _ _ _ _ _ _).
  assert (Hrow : ∃ row, read_draft s' V4_DRAFT_ID = Some row ∧ holds key V4 row c ∧
    row_version row = (lane_version s V4_DRAFT_ID + 1)%Z).
  { eexists. split; [unfold read_draft; subst s'; unfold rolled_back_store;
      cbn [audit with_devices with_draft drafts]; apply lookup_insert_eq|].
    split; [eexists; split; [apply Hn|reflexivity]|done]. }
  destruct Hrow as (row & Hrow & Hheld & Hrv).
  pose proof (load_held key V4 s' row c Hrow Hheld) as Hl. cbn [load_lane] in Hl. rewrite Hl, Hrv; [done| |lia].
  by apply document_fields_version.
  - eexists out, _, _. split; [done|]. split.
  + unfold rolled_back_store. cbn [audit with_devices with_draft with_revision revisions]. apply lookup_insert_eq.
  + split; [by apply load_published|]. apply sorted_document_equiv.
Qed.
End Theorems.

(** ** The theorems at a concrete database *)

#[local] Existing Instance plain_suite.
#[local] Existing Instance plain_suite_laws.

Definition example_prompt (i : string) (size duration : Z) : prompt_row :=
  {| prompt_id := i; prompt_name := "Prompt"; prompt_version := 1; content_hash := "hash of " +:+ i;
     size_bytes := size; duration_ms := duration; storage_name := i +:+ ".wav"; prompt_created := now example_request |}.

Definition example_device : device_row :=
  {| display_name := "Front desk"; token_hash := "hash of the token"; app_version := "0.9.2"; helper_version := "0.9.2";
     desired_revision_id := None; active_revision_id := None; last_seen_at := None; enrolled_at := now example_request;
     revoked_at := None;
     status_document := Some [("runtime_versions", JList [JInt 1; JInt 2; JInt 3; JInt 4]);
                     ("external_call_control_capable", JBool true); ("conversation_recording_capable", JBool true);
                     ("call_control_protocol_version", JInt 2); ("prompt_barge_in_capable", JBool true)] |}.

Definition example_store : store :=
  {| drafts := {[V4_DRAFT_ID := example_row V4 example_v4]}; archive := [];
     prompts := {[prompt_a := example_prompt prompt_a 48044 3000; prompt_b := example_prompt prompt_b 96044 6000]};
     revisions := ∅; next_revision := 1; devices := {["device" := example_device]}; audit_log := [] |}.

Definition example_review : publish_request := {| reviewed_edit_version := 5; base_revision_id := None |}.

(** What the compiler makes of the example. *)
Definition example_out : compiled :=
  match compile_configuration V4 (saved example_v4 5) (prompts_for_configuration (saved example_v4 5) example_store) with
  | Ok out => out
  | Raise _ => {| compiler_version := ""; compiled_program := {| pversion := 0; entry_pc := 0; session_ms := None; instructions := [] |} |}
  end.

Lemma example_compiles :
  compile_configuration V4 (saved example_v4 5) (prompts_for_configuration (saved example_v4 5) example_store)
  = Ok example_out.
Proof. vm_compute. reflexivity. Defined.

Lemma example_loads s : read_draft s V4_DRAFT_ID = Some (example_row V4 example_v4) →
  load_draft_v4 example_key s = Ok (saved example_v4 5).
Proof.
  intros Hr. exact (load_held example_key V4 s (example_row V4 example_v4) (saved example_v4 5) Hr
    (example_row_holds V4 example_v4) ltac:(vm_compute; reflexivity) ltac:(done)).
Defined.

Lemma example_capable s : devices s = devices example_store → capable s (saved example_v4 5).
Proof.
  intros Hd. apply require_v4_ok. unfold require_v4_device_capabilities, active_devices. rewrite Hd.
  vm_compute. reflexivity.
Defined.

Definition example_published : store :=
  published_store example_key example_key example_request (saved example_v4 5) example_out example_store.

Lemma example_publish_ok :
  publish_draft_v4 example_key example_key example_zones (128 * MIB) example_request (Some example_review) example_store
  = Ok (1%Z, example_published).
Proof.
  apply publish_ok.
  destruct (proj1 (validation_errors_nil example_zones (128 * MIB) example_store (saved example_v4 5))) as (root & out & Hp & _);
    [vm_compute; reflexivity|].
  exists (saved example_v4 5), root, example_out. split; [by apply example_loads|]. split; [vm_compute; reflexivity|].
  split; [exact Hp|]. split; [apply example_compiles|]. by split; [apply example_capable|].
Defined.

Lemma example_fresh : fresh_revisions example_store.
Proof. intros i [row Hr]. unfold example_store in Hr. cbn [revisions] in Hr. by rewrite lookup_empty in Hr. Defined.

Theorem published_revision_verifies_witness : ∃ row, revisions example_published !! 1%Z = Some row.
Proof.
  destruct (published_revision_verifies example_key example_key example_zones (128 * MIB) example_request
    (Some example_review) example_store 1 example_published example_fresh ltac:(reflexivity) example_publish_ok)
    as (c & out & row & m & _ & _ & _ & Hrow & _).
  exists row. exact Hrow.
Defined.

Definition example_source : revision_row :=
  published_row example_key example_key 1 example_request (saved example_v4 5)
    (prompts_for_configuration (saved example_v4 5) example_store) None example_out.
Definition example_before : store := with_revision 1 example_source example_store.
Definition example_rolled_back : store :=
  rolled_back_store example_key example_key example_request (saved example_v4 5) 1 example_out example_before.

Lemma example_rollback_ok :
  rollback_v4_revision example_key example_key example_zones (128 * MIB) example_request 1 example_before
  = Ok (2%Z, example_rolled_back).
Proof.
  apply (rollback_ok example_key example_key example_zones (128 * MIB) example_request 1 example_before 2 example_rolled_back
    example_source (nonce example_request 1) example_request (saved example_v4 5)
    (prompts_for_configuration (saved example_v4 5) example_store) None example_out);
    [reflexivity|reflexivity|reflexivity|reflexivity|vm_compute; reflexivity|].
  exists (saved example_v4 5), example_out. split; [by apply example_loads|]. split; [vm_compute; reflexivity|].
  split; [by apply example_capable|]. split; [apply example_compiles|]. by split.
Defined.

Theorem rollback_restores_witness : load_draft_v4 example_key example_rolled_back = Ok (saved example_v4 6).
Proof.
  exact (proj1 (rollback_restores example_key example_key example_zones (128 * MIB) example_request 1
    example_before 2 example_rolled_back example_source (nonce example_request 1)
    example_request (saved example_v4 5) (prompts_for_configuration (saved example_v4 5) example_store) None example_out
    ltac:(intros i; reflexivity) ltac:(reflexivity) ltac:(reflexivity) ltac:(reflexivity) ltac:(reflexivity)
    ltac:(vm_compute; reflexivity) example_rollback_ok)).
Defined.
