(* ===== verification/Diff.v ===== *)
(** * Comparing a configuration with a revision ([diff_v2.py], [revision_diff.py])

    The review screen's differences between a draft and a published revision: blocks
    added, removed and changed, and the changes of caller policy, schedules and
    recording behaviour, with the handler [diff_draft_v4].  [py_repr] is Python's text
    of a list or dictionary, which no published manifest has in the places shown here;
    digits and letter case are those of ASCII. *)
From Stdlib Require Import Ascii.
From stdpp Require Import base gmap sets strings numbers pretty sorting list.
From S2P Require Import Prelude FlowTree Schemas Validation Json Crypto Documents Store Revisions V4Api.

(** ** Python on parsed documents *)

(** [==]; truth values are the integers 0 and 1. *)
Definition number (j : json) : option Z :=
  match j with JInt z => Some z | JBool b => Some (if b then 1 else 0)%Z | _ => None end.
Fixpoint py_eq (j k : json) : bool :=
  match j, k with
  | JNull, JNull => true
  | JStr s, JStr t => bool_decide (s = t)
  | JList l, JList m =>
      (fix go l m := match l, m with
       | [], [] => true
       | x :: l, y :: m => py_eq x y && go l m
       | _, _ => false
       end) l m
  | JObj o, JObj p =>
      (length o =? length p) &&
      (fix go o := match o with
       | [] => true
       | (i, x) :: o => match assoc i p with Some y => py_eq x y && go o | None => false end
       end) o
  | _, _ => match number j with Some m => bool_decide (number k = Some m) | None => false end
  end.
Definition py_truthy (j : json) : bool :=
  match j with
  | JNull => false
  | JBool b => b
  | JInt z => negb (bool_decide (z = 0)%Z)
  | JStr s => negb (bool_decide (s = ""))
  | JList l => negb (bool_decide (l = []))
  | JObj o => negb (bool_decide (o = []))
  end.
(** [value.get(k)] of a value that is a dictionary. *)
Definition member (k : string) (o : list (string * json)) : json := default JNull (assoc k o).

Definition str_le (a b : string) : Prop := ¬ str_lt b a.
#[global] Instance str_le_dec : RelDecision str_le.
Proof. intros a b. unfold str_le. apply _. Defined.
(** [sorted(s)] of a set of strings. *)
Definition sorted_set (s : gset string) : list string := merge_sort str_le (elements s).

(** ** [diff_v2.py] *)

Definition CHILD_FIELDS : list string :=
  ["next"; "branches"; "on_timeout"; "on_invalid"; "on_return_limit"; "on_open"; "on_closed"; "on_holiday";
   "on_unavailable"; "on_not_connected"; "on_system_failure"].

Definition members (j : json) : list (string * json) := match j with JObj o => o | _ => [] end.

(** [block.model_dump(mode="json", exclude=CHILD_FIELDS)], with the digits of a menu. *)
Definition block_document (b : block) : json :=
  JObj (filter (λ m, m.1 ∉ CHILD_FIELDS) (members (dump_block b))
        ++ match b with
           | CollectDigit _ _ _ _ _ _ brs _ _ _ =>
               [("digits", JList (map JStr (merge_sort str_le (map (λ br, dtmf_str (branch_digit br)) brs))))]
           | _ => []
           end).
Definition block_documents (root : option block) : gmap string (string * json) :=
  foldl (λ m p, <[block_id p.1 := (block_label p.1, block_document p.1)]> m) ∅ (walk_blocks root).

(** [d[i][0]] *)
Definition label_of (d : gmap string (string * json)) (i : string) : string :=
  match d !! i with Some (name, _) => name | None => "" end.
Definition changed_document (before after : gmap string (string * json)) (i : string) : bool :=
  match before !! i, after !! i with
  | Some (_, x), Some (_, y) => negb (py_eq x y)
  | _, _ => false
  end.

Record flow_changes := { added : nat; removed : nat; changed : nat; changes : list string }.

Definition diff_flows (base : option (option block)) (current : option block) : flow_changes :=
  let before := match base with None => ∅ | Some base => block_documents base end in
  let after := block_documents current in
  let added_ids := sorted_set (dom after ∖ dom before) in
  let removed_ids := sorted_set (dom before ∖ dom after) in
  let changed_ids := filter (λ i, changed_document before after i = true) (sorted_set (dom before ∩ dom after)) in
  let changes := map (λ i, "Added " +:+ label_of after i) added_ids
                 ++ map (λ i, "Removed " +:+ label_of before i) removed_ids
                 ++ map (λ i, "Changed " +:+ label_of after i) changed_ids in
  {| added := length added_ids; removed := length removed_ids; changed := length changed_ids;
     changes := take 256 changes |}.

(** ** [revision_diff.py] *)

(** [str.title()] *)
Definition is_alpha (c : ascii) : bool := char_in 65 90 c || char_in 97 122 c.
Definition upper (c : ascii) : ascii := if char_in 97 122 c then ascii_of_nat (nat_of_ascii c - 32) else c.
Definition lower (c : ascii) : ascii := if char_in 65 90 c then ascii_of_nat (nat_of_ascii c + 32) else c.
Fixpoint title_from (inside : bool) (s : string) : string :=
  match s with
  | EmptyString => EmptyString
  | String c s => String (if inside then lower c else upper c) (title_from (is_alpha c) s)
  end.
Definition title (s : string) : string := title_from false s.
Fixpoint replace_char (a b : ascii) (s : string) : string :=
  match s with
  | EmptyString => EmptyString
  | String c s => String (if bool_decide (c = a) then b else c) (replace_char a b s)
  end.

Definition POLICY_MODE_LABELS : list (string * string) :=
  [("IVR_DISABLED", "IVR disabled"); ("ALLOWLIST_ONLY", "Allowlist only"); ("ACCEPT_ALL", "Accept all");
   ("ACCEPT_ALL_EXCEPT_BLOCKLIST", "All except exclusion list")].
Definition BROAD_POLICY_MODES : list CallerPolicyMode := [ACCEPT_ALL; ACCEPT_ALL_EXCEPT_BLOCKLIST].

(** [value[-n:]] *)
Definition last_characters (n : nat) (l : list ascii) : list ascii := drop (length l - n) l.

Definition masked_number (value : string) : string :=
  match filter (λ c, char_in 48 57 c = true) (String.list_ascii_of_string value) with
  | [] => "number unavailable"
  | digits => "••••" +:+ String.string_of_list_ascii (last_characters 4 digits)
  end.

Definition entry_step (m : gmap string string) (entry : json) : gmap string string :=
  match entry with
  | JObj o => match member "e164" o, member "label" o with
              | JStr number, JStr label => <[number := label]> m
              | _, _ => m
              end
  | _ => m
  end.
Definition entry_map (entries : json) : gmap string string :=
  match entries with JList l => foldl entry_step ∅ l | _ => ∅ end.

Definition name_of (m : gmap string string) (i : string) : string := default "" (m !! i).

Definition caller_list_changes (before after : json) (list_label : string) : list string :=
  let previous := entry_map before in
  let current := entry_map after in
  map (λ number, "Added to " +:+ list_label +:+ ": " +:+ name_of current number +:+ " (" +:+ masked_number number +:+ ")")
    (sorted_set (dom current ∖ dom previous))
  ++ map (λ number, "Removed from " +:+ list_label +:+ ": " +:+ name_of previous number
                    +:+ " (" +:+ masked_number number +:+ ")")
    (sorted_set (dom previous ∖ dom current))
  ++ map (λ number, "Renamed in " +:+ list_label +:+ ": " +:+ name_of previous number +:+ " → "
                    +:+ name_of current number +:+ " (" +:+ masked_number number +:+ ")")
    (filter (λ number, name_of previous number ≠ name_of current number)
       (sorted_set (dom previous ∩ dom current))).

Definition when {A} (b : bool) (l : list A) : list A := if b then l else [].

Section RevisionDiff.
Context (py_repr : json → string).

(** [str(value)] *)
Definition py_str (j : json) : string :=
  match j with
  | JNull => "None"
  | JBool b => if b then "True" else "False"
  | JInt z => pretty z
  | JStr s => s
  | JList _ | JObj _ => py_repr j
  end.

Definition policy_mode_label (value : json) : string :=
  default (title (replace_char "_"%char " "%char (py_str value))) (assoc (py_str value) POLICY_MODE_LABELS).

Definition caller_policy_diff (base_policy : json) (c : FlowDocument) : list string * bool :=
  let current := caller_policy c in
  let broad := bool_decide (mode current ∈ BROAD_POLICY_MODES) in
  let callers b := if (b : bool) then "IVR" else "stock dialer" in
  let allowed := JList (map dump_entry (allowlist current)) in
  let blocked := JList (map dump_entry (blocklist current)) in
  match base_policy with
  | JObj previous =>
      let previous_mode := member "mode" previous in
      let previous_routing := default (JBool false) (assoc "route_unknown_callers" previous) in
      let mode_changed := negb (py_eq previous_mode (dump_mode (mode current))) in
      let changes :=
        when mode_changed ["Policy mode: " +:+ policy_mode_label previous_mode +:+ " → "
                           +:+ policy_mode_label (dump_mode (mode current))]
        ++ when (negb (py_eq previous_routing (JBool (route_unknown_callers current))))
             ["Hidden or unknown callers: " +:+ callers (py_truthy previous_routing) +:+ " → "
              +:+ callers (route_unknown_callers current)]
        ++ caller_list_changes (member "allowlist" previous) allowed "allowlist"
        ++ caller_list_changes (member "blocklist" previous) blocked "exclusion list" in
      (changes, mode_changed && broad
                || negb (match previous_routing with JBool b => b | _ => false end) && route_unknown_callers current)
  | _ =>
      (["Initial policy mode: " +:+ policy_mode_label (dump_mode (mode current));
        "Hidden or unknown callers: " +:+ callers (route_unknown_callers current)]
       ++ caller_list_changes (JList []) allowed "allowlist" ++ caller_list_changes (JList []) blocked "exclusion list",
       broad || route_unknown_callers current)
  end.

(** [{item["id"]: item for item in items if isinstance(item.get("id"), str)}] *)
Definition schedule_table (items : list json) : gmap string (list (string * json)) :=
  foldl (λ m item, match item with
                   | JObj o => match member "id" o with JStr i => <[i := o]> m | _ => m end
                   | _ => m
                   end) ∅ items.

(** [item.get("name", id)] *)
Definition schedule_name (i : string) (item : list (string * json)) : json := default (JStr i) (assoc "name" item).

Definition schedule_diff (base_schedules : json) (c : FlowDocument) : list string :=
  let previous := schedule_table (match base_schedules with JList l => l | _ => [] end) in
  let current := schedule_table (map dump_schedule (schedules c)) in
  let name m i := schedule_name i (default [] (m !! i)) in
  map (λ i, "Added schedule: " +:+ py_str (name current i)) (sorted_set (dom current ∖ dom previous))
  ++ map (λ i, "Removed schedule: " +:+ py_str (name previous i)) (sorted_set (dom previous ∖ dom current))
  ++ map (λ i, let before_name := name previous i in
               let after_name := name current i in
               "Changed schedule: " +:+ (if py_eq before_name after_name then py_str after_name
                                         else py_str before_name +:+ " → " +:+ py_str after_name))
       (filter (λ i, py_eq (JObj (default [] (previous !! i))) (JObj (default [] (current !! i))) = false)
          (sorted_set (dom previous ∩ dom current))).

Definition finish_key_label (value : json) : string := match value with JNull => "disabled" | _ => py_str value end.

Definition recording_behavior_diff (base_behavior : json) (c : FlowDocument) : list string :=
  let current := recording_behavior c in
  let seconds := JInt (maximum_duration_seconds current) in
  let key := dump_option JStr (finish_key current) in
  match base_behavior with
  | JObj previous =>
      when (negb (py_eq (member "maximum_duration_seconds" previous) seconds))
        ["Maximum recording duration: " +:+ py_str (member "maximum_duration_seconds" previous) +:+ " → "
         +:+ py_str seconds +:+ " seconds"]
      ++ when (negb (py_eq (member "finish_key" previous) key))
           ["Recording finish key: " +:+ finish_key_label (member "finish_key" previous) +:+ " → "
            +:+ finish_key_label key]
  | _ => ["Initial maximum recording duration: " +:+ py_str seconds +:+ " seconds";
          "Initial recording finish key: " +:+ finish_key_label key]
  end.

Record configuration_changes := {
  caller_policy_changes : list string;
  schedule_changes : list string;
  recording_changes : list string;
  requires_policy_confirmation : bool;
  }.

(** [base_manifest or {}] must be a dictionary. *)
Definition revision_configuration_diff (base_manifest : option json) (c : FlowDocument) : result configuration_changes :=
  let manifest := match base_manifest with Some m => if py_truthy m then m else JObj [] | None => JObj [] end in
  policy ← get_member "caller_policy" manifest;
  scheds ← get_member "schedules" manifest;
  recording ← get_member "recording_behavior" manifest;
  let '(policy_changes, confirmation) := caller_policy_diff (default JNull policy) c in
  Ok {| caller_policy_changes := policy_changes; schedule_changes := schedule_diff (default JNull scheds) c;
        recording_changes := recording_behavior_diff (default JNull recording) c;
        requires_policy_confirmation := confirmation |}.

(** [FlowDiffResult] with its length limits. *)
Record FlowDiffResult := {
  base_revision : option Z; legacy_base : bool; flow_part : flow_changes; configuration_part : configuration_changes }.
Definition flow_diff_result (base : option Z) (legacy : bool) (f : flow_changes) (c : configuration_changes)
    : result FlowDiffResult :=
  if (length (changes f) <=? 256) && (length (caller_policy_changes c) <=? 4096)
     && (length (schedule_changes c) <=? 64) && (length (recording_changes c) <=? 2)
  then Ok {| base_revision := base; legacy_base := legacy; flow_part := f; configuration_part := c |}
  else Raise validation_error.

Section Handler.
Context `{Cryptography} (key : bytes).

(** The revision compared with: the one asked for, or the latest. *)
Definition base_revision_of (base_revision_id : option Z) (s : store) : result (option (Z * revision_row)) :=
  match base_revision_id with
  | Some i =>
    row ← of_option (HTTPException 404 ["Base revision not found"]) (revisions s !! i);
    Ok (Some (i, row))
  | None => Ok (i ← latest_revision_id s; row ← revisions s !! i; Some (i, row))
  end.

Definition diff_draft_v4 (c : FlowDocument) (base_revision_id : option Z) (s : store) : result FlowDiffResult :=
  base ← base_revision_of base_revision_id s;
  base_manifest ← match base with
                | Some (_, row) => manifest ← load_manifest key row; Ok (Some manifest)
                | None => Ok None
                end;
  base_flow ← match base, base_manifest with
            | Some (_, row), Some manifest =>
                if decide (revision_schema_version row = 4%Z)
                then document ← get_item "flow" manifest; root ← load_flow document; Ok (Some root)
                else Ok None
            | _, _ => Ok None
            end;
  let result := diff_flows base_flow (flow c) in
  configuration_changes ← revision_configuration_diff base_manifest c;
  flow_diff_result (fst <$> base)
  (match base with Some (_, row) => bool_decide (revision_schema_version row ≠ 4%Z) | None => false end)
  result configuration_changes.
End Handler.
End RevisionDiff.
