(* ===== verification/DiffFacts.v ===== *)
(** * Lemmas on comparisons

    Python equality on documents, sorted sets of keys, and the tables a comparison
    builds from lists and trees. *)
From Stdlib Require Import Ascii.
From stdpp Require Import base gmap sets strings numbers pretty sorting list.
From S2P Require Import Prelude FlowTree Schemas Validation Json Crypto Documents DocumentsFacts DocumentsRound DocumentsStore Store Revisions V4Api Diff.

(** ** [==] on documents *)

Lemma py_eq_obj o p : py_eq (JObj o) (JObj p) = true ↔
  length o = length p ∧ ∀ i x, (i, x) ∈ o → ∃ y, assoc i p = Some y ∧ py_eq x y = true.
Proof.
  cbn [py_eq]. rewrite andb_true_iff, Nat.eqb_eq. apply and_iff_compat_l.
  induction o as [|[i x] o IH]; [set_solver|]. split.
  - destruct (assoc i p) as [y|] eqn:E; [|done]. intros [Hx Ho]%andb_true_iff i' x' [[= -> ->]|Hin]%elem_of_cons.
    + eauto.
    + by apply (proj1 IH).
  - intros H. destruct (H i x ltac:(by left)) as (y & -> & ->). cbn [andb]. apply IH. intros. apply H. by right.
Qed.

Lemma py_eq_list l m : py_eq (JList l) (JList m) = true ↔ Forall2 (λ x y, py_eq x y = true) l m.
Proof.
  cbn [py_eq]. revert m. induction l as [|x l IH]; intros [|y m].
  - split; [constructor|done].
  - split; [done|by inversion 1].
  - split; [done|by inversion 1].
  - rewrite andb_true_iff, Forall2_cons, IH. done.
Qed.

(** A document is equal to the one it is read back as. *)
Lemma py_eq_sorted j : dict_keys_ok j → py_eq (sorted_document j) j = true.
Proof.
  induction j as [|b|z|s|l IH|o IH] using json_nested_ind; intros Hok.
  - done.
  - cbn. by apply bool_decide_eq_true.
  - cbn. by apply bool_decide_eq_true.
  - cbn. by apply bool_decide_eq_true.
  - cbn [sorted_document]. apply py_eq_list. apply keys_ok_list in Hok.
    induction IH as [|x l Hx _ IHl]; cbn [map]; [constructor|]. apply Forall_cons in Hok as [? ?].
    constructor; auto.
  - apply keys_ok_members in Hok as [Hnd Hall]. change (sorted_document (JObj o)) with (JObj (sorted_members o)).
    pose proof (sort_keys_perm (map (λ '(k, v), (k, sorted_document v)) o)) as Hp.
    apply py_eq_obj. unfold sorted_members. split; [by rewrite Hp, length_map|].
    intros i x Hin. rewrite Hp in Hin. apply list_elem_of_In, in_map_iff in Hin as ([i' y] & [= -> <-] & Hin).
    apply list_elem_of_In in Hin. exists y. rewrite assoc_Some by done. split; [done|].
    rewrite Forall_forall in IH, Hall. by apply (IH (i, y)), (Hall (i, y)).
Qed.

(** Documents without truth values: [==] then means the same document. *)
Fixpoint bool_free (j : json) : Prop :=
  match j with
  | JBool _ => False
  | JList l => foldr (λ x P, bool_free x ∧ P) True l
  | JObj o => foldr (λ p P, bool_free p.2 ∧ P) True o
  | _ => True
  end.
Lemma bool_free_list l : bool_free (JList l) ↔ Forall bool_free l.
Proof. cbn [bool_free]. by rewrite <- foldr_and_Forall. Qed.
Lemma bool_free_obj o : bool_free (JObj o) ↔ Forall (λ p, bool_free p.2) o.
Proof. cbn [bool_free]. by rewrite <- foldr_and_Forall. Qed.

(** Members listed in the order of another dictionary with the same keys. *)
Lemma reorder_members (o p : list (string * json)) : NoDup o.*1 → NoDup p.*1 → length o = length p →
  (∀ i x, (i, x) ∈ o → is_Some (assoc i p)) → map (λ '(i, _), (i, default JNull (assoc i p))) o ≡ₚ p.
Proof.
  intros Ho Hp Hlen Hin. set (o' := map _ o).
  assert (Hk : o'.*1 = o.*1) by (subst o'; clear; induction o as [|[i x] o IH]; csimpl; [done|by rewrite IH]).
  assert (Hnd : NoDup o') by (apply (NoDup_fmap_1 fst); change (fmap fst o') with (o'.*1); by rewrite Hk).
  assert (Hsub : o' ⊆+ p).
  { apply NoDup_submseteq; [done|]. intros [i y] Hi. apply list_elem_of_In, in_map_iff in Hi as ([i' x] & [= -> <-] & Hi).
    apply list_elem_of_In in Hi. destruct (Hin i x Hi) as [y Hy]. rewrite Hy. by apply assoc_Some in Hy. }
  apply submseteq_length_Permutation; [done|]. subst o'. rewrite length_map. lia.
Qed.

Lemma py_eq_equiv j k : dict_keys_ok j → dict_keys_ok k → bool_free j → bool_free k → py_eq j k = true → j ≡ k.
Proof.
  revert k. induction j as [|b|z|s|l IH|o IH] using json_nested_ind; intros k Hj Hk Bj Bk H.
  - destruct k; try done; apply je_refl.
  - done.
  - destruct k; try done. cbn in H. apply bool_decide_eq_true in H. injection H as ->. apply je_refl.
  - destruct k; try done. cbn in H. apply bool_decide_eq_true in H. subst. apply je_refl.
  - destruct k as [| | | |m|]; try done. apply json_equiv_list. apply py_eq_list in H.
    apply keys_ok_list in Hj, Hk. apply bool_free_list in Bj, Bk.
    induction H as [|x y l m Hxy _ IHl]; [constructor|].
    apply Forall_cons in IH as [IHx IH], Hj as [? ?], Hk as [? ?], Bj as [? ?], Bk as [? ?].
    constructor; auto.
  - destruct k as [| | | | |p]; try done. apply py_eq_obj in H as [Hlen H].
    apply keys_ok_members in Hj as [Ho Hj], Hk as [Hp Hk]. apply bool_free_obj in Bj, Bk.
    etrans; [|apply je_members, (reorder_members o p Ho Hp Hlen); intros i x Hi; destruct (H i x Hi) as (y & -> & _); done].
    apply json_equiv_obj. clear Ho Hlen. rewrite Forall_forall in Hk, Bk.
    induction o as [|[i x] o IHo]; cbn [map]; [constructor|].
    apply Forall_cons in IH as [IHx IH], Hj as [? ?], Bj as [? ?].
    destruct (H i x ltac:(by left)) as (y & Hy & Hxy). constructor.
    + rewrite Hy. split; [done|]. apply assoc_Some in Hy; [|done]. apply IHx; [done|by apply (Hk (i, y))|done|by apply (Bk (i, y))|done].
    + apply IHo; try done. intros. apply H. by right.
Qed.

(** ** Sorted sets *)

Lemma sorted_set_perm s : sorted_set s ≡ₚ elements s.
Proof. apply merge_sort_Permutation. Qed.
Lemma elem_of_sorted_set s i : i ∈ sorted_set s ↔ i ∈ s.
Proof. by rewrite sorted_set_perm, elem_of_elements. Qed.
Lemma length_sorted_set s : length (sorted_set s) = size s.
Proof. by rewrite sorted_set_perm. Qed.
Lemma sorted_set_nil s : sorted_set s = [] ↔ s = ∅.
Proof.
  rewrite <- length_zero_iff_nil, length_sorted_set. rewrite size_empty_iff. by rewrite leibniz_equiv_iff.
Qed.

(** The keys that were added, removed and altered between two tables are no more than
    the entries of both. *)
Lemma differences_length {A B} (m : gmap string A) (k : gmap string B) (P : string → Prop) `{∀ i, Decision (P i)} :
  length (sorted_set (dom k ∖ dom m)) + length (sorted_set (dom m ∖ dom k))
  + length (filter P (sorted_set (dom m ∩ dom k))) ≤ size m + size k.
Proof.
  pose proof (length_filter P (sorted_set (dom m ∩ dom k))) as Hf. rewrite !length_sorted_set in *.
  rewrite <- !size_dom. set (X := dom m) in *. set (Y := dom k) in *.
  assert (HX : size (X ∖ Y) + size (X ∩ Y) = size X).
  { rewrite <- size_union by set_solver. f_equal. apply leibniz_equiv. intros i.
    destruct (decide (i ∈ Y)); set_solver. }
  assert (HY : size (Y ∖ X) + size (X ∩ Y) = size Y).
  { rewrite <- size_union by set_solver. f_equal. apply leibniz_equiv. intros i.
    destruct (decide (i ∈ X)); set_solver. }
  lia.
Qed.

Lemma differences_nil {A B} (m : gmap string A) (k : gmap string B) (P : string → Prop) `{∀ i, Decision (P i)} :
  sorted_set (dom k ∖ dom m) = [] ∧ sorted_set (dom m ∖ dom k) = [] ∧ filter P (sorted_set (dom m ∩ dom k)) = []
  ↔ dom m = dom k ∧ ∀ i, i ∈ dom m → ¬ P i.
Proof.
  rewrite !sorted_set_nil. split.
  - intros (H1 & H2 & H3). assert (Hd : dom m = dom k).
    { apply leibniz_equiv. intros i. destruct (decide (i ∈ dom m)), (decide (i ∈ dom k)); set_solver. }
    split; [done|]. intros i Hi HP. assert (Hin : i ∈ filter P (sorted_set (dom m ∩ dom k))).
    { apply list_elem_of_filter. split; [done|]. apply elem_of_sorted_set. rewrite <- Hd. set_solver. }
    rewrite H3 in Hin. by apply elem_of_nil in Hin.
  - intros [Hd Hn]. rewrite Hd. repeat split; try set_solver.
    apply list_filter_none, Forall_forall. intros i Hi%elem_of_sorted_set. apply Hn. rewrite Hd. set_solver.
Qed.
