(* ===== verification/DiffCorrect.v ===== *)
(** * Properties of the review screen's comparison

    A comparison with a published V4 revision always succeeds within the limits of its
    result; it reports nothing exactly when the draft and the revision agree on the
    caller policy, the schedules, the recording behaviour and the blocks' own fields;
    and how the blocks are connected is not compared. *)
From Stdlib Require Import Ascii.
From stdpp Require Import base gmap sets strings numbers pretty sorting list.
From S2P Require Import Prelude FlowTree Schemas Validation Compiler LegacyGraph Json Crypto Documents DocumentsFacts DocumentsRound DocumentsStore DocumentsSound Store Drafts DraftsCorrect Revisions V4Api V4ApiCorrect Diff DiffFacts Examples.

(** ** What a comparison looks at *)

(** A block without its children, and the digits of its branches. *)
Definition own_fields (b : block) : block * list string :=
  match b with
  | PlayPrompt i p _ => (PlayPrompt i p None, [])
  | CollectDigit i p barge tm ma mr brs _ _ _ =>
      (CollectDigit i p barge tm ma mr [] None None None,
       merge_sort str_le (map (λ br, dtmf_str (branch_digit br)) brs))
  | ScheduleBranch i sc _ _ _ => (ScheduleBranch i sc None None None, [])
  | ReturnToMenu i => (ReturnToMenu i, [])
  | EndCall i => (EndCall i, [])
  | RecordMessage i _ _ => (RecordMessage i None None, [])
  | ExternalCall i ph s _ _ _ => (ExternalCall i ph s None None None, [])
  end.

Definition entries_of (l : list CallerEntry) : gmap string string := foldl (λ m e, <[e164 e := label e]> m) ∅ l.
Definition schedules_of (l : list Schedule) : gmap string Schedule := foldl (λ m s, <[sid s := s]> m) ∅ l.
Definition blocks_of (root : option block) : gmap string block :=
  foldl (λ m p, <[block_id p.1 := p.1]> m) ∅ (walk_blocks root).

(** What is compared of a configuration. *)
Record view := {
  seen_mode : CallerPolicyMode; seen_routing : bool; seen_allowlist : gmap string string;
  seen_blocklist : gmap string string; seen_schedules : gmap string Schedule;
  seen_recording : RecordingBehavior; seen_own_fields : gmap string (block * list string) }.
Definition view_of (c : FlowDocument) : view :=
  {| seen_mode := mode (caller_policy c); seen_routing := route_unknown_callers (caller_policy c);
     seen_allowlist := entries_of (allowlist (caller_policy c)); seen_blocklist := entries_of (blocklist (caller_policy c));
     seen_schedules := schedules_of (schedules c); seen_recording := recording_behavior c;
     seen_own_fields := own_fields <$> blocks_of (flow c) |}.

(** ** Tables *)

Lemma entry_map_dump (f : CallerEntry → json) l :
  (∀ m e, entry_step m (f e) = <[e164 e := label e]> m) → entry_map (JList (map f l)) = entries_of l.
Proof.
  intros Hf. unfold entry_map, entries_of. generalize (∅ : gmap string string) as m.
  induction l as [|e l IH]; intros m; cbn [map foldl]; [done|]. by rewrite Hf.
Qed.

Lemma schedule_table_dump (f : Schedule → list (string * json)) l :
  (∀ s, member "id" (f s) = JStr (sid s)) → schedule_table (map (λ s, JObj (f s)) l) = f <$> schedules_of l.
Proof.
  intros Hf. unfold schedule_table, schedules_of. rewrite <- (fmap_empty f) at 1.
  generalize (∅ : gmap string Schedule) as m. induction l as [|s l IH]; intros m; cbn [map foldl]; [done|].
  rewrite Hf, <- fmap_insert. apply IH.
Qed.

Lemma block_documents_of root : block_documents root = (λ b, (block_label b, block_document b)) <$> blocks_of root.
Proof.
  unfold block_documents, blocks_of.
  rewrite <- (fmap_empty (λ b, (block_label b, block_document b))) at 1.
  generalize (∅ : gmap string block) as m. induction (walk_blocks root) as [|p l IH]; intros m; cbn [foldl]; [done|].
  rewrite <- (fmap_insert (λ b, (block_label b, block_document b)) m _ p.1). apply IH.
Qed.

(** ** Blocks *)

Lemma py_eq_strings l m : py_eq (JList (map JStr l)) (JList (map JStr m)) = true ↔ l = m.
Proof.
  rewrite py_eq_list. split; [|intros ->; induction m; cbn [map]; constructor; [cbn; by apply bool_decide_eq_true|done]].
  revert m. induction l as [|s l IH]; intros [|t m]; cbn [map]; inversion 1 as [|???? Hst]; subst; [done|].
  cbn in Hst. apply bool_decide_eq_true in Hst as ->. f_equal. auto.
Qed.
Lemma py_eq_option (a b : option string) : py_eq (dump_option JStr a) (dump_option JStr b) = true ↔ a = b.
Proof. destruct a, b; cbn; rewrite ?bool_decide_eq_true; naive_solver. Qed.
Lemma py_eq_int m n : py_eq (JInt m) (JInt n) = true ↔ m = n.
Proof. cbn. rewrite bool_decide_eq_true. naive_solver. Qed.
Lemma py_eq_str s t : py_eq (JStr s) (JStr t) = true ↔ s = t.
Proof. cbn. by rewrite bool_decide_eq_true. Qed.
Lemma py_eq_bool b c : py_eq (JBool b) (JBool c) = true ↔ b = c.
Proof. destruct b, c; cbn; done. Qed.

Definition own_members (b : block) : list (string * json) :=
  [("block_id", JStr (block_id b)); ("type", JStr (block_type b))] ++
  match b with
  | PlayPrompt _ p _ => [("prompt_id", dump_option JStr p)]
  | CollectDigit _ p barge tm ma mr brs _ _ _ =>
      [("prompt_id", dump_option JStr p)]
      ++ (if barge then [("allow_prompt_barge_in", JBool true)] else [])
      ++ [("timeout_ms", JInt tm); ("maximum_attempts", JInt ma); ("maximum_menu_returns", JInt mr);
          ("digits", JList (map JStr (merge_sort str_le (map (λ br, dtmf_str (branch_digit br)) brs))))]
  | ScheduleBranch _ sc _ _ _ => [("schedule_id", dump_option JStr sc)]
  | ExternalCall _ ph s _ _ _ => [("phone_number", JStr ph); ("answer_timeout_seconds", JInt s)]
  | _ => []
  end.
Lemma block_document_own b : block_document b = JObj (own_members b).
Proof. destruct b as [i p n|i p [] tm ma mr brs t v l|i sc o c h|i|i|i n u|i ph s n nc sf]; reflexivity. Qed.

(** Equality of objects with literal keys, member by member. *)
Lemma py_eq_obj_forallb o p : py_eq (JObj o) (JObj p) =
  (length o =? length p) && forallb (λ m, match assoc m.1 p with Some y => py_eq m.2 y | None => false end) o.
Proof.
  cbn [py_eq]. f_equal. induction o as [|[i x] o IH]; [done|]. cbn [forallb fst snd].
  destruct (assoc i p); [by rewrite IH|done].
Qed.

Ltac literal_assoc := cbn [forallb fst snd assoc]; repeat first [rewrite decide_True by done | rewrite decide_False by done].

Lemma block_document_eq a b : block_id a = block_id b →
  py_eq (block_document a) (block_document b) = true ↔ own_fields a = own_fields b.
Proof.
  intros Hid. rewrite !block_document_own, py_eq_obj_forallb.
  destruct a as [i p n|i p [] tm ma mr brs t v l|i sc o c h|i|i|i n u|i ph s n nc sf],
    b as [i' p' n'|i' p' [] tm' ma' mr' brs' t' v' l'|i' sc' o' c' h'|i'|i'|i' n' u'|i' ph' s' n' nc' sf'];
    cbn [own_members app length Nat.eqb andb block_id block_type own_fields] in *; subst;
    try (split; congruence);
    literal_assoc; cbn [forallb fst snd];
    rewrite ?andb_true_iff, ?py_eq_str, ?py_eq_option, ?py_eq_int, ?py_eq_strings, ?py_eq_bool; split; intros;
    destruct_and?; simplify_eq; first [done | congruence | split_and!; congruence].
Qed.

(** ** Lengths and emptiness of the parts *)

Lemma when_nil {A} b (l : list A) : l ≠ [] → when b l = [] ↔ b = false.
Proof. by destruct b. Qed.
Lemma length_when {A} b (l : list A) : length (when b l) ≤ length l.
Proof. destruct b; simpl; lia. Qed.

Lemma app_nil_3 {A} (l k j : list A) : l ++ k ++ j = [] ↔ l = [] ∧ k = [] ∧ j = [].
Proof. destruct l, k; naive_solver. Qed.

Lemma map_nil_iff {A B} (f : A → B) l : map f l = [] ↔ l = [].
Proof. by destruct l. Qed.

(** Two tables with equal entries under [f] and [g]. *)
Lemma tables_agree {A} (m k : gmap string A) (P : string → Prop) :
  (∀ i x y, m !! i = Some x → k !! i = Some y → ¬ P i ↔ x = y) →
  (dom m = dom k ∧ ∀ i, i ∈ dom m → ¬ P i) ↔ m = k.
Proof.
  intros HP. split.
  - intros [Hd Hn]. apply map_eq. intros i. destruct (m !! i) as [x|] eqn:Hx.
    + assert (Hi : i ∈ dom k) by (rewrite <- Hd; by apply elem_of_dom_2 in Hx).
      apply elem_of_dom in Hi as [y Hy]. rewrite Hy. f_equal. apply (HP i); try done. apply Hn. by apply elem_of_dom_2 in Hx.
    + symmetry. apply not_elem_of_dom. rewrite <- Hd. by apply not_elem_of_dom.
  - intros ->. split; [done|]. intros i [x Hx]%elem_of_dom. by apply (HP i x x).
Qed.

Lemma size_entries_of l : size (entries_of l) ≤ length l.
Proof.
  unfold entries_of. enough (∀ m : gmap string string, size (foldl (λ m e, <[e164 e := label e]> m) m l) ≤ size m + length l) as H.
  { specialize (H ∅). by rewrite map_size_empty in H. }
  induction l as [|e l IH]; intros m; cbn [foldl length]; [lia|]. specialize (IH (<[e164 e := label e]> m)).
  rewrite map_size_insert in IH. destruct (m !! e164 e); unfold id in IH; lia.
Qed.
Lemma size_schedules_of l : size (schedules_of l) ≤ length l.
Proof.
  unfold schedules_of. enough (∀ m : gmap string Schedule, size (foldl (λ m s, <[sid s := s]> m) m l) ≤ size m + length l) as H.
  { specialize (H ∅). by rewrite map_size_empty in H. }
  induction l as [|e l IH]; intros m; cbn [foldl length]; [lia|]. specialize (IH (<[sid e := e]> m)).
  rewrite map_size_insert in IH. destruct (m !! sid e); unfold id in IH; lia.
Qed.
Lemma elem_schedules_of l i s : schedules_of l !! i = Some s → s ∈ l ∧ sid s = i.
Proof.
  unfold schedules_of. enough (∀ m : gmap string Schedule, (foldl (λ m s, <[sid s := s]> m) m l) !! i = Some s →
    m !! i = Some s ∨ s ∈ l ∧ sid s = i) as H.
  { intros [Hs|?]%H; [by rewrite lookup_empty in Hs|done]. }
  induction l as [|e l IH]; intros m; cbn [foldl]; [by left|]. intros [Hs|[? ?]]%IH; [|set_solver].
  destruct (decide (sid e = i)) as [<-|]; [rewrite lookup_insert_eq in Hs; injection Hs as ->; set_solver|].
  rewrite lookup_insert_ne in Hs by done. by left.
Qed.
Lemma elem_blocks_of root i b : blocks_of root !! i = Some b → block_id b = i.
Proof.
  unfold blocks_of. enough (∀ m : gmap string block, (∀ i b, m !! i = Some b → block_id b = i) →
    (foldl (λ m p, <[block_id p.1 := p.1]> m) m (walk_blocks root)) !! i = Some b → block_id b = i) as H.
  { apply H. intros ?? Hm. by rewrite lookup_empty in Hm. }
  induction (walk_blocks root) as [|p l IH]; intros m Hm; cbn [foldl]; [apply Hm|]. apply IH.
  intros j b'. destruct (decide (block_id p.1 = j)) as [<-|]; [rewrite lookup_insert_eq|rewrite lookup_insert_ne by done; apply Hm].
  by intros [= <-].
Qed.

(** ** The comparison of flows *)

Definition no_flow_changes (d : flow_changes) : Prop := added d = 0 ∧ removed d = 0 ∧ changed d = 0 ∧ changes d = [].

Lemma diff_flows_silent base current :
  no_flow_changes (diff_flows (Some base) current) ↔ own_fields <$> blocks_of base = own_fields <$> blocks_of current.
Proof.
  unfold no_flow_changes, diff_flows. cbn [added removed changed changes].
  set (before := block_documents base). set (after := block_documents current).
  rewrite !length_zero_iff_nil.
  transitivity (sorted_set (dom after ∖ dom before) = [] ∧ sorted_set (dom before ∖ dom after) = [] ∧
    filter (λ i, changed_document before after i = true) (sorted_set (dom before ∩ dom after)) = []).
  { split; [naive_solver|]. intros (-> & -> & ->). done. }
  rewrite differences_nil. subst before after. rewrite !block_documents_of, !dom_fmap_L.
  rewrite <- (dom_fmap_L own_fields (blocks_of base)), <- (dom_fmap_L own_fields (blocks_of current)).
  apply tables_agree. intros i x y Hx Hy. unfold changed_document. rewrite !lookup_fmap in *.
  destruct (blocks_of base !! i) as [a|] eqn:Ha; [|done]. destruct (blocks_of current !! i) as [b|] eqn:Hb; [|done].
  cbn [fmap option_fmap option_map] in *. simplify_eq. apply elem_blocks_of in Ha, Hb.
  rewrite not_true_iff_false, negb_false_iff. apply block_document_eq. congruence.
Qed.

(** ** The comparison of caller lists *)

Lemma caller_list_changes_silent before after name l m : entry_map before = entries_of l → entry_map after = entries_of m →
  caller_list_changes before after name = [] ↔ entries_of l = entries_of m.
Proof.
  intros Hl Hm. unfold caller_list_changes. rewrite Hl, Hm, app_nil_3, !map_nil_iff, differences_nil.
  apply tables_agree. intros i x y Hx Hy. unfold name_of. rewrite Hx, Hy. cbn. destruct (decide (x = y)); naive_solver.
Qed.
Lemma caller_list_changes_length before after name l m : entry_map before = entries_of l → entry_map after = entries_of m →
  length (caller_list_changes before after name) ≤ length l + length m.
Proof.
  intros Hl Hm. unfold caller_list_changes. rewrite !length_app, !length_map, Hl, Hm.
  pose proof (differences_length (entries_of l) (entries_of m)
    (λ number, name_of (entries_of l) number ≠ name_of (entries_of m) number)) as H.
  pose proof (size_entries_of l). pose proof (size_entries_of m). lia.
Qed.

(** ** The comparison of schedules *)

Lemma dump_schedule_bool_free s : bool_free (dump_schedule s).
Proof.
  apply bool_free_obj. repeat (apply Forall_cons_2; [try done|]); [| |apply Forall_nil_2];
    apply bool_free_list, Forall_forall; intros j Hj; apply list_elem_of_In, in_map_iff in Hj as (x & <- & _);
    apply bool_free_obj; repeat (apply Forall_cons_2; [done|]); apply Forall_nil_2.
Qed.
Lemma sorted_bool_free j : bool_free j → bool_free (sorted_document j).
Proof.
  induction j as [|b|z|s|l IH|o IH] using json_nested_ind; try done; cbn [sorted_document].
  - rewrite !bool_free_list. intros Hl. change (map sorted_document l) with (sorted_document <$> l). apply Forall_fmap.
    rewrite Forall_forall in *. intros x Hx. apply IH; [done|]. by apply Hl.
  - rewrite !bool_free_obj. intros Hl. rewrite sort_keys_perm. rewrite Forall_forall in *.
    intros p Hp. apply list_elem_of_In, in_map_iff in Hp as ([i x] & <- & Hx). apply list_elem_of_In in Hx.
    by apply (IH (i, x) Hx), (Hl (i, x)).
Qed.

Lemma schedule_document_eq s t : schedule_fields s = true → schedule_fields t = true →
  py_eq (sorted_document (dump_schedule s)) (dump_schedule t) = true ↔ s = t.
Proof.
  intros Hs Ht. split; [|intros ->; apply py_eq_sorted, dump_schedule_keys].
  intros H. assert (Heq : sorted_document (dump_schedule s) ≡ dump_schedule t).
  { apply py_eq_equiv; [|apply dump_schedule_keys|apply sorted_bool_free, dump_schedule_bool_free|apply dump_schedule_bool_free|done].
    apply (json_equiv_keys _ _ (sorted_document_equiv _)), dump_schedule_keys. }
  assert (Hd : dump_schedule s ≡ dump_schedule t) by (etrans; [symmetry; apply sorted_document_equiv|done]).
  pose proof (stable_equiv load_schedule _ _ (dump_schedule_keys s) Hd) as E.
  rewrite !load_schedule_dump in E by done. by injection E.
Qed.

Definition read_back (s : Schedule) : list (string * json) := members (sorted_document (dump_schedule s)).

Section Comparisons.
Context (py_repr : json → string).

Lemma schedule_tables l : schedule_table (map sorted_document (map dump_schedule l)) = read_back <$> schedules_of l
  ∧ schedule_table (map dump_schedule l) = (λ s, members (dump_schedule s)) <$> schedules_of l.
Proof using Type.
  split; [rewrite map_map; rewrite (map_ext _ (λ s, JObj (read_back s))) by done|
          rewrite (map_ext dump_schedule (λ s, JObj (members (dump_schedule s)))) by done];
    apply schedule_table_dump; intros s; reflexivity.
Qed.

Lemma schedule_diff_length l c :
  length (schedule_diff py_repr (JList (map sorted_document (map dump_schedule l))) c) ≤ length l + length (schedules c).
Proof using Type.
  unfold schedule_diff. rewrite !length_app, !length_map, (proj1 (schedule_tables l)), (proj2 (schedule_tables (schedules c))).
  match goal with |- context [filter ?P (sorted_set (dom ?m ∩ dom ?k))] => pose proof (differences_length m k P) as H end.
  rewrite !map_size_fmap in H. pose proof (size_schedules_of l). pose proof (size_schedules_of (schedules c)). lia.
Qed.

Lemma schedule_diff_silent l c : forallb schedule_fields l = true → forallb schedule_fields (schedules c) = true →
  schedule_diff py_repr (JList (map sorted_document (map dump_schedule l))) c = []
    ↔ schedules_of l = schedules_of (schedules c).
Proof using Type.
  intros Hl Hc. unfold schedule_diff. rewrite app_nil_3, !map_nil_iff, differences_nil.
  rewrite (proj1 (schedule_tables l)), (proj2 (schedule_tables (schedules c))), !dom_fmap_L.
  apply tables_agree. intros i x y Hx Hy. rewrite !lookup_fmap, Hx, Hy. cbn [fmap option_fmap option_map from_option id].
  rewrite not_false_iff_true. rewrite forallb_forall in Hl, Hc.
  apply elem_schedules_of in Hx as [Hx _], Hy as [Hy _].
  change (JObj (read_back x)) with (sorted_document (dump_schedule x)). apply schedule_document_eq.
  - by apply Hl, list_elem_of_In.
  - by apply Hc, list_elem_of_In.
Qed.

Lemma recording_diff_silent r c :
  recording_behavior_diff py_repr (sorted_document (dump_recording r)) c = [] ↔ r = recording_behavior c.
Proof using Type.
  change (sorted_document (dump_recording r)) with
    (JObj [("finish_key", sorted_document (dump_option JStr (finish_key r)));
           ("maximum_duration_seconds", JInt (maximum_duration_seconds r))]).
  assert (sorted_document (dump_option JStr (finish_key r)) = dump_option JStr (finish_key r)) as -> by (by destruct (finish_key r)).
  cbn [recording_behavior_diff]. unfold member. literal_assoc. cbn [from_option id].
  destruct r as [m k], (recording_behavior c) as [m' k']. cbn [maximum_duration_seconds finish_key].
  rewrite app_nil, !when_nil, !negb_false_iff, py_eq_int, py_eq_option by done. naive_solver.
Qed.
Lemma recording_diff_length b c : length (recording_behavior_diff py_repr b c) ≤ 2.
Proof using Type. unfold recording_behavior_diff. destruct b; try (simpl; lia). rewrite length_app. unfold when. repeat case_match; simpl; lia. Qed.

Lemma dump_mode_inj a b : py_eq (dump_mode a) (dump_mode b) = true ↔ a = b.
Proof using Type. destruct a, b; vm_compute; naive_solver. Qed.

(** When the policy opens: a broader mode is newly chosen, or unknown callers are newly routed. *)
Definition opens (p q : CallerPolicy) : bool :=
  bool_decide (mode p ≠ mode q) && bool_decide (mode q ∈ BROAD_POLICY_MODES)
  || negb (route_unknown_callers p) && route_unknown_callers q.

Lemma policy_diff_spec p c : let '(changes, confirmation) := caller_policy_diff py_repr (sorted_document (dump_policy p)) c in
  let q := caller_policy c in
  (changes = [] ↔ mode p = mode q ∧ route_unknown_callers p = route_unknown_callers q ∧
     entries_of (allowlist p) = entries_of (allowlist q) ∧ entries_of (blocklist p) = entries_of (blocklist q)) ∧
  length changes ≤ 2 + (length (allowlist p) + length (allowlist q)) + (length (blocklist p) + length (blocklist q)) ∧
  confirmation = opens p q.
Proof using Type.
  change (sorted_document (dump_policy p)) with
    (JObj [("allowlist", JList (map sorted_document (map dump_entry (allowlist p))));
           ("blocklist", JList (map sorted_document (map dump_entry (blocklist p))));
           ("mode", dump_mode (mode p)); ("route_unknown_callers", JBool (route_unknown_callers p))]).
  unfold caller_policy_diff, member. literal_assoc. cbn [from_option id]. rewrite !map_map.
  set (q := caller_policy c).
  assert (Hsorted : ∀ l, entry_map (JList (map (λ e, sorted_document (dump_entry e)) l)) = entries_of l)
    by (intros; by apply entry_map_dump).
  assert (Hplain : ∀ l, entry_map (JList (map dump_entry l)) = entries_of l) by (intros; by apply entry_map_dump).
  split; [|split].
  - rewrite app_nil_3, app_nil, !when_nil by done.
    rewrite (caller_list_changes_silent _ _ _ (allowlist p) (allowlist q)), (caller_list_changes_silent _ _ _ (blocklist p) (blocklist q)) by done.
    by rewrite !negb_false_iff, dump_mode_inj, py_eq_bool.
  - rewrite !length_app.
    pose proof (caller_list_changes_length _ _ "allowlist" _ _ (Hsorted (allowlist p)) (Hplain (allowlist q))).
    pose proof (caller_list_changes_length _ _ "exclusion list" _ _ (Hsorted (blocklist p)) (Hplain (blocklist q))).
    match goal with |- length (when ?b ?l) + (length (when ?b' ?l') + _) ≤ _ =>
      pose proof (length_when b l) as Hw; pose proof (length_when b' l') as Hw' end.
    cbn [length] in Hw, Hw'. lia.
  - unfold opens. f_equal. f_equal.
    apply eq_true_iff_eq. rewrite negb_true_iff, bool_decide_eq_true, <- not_true_iff_false, dump_mode_inj. done.
Qed.
End Comparisons.

Definition silent (d : FlowDiffResult) : Prop :=
  no_flow_changes (flow_part d) ∧ caller_policy_changes (configuration_part d) = [] ∧
  schedule_changes (configuration_part d) = [] ∧ recording_changes (configuration_part d) = [].

Lemma fields_of ver c : document_fields ver c = true →
  (length (allowlist (caller_policy c)) ≤ 1000 ∧ length (blocklist (caller_policy c)) ≤ 1000) ∧
  length (schedules c) ≤ 32 ∧ forallb schedule_fields (schedules c) = true ∧
  match flow c with Some r => flow_fields r | None => true end = true.
Proof.
  unfold document_fields, policy_fields. rewrite !andb_true_iff, !Nat.leb_le. naive_solver.
Qed.

(** ** Theorems *)

Section Theorems.
Context `{CryptographyLaws} (key : bytes) (py_repr : json → string).

Lemma compare_published s rid row n id0 r0 c0 rows0 source0 out0 c : length n = 12 →
  revisions s !! rid = Some row → revision_schema_version row = 4%Z →
  manifest_encrypted row = seal key n (manifest id0 r0 c0 rows0 source0 out0) →
  document_fields V4 c0 = true → document_fields V4 c = true →
  ∃ policy_changes,
    caller_policy_diff py_repr (sorted_document (dump_policy (caller_policy c0))) c =
      (policy_changes, opens (caller_policy c0) (caller_policy c)) ∧
    diff_draft_v4 py_repr key c (Some rid) s = Ok
      {| base_revision := Some rid; legacy_base := false; flow_part := diff_flows (Some (flow c0)) (flow c);
         configuration_part :=
           {| caller_policy_changes := policy_changes;
              schedule_changes := schedule_diff py_repr (JList (map sorted_document (map dump_schedule (schedules c0)))) c;
              recording_changes := recording_behavior_diff py_repr (sorted_document (dump_recording (recording_behavior c0))) c;
              requires_policy_confirmation := opens (caller_policy c0) (caller_policy c) |} |}.
Proof using Type*.
  intros Hn Hrow Hver Hman Hc0 Hc. pose proof (policy_diff_spec py_repr (caller_policy c0) c) as Hp.
  destruct (caller_policy_diff py_repr (sorted_document (dump_policy (caller_policy c0))) c) as [policy_changes confirmation] eqn:Ep.
  destruct Hp as (_ & Hlen & ->). exists policy_changes. split; [done|].
  pose proof (manifest_keys id0 r0 c0 rows0 source0 out0) as Hk.
  pose proof (proj1 (proj1 (keys_ok_members _) Hk)) as Hnd.
  destruct (fields_of V4 c0 Hc0) as ((? & ?) & ? & _ & Hroot). destruct (fields_of V4 c Hc) as ((? & ?) & ? & _ & _).
  unfold diff_draft_v4, base_revision_of. rewrite Hrow. cbn [of_option mbind result_bind].
  unfold load_manifest. rewrite Hman, unseal_seal by done. cbn [mbind result_bind]. rewrite decide_True by done.
  unfold get_item, revision_configuration_diff, get_member. unfold manifest in *. cbn [sorted_document].
  assert (py_truthy (JObj (sorted_members (manifest_members V4 id0 c0 rows0 (now r0) source0 out0))) = true) as ->.
  { cbn [py_truthy]. apply negb_true_iff, bool_decide_eq_false. intros E.
    apply (f_equal length) in E. rewrite sort_keys_perm, length_map in E. done. }
  cbv beta iota. rewrite !assoc_sorted by done.
  unfold manifest_members at 1 2 3 4. cbn [app assoc].
  repeat first [rewrite decide_True by done | rewrite decide_False by done].
  cbn [fmap option_fmap option_map of_option mbind result_bind from_option id].
  rewrite (stable (f := load_flow)) by apply dump_flow_keys. rewrite load_flow_dump by done.
  cbn [mbind result_bind]. rewrite Ep. cbn [fst].
  cbn [sorted_document]. unfold flow_diff_result. cbn [mbind result_bind caller_policy_changes schedule_changes recording_changes].
  rewrite (bool_decide_false (revision_schema_version row ≠ 4%Z)) by (by intros []).
  rewrite !(proj2 (Nat.leb_le _ _)); [done|apply recording_diff_length| | |].
  - etrans; [apply schedule_diff_length|]. lia.
  - lia.
  - unfold diff_flows. cbn [changes]. rewrite length_take. lia.
Qed.

(** Comparing a draft with a published V4 revision always succeeds within the limits
    of the result.  It reports no change exactly when caller policy, schedules and
    recording behaviour agree and both flows have the same blocks with the same fields of
    their own; and it asks for confirmation exactly when the draft opens the policy. *)
Theorem comparison_exact s rid row n id0 r0 c0 rows0 source0 out0 c : length n = 12 →
  revisions s !! rid = Some row → revision_schema_version row = 4%Z →
  manifest_encrypted row = seal key n (manifest id0 r0 c0 rows0 source0 out0) →
  document_fields V4 c0 = true → document_fields V4 c = true →
  ∃ d, diff_draft_v4 py_repr key c (Some rid) s = Ok d ∧
    (silent d ↔ view_of c0 = view_of c) ∧
    requires_policy_confirmation (configuration_part d) = opens (caller_policy c0) (caller_policy c).
Proof using Type*.
  intros Hn Hrow Hver Hman Hc0 Hc.
  destruct (compare_published s rid row n id0 r0 c0 rows0 source0 out0 c) as (pc & Ep & Ed); [done..|].
  eexists. split; [exact Ed|]. split; [|done].
  pose proof (policy_diff_spec py_repr (caller_policy c0) c) as Hp. rewrite Ep in Hp. destruct Hp as (Hp & _ & _).
  destruct (fields_of V4 c0 Hc0) as (_ & _ & ? & _). destruct (fields_of V4 c Hc) as (_ & _ & ? & _).
  unfold silent. cbn [flow_part configuration_part caller_policy_changes schedule_changes recording_changes].
  rewrite diff_flows_silent, Hp, schedule_diff_silent, recording_diff_silent by done.
  unfold view_of. split; [by intros (-> & (-> & -> & -> & ->) & -> & ->)|]. intros [= -> -> -> -> -> -> ->]. done.
Qed.
End Theorems.

(** ** What a comparison does not see *)

#[local] Existing Instance plain_suite.
#[local] Existing Instance plain_suite_laws.

(** The menu of the example with the timeout and invalid-key continuations exchanged. *)
Definition rewired_menu (b : block) : block :=
  match b with
  | CollectDigit i p barge tm ma mr brs t v l => CollectDigit i p barge tm ma mr brs v t l
  | _ => b
  end.
Definition rewired_v4 : block :=
  PlayPrompt (uuid "20") (Some prompt_a)
    (Some (ExternalCall (uuid "21") "+98215551234" 30
       (end_block "22") (Some (rewired_menu (example_menu true))) (end_block "23"))).

Definition compiled_flow (root : block) : result compiled := compile_flow_v4 (Some root) default_recording_behavior example_durations.

Theorem comparison_exact_witness :
  ∃ d, diff_draft_v4 (λ _, "") example_key (saved rewired_v4 6) (Some 1%Z) example_before = Ok d ∧
    (silent d ↔ view_of (saved example_v4 5) = view_of (saved rewired_v4 6)) ∧
    requires_policy_confirmation (configuration_part d) = false.
Proof.
  exact (comparison_exact example_key (λ _, "") example_before 1 example_source (nonce example_request 1) 1 example_request
    (saved example_v4 5) (prompts_for_configuration (saved example_v4 5) example_store) None example_out (saved rewired_v4 6)
    ltac:(reflexivity) ltac:(reflexivity) ltac:(reflexivity) ltac:(reflexivity)
    ltac:(vm_compute; reflexivity) ltac:(vm_compute; reflexivity)).
Defined.

(** The comparison is blind to rewiring: two flows that route callers differently,
    with different compiled programs, are reported as unchanged. *)
Theorem comparison_misses_rewiring : ∃ a b out out',
  diff_flows (Some (Some a)) (Some b) = {| added := 0; removed := 0; changed := 0; changes := [] |} ∧
  compiled_flow a = Ok out ∧ compiled_flow b = Ok out' ∧ compiled_program out ≠ compiled_program out'.
Proof.
  exists example_v4, rewired_v4. destruct (compiled_flow example_v4) as [out|] eqn:E1; [|by vm_compute in E1].
  destruct (compiled_flow rewired_v4) as [out'|] eqn:E2; [|by vm_compute in E2].
  exists out, out'. split; [vm_compute; reflexivity|]. split; [done|]. split; [done|].
  vm_compute in E1, E2. injection E1 as <-. injection E2 as <-. discriminate.
Qed.
