(* ===== verification/V3Api.v ===== *)
(** * The V3 administration interface ([v3_api.py])

    The handlers of the earlier authoring lane, which are still served: as in the V4
    interface, but a publication needs no active device, there is no review, and the
    comparison is with the latest V3 revision. *)
From Stdlib Require Import Ascii.
From stdpp Require Import base gmap sets strings numbers pretty list.
From S2P Require Import Prelude FlowTree Schemas Validation Compiler Simulator LegacyGraph Json Crypto Documents DocumentsStore Store Drafts Revisions V4Api Diff.

(** ** Capabilities *)

Definition has_recording (c : FlowDocument) : bool := existsb (λ p, is_record p.1) (walk_blocks (flow c)).

Definition compatible_v3 (recording_required : bool) (d : device_row) : result bool :=
  let status := device_status d in
  three ← py_contains 3 (default default_versions (assoc "runtime_versions" status));
  Ok (three && negb (recording_required && negb (py_truthy (default (JBool false) (assoc "recording_capable" status))))).

Definition require_device_capabilities (s : store) (c : FlowDocument) : result unit :=
  let recording_required := has_recording c in
  names ← incompatible (compatible_v3 recording_required) (active_devices s);
  match names with
  | [] => Ok tt
  | _ => Raise (HTTPException 409
           ["V3 cannot be assigned until every active device reports runtime V3"
            +:+ (if recording_required then " and recording capability" else "") +:+ ": " +:+ join ", " names])
  end.

(** ** Handlers *)

Section Handlers.
Context `{Cryptography} (key signing_key : bytes) (zoneinfo : string → zone_lookup) (limit : Z).

Definition validation_errors_v3 (s : store) (c : FlowDocument) : result (list string) :=
  let rows := prompts_for_configuration c s in
  errors ← validate_configuration_v3 zoneinfo c (list_to_set (prompt_id <$> rows)) (prompt_table size_bytes rows) limit;
  errors ← match errors with
           | [] =>
               match compile_flow_v3 (flow c) (recording_behavior c) (prompt_table duration_ms rows) with
               | Ok _ => Ok []
               | Raise (TypeError m) | Raise (ValueError m) => Ok [m]
               | Raise e => Raise e
               end
           | _ => Ok errors
           end;
  Ok (dict_fromkeys errors).

Definition get_draft_v3 (s : store) : result FlowDocument := load_draft_v3 key s.

Definition put_draft_v3 (r : request) (c : FlowDocument) (s : store) : result (FlowDocument * store) :=
  match store_draft_v3 key r c s s with
  | Raise (DraftConflictError m) => Raise (HTTPException 409 [m])
  | Raise e => Raise e
  | Ok (saved, s) =>
      Ok (saved, audit (actor r) "draft.v3_updated" "configuration" (JObj [("edit_version", JInt (edit_version saved))]) s)
  end.

(** [configuration or load_draft_v3(...)]; a model is true. *)
Definition validate_draft_v3 (c : option FlowDocument) (s : store) : result (bool * list string) :=
  candidate ← match c with Some c => Ok c | None => load_draft_v3 key s end;
  errors ← validation_errors_v3 s candidate;
  Ok (bool_decide (errors = []), errors).

Definition publish_draft_v3 (r : request) (s : store) : result (Z * store) :=
  configuration ← load_draft_v3 key s;
  errors ← validation_errors_v3 s configuration;
  _ ← reject_errors 422 errors;
  _ ← require_device_capabilities s configuration;
  '(id, s) ← create_revision_v3 key signing_key configuration (prompts_for_configuration configuration s) r None s;
  let s := with_devices (assign_revision id) s in
  Ok (id, audit (actor r) "revision.v3_published" (revision_name id) (JObj []) s).

Definition manifest_configuration_v3 (manifest : json) (version : Z) : result FlowDocument :=
  policy ← get_item "caller_policy" manifest;
  scheds ← get_item "schedules" manifest;
  recording ← get_item "recording_behavior" manifest;
  root ← get_item "flow" manifest;
  load_document V3 (JObj [("schema_version", JInt 3); ("edit_version", JInt version); ("caller_policy", policy);
                          ("schedules", scheds); ("recording_behavior", recording); ("flow", root)]).

Definition rollback_v3_revision (r : request) (revision_id : Z) (s : store) : result (Z * store) :=
  source ← of_option (HTTPException 404 ["Revision not found"]) (revisions s !! revision_id);
  if decide (revision_schema_version source ≠ 3%Z)
  then Raise (HTTPException 409 ["Use activate-rollback for an immutable V1/V2 revision."])
  else
    manifest ← load_manifest key source;
    current ← load_draft_v3 key s;
    configuration ← manifest_configuration_v3 manifest (edit_version current);
    errors ← validation_errors_v3 s configuration;
    _ ← reject_errors 409 errors;
    _ ← require_device_capabilities s configuration;
    '(id, s) ← create_revision_v3 key signing_key configuration (prompts_for_configuration configuration s) r
                 (Some revision_id) s;
    '(_, s) ← store_draft_v3 key {| now := now r; nonce := λ n, nonce r (n + 2); uuid_hex := uuid_hex r; actor := actor r |}
                configuration s s;
    let s := with_devices (assign_revision id) s in
    Ok (id, audit (actor r) "revision.rollback_published" (revision_name id)
              (JObj [("source_revision_id", JInt revision_id)]) s).

(** An older revision is assigned without looking at the devices' capabilities. *)
Definition activate_immutable_revision_v3 (r : request) (revision_id : Z) (s : store) : result (Z * store) :=
  source ← of_option (HTTPException 404 ["Revision not found"]) (revisions s !! revision_id);
  if decide (¬ (revision_schema_version source ∈ [1; 2]%Z))
  then Raise (HTTPException 409 ["Only immutable V1/V2 rollback uses this endpoint."])
  else
    let affected := length (active_devices s) in
    let s := with_devices (assign_revision revision_id) s in
    Ok (revision_id, audit (actor r) "revision.legacy_rollback_activated" (revision_name revision_id)
          (JObj [("schema_version", JInt (revision_schema_version source)); ("affected_devices", JInt (Z.of_nat affected))]) s).

Definition revision_detail_v3 (revision_id : Z) (s : store) : result (Z * option json * bool) :=
  revision ← of_option (HTTPException 404 ["Revision not found"]) (revisions s !! revision_id);
  manifest ← load_manifest key revision;
  root ← get_member "flow" manifest;
  Ok (revision_schema_version revision, root, bool_decide (revision_schema_version revision ≠ 3%Z)).

(** The latest revision of version 3. *)
Definition latest_v3_revision (s : store) : option (Z * revision_row) :=
  match filter (λ p : Z * revision_row, revision_schema_version p.2 = 3%Z) (map_to_list (revisions s)) with
  | [] => None
  | (i, _) :: l => let latest := foldr Z.max i l.*1 in row ← revisions s !! latest; Some (latest, row)
  end.

(** What [diff_draft_v3] answers: the base revision, whether it is of an older version,
    and the changes of the flow, those of the recording behaviour first. *)
Definition diff_draft_v3 (c : FlowDocument) (base_revision_id : option Z) (s : store)
    : result (option Z * bool * flow_changes) :=
  let base := match base_revision_id with
              | Some i => row ← revisions s !! i; Some (i, row)
              | None => latest_v3_revision s
              end in
  '(legacy, base_flow, notes) ←
    match base with
    | Some (_, row) =>
        if decide (revision_schema_version row = 3%Z) then
          manifest ← load_manifest key row;
          document ← get_item "flow" manifest;
          root ← load_flow document;
          recording ← get_member "recording_behavior" manifest;
          Ok (false, Some root,
              when (negb (py_eq (default JNull recording) (dump_recording (recording_behavior c))))
                ["Changed shared recording behavior"])
        else Ok (true, None, [])
    | None => Ok (bool_decide (latest_revision_id s ≠ None), None, [])
    end;
  let result := diff_flows base_flow (flow c) in
  Ok (fst <$> base, legacy : bool,
      {| added := added result; removed := removed result; changed := changed result + length notes;
         changes := take 256 (notes ++ changes result) |}).

Definition simulate_draft_v3 (c : FlowDocument) (events : list string) (s : store) : result sim_result :=
  errors ← validation_errors_v3 s c;
  Ok (match errors with [] => simulate_v3 (flow c) events | _ => invalid_result errors end).
End Handlers.
