(* ===== verification/Devices.v ===== *)
(** * Tablets ([main.py], [auth.py])

    Pairing codes, enrolment, the device credential, status reports, and the signed
    manifests and prompt files a tablet may fetch.  A handler reads the database [seen]
    by its transaction and writes to [s], the database when it commits; alone in time
    the two are the same.  [media] holds the files under [media_root]. *)
From Stdlib Require Import Ascii.
From stdpp Require Import base gmap sets strings numbers pretty list.
From S2P Require Import Prelude FlowTree Schemas LegacyGraph Json Crypto Documents Store Drafts Revisions V4Api Diff.

(** ** Time *)

(** Days since 1970-01-01 of a Gregorian date. *)
Definition days_of (d : Z * Z * Z) : Z :=
  let '(y, m, d) := d in
  let y := (if bool_decide (m <= 2)%Z then y - 1 else y)%Z in
  let era := (y / 400)%Z in
  let year_of_era := (y - era * 400)%Z in
  let day_of_year := ((153 * (if bool_decide (2 < m)%Z then m - 3 else m + 9) + 2) / 5 + d - 1)%Z in
  (era * 146097 + (year_of_era * 365 + year_of_era / 4 - year_of_era / 100 + day_of_year) - 719468)%Z.
(** Microseconds since the epoch: the order and the arithmetic of UTC datetimes. *)
Definition instant (t : datetime) : Z :=
  (((days_of (date t) * 24 + hour t) * 60 + minute t) * 60 + second t) * 1000000 + microsecond t.
Definition seconds (n : Z) : Z := (n * 1000000)%Z.

(** ** Tables *)

(** [PairingCode]; [expires_at] is an instant. *)
Record pairing_row := {
  code_digest : string; pairing_name : string; expires_at : Z; failures : Z; used_at : option datetime;
  created_by : string }.
(** [EnrollmentAttempt] *)
Record attempt_row := { source_ip : string; succeeded : bool; attempted_at : datetime }.

(** [SessionAuditPolicy] and [CallSafetyPolicy] by version, and the acknowledgements of
    [DeviceAuditPolicyAcknowledgement] and [DeviceCallSafetyAcknowledgement]. *)
Record audit_policy_row := { policy_enabled : bool; local_quota_bytes : Z }.
Record policy_tables := {
  audit_policies : gmap Z audit_policy_row;
  audit_acknowledgements : gset (string * Z);
  safety_policies : gmap Z Z;
  safety_acknowledgements : gmap (string * Z) Z;
}.

Record server := {
  db : store;
  pairing_codes : gmap string pairing_row;
  enrollment_attempts : list attempt_row;
  media : gmap string bytes;
  policies : policy_tables;
}.

Definition with_db (f : store → store) (s : server) : server :=
  {| db := f (db s); pairing_codes := pairing_codes s; enrollment_attempts := enrollment_attempts s; media := media s; policies := policies s |}.
Definition with_pairing (id : string) (p : pairing_row) (s : server) : server :=
  {| db := db s; pairing_codes := <[id := p]> (pairing_codes s); enrollment_attempts := enrollment_attempts s;
     media := media s; policies := policies s |}.
(** [UPDATE ... WHERE id = ...] of some columns. *)
Definition update_pairing (id : string) (f : pairing_row → pairing_row) (s : server) : server :=
  match pairing_codes s !! id with Some p => with_pairing id (f p) s | None => s end.
Definition with_attempt (a : attempt_row) (s : server) : server :=
  {| db := db s; pairing_codes := pairing_codes s; enrollment_attempts := enrollment_attempts s ++ [a]; media := media s; policies := policies s |}.
Definition with_media (f : gmap string bytes → gmap string bytes) (s : server) : server :=
  {| db := db s; pairing_codes := pairing_codes s; enrollment_attempts := enrollment_attempts s; media := f (media s); policies := policies s |}.

(** One row of the devices, and the rows of the prompts. *)
Definition with_device (id : string) (d : device_row) (s : store) : store :=
  {| drafts := drafts s; archive := archive s; prompts := prompts s; revisions := revisions s;
     next_revision := next_revision s; devices := <[id := d]> (devices s); audit_log := audit_log s |}.
Definition with_prompts (f : gmap string prompt_row → gmap string prompt_row) (s : store) : store :=
  {| drafts := drafts s; archive := archive s; prompts := f (prompts s); revisions := revisions s;
     next_revision := next_revision s; devices := devices s; audit_log := audit_log s |}.

(** The first row, in some order, that satisfies [p]. *)
Definition find_row {A} (p : A → bool) (m : gmap string A) : option (string * A) :=
  find (λ r, p r.2) (map_to_list m).

(** ** Settings *)

Record settings := {
  production : bool;
  pairing_hmac_key_b64 : bytes;
  enrollment_code_ttl_seconds : Z;
  enrollment_failure_window_seconds : Z;
  enrollment_max_failures : Z;
}.

(** ** Strings *)

(** [s[:n]] of UTF-8 text: [n] characters with their continuation bytes. *)
Fixpoint py_take (n : nat) (l : list ascii) : list ascii :=
  match l with
  | [] => []
  | c :: l =>
      if char_in 128 191 c then c :: py_take n l
      else match n with 0 => [] | S n => c :: py_take n l end
  end.
Definition py_slice (n : nat) (s : string) : string :=
  String.string_of_list_ascii (py_take n (String.list_ascii_of_string s)).

(** [s.strip()]: [space] holds for the whitespace of the text's encoding. *)
Fixpoint lstrip (space : ascii → bool) (l : list ascii) : list ascii :=
  match l with c :: k => if space c then lstrip space k else l | [] => [] end.
Definition py_strip (space : ascii → bool) (l : list ascii) : list ascii :=
  reverse (lstrip space (reverse (lstrip space l))).
Definition ascii_space (c : ascii) : bool := char_in 9 13 c || char_in 28 32 c.
(** A header is Latin-1 text, one byte per character. *)
Definition latin1_space (c : ascii) : bool := ascii_space c || char_in 133 133 c || char_in 160 160 c.

Definition is_ascii (l : list ascii) : bool := forallb (char_in 0 127) l.

(** [f"{n:08d}"] *)
Definition eight_digits (n : Z) : bytes :=
  map (λ k, ascii_of_nat (48 + Z.to_nat (n / 10 ^ k mod 10))) [7; 6; 5; 4; 3; 2; 1; 0]%Z.

(** ** Pairing codes *)

(** What an enrolment or a pairing draws: the random codes, the token, a new row id. *)
Record draws := { randbelow : nat → Z; token_urlsafe : bytes; new_uuid : string }.

(** The ten attempts to find an unused code. *)
Fixpoint allocate_code (attempts : nat) (k : nat) (key : bytes) (w : draws) (s : server) : result (bytes * string) :=
  match attempts with
  | 0 => Raise (HTTPException 503 ["Could not allocate pairing code"])
  | S attempts =>
      let code := eight_digits (randbelow w k) in
      digest ← digest_pairing_code code key;
      match find_row (λ p, bool_decide (code_digest p = digest)) (pairing_codes s) with
      | None => Ok (code, digest)
      | Some _ => allocate_code attempts (S k) key w s
      end
  end.

Definition create_pairing_code (cfg : settings) (r : request) (w : draws) (display_name : string) (s : server)
    : result (bytes * server) :=
  '(code, digest) ← allocate_code 10 0 (pairing_hmac_key_b64 cfg) w s;
  Ok (code,
      with_db (audit (actor r) "device.pairing_code_created" ("pairing:" +:+ new_uuid w) (JObj []))
        (with_pairing (new_uuid w)
           {| code_digest := digest; pairing_name := display_name;
              expires_at := instant (now r) + seconds (enrollment_code_ttl_seconds cfg); failures := 0;
              used_at := None; created_by := actor r |} s)).

(** ** Enrolment *)

(** [_source_ip] of the Cloudflare header and the client's address. *)
Definition source_ip_of (cfg : settings) (cf_ip client : option string) : string :=
  match cf_ip with
  | Some ip => if production cfg && negb (bool_decide (ip = "")) then py_slice 64 ip
               else py_slice 64 (default "unknown" client)
  | None => py_slice 64 (default "unknown" client)
  end.

Definition recent_failures (cfg : settings) (r : request) (ip : string) (s : server) : nat :=
  length (filter (λ a, source_ip a = ip ∧ succeeded a = false ∧
    (instant (now r) - seconds (enrollment_failure_window_seconds cfg) <= instant (attempted_at a))%Z)
    (enrollment_attempts s)).

Definition set_failures (n : Z) (p : pairing_row) : pairing_row :=
  {| code_digest := code_digest p; pairing_name := pairing_name p; expires_at := expires_at p;
     failures := n; used_at := used_at p; created_by := created_by p |}.
Definition mark_used (t : datetime) (p : pairing_row) : pairing_row :=
  {| code_digest := code_digest p; pairing_name := pairing_name p; expires_at := expires_at p;
     failures := failures p; used_at := Some t; created_by := created_by p |}.

Definition record_failed_enrollment (r : request) (ip : string) (pairing : option (string * pairing_row)) (s : server)
    : server :=
  let s := match pairing with Some (i, p) => update_pairing i (set_failures (failures p + 1)) s | None => s end in
  with_attempt {| source_ip := ip; succeeded := false; attempted_at := now r |} s.

Definition valid_pairing (cfg : settings) (r : request) (p : pairing_row) : bool :=
  bool_decide (used_at p = None) && bool_decide (instant (now r) < expires_at p)%Z
  && bool_decide (failures p < enrollment_max_failures cfg)%Z.

(** [DeviceEnrollmentRequest] *)
Record enrollment := { code : bytes; device_name : string; reported_app : string; reported_helper : string }.

Definition new_device (r : request) (token : bytes) (p : pairing_row) (body : enrollment) (s : store) : device_row :=
  {| display_name := if bool_decide (pairing_name p = "") then device_name body else pairing_name p;
     token_hash := digest_device_token token; app_version := reported_app body; helper_version := reported_helper body;
     status_document := Some [("enrollment", JStr "complete")];
     desired_revision_id := latest_revision_id s; active_revision_id := None;
     last_seen_at := Some (now r); enrolled_at := now r; revoked_at := None |}.

(** The new device and its token, and the database: a refused attempt is recorded. *)
Definition enroll_device (cfg : settings) (r : request) (w : draws) (ip : string) (body : enrollment) (seen s : server)
    : result (string * bytes) * server :=
  if decide (enrollment_max_failures cfg <= Z.of_nat (recent_failures cfg r ip seen))%Z
  then (Raise (HTTPException 429 ["Too many enrollment attempts"]), s)
  else
    match digest_pairing_code (code body) (pairing_hmac_key_b64 cfg) with
    | Raise e => (Raise e, s)
    | Ok digest =>
        let pairing := find_row (λ p, bool_decide (code_digest p = digest)) (pairing_codes seen) in
        match pairing with
        | Some (pairing_id, p) =>
            if valid_pairing cfg r p then
              match active_devices (db seen) with
              | _ :: _ =>
                  (Raise (HTTPException 409 ["Release one already has an enrolled tablet; revoke it before re-pairing"]), s)
              | [] =>
                  let id := new_uuid w in
                  let device := new_device r (token_urlsafe w) p body (db seen) in
                  (Ok (id, token_urlsafe w),
                   with_db (audit ("device:" +:+ id) "device.enrolled" ("device:" +:+ id) (JObj []))
                     (with_attempt {| source_ip := ip; succeeded := true; attempted_at := now r |}
                        (with_db (with_device id device) (update_pairing pairing_id (mark_used (now r)) s))))
              end
            else (Raise (HTTPException 401 ["Pairing code is invalid or expired"]), record_failed_enrollment r ip pairing s)
        | None => (Raise (HTTPException 401 ["Pairing code is invalid or expired"]), record_failed_enrollment r ip None s)
        end
    end.

Definition revoke_device (r : request) (id : string) (s : store) : result (device_row * store) :=
  d ← of_option (HTTPException 404 ["Device not found"]) (devices s !! id);
  let d := {| display_name := display_name d; token_hash := token_hash d; app_version := app_version d;
              helper_version := helper_version d; status_document := status_document d;
              desired_revision_id := desired_revision_id d; active_revision_id := active_revision_id d;
              last_seen_at := last_seen_at d; enrolled_at := enrolled_at d; revoked_at := Some (now r) |} in
  Ok (d, audit (actor r) "device.revoked" ("device:" +:+ id) (JObj []) (with_device id d s)).

(** ** The device credential *)

Definition BEARER : string := "Bearer ".

(** [require_device] on the Authorization header. *)
Definition require_device (authorization : option string) (s : store) : result (string * device_row) :=
  match authorization with
  | None => Raise (HTTPException 401 ["Device credential required"])
  | Some header =>
      match strip_prefix BEARER header with
      | None => Raise (HTTPException 401 ["Device credential required"])
      | Some rest =>
          let token := py_strip latin1_space (String.list_ascii_of_string rest) in
          if (length token <? 32) || (256 <? length token) then Raise (HTTPException 401 ["Invalid device credential"])
          else if negb (is_ascii token) then Raise (ValueError "UnicodeEncodeError")
          else
            match find_row (λ d, bool_decide (token_hash d = digest_device_token token)) (devices s) with
            | Some (id, d) =>
                match revoked_at d with
                | None => Ok (id, d)
                | Some _ => Raise (HTTPException 401 ["Device credential revoked"])
                end
            | None => Raise (HTTPException 401 ["Device credential revoked"])
            end
      end
  end.

(** ** Status reports *)

(** [BootWifiRecoveryStatus]; [completed_at] is the text of the instant. *)
Record BootWifiRecoveryStatus := {
  outcome : string; completed_at : string; elapsed_since_boot_ms : Z; internet_validated : bool;
  reconnect_attempts : Z; wifi_enable_attempts : Z }.
Definition dump_boot_wifi (b : BootWifiRecoveryStatus) : json :=
  JObj [("outcome", JStr (outcome b)); ("completed_at", JStr (completed_at b));
        ("elapsed_since_boot_ms", JInt (elapsed_since_boot_ms b)); ("internet_validated", JBool (internet_validated b));
        ("reconnect_attempts", JInt (reconnect_attempts b)); ("wifi_enable_attempts", JInt (wifi_enable_attempts b))].

(** [DeviceStatus] *)
Record DeviceStatus := {
  helper_state : string; helper_result : string; call_state : string; local_kill_switch : bool;
  storage_free_bytes : Z; last_error : option string; boot_wifi_recovery : option BootWifiRecoveryStatus;
  runtime_versions : list Z; recording_capable : bool; external_call_control_capable : bool;
  conversation_recording_capable : bool; prompt_barge_in_capable : bool; session_audit_capable : bool;
  continuous_recording_capable : bool; call_safety_capable : bool; call_safety_policy_version : option Z;
  maximum_call_duration_seconds : option Z; call_safety_last_error : option string;
  local_recovery_state : option string; telecom_recovery_state : option string;
  telecom_recovery_duration_ms : option Z; telecom_recovery_phase : option string;
  helper_supervisor_state : option string; audit_policy_version : Z; audit_enabled : bool; audit_spool_bytes : Z;
  audit_spool_count : Z; audit_last_error : option string; helper_source_commit : string; source_commit : string;
  call_control_protocol_version : option Z; call_control_state : option string;
  call_control_recovery_pending : bool; recording_spool_bytes : Z; recording_spool_count : Z;
  voicemail_spool_bytes : Z; voicemail_spool_count : Z; conversation_spool_bytes : Z; conversation_spool_count : Z;
  recording_filesystem_free_bytes : Z }.

(** The constraints of the fields. *)
Definition between (lo hi n : Z) : bool := (lo <=? n)%Z && (n <=? hi)%Z.
Definition at_least_zero (n : Z) : bool := (0 <=? n)%Z.
Definition option_all {A} (p : A → bool) (o : option A) : bool := match o with Some x => p x | None => true end.
Definition shorter (n : nat) (s : string) : bool := py_len s <=? n.
Definition INT_MAX : Z := 2147483647.
Definition LONG_MAX : Z := 9223372036854775807.
Definition control_state_pattern (s : string) : bool :=
  match String.list_ascii_of_string s with
  | c :: l => char_in 65 90 c && forallb (λ c, char_in 65 90 c || char_in 48 57 c || char_in 95 95 c) l && (length l <=? 79)
  | [] => false
  end.
Definition boot_wifi_fields (b : BootWifiRecoveryStatus) : bool :=
  bool_decide (outcome b ∈ ["already_connected"; "reconnect_recovered"; "wifi_link_unvalidated"; "gave_up"; "gave_up_active_call"])
  && between 0 31536000000 (elapsed_since_boot_ms b) && between 0 3 (reconnect_attempts b) && between 0 3 (wifi_enable_attempts b).
Definition status_fields (d : DeviceStatus) : bool :=
  shorter 80 (helper_state d) && shorter 80 (helper_result d)
  && bool_decide (call_state d ∈ ["idle"; "ringing"; "active"; "unknown"]) && at_least_zero (storage_free_bytes d)
  && option_all (shorter 500) (last_error d) && option_all boot_wifi_fields (boot_wifi_recovery d)
  && (length (runtime_versions d) <=? 8) && option_all at_least_zero (call_safety_policy_version d)
  && option_all (between 60 86400) (maximum_call_duration_seconds d) && option_all (shorter 160) (call_safety_last_error d)
  && option_all (shorter 80) (local_recovery_state d) && option_all (shorter 80) (telecom_recovery_state d)
  && option_all at_least_zero (telecom_recovery_duration_ms d) && option_all (shorter 80) (telecom_recovery_phase d)
  && option_all (shorter 80) (helper_supervisor_state d) && at_least_zero (audit_policy_version d)
  && at_least_zero (audit_spool_bytes d) && at_least_zero (audit_spool_count d) && option_all (shorter 160) (audit_last_error d)
  && shorter 40 (helper_source_commit d) && shorter 40 (source_commit d)
  && option_all (between 1 INT_MAX) (call_control_protocol_version d) && option_all control_state_pattern (call_control_state d)
  && at_least_zero (recording_spool_bytes d) && at_least_zero (recording_spool_count d)
  && between 0 LONG_MAX (voicemail_spool_bytes d) && between 0 INT_MAX (voicemail_spool_count d)
  && between 0 LONG_MAX (conversation_spool_bytes d) && between 0 INT_MAX (conversation_spool_count d)
  && between 0 LONG_MAX (recording_filesystem_free_bytes d).

(** [status.model_dump(mode="json")] *)
Definition dump_status (d : DeviceStatus) : list (string * json) :=
  [("helper_state", JStr (helper_state d)); ("helper_result", JStr (helper_result d));
   ("call_state", JStr (call_state d)); ("local_kill_switch", JBool (local_kill_switch d));
   ("storage_free_bytes", JInt (storage_free_bytes d)); ("last_error", dump_option JStr (last_error d));
   ("boot_wifi_recovery", dump_option dump_boot_wifi (boot_wifi_recovery d));
   ("runtime_versions", JList (map JInt (runtime_versions d))); ("recording_capable", JBool (recording_capable d));
   ("external_call_control_capable", JBool (external_call_control_capable d));
   ("conversation_recording_capable", JBool (conversation_recording_capable d));
   ("prompt_barge_in_capable", JBool (prompt_barge_in_capable d));
   ("session_audit_capable", JBool (session_audit_capable d));
   ("continuous_recording_capable", JBool (continuous_recording_capable d));
   ("call_safety_capable", JBool (call_safety_capable d));
   ("call_safety_policy_version", dump_option JInt (call_safety_policy_version d));
   ("maximum_call_duration_seconds", dump_option JInt (maximum_call_duration_seconds d));
   ("call_safety_last_error", dump_option JStr (call_safety_last_error d));
   ("local_recovery_state", dump_option JStr (local_recovery_state d));
   ("telecom_recovery_state", dump_option JStr (telecom_recovery_state d));
   ("telecom_recovery_duration_ms", dump_option JInt (telecom_recovery_duration_ms d));
   ("telecom_recovery_phase", dump_option JStr (telecom_recovery_phase d));
   ("helper_supervisor_state", dump_option JStr (helper_supervisor_state d));
   ("audit_policy_version", JInt (audit_policy_version d)); ("audit_enabled", JBool (audit_enabled d));
   ("audit_spool_bytes", JInt (audit_spool_bytes d)); ("audit_spool_count", JInt (audit_spool_count d));
   ("audit_last_error", dump_option JStr (audit_last_error d));
   ("helper_source_commit", JStr (helper_source_commit d)); ("source_commit", JStr (source_commit d));
   ("call_control_protocol_version", dump_option JInt (call_control_protocol_version d));
   ("call_control_state", dump_option JStr (call_control_state d));
   ("call_control_recovery_pending", JBool (call_control_recovery_pending d));
   ("recording_spool_bytes", JInt (recording_spool_bytes d)); ("recording_spool_count", JInt (recording_spool_count d));
   ("voicemail_spool_bytes", JInt (voicemail_spool_bytes d)); ("voicemail_spool_count", JInt (voicemail_spool_count d));
   ("conversation_spool_bytes", JInt (conversation_spool_bytes d));
   ("conversation_spool_count", JInt (conversation_spool_count d));
   ("recording_filesystem_free_bytes", JInt (recording_filesystem_free_bytes d))].

(** What a report writes to the device's row. *)
Definition report_status (r : request) (app helper : string) (status : DeviceStatus) (d : device_row) : device_row :=
  {| display_name := display_name d; token_hash := token_hash d; app_version := app; helper_version := helper;
     status_document := Some (dump_status status); desired_revision_id := desired_revision_id d;
     active_revision_id := active_revision_id d; last_seen_at := Some (now r); enrolled_at := enrolled_at d;
     revoked_at := revoked_at d |}.

(** ** Acknowledgements *)

Inductive ack_state := staged | activated | failed.
Definition ack_text (a : ack_state) : string :=
  match a with staged => "staged" | activated => "activated" | failed => "failed" end.

Definition dict_remove {A} (k : string) (l : list (string * A)) : list (string * A) := filter (λ m, m.1 ≠ k) l.

(** [acknowledge_revision]; the notification of a failure is not part of the database. *)
Definition acknowledge_revision (r : request) (id : string) (d : device_row) (revision_id : Z) (state : ack_state)
    (error : option string) (s : store) : result store :=
  _ ← of_option (HTTPException 404 ["Revision not found"]) (revisions s !! revision_id);
  if decide (desired_revision_id d ≠ Some revision_id)
  then Raise (HTTPException 409 ["Revision is not assigned to this device"])
  else
    let document := dict_set "revision_state" (JStr (ack_text state)) (device_status d) in
    let document :=
      if truthy error then dict_set "last_error" (JStr (default "" error)) document
      else match state with activated => dict_remove "last_error" document | _ => document end in
    Ok (with_device id
      {| display_name := display_name d; token_hash := token_hash d; app_version := app_version d;
         helper_version := helper_version d; status_document := Some document;
         desired_revision_id := desired_revision_id d;
         active_revision_id := match state with activated => Some revision_id | _ => active_revision_id d end;
         last_seen_at := Some (now r); enrolled_at := enrolled_at d; revoked_at := revoked_at d |} s).

(** ** Manifests and prompts *)

(** [manifest.get(k, [])], iterated over. *)
Definition member_list (k : string) (manifest : json) : result (list json) :=
  items ← get_member k manifest;
  match default (JList []) items with
  | JList l => Ok l
  | JObj o => Ok (map (λ m, JStr m.1) o)
  | JStr s => Ok (map (λ c, JStr (String c "")) (String.list_ascii_of_string s))
  | _ => Raise (TypeError "object is not iterable")
  end.

(** An element of a set must not be a list or a dictionary. *)
Definition hashable (j : json) : result json :=
  match j with JList _ | JObj _ => Raise (TypeError "unhashable type") | _ => Ok j end.

Section Downloads.
Context `{Cryptography} (key : bytes).

(** [device_manifest]: the manifest with its digest and signature. *)
Definition device_manifest (revision_id : Z) (s : store) : result (json * string * bytes) :=
  revision ← of_option (HTTPException 404 ["Revision not found"]) (revisions s !! revision_id);
  manifest ← load_manifest key revision;
  Ok (manifest, manifest_sha256 revision, signature_b64 revision).

(** [{item["content_hash"] for item in manifest.get("prompts", [])}] of one revision. *)
Definition manifest_hashes (s : store) (revision_id : Z) : result (list json) :=
  match revisions s !! revision_id with
  | None => Ok []
  | Some revision =>
      manifest ← load_manifest key revision;
      items ← member_list "prompts" manifest;
      mapM (λ item, hash ← get_item "content_hash" item; hashable hash) items
  end.

Definition is_hash (h : string) : bool :=
  let l := String.list_ascii_of_string h in
  (length l =? 64) && forallb (λ c, char_in 48 57 c || char_in 97 102 c) l.

(** [device_prompt]: the file that is sent. *)
Definition device_prompt (d : device_row) (hash : string) (s : server) : result bytes :=
  if negb (is_hash hash) then Raise (HTTPException 404 ["Prompt not found"])
  else
    allowed ← mapM (manifest_hashes (db s))
                (dict_fromkeys (option_list (desired_revision_id d) ++ option_list (active_revision_id d)));
    if existsb (λ j, match j with JStr h => bool_decide (h = hash) | _ => false end) (concat allowed) then
      '(_, prompt) ← of_option (HTTPException 404 ["Prompt not found"])
                       (find_row (λ p, bool_decide (content_hash p = hash)) (prompts (db s)));
      of_option (HTTPException 503 ["Prompt media is unavailable"]) (media s !! storage_name prompt)
    else Raise (HTTPException 403 ["Prompt is not assigned to this device"]).
End Downloads.

(** ** Prompt usage and deletion *)

(** An editable configuration of either kind. *)
Inductive configuration := legacy_configuration (c : DraftConfiguration) | flow_configuration (c : FlowDocument).

(** [usage.setdefault(k, []).extend(labels)] *)
Definition add_usage (k : string) (labels : list string) (usage : gmap string (list string)) : gmap string (list string) :=
  <[k := default [] (usage !! k) ++ labels]> usage.

Definition node_prompt_id (n : FlowNode) : option string :=
  match n with PlayPromptNode _ p _ => Some p | CollectDigitNode _ p _ _ _ _ _ => p | _ => None end.

Definition prompt_usage (c : configuration) : gmap string (list string) :=
  match c with
  | flow_configuration c =>
      foldl (λ u p, match block_prompt_id p.1 with
                    | Some i => if bool_decide (i = "") then u else add_usage i ["IVR Flow · " +:+ block_label p.1] u
                    | None => u
                    end) ∅ (walk_blocks (flow c))
  | legacy_configuration c =>
      foldl (λ u n, match node_prompt_id n with
                    | Some i => if bool_decide (i = "") then u else add_usage i ["IVR Flow · " +:+ node_id n] u
                    | None => u
                    end) ∅ (nodes c)
  end.

Section Prompts.
Context `{Cryptography} (key : bytes).

Definition current_configuration (s : store) : result configuration :=
  match read_draft s 1 with
  | None => Ok (flow_configuration blank_document)
  | Some draft =>
      document ← unseal key (document_encrypted draft);
      version ← schema_version document;
      if equals_int version 2 then flow_configuration <$> load_draft_v2 key s
      else if equals_int version 3 then flow_configuration <$> load_draft_v3 key s
      else if equals_int version 4 then flow_configuration <$> load_draft_v4 key s
      else legacy_configuration <$> load_legacy_document document
  end.

Definition editable_configurations (s : store) : result (list configuration) :=
  current ← current_configuration s;
  match read_draft s V4_DRAFT_ID with
  | None => Ok [current]
  | Some _ => v4 ← load_draft_v4 key s; Ok [current; flow_configuration v4]
  end.

Definition combined_prompt_usage (s : store) : result (gmap string (list string)) :=
  configurations ← editable_configurations s;
  Ok (foldl (λ u c, map_fold add_usage u (prompt_usage c)) ∅ configurations).

(** [any(item["id"] == prompt_id for item in manifest.get("prompts", []))] *)
Definition retains_prompt (prompt_id : string) (revision : revision_row) : result bool :=
  manifest ← load_manifest key revision;
  items ← member_list "prompts" manifest;
  foldM (λ (found : bool) item, if found then Ok true
                                else i ← get_item "id" item; Ok (py_eq i (JStr prompt_id))) false items.

Definition delete_prompt (r : request) (prompt_id : string) (s : server) : result server :=
  prompt ← of_option (HTTPException 404 ["Prompt not found"]) (prompts (db s) !! prompt_id);
  usage ← combined_prompt_usage (db s);
  if decide (is_Some (usage !! prompt_id)) then Raise (HTTPException 409 ["Prompt is used by the current draft"])
  else
    retained ← foldM (λ (found : bool) revision, if found then Ok true else retains_prompt prompt_id revision) false
                 (map_to_list (revisions (db s))).*2;
    if (retained : bool) then Raise (HTTPException 409 ["Published revisions retain this prompt"])
    else
      Ok (with_media (delete (storage_name prompt))
            (with_db (λ s, audit (actor r) "prompt.deleted" ("prompt:" +:+ prompt_id) (JObj [])
                             (with_prompts (delete prompt_id) s)) s)).
End Prompts.
