(* ===== verification/Policies.v ===== *)
(** * Signed policies of the tablet ([audit_settings.py], [call_safety_settings.py])

    The session audit policy and the call duration policy: versions only grow, the
    latest is signed for the tablet, and a tablet's report of the version it applies is
    recorded when it matches a version on record.  Reports arrive with [sync_device]. *)
From Stdlib Require Import Ascii.
From stdpp Require Import base gmap sets strings numbers pretty list.
From S2P Require Import Prelude FlowTree Schemas LegacyGraph Json Crypto Documents Store Drafts Revisions V4Api Diff Devices.

(** [order_by(version.desc()).limit(1)] *)
Definition latest_version {A} (m : gmap Z A) : option (Z * A) :=
  match (map_to_list m).*1 with
  | [] => None
  | v :: l => let latest := foldr Z.max v l in row ← m !! latest; Some (latest, row)
  end.
(** The version an insertion gets from the sequence of the table. *)
Definition next_version {A} (m : gmap Z A) : Z := match latest_version m with Some (v, _) => v + 1 | None => 1 end.

Definition with_policies (f : policy_tables → policy_tables) (s : server) : server :=
  {| db := db s; pairing_codes := pairing_codes s; enrollment_attempts := enrollment_attempts s; media := media s;
     policies := f (policies s) |}.

Definition GIB : Z := 1073741824.

(** ** Session audit *)

Section Signed.
Context `{Cryptography} (signing_key : bytes).

(** [signed_policy]: the document with its digest and signature. *)
Definition audit_policy_document (p : policy_tables) : json :=
  let latest := latest_version (audit_policies p) in
  JObj [("kind", JStr "session_audit_policy");
        ("version", JInt (match latest with Some (v, _) => v | None => 0 end));
        ("enabled", JBool (match latest with Some (_, row) => policy_enabled row | None => false end));
        ("local_quota_bytes", JInt (match latest with Some (_, row) => local_quota_bytes row | None => GIB end))].
Definition signed_policy (p : policy_tables) : json * string * bytes :=
  let document := audit_policy_document p in
  let '(digest, signature) := sign signing_key document in (document, digest, signature).

(** [signed_call_safety_policy] *)
Definition safety_policy_document (p : policy_tables) : json :=
  let latest := latest_version (safety_policies p) in
  JObj [("kind", JStr "call_safety_policy"); ("schema_version", JInt 1);
        ("version", JInt (match latest with Some (v, _) => v | None => 0 end));
        ("maximum_call_duration_seconds", JInt (match latest with Some (_, n) => n | None => 3600 end))].
Definition signed_call_safety_policy (p : policy_tables) : json * string * bytes :=
  let document := safety_policy_document p in
  let '(digest, signature) := sign signing_key document in (document, digest, signature).
End Signed.

Definition acknowledge_policy (id : string) (status : DeviceStatus) (p : policy_tables) : result policy_tables :=
  if negb (session_audit_capable status) || bool_decide (audit_policy_version status = 0%Z) then
    if audit_enabled status
    then Raise (HTTPException 422 ["Audit recording needs a verified policy and supported helper"])
    else Ok p
  else
    let version := audit_policy_version status in
    let mismatch := Raise (HTTPException 422 ["Applied audit policy does not match a signed policy"]) in
    match audit_policies p !! version with
    | None => mismatch
    | Some row =>
        if decide (policy_enabled row = audit_enabled status) then
          Ok {| audit_policies := audit_policies p; audit_acknowledgements := {[(id, version)]} ∪ audit_acknowledgements p;
                safety_policies := safety_policies p; safety_acknowledgements := safety_acknowledgements p |}
        else mismatch
    end.

(** [AuditSettingsInput] has already checked the quota's bounds. *)
Definition save_audit_settings (r : request) (enabled : bool) (quota : Z) (s : server) : result server :=
  let active := active_devices (db s) in
  if enabled && (bool_decide (active = []) ||
                 existsb (λ d, negb (py_truthy (default JNull (assoc "session_audit_capable" (device_status d))))) active)
  then Raise (HTTPException 409 ["Update the enrolled tablet app and helper before enabling call auditing"])
  else
    let version := next_version (audit_policies (policies s)) in
    Ok (with_db (audit (actor r) "session_audit.policy_changed" ("audit-policy:" +:+ pretty version) (JObj []))
          (with_policies (λ p,
             {| audit_policies := <[version := {| policy_enabled := enabled; local_quota_bytes := quota |}]> (audit_policies p);
                audit_acknowledgements := audit_acknowledgements p; safety_policies := safety_policies p;
                safety_acknowledgements := safety_acknowledgements p |}) s)).

(** [validate_call_report] of a report with a policy version, [None] for a disabled one. *)
Definition validate_call_report (p : policy_tables) (report : option Z) (call_result id : string) : result unit :=
  match report with
  | None => Ok tt
  | Some version =>
      match audit_policies p !! version with
      | Some row =>
          if policy_enabled row && negb (bool_decide (call_result = "STOCK_DIALER"))
             && bool_decide ((id, version) ∈ audit_acknowledgements p)
          then Ok tt
          else Raise (HTTPException 422 ["Audit audio requires an enabled session policy and an IVR call"])
      | None => Raise (HTTPException 422 ["Audit audio requires an enabled session policy and an IVR call"])
      end
  end.

(** ** Call duration *)

Definition acknowledge_call_safety_policy (id : string) (status : DeviceStatus) (p : policy_tables) : result policy_tables :=
  if negb (call_safety_capable status) then
    if bool_decide (call_safety_policy_version status = None) && bool_decide (maximum_call_duration_seconds status = None)
    then Ok p
    else Raise (HTTPException 422 ["Call safety acknowledgment requires a compatible app and helper"])
  else
    match call_safety_policy_version status with
    | None => Ok p
    | Some version =>
        let expected := if decide (version = 0%Z) then Some 3600%Z else safety_policies p !! version in
        match expected with
        | Some n =>
            if decide (maximum_call_duration_seconds status = Some n) then
              Ok {| audit_policies := audit_policies p; audit_acknowledgements := audit_acknowledgements p;
                    safety_policies := safety_policies p;
                    safety_acknowledgements := match safety_acknowledgements p !! (id, version) with
                                               | Some _ => safety_acknowledgements p
                                               | None => <[(id, version) := n]> (safety_acknowledgements p)
                                               end |}
            else Raise (HTTPException 422 ["Applied call safety policy does not match a signed policy"])
        | None => Raise (HTTPException 422 ["Applied call safety policy does not match a signed policy"])
        end
    end.

Definition save_safety_settings (r : request) (minutes : Z) (s : server) : server :=
  let p := policies s in
  let n := (minutes * 60)%Z in
  let unchanged := match latest_version (safety_policies p) with Some (_, m) => bool_decide (m = n) | None => false end in
  if unchanged then s
  else
    let version := next_version (safety_policies p) in
    with_db (audit (actor r) "call_safety.policy_changed" ("call-safety-policy:" +:+ pretty version) (JObj []))
      (with_policies (λ p, {| audit_policies := audit_policies p; audit_acknowledgements := audit_acknowledgements p;
                              safety_policies := <[version := n]> (safety_policies p);
                              safety_acknowledgements := safety_acknowledgements p |}) s).

(** ** [sync_device] *)

Record sync_response := {
  desired : option Z; active : option Z; sync_sha256 : option string; sync_signature : option bytes;
  audit_policy : json * string * bytes; call_safety_policy : json * string * bytes }.

Definition sync_device `{Cryptography} (signing_key : bytes) (r : request) (id : string) (d : device_row)
    (app helper : string) (status : DeviceStatus) (s : server) : result (sync_response * server) :=
  p ← acknowledge_policy id status (policies s);
  p ← acknowledge_call_safety_policy id status p;
  let s := with_policies (λ _, p) (with_db (with_device id (report_status r app helper status d)) s) in
  let revision := i ← desired_revision_id d; revisions (db s) !! i in
  Ok ({| desired := desired_revision_id d; active := active_revision_id d;
         sync_sha256 := manifest_sha256 <$> revision; sync_signature := signature_b64 <$> revision;
         audit_policy := signed_policy signing_key p; call_safety_policy := signed_call_safety_policy signing_key p |}, s).
