(* ===== verification/Prompts.v ===== *)
(** * Prompt audio ([prompt_service.py])

    Importing a recording as a prompt: the converted file is stored under its digest
    and a numbered row is added within the quota.  [transcode] stands for
    [transcode_prompt], which [Media] models.  As in [Devices], a transaction reads [seen] and writes to [s];
    the files are not part of the transaction. *)
From Stdlib Require Import Ascii.
From stdpp Require Import base gmap sets strings numbers pretty list.
From S2P Require Import Prelude FlowTree Schemas LegacyGraph Json Crypto Documents Store Drafts Revisions V4Api Diff Devices.

(** [CanonicalPrompt]: the converted file, whose size and digest the row records. *)
Record canonical_prompt := { canonical_file : bytes; canonical_duration : Z }.
Definition canonical_hash (c : canonical_prompt) : string := sha256_hexdigest (canonical_file c).
Definition canonical_size (c : canonical_prompt) : Z := Z.of_nat (length (canonical_file c)).

(** [PromptImportError] as the handler [upload_prompt] reports it. *)
Definition import_error (message : string) (code : Z) : exn := HTTPException code [message].

Record prompt_settings := {
  prompt_upload_limit_bytes : Z; prompt_duration_limit_seconds : Z; prompt_quota_bytes : Z }.

(** [coalesce(sum(size_bytes), 0)] and [max(version)] of the prompts with a name. *)
Definition used_bytes (m : gmap string prompt_row) : Z := map_fold (λ _ p n, (size_bytes p + n)%Z) 0%Z m.
Definition latest_prompt_version (name : string) (m : gmap string prompt_row) : Z :=
  map_fold (λ _ p n, if decide (prompt_name p = name) then Z.max (prompt_version p) n else n) 0%Z m.

(** The row [import_prompt] adds. *)
Definition imported_row (t : datetime) (i name : string) (canonical : canonical_prompt) (m : gmap string prompt_row) : prompt_row :=
  {| prompt_id := i; prompt_name := name; prompt_version := latest_prompt_version name m + 1;
     content_hash := canonical_hash canonical; size_bytes := canonical_size canonical;
     duration_ms := canonical_duration canonical; storage_name := canonical_hash canonical +:+ ".wav";
     prompt_created := t |}.

(** The unique constraints on [content_hash] and [storage_name]. *)
Definition violates_unique (p : prompt_row) (m : gmap string prompt_row) : bool :=
  existsb (λ q, bool_decide (content_hash q = content_hash p) || bool_decide (storage_name q = storage_name p))
    (map_to_list m).*2.

Section Uploads.
(** The conversion, or the message of its [MediaError]. *)
Context (transcode : bytes → Z → result (canonical_prompt + string)).

(** [name.strip()] of ASCII text. *)
Definition normalized (name : string) : string :=
  String.string_of_list_ascii (py_strip ascii_space (String.list_ascii_of_string name)).

(** The checks that precede the first change; the new row and its file. *)
Definition prepare_import (cfg : prompt_settings) (r : request) (i name : string) (source : option bytes) (seen : server)
    : result (prompt_row * bytes) :=
  let name := normalized name in
  if bool_decide (name = "") then Raise (import_error "Prompt name cannot be blank" 422)
  else if 120 <? py_len name then Raise (import_error "Prompt name must be 120 characters or fewer" 422)
  else
    source ← of_option (import_error "Prompt source file is unavailable" 422) source;
    if (prompt_upload_limit_bytes cfg <? Z.of_nat (length source))%Z
    then Raise (import_error "Prompt upload exceeds 25 MiB" 413)
    else
      converted ← transcode source (prompt_duration_limit_seconds cfg);
      canonical ← match converted with inl c => Ok c | inr m => Raise (import_error m 422) end;
      match find_row (λ p, bool_decide (content_hash p = canonical_hash canonical)) (prompts (db seen)) with
      | Some _ => Raise (import_error "This prompt audio already exists" 409)
      | None =>
          if (prompt_quota_bytes cfg <? used_bytes (prompts (db seen)) + canonical_size canonical)%Z
          then Raise (import_error "Prompt storage quota exceeded" 507)
          else Ok (imported_row (now r) i name canonical (prompts (db seen)), canonical_file canonical)
      end.

(** [import_prompt] and the commit of its caller: the file is moved into place, then
    the row is inserted; an insertion that fails removes the file again. *)
Definition import_prompt (cfg : prompt_settings) (r : request) (i name : string) (source : option bytes) (seen s : server)
    : result prompt_row * server :=
  match prepare_import cfg r i name source seen with
  | Raise e => (Raise e, s)
  | Ok (row, file) =>
      if violates_unique row (prompts (db s)) then
        (Raise (OtherException "IntegrityError"), with_media (delete (storage_name row)) s)
      else
        (Ok row,
         with_media <[storage_name row := file]>
           (with_db (λ d, audit (actor r) "prompt.uploaded" ("prompt:" +:+ i) (JObj [("size_bytes", JInt (size_bytes row))])
                            (with_prompts <[i := row]> d)) s))
  end.
End Uploads.
