(* ===== verification/DevicesFacts.v ===== *)
(** * Lemmas on tablets and prompts

    Row searches, digests as prompt names, and what each handler of [Devices],
    [Policies] and [Prompts] changes. *)
From Stdlib Require Import Ascii.
From stdpp Require Import base gmap sets strings numbers pretty sorting list.
From S2P Require Import Prelude FlowTree Schemas Validation Compiler LegacyGraph Json Crypto Documents DocumentsFacts DocumentsStore Store Drafts DraftsCorrect Revisions V4Api V4ApiCorrect Diff V3Api Devices Policies Prompts.

(** ** Strings *)

Lemma list_ascii_app (a b : string) :
  String.list_ascii_of_string (a +:+ b) = String.list_ascii_of_string a ++ String.list_ascii_of_string b.
Proof. induction a as [|c a IH]; [done|]. cbn [String.list_ascii_of_string app]. rewrite <- IH. done. Qed.

(** ** Row searches *)

Lemma find_row_some {A} (p : A → bool) (m : gmap string A) i x : find_row p m = Some (i, x) → m !! i = Some x ∧ p x = true.
Proof.
  unfold find_row. intros [Hin Hp]%find_some. split; [|done].
  by apply elem_of_map_to_list, list_elem_of_In.
Qed.
Lemma find_row_none {A} (p : A → bool) (m : gmap string A) : find_row p m = None → ∀ i x, m !! i = Some x → p x = false.
Proof.
  unfold find_row. intros Hn i x Hx. apply (find_none _ _ Hn (i, x)).
  by apply list_elem_of_In, elem_of_map_to_list.
Qed.
Lemma find_row_unique {A} (p : A → bool) (m : gmap string A) i x :
  m !! i = Some x → p x = true → (∀ j y, m !! j = Some y → p y = true → j = i) → find_row p m = Some (i, x).
Proof.
  intros Hx Hp Hu. destruct (find_row p m) as [[j y]|] eqn:E.
  - apply find_row_some in E as [Hy Hpy]. rewrite <- (Hu j y) in * by done. by simplify_eq.
  - by rewrite (find_row_none _ _ E i x Hx) in Hp.
Qed.

(** ** Digests are 64 hexadecimal digits *)

Lemma round_length s kw : length s = 8 → length (Sha256.round s kw) = 8.
Proof. destruct s as [|? [|? [|? [|? [|? [|? [|? [|? [|? ?]]]]]]]]]; done. Qed.
Lemma rounds_length l s : length s = 8 → length (foldl Sha256.round s l) = 8.
Proof. revert s. induction l as [|x l IH]; intros s H; cbn [foldl]; [done|]. by apply IH, round_length. Qed.
Lemma compress_length s b : length s = 8 → length (Sha256.compress s b) = 8.
Proof. intros H. unfold Sha256.compress. rewrite length_zip_with, rounds_length by done. lia. Qed.
Lemma blocks_length k s w : length s = 8 → length (Sha256.blocks k s w) = 8.
Proof. revert s w. induction k as [|k IH]; intros s w H; cbn [Sha256.blocks]; [done|]. by apply IH, compress_length. Qed.
Lemma big_endian_length k n : length (Sha256.big_endian k n) = k.
Proof. revert n. induction k as [|k IH]; intros n; cbn [Sha256.big_endian]; [done|]. rewrite length_app, IH. simpl. lia. Qed.
Lemma sha256_length l : length (sha256 l) = 32.
Proof.
  unfold sha256, Sha256.digest. pose proof (blocks_length (length (Sha256.words (Sha256.pad l)) / 16) Sha256.initial
    (Sha256.words (Sha256.pad l)) eq_refl) as H. revert H. generalize (Sha256.blocks (length (Sha256.words (Sha256.pad l)) / 16)
    Sha256.initial (Sha256.words (Sha256.pad l))). intros s Hs.
  assert (length (concat (Sha256.big_endian 4 <$> s)) = 4 * length s) as ->; [|lia].
  clear Hs. induction s as [|x s IH]; [done|]. rewrite fmap_cons. cbn [concat length]. rewrite length_app, IH, big_endian_length. lia.
Qed.

Definition hex_char (c : ascii) : bool := char_in 48 57 c || char_in 97 102 c.
Lemma hex_digit_char n : n < 16 → hex_char (hex_digit n) = true.
Proof. do 16 (destruct n as [|n]; [done|]). lia. Qed.
Lemma hex_of_spec l : length (String.list_ascii_of_string (hex_of l)) = 2 * length l ∧
  forallb hex_char (String.list_ascii_of_string (hex_of l)) = true.
Proof.
  unfold hex_of, of_bytes. rewrite String.list_ascii_of_string_of_list_ascii.
  induction l as [|c l [IH1 IH2]]; [done|]. rewrite fmap_cons. cbn [concat app length forallb].
  pose proof (nat_ascii_bounded c). rewrite !hex_digit_char, IH1, IH2; [split; [lia|done]| |].
  - apply Nat.mod_upper_bound. lia.
  - apply Nat.Div0.div_lt_upper_bound. lia.
Qed.
Lemma sha256_is_hash l : is_hash (sha256_hexdigest l) = true.
Proof.
  unfold is_hash, sha256_hexdigest. destruct (hex_of_spec (sha256 l)) as [-> Hc]. rewrite sha256_length.
  rewrite andb_true_iff. split; [done|exact Hc].
Qed.

(** ** Publications *)

Section Facts.
Context `{CryptographyLaws} (key signing_key : bytes) (zoneinfo : string → zone_lookup) (limit : Z).

(** *** Manifests list the rows of the prompts they use *)

Lemma rows_from c s p : p ∈ prompts_for_configuration c s → ∃ i, prompts s !! i = Some p.
Proof using Type.
  unfold prompts_for_configuration. case_decide; [by intros ?%elem_of_nil|].
  intros ([i q] & -> & Hin)%list_elem_of_fmap. apply elem_of_map_to_list, map_lookup_filter_Some in Hin as [Hin _].
  by exists i.
Qed.

Lemma version_manifest_keys ver id c rows t src out : dict_keys_ok (JObj (manifest_members ver id c rows t src out)).
Proof using Type.
  unfold manifest_members, compiled_members, rolled_back.
  destruct ver, src; cbn [app]; literal_members;
    auto using dump_policy_keys, dump_recording_keys, dump_flow_keys, dump_program_keys;
    apply keys_ok_map; intros x _; first [apply dump_schedule_keys | literal_members].
Qed.

Lemma manifest_items ver id c rows t src out :
  member_list "prompts" (sorted_document (JObj (manifest_members ver id c rows t src out)))
  = Ok (map sorted_document (map prompt_document (sorted_prompts rows))).
Proof using Type.
  pose proof (version_manifest_keys ver id c rows t src out) as Hk. pose proof (proj1 (proj1 (keys_ok_members _) Hk)) as Hnd.
  unfold member_list, get_member. cbn [sorted_document mbind result_bind].
  rewrite assoc_sorted by done. unfold manifest_members at 1. destruct ver; cbn [app assoc];
    repeat first [rewrite decide_True by done | rewrite decide_False by done]; done.
Qed.

Lemma prompt_item p : get_item "id" (sorted_document (prompt_document p)) = Ok (JStr (prompt_id p)) ∧
  get_item "content_hash" (sorted_document (prompt_document p)) = Ok (JStr (content_hash p)).
Proof using Type. split; reflexivity. Qed.

(** The prompts a revision lists are rows of the table. *)
Definition lists_rows (s : store) (row : revision_row) : Prop :=
  ∃ m items, load_manifest key row = Ok m ∧ member_list "prompts" m = Ok items ∧
    ∀ item, item ∈ items → ∃ i p, prompts s !! i = Some p ∧ prompt_id p = i ∧
      get_item "id" item = Ok (JStr i) ∧ get_item "content_hash" item = Ok (JStr (content_hash p)).

Lemma sealed_lists_rows ver s n row id c t src out : length n = 12 →
  manifest_encrypted row = seal key n (JObj (manifest_members ver id c (prompts_for_configuration c s) t src out)) →
  (∀ i p, prompts s !! i = Some p → prompt_id p = i) → lists_rows s row.
Proof using Type*.
  intros Hn Hrow Hid. eexists _, _. split; [|split; [apply manifest_items|]].
  { unfold load_manifest. rewrite Hrow. apply unseal_seal; [done|apply version_manifest_keys]. }
  intros item Hi. apply list_elem_of_In in Hi. rewrite map_map in Hi. apply in_map_iff in Hi as (p & <- & Hp).
  apply list_elem_of_In in Hp. unfold sorted_prompts in Hp. rewrite merge_sort_Permutation in Hp.
  apply rows_from in Hp as [i Hp]. exists i, p. split; [done|]. split; [by apply Hid|]. rewrite <- (Hid i p Hp). apply prompt_item.
Qed.

Lemma lists_rows_mono s s' row : (∀ i p, prompts s !! i = Some p → prompts s' !! i = Some p) →
  lists_rows s row → lists_rows s' row.
Proof using Type.
  intros Hm (m & items & Hl & Hi & Hall). exists m, items. split; [done|]. split; [done|].
  intros item (i & p & Hp & Hrest)%Hall. exists i, p. split; [by apply Hm|done].
Qed.

(** *** What the handlers of drafts and revisions do to revisions, devices and prompts *)

(** Nothing, *)
Definition untouched (s s' : store) : Prop :=
  revisions s' = revisions s ∧ next_revision s' = next_revision s ∧ devices s' = devices s ∧ prompts s' = prompts s.
(** a publication, by review or by rollback, *)
Definition publishes (s s' : store) : Prop := ∃ row,
  (∀ i, revisions s' !! i = if decide (i = next_revision s) then Some row else revisions s !! i) ∧
  next_revision s' = (next_revision s + 1)%Z ∧ devices s' = assign_revision (next_revision s) <$> devices s ∧
  prompts s' = prompts s ∧ ((∀ i p, prompts s !! i = Some p → prompt_id p = i) → lists_rows s row).
(** or the assignment of a revision that is there. *)
Definition assigns (s s' : store) : Prop := ∃ id,
  is_Some (revisions s !! id) ∧ revisions s' = revisions s ∧ next_revision s' = next_revision s ∧
  devices s' = assign_revision id <$> devices s ∧ prompts s' = prompts s.

Lemma untouched_trans s1 s2 s3 : untouched s1 s2 → untouched s2 s3 → untouched s1 s3.
Proof using Type. unfold untouched. naive_solver congruence. Qed.

Lemma create_version_ok ver c rows r source s id s' :
  create_revision_version key signing_key ver c rows r source s = Ok (id, s') → ∃ out row pending,
    id = next_revision s ∧ s' = with_revision id row (with_revision id pending s) ∧
    manifest_encrypted row = seal key (nonce r 1) (JObj (manifest_members ver id c rows (now r) source out)).
Proof using Type.
  unfold create_revision_version, create_revision_with, build_manifest_version. intros E.
  apply result_bind_ok in E as (m & (out & _ & [= <-])%result_bind_ok & E). destruct (sign signing_key _) as [digest signature].
  injection E as <- <-. by eexists out, _, _.
Qed.

(** A publication leaves out the audit and, after a rollback, the saved draft. *)
Lemma created_publishes ver c r source s id s1 s' : length (nonce r 1) = 12 →
  create_revision_version key signing_key ver c (prompts_for_configuration c s) r source s = Ok (id, s1) →
  revisions s' = revisions s1 → next_revision s' = next_revision s1 → devices s' = assign_revision id <$> devices s1 →
  prompts s' = prompts s1 → publishes s s'.
Proof using Type*.
  intros Hn (out & row & pending & -> & -> & Hrow)%create_version_ok Hr Hx Hd Hp. exists row.
  split; [|split; [|split; [|split]]].
  - intros i. rewrite Hr. cbn [with_revision revisions]. case_decide as Ei; [subst; by rewrite lookup_insert_eq|].
    by rewrite !lookup_insert_ne by done.
  - rewrite Hx. cbn [with_revision next_revision]. lia.
  - by rewrite Hd.
  - by rewrite Hp.
  - by eapply sealed_lists_rows.
Qed.

Lemma store_lane_untouched ver id before r c seen s c' s' :
  (∀ d seen a a', before d seen a = Ok a' → a = a') → store_lane key ver id before r c seen s = Ok (c', s') → untouched s s'.
Proof using Type.
  intros Hb E. unfold store_lane in E. case_decide; [|done].
  apply result_bind_ok in E as (s1 & Hs1 & E). apply result_bind_ok in E as (s2 & Hs2 & E). injection E as <- <-.
  assert (s1 = s) as -> by (destruct (read_draft seen id); [symmetry; by eapply Hb|by injection Hs1 as <-]).
  unfold write_row in Hs2. repeat case_match; try done; by injection Hs2 as <-.
Qed.
Lemma save_v3_untouched r c seen s c' s' : store_draft_v3 key r c seen s = Ok (c', s') → untouched s s'.
Proof using Type. apply store_lane_untouched. by intros d sn a a' [= ->]. Qed.
Lemma save_v4_untouched r c seen s c' s' : store_draft_v4 key r c seen s = Ok (c', s') → untouched s s'.
Proof using Type. apply store_lane_untouched. by intros d sn a a' [= ->]. Qed.
Lemma initialize_v3_untouched r seen s c s' : initialize_v3_draft key r seen s = Ok (c, s') → untouched s s'.
Proof using Type.
  unfold initialize_v3_draft. destruct (read_draft seen 1) as [draft|]; [|apply save_v3_untouched].
  intros (j & _ & (v & _ & E)%result_bind_ok)%result_bind_ok. case_match.
  - apply result_bind_ok in E as (c1 & _ & E). by injection E as <- <-.
  - apply result_bind_ok in E as (number & _ & E). apply result_bind_ok in E as (promoted & _ & E).
    apply save_v3_untouched in E. eapply untouched_trans; [|exact E]. done.
Qed.
Lemma initialize_v4_untouched r seen s c s' : initialize_v4_draft key r seen s = Ok (c, s') → untouched s s'.
Proof using Type.
  unfold initialize_v4_draft. destruct (read_draft seen V4_DRAFT_ID); [intros (c1 & _ & [= <- <-])%result_bind_ok; done|].
  destruct (read_draft seen 1); [|apply save_v4_untouched].
  intros (j & _ & (promoted & _ & E)%result_bind_ok)%result_bind_ok. by eapply save_v4_untouched.
Qed.

Lemma put_v3_untouched r c s c' s' : put_draft_v3 key r c s = Ok (c', s') → untouched s s'.
Proof using Type.
  unfold put_draft_v3. destruct (store_draft_v3 _ _ _ _ _) as [[c1 s1]|[]] eqn:E; try done. intros [= <- <-]. by apply save_v3_untouched in E.
Qed.
Lemma put_v4_untouched r c s c' s' : put_draft_v4 key r c s = Ok (c', s') → untouched s s'.
Proof using Type.
  unfold put_draft_v4. destruct (store_draft_v4 _ _ _ _ _) as [[c1 s1]|[]] eqn:E; try done. intros [= <- <-]. by apply save_v4_untouched in E.
Qed.
Lemma get_v4_untouched r s c s' : get_draft_v4 key r s = Ok (c, s') → untouched s s'.
Proof using Type.
  unfold get_draft_v4. cbv zeta.
  assert (Hcloned : ∀ c s', ('(c, s) ← initialize_v4_draft key r s s;
    Ok (c, audit (actor r) "draft.v4_cloned" "configuration" (JObj [("edit_version", JInt (edit_version c))]) s)) = Ok (c, s') → untouched s s').
  { intros c1 s1 ([c2 s2] & E%initialize_v4_untouched & [= <- <-])%result_bind_ok. exact E. }
  destruct (read_draft s V4_DRAFT_ID); [|apply Hcloned].
  destruct (load_draft_v4 key s) as [c1|[]]; try done; [by intros [= <- <-]|apply Hcloned].
Qed.

Lemma publish_v4_publishes r body s id s' : length (nonce r 1) = 12 →
  publish_draft_v4 key signing_key zoneinfo limit r body s = Ok (id, s') → publishes s s'.
Proof using Type*.
  unfold publish_draft_v4, publish_draft_v4_seen. intros Hn (c & _ & (? & _ & (? & _ & (? & _ & (? & _ & ([id' s1] & Hc & [= <- <-])
    %result_bind_ok)%result_bind_ok)%result_bind_ok)%result_bind_ok)%result_bind_ok)%result_bind_ok.
  by eapply created_publishes.
Qed.
Lemma publish_v3_publishes r s id s' : length (nonce r 1) = 12 →
  publish_draft_v3 key signing_key zoneinfo limit r s = Ok (id, s') → publishes s s'.
Proof using Type*.
  unfold publish_draft_v3. intros Hn (c & _ & (? & _ & (? & _ & (? & _ & ([id' s1] & Hc & [= <- <-])
    %result_bind_ok)%result_bind_ok)%result_bind_ok)%result_bind_ok)%result_bind_ok.
  by eapply created_publishes.
Qed.
Lemma rollback_v4_publishes r rid s id s' : length (nonce r 1) = 12 →
  rollback_v4_revision key signing_key zoneinfo limit r rid s = Ok (id, s') → publishes s s'.
Proof using Type*.
  unfold rollback_v4_revision. intros Hn (source & _ & E)%result_bind_ok. case_decide; [done|].
  apply result_bind_ok in E as (m & _ & (current & _ & (c & _ & (? & _ & (? & _ & (? & _ & ([id' s1] & Hc & ([c' s2] & (Hr & Hx & Hd & Hp)%save_v4_untouched
    & [= <- <-])%result_bind_ok)%result_bind_ok)%result_bind_ok)%result_bind_ok)%result_bind_ok)%result_bind_ok)%result_bind_ok).
  eapply created_publishes; [done|exact Hc|done|done|by cbn; rewrite Hd|done].
Qed.
Lemma rollback_v3_publishes r rid s id s' : length (nonce r 1) = 12 →
  rollback_v3_revision key signing_key zoneinfo limit r rid s = Ok (id, s') → publishes s s'.
Proof using Type*.
  unfold rollback_v3_revision. intros Hn (source & _ & E)%result_bind_ok. case_decide; [done|].
  apply result_bind_ok in E as (m & _ & (current & _ & (c & _ & (? & _ & (? & _ & (? & _ & ([id' s1] & Hc & ([c' s2] & (Hr & Hx & Hd & Hp)%save_v3_untouched
    & [= <- <-])%result_bind_ok)%result_bind_ok)%result_bind_ok)%result_bind_ok)%result_bind_ok)%result_bind_ok)%result_bind_ok).
  eapply created_publishes; [done|exact Hc|done|done|by cbn; rewrite Hd|done].
Qed.

Lemma activate_v4_assigns r rid s id s' : activate_immutable_revision key r rid s = Ok (id, s') → assigns s s'.
Proof using Type.
  unfold activate_immutable_revision. intros (source & Hs%of_option_ok & E)%result_bind_ok. case_decide; [done|].
  apply result_bind_ok in E as (m & _ & (? & _ & [= <- <-])%result_bind_ok). exists rid. by rewrite Hs.
Qed.
Lemma activate_v3_assigns r rid s id s' : activate_immutable_revision_v3 r rid s = Ok (id, s') → assigns s s'.
Proof using Type.
  unfold activate_immutable_revision_v3. intros (source & Hs%of_option_ok & E)%result_bind_ok. case_decide; [done|].
  injection E as <- <-. exists rid. by rewrite Hs.
Qed.

(** ** Deletion *)

Lemma retains_false i row : retains_prompt key i row = Ok false → ∀ s, lists_rows s row →
  ∀ m items item, load_manifest key row = Ok m → member_list "prompts" m = Ok items → item ∈ items →
  get_item "id" item ≠ Ok (JStr i).
Proof using Type.
  intros Hr s _ m items item Hm Hi Hin Hid. unfold retains_prompt in Hr. rewrite Hm in Hr. cbn [mbind result_bind] in Hr.
  rewrite Hi in Hr. cbn [mbind result_bind] in Hr.
  assert (Hstuck : ∀ l, foldM (λ (found : bool) item, if found then Ok true
      else j ← get_item "id" item; Ok (py_eq j (JStr i))) true l = Ok true).
  { induction l as [|x l IH]; [done|]. exact IH. }
  clear Hi Hm. induction items as [|x items IH]; [by apply elem_of_nil in Hin|]. cbn [foldM] in Hr.
  apply elem_of_cons in Hin as [<-|Hin].
  - rewrite Hid in Hr. cbn [mbind result_bind] in Hr.
    assert (py_eq (JStr i) (JStr i) = true) as Ht by (cbn; by apply bool_decide_eq_true). rewrite Ht, Hstuck in Hr. done.
  - apply result_bind_ok in Hr as (b & _ & Hr). destruct b; [by rewrite Hstuck in Hr|]. by apply IH.
Qed.

Lemma delete_ok r i s s' : delete_prompt key r i s = Ok s' → ∃ p, prompts (db s) !! i = Some p ∧
  (∀ rid row, revisions (db s) !! rid = Some row → retains_prompt key i row = Ok false) ∧
  prompts (db s') = delete i (prompts (db s)) ∧ media s' = delete (storage_name p) (media s) ∧
  revisions (db s') = revisions (db s) ∧ devices (db s') = devices (db s) ∧
  next_revision (db s') = next_revision (db s) ∧ pairing_codes s' = pairing_codes s ∧ policies s' = policies s.
Proof using Type.
  intros E. unfold delete_prompt in E. apply result_bind_ok in E as (p & Hp%of_option_ok & E).
  apply result_bind_ok in E as (usage & _ & E). case_decide; [done|].
  apply result_bind_ok in E as (retained & Hr & E). destruct retained; [done|]. injection E as <-.
  exists p. split; [done|]. split; [|done].
  intros rid row Hrow. assert (Hin : row ∈ (map_to_list (revisions (db s))).*2).
  { apply list_elem_of_fmap. exists (rid, row). by rewrite elem_of_map_to_list. }
  revert Hr Hin. generalize (map_to_list (revisions (db s))).*2. clear. intros l.
  assert (Hstuck : ∀ l, foldM (λ (found : bool) revision, if found then Ok true else retains_prompt key i revision) true l = Ok true).
  { induction l0 as [|x l0 IH]; [done|]. exact IH. }
  induction l as [|x l IH]; intros Hr Hin; [by apply elem_of_nil in Hin|]. cbn [foldM] in Hr.
  apply result_bind_ok in Hr as (b & Hb & Hr). destruct b; [by rewrite Hstuck in Hr|].
  apply elem_of_cons in Hin as [->|Hin]; [done|by apply IH].
Qed.
End Facts.
