(* ===== verification/Calls.v ===== *)
(** * Call history ([call_history.py], [main.py], [ntfy.py])

    What a tablet reports of its calls: events that may arrive before, with or after
    their call and any number of times, the receipts that recognise them, and the
    notifications they cause.  An event is the JSON document of [model_dump]; its
    identity is the digest of the document with its time in UTC. *)
From Stdlib Require Import Ascii.
From stdpp Require Import base gmap sets strings numbers pretty sorting list.
From S2P Require Import Prelude FlowTree Schemas LegacyGraph Json Crypto Documents Store Drafts Revisions V4Api Diff Devices Policies.

(** ** Time *)

(** The Gregorian date of a number of days since 1970-01-01. *)
Definition date_of_days (n : Z) : Z * Z * Z :=
  let z := (n + 719468)%Z in
  let era := (z / 146097)%Z in
  let day_of_era := (z - era * 146097)%Z in
  let year_of_era := ((day_of_era - day_of_era / 1460 + day_of_era / 36524 - day_of_era / 146096) / 365)%Z in
  let day_of_year := (day_of_era - (365 * year_of_era + year_of_era / 4 - year_of_era / 100))%Z in
  let mp := ((5 * day_of_year + 2) / 153)%Z in
  let m := (if mp <? 10 then mp + 3 else mp - 9)%Z in
  ((if m <=? 2 then year_of_era + era * 400 + 1 else year_of_era + era * 400)%Z, m, (day_of_year - (153 * mp + 2) / 5 + 1)%Z).
Definition datetime_of_instant (n : Z) : datetime :=
  let s := (n / 1000000)%Z in
  {| date := date_of_days (s / 86400); hour := s mod 86400 / 3600; minute := s mod 3600 / 60; second := s mod 60;
     microsecond := n mod 1000000 |}.

(** A datetime with the minutes of its offset from UTC, [None] for a naive one. *)
Record timestamp := { local : datetime; utc_offset : option Z }.

Definition valid_datetime (t : datetime) : bool :=
  valid_date (date t) && in_range 0 23 (hour t) && in_range 0 59 (minute t) && in_range 0 59 (second t)
  && in_range 0 999999 (microsecond t).
Definition valid_offset (o : option Z) : bool := match o with Some m => in_range (-1439) 1439 m | None => true end.
Definition valid_timestamp (t : timestamp) : bool := valid_datetime (local t) && valid_offset (utc_offset t).

Definition offset_text (m : Z) : string :=
  (if (m <? 0)%Z then "-" else "+") +:+ two_digits (Z.abs m / 60) +:+ ":" +:+ two_digits (Z.abs m mod 60).
Definition local_text (t : datetime) : string :=
  isoformat (date t) +:+ "T" +:+ two_digits (hour t) +:+ ":" +:+ two_digits (minute t) +:+ ":" +:+ two_digits (second t)
  +:+ (if bool_decide (microsecond t = 0)%Z then ""
       else "." +:+ two_digits (microsecond t / 10000) +:+ two_digits (microsecond t / 100) +:+ two_digits (microsecond t)).
(** The JSON text of a datetime ([model_dump(mode="json")]). *)
Definition dump_timestamp (t : timestamp) : string :=
  local_text (local t) +:+ match utc_offset t with None => "" | Some m => if bool_decide (m = 0)%Z then "Z" else offset_text m end.

(** [s.replace("Z", "+00:00")] *)
Fixpoint replace_z (l : list ascii) : list ascii :=
  match l with
  | [] => []
  | c :: l => if char_in 90 90 c then ["+"; "0"; "0"; ":"; "0"; "0"]%char ++ replace_z l else c :: replace_z l
  end.

Definition digits (l : list ascii) : bool := forallb (char_in 48 57) l.
(** The fraction and the offset of a text. *)
Definition parse_offset (l : list ascii) : option (option Z) :=
  match l with
  | [] => Some None
  | [s; a; b; c; d; e] =>
      let m := (60 * read_digits [a; b] + read_digits [d; e])%Z in
      if digits [a; b; d; e] && char_in 58 58 c && in_range 0 23 (read_digits [a; b]) && in_range 0 59 (read_digits [d; e]) then
        if char_in 43 43 s then Some (Some m) else if char_in 45 45 s then Some (Some (- m)%Z) else None
      else None
  | _ => None
  end.
Definition parse_fraction (l : list ascii) : option (Z * list ascii) :=
  match l with
  | dot :: a :: b :: c :: d :: e :: f :: rest =>
      if char_in 46 46 dot
      then if digits [a; b; c; d; e; f] then Some (read_digits [a; b; c; d; e; f], rest) else None
      else Some (0%Z, l)
  | _ => Some (0%Z, l)
  end.
(** [datetime.fromisoformat] of the texts that [isoformat] and [model_dump] write. *)
Definition fromisoformat (l : list ascii) : option timestamp :=
  match l with
  | y1 :: y2 :: y3 :: y4 :: d1 :: m1 :: m2 :: d2 :: a1 :: a2 :: t :: h1 :: h2 :: c1 :: i1 :: i2 :: c2 :: s1 :: s2 :: rest =>
      if digits [y1; y2; y3; y4; m1; m2; a1; a2; h1; h2; i1; i2; s1; s2]
         && forallb (char_in 45 45) [d1; d2] && char_in 84 84 t && forallb (char_in 58 58) [c1; c2] then
        '(us, rest) ← parse_fraction rest;
        o ← parse_offset rest;
        let t := {| local := {| date := (read_digits [y1; y2; y3; y4], read_digits [m1; m2], read_digits [a1; a2]);
                                hour := read_digits [h1; h2]; minute := read_digits [i1; i2]; second := read_digits [s1; s2];
                                microsecond := us |}; utc_offset := o |} in
        if valid_timestamp t then Some t else None
      else None
  | _ => None
  end.

(** ** Events *)

Definition document := list (string * json).

(** [ExternalCallSubEvent] and [LegacyCallSubEvent] *)
Inductive CallSubEvent :=
| ExternalCallSubEvent (event : string) (occurred_at : timestamp) (status block_id reason : string)
| LegacyCallSubEvent (event : string).

Definition upper_letter (c : ascii) : bool := char_in 65 90 c.
Definition letter (c : ascii) : bool := upper_letter c || char_in 97 122 c.
Definition EVENT_STATUSES : list string :=
  ["ACK"; "CALLER_HELD"; "DIALING"; "OPERATOR_ANSWERED"; "MERGING"; "CONFERENCED"; "COMPLETED"; "NOT_CONNECTED";
   "SYSTEM_FAILURE"; "RECORDING_FAILURE"].
(** A first character and at most 63 others. *)
Definition word (first rest : ascii → bool) (s : string) : bool :=
  match String.list_ascii_of_string s with c :: l => first c && forallb rest l && (length l <=? 63) | [] => false end.
Definition reason_pattern (s : string) : bool :=
  bool_decide (s = "-") || word upper_letter (λ c, upper_letter c || char_in 48 57 c || char_in 95 95 c) s.
Definition label_pattern (s : string) : bool :=
  word letter (λ c, letter c || char_in 48 57 c || char_in 32 32 c || char_in 95 95 c || char_in 45 45 c) s.
(** Fewer than eight digits. *)
Definition contains_no_phone_number (s : string) : bool :=
  length (filter (λ c, char_in 48 57 c = true) (String.list_ascii_of_string s)) <? 8.
Definition event_fields (e : CallSubEvent) : bool :=
  match e with
  | ExternalCallSubEvent event t status block reason =>
      bool_decide (event ∈ ["external_call"; "recording_failure"]) && valid_timestamp t && bool_decide (status ∈ EVENT_STATUSES)
      && BLOCK_ID_PATTERN block && reason_pattern reason && contains_no_phone_number reason
  | LegacyCallSubEvent event =>
      label_pattern event && negb (bool_decide (event ∈ ["external_call"; "recording_failure"])) && contains_no_phone_number event
  end.

Definition dump_event (e : CallSubEvent) : document :=
  match e with
  | ExternalCallSubEvent event t status block reason =>
      [("event", JStr event); ("occurred_at", JStr (dump_timestamp t)); ("status", JStr status); ("block_id", JStr block);
       ("reason", JStr reason)]
  | LegacyCallSubEvent event => [("event", JStr event)]
  end.

(** ** Tables *)

(** [CallRecord] *)
Record call_row := {
  call_device : string; call_started : timestamp; caller_encrypted : option bytes; caller_last4 : string;
  policy_decision : string; call_revision : option Z; menu_path : list string; call_result : string;
  duration_seconds : Z; ended_at : option timestamp; cleanup_status : option string;
  terminal_notification_scheduled : bool; events : list document; call_audit : option json; received_at : datetime }.
(** [CallEventReceipt]; device, call and identity are the key. *)
Record receipt_row := { receipt_document : document; notification_scheduled : bool; receipt_received : datetime }.

Record call_store := {
  call_records : gmap string call_row;
  receipts : gmap (string * string * string) receipt_row;
}.
Definition with_call (id : string) (c : call_row) (h : call_store) : call_store :=
  {| call_records := <[id := c]> (call_records h); receipts := receipts h |}.
Definition with_receipts (m : gmap (string * string * string) receipt_row) (h : call_store) : call_store :=
  {| call_records := call_records h; receipts := m |}.

Definition with_events (l : list document) (c : call_row) : call_row :=
  {| call_device := call_device c; call_started := call_started c; caller_encrypted := caller_encrypted c;
     caller_last4 := caller_last4 c; policy_decision := policy_decision c; call_revision := call_revision c;
     menu_path := menu_path c; call_result := call_result c; duration_seconds := duration_seconds c;
     ended_at := ended_at c; cleanup_status := cleanup_status c;
     terminal_notification_scheduled := terminal_notification_scheduled c; events := l; call_audit := call_audit c;
     received_at := received_at c |}.
Definition with_terminal (c : call_row) : call_row :=
  {| call_device := call_device c; call_started := call_started c; caller_encrypted := caller_encrypted c;
     caller_last4 := caller_last4 c; policy_decision := policy_decision c; call_revision := call_revision c;
     menu_path := menu_path c; call_result := call_result c; duration_seconds := duration_seconds c;
     ended_at := ended_at c; cleanup_status := cleanup_status c; terminal_notification_scheduled := true;
     events := events c; call_audit := call_audit c; received_at := received_at c |}.
Definition with_audit_report (j : json) (c : call_row) : call_row :=
  {| call_device := call_device c; call_started := call_started c; caller_encrypted := caller_encrypted c;
     caller_last4 := caller_last4 c; policy_decision := policy_decision c; call_revision := call_revision c;
     menu_path := menu_path c; call_result := call_result c; duration_seconds := duration_seconds c;
     ended_at := ended_at c; cleanup_status := cleanup_status c;
     terminal_notification_scheduled := terminal_notification_scheduled c; events := events c; call_audit := Some j;
     received_at := received_at c |}.
(** [row.notification_scheduled = True] *)
Definition scheduled (r : receipt_row) : receipt_row :=
  {| receipt_document := receipt_document r; notification_scheduled := true; receipt_received := receipt_received r |}.

Section Calls.
(** The server's own offset from UTC at a local time. *)
Context (server_offset : datetime → Z).

(** [t.astimezone(timezone.utc)] *)
Definition astimezone (t : timestamp) : result datetime :=
  let minutes := match utc_offset t with Some m => m | None => server_offset (local t) end in
  let u := datetime_of_instant (instant (local t) - minutes * 60000000) in
  if valid_datetime u then Ok u else Raise (OtherException "OverflowError").

(** The text of an instant in UTC. *)
Definition utc_text (s : string) : result string :=
  t ← of_option (ValueError "Invalid isoformat string") (fromisoformat (replace_z (String.list_ascii_of_string s)));
  u ← astimezone t;
  Ok (datetime_isoformat u).

Definition event_identity (d : document) : result string :=
  value ← match assoc "occurred_at" d with
          | None => Ok d
          | Some (JStr s) => u ← utc_text s; Ok (dict_set "occurred_at" (JStr u) d)
          | Some _ => Raise (AttributeError "replace")
          end;
  Ok (sha256_hexdigest (dumps (JObj value))).

(** [if identity not in receipts: ...] for one document. *)
Definition add_receipt (t : datetime) (device call : string) (announced : bool) (m : gmap (string * string * string) receipt_row)
    (d : document) : result (gmap (string * string * string) receipt_row) :=
  identity ← event_identity d;
  match m !! (device, call, identity) with
  | Some _ => Ok m
  | None => Ok (<[(device, call, identity) := {| receipt_document := d; notification_scheduled := announced; receipt_received := t |}]> m)
  end.

(** The receipts of one call. *)
Definition receipts_of (device call : string) (m : gmap (string * string * string) receipt_row) : list (string * receipt_row) :=
  map (λ r, (r.1.2, r.2)) (filter (λ r, r.1.1 = (device, call)) (map_to_list m)).

(** [(d.get("occurred_at", ""), event_identity(d))], compared as a tuple. *)
Definition event_key (d : document) : result (string * string) :=
  identity ← event_identity d;
  Ok (match assoc "occurred_at" d with Some (JStr s) => s | _ => "" end, identity).
Definition key_le (a b : (string * string) * document) : Prop :=
  str_lt a.1.1 b.1.1 ∨ (a.1.1 = b.1.1 ∧ str_le a.1.2 b.1.2).
#[local] Instance key_le_dec : RelDecision key_le.
Proof. intros a b. unfold key_le. apply _. Defined.
Definition sorted_events (l : list document) : result (list document) :=
  keyed ← mapM (λ d, k ← event_key d; Ok (k, d)) l;
  Ok (merge_sort key_le keyed).*2.

Definition merge_events (t : datetime) (device call_id : string) (documents : list document) (call : option call_row) (h : call_store)
    : result call_store :=
  match call with
  | Some c =>
      if decide (call_device c ≠ device) then Raise (HTTPException 409 ["Call ID belongs to another device"])
      else
        let announced := negb (bool_decide (call_result c = "IN_PROGRESS")) in
        m ← foldM (add_receipt t device call_id announced) (receipts h) (events c);
        m ← foldM (add_receipt t device call_id false) m documents;
        l ← sorted_events (map (λ r, receipt_document r.2) (receipts_of device call_id m));
        Ok (with_call call_id (with_events l c) (with_receipts m h))
  | None =>
      m ← foldM (add_receipt t device call_id false) (receipts h) documents;
      Ok (with_receipts m h)
  end.
End Calls.

(** ** Notifications *)

Definition IVR_FAILURE_RESULTS : list string :=
  ["HELPER_BUSY"; "HELPER_CLAIM_TIMEOUT"; "HELPER_REQUEST_FAILED"; "ANSWER_PERMISSION_MISSING"; "FAILED_RESTORE"; "FAILED_AUDIO";
   "FAILED_CAPTURE"; "FAILED_END_CALL"; "REJECTED_REQUEST"; "REJECTED_BUSY"; "REVISION_REJECTED"; "INCOMPATIBLE_DEVICE";
   "RECOVERY_HANGUP_SKIPPED"].
Definition IVR_COMPLETED_RESULTS : list string := ["SESSION_COMPLETE"; "REMOTE_HANGUP"; "RECOVERED_AND_ENDED"].
Definition STOCK_DIALER_POLICIES : list string :=
  ["NOT_ALLOWLISTED"; "IVR_DISABLED"; "EXCLUDED_CALLER"; "UNKNOWN_TO_STOCK_DIALER"; "LOCAL_KILL_SWITCH";
   "NO_ACTIVE_CONFIGURATION"; "INVALID_POLICY"].

(** The key of an event and the status of an external call. *)
Definition notice := (string * option string)%type.

(** [d.get(k) == s] *)
Definition member_is (k s : string) (d : document) : bool :=
  match assoc k d with Some (JStr v) => bool_decide (v = s) | _ => false end.

Definition event_notices (d : document) : list notice :=
  if member_is "event" "external_call" d then
    match assoc "status" d with
    | Some (JStr s) => if bool_decide (s = "NOT_CONNECTED" ∨ s = "SYSTEM_FAILURE") then [("external_call_failed", Some s)] else []
    | _ => []
    end
  else [].

Definition classify_call_notifications (policy result : string) (events : list document) : list notice :=
  if bool_decide (result = "IN_PROGRESS") then []
  else
    (if bool_decide (result ∈ IVR_FAILURE_RESULTS) then [("ivr_session_failed", None)] else [])
    ++ (if bool_decide (result ∈ IVR_COMPLETED_RESULTS) then [("ivr_session_completed", None)] else [])
    ++ (if bool_decide (result = "STOCK_DIALER") || (bool_decide (policy ∈ STOCK_DIALER_POLICIES)
           && negb (bool_decide (result ∈ IVR_FAILURE_RESULTS)) && negb (bool_decide (result ∈ IVR_COMPLETED_RESULTS)))
        then [("stock_dialer_routing", None)] else [])
    ++ concat (map event_notices events).

(** [claim_notifications] of the call [id]. *)
Definition claim_notifications (id : string) (c : call_row) (h : call_store) : list notice * call_store :=
  if bool_decide (call_result c ∈ ["IN_PROGRESS"; "END_DETAILS_UNAVAILABLE"]) then ([], h)
  else
    let first := if terminal_notification_scheduled c then []
                 else classify_call_notifications (policy_decision c) (call_result c) [] in
    let pending := filter (λ r, notification_scheduled r.2 = false) (receipts_of (call_device c) id (receipts h)) in
    let late := concat (map (λ r, filter (λ n, n.1 = "external_call_failed")
                              (classify_call_notifications (policy_decision c) (call_result c) [receipt_document r.2])) pending) in
    (first ++ late,
     with_call id (with_terminal c)
       (with_receipts (map_imap (λ k r, Some (if bool_decide (k.1 = (call_device c, id)) then scheduled r else r)) (receipts h)) h)).

Definition upper_hex (n : nat) : ascii := if n <? 10 then byte_of (48 + n) else byte_of (55 + n).
(** [quote(s, safe=empty)] *)
Definition quote_char (c : ascii) : list ascii :=
  if letter c || char_in 48 57 c || bool_decide (c ∈ ["_"; "."; "-"; "~"]%char) then [c]
  else let n := nat_of_ascii c in ["%"%char; upper_hex (n / 16); upper_hex (n mod 16)].
Definition quote (s : string) : string :=
  String.string_of_list_ascii (concat (map quote_char (String.list_ascii_of_string s))).

(** What [schedule_ntfy] is asked to deliver. *)
Record notification := {
  event_key_of : string; title : string; message : string; click_path : string; tags : string;
  external_status : option string; caller_masked : option string }.

Definition call_title (key : string) : string :=
  if bool_decide (key = "ivr_session_failed") then "IVR session failed"
  else if bool_decide (key = "ivr_session_completed") then "IVR session completed"
  else if bool_decide (key = "stock_dialer_routing") then "Call stayed with the stock dialer"
  else "External call failed".
Definition call_message (key result policy : string) (extra : option string) : string :=
  if bool_decide (key = "ivr_session_failed") then "The tablet reported " +:+ result +:+ "."
  else if bool_decide (key = "ivr_session_completed") then "The IVR session ended with " +:+ result +:+ "."
  else if bool_decide (key = "stock_dialer_routing") then "Caller policy " +:+ policy +:+ " left the call with Android."
  else "The operator step ended with " +:+ default "failure" extra +:+ ".".
(** [call_notification_kwargs] of a call, with the masked caller. *)
Definition call_notification (id : string) (c : call_row) (masked : option string) (n : notice) : notification :=
  {| event_key_of := n.1; title := call_title n.1; message := call_message n.1 (call_result c) (policy_decision c) n.2;
     click_path := "/calls?call=" +:+ quote id; tags := "telephone,ivrdroid"; external_status := n.2; caller_masked := masked |}.

(** [device.last_seen_at = utcnow()] *)
Definition seen_at (t : datetime) (d : device_row) : device_row :=
  {| display_name := display_name d; token_hash := token_hash d; app_version := app_version d;
     helper_version := helper_version d; status_document := status_document d; desired_revision_id := desired_revision_id d;
     active_revision_id := active_revision_id d; last_seen_at := Some t; enrolled_at := enrolled_at d; revoked_at := revoked_at d |}.

Section Uploads.
Context `{Cryptography} (key : bytes) (server_offset : datetime → Z).

(** [_pending_call_notifications] *)
Definition pending_call_notifications (id : string) (h : call_store) : result (list notification * call_store) :=
  c ← of_option (OtherException "DetachedInstance") (call_records h !! id);
  caller ← match caller_encrypted c with
           | Some e => if bool_decide (e = []) then Ok None else s ← decrypt key e; Ok (Some s)
           | None => Ok None
           end;
  let masked := match caller with Some s => if bool_decide (s = []) then None else Some (mask_phone (Some (of_bytes s))) | None => None end in
  let '(notices, h) := claim_notifications id c h in
  Ok (map (call_notification id c masked) notices, h).

(** *** Events without their call *)

(** One item of [upload_call_events]. *)
Definition upload_item (t : datetime) (device : string) (acc : list notification * call_store) (item : string * list CallSubEvent)
    : result (list notification * call_store) :=
  let '(notifications, h) := acc in
  let '(call_id, events) := item in
  let call := call_records h !! call_id in
  h ← merge_events server_offset t device call_id (map dump_event events) call h;
  match call with
  | Some _ => '(l, h) ← pending_call_notifications call_id h; Ok (notifications ++ l, h)
  | None => Ok (notifications, h)
  end.
Definition upload_items (t : datetime) (device : string) (calls : list (string * list CallSubEvent)) (h : call_store)
    : result (list notification * call_store) := foldM (upload_item t device) ([], h) calls.
(** The accepted calls and what is scheduled, and the state. *)
Definition upload_call_events (t : datetime) (device : string) (d : device_row) (calls : list (string * list CallSubEvent))
    (s : store) (h : call_store) : result (list string * list notification * store * call_store) :=
  '(l, h) ← upload_items t device calls h;
  Ok (calls.*1, l, with_device device (seen_at t d) s, h).

(** *** Calls *)

(** [SessionAuditEvent] and [SessionAuditReport]; [captured_at] and the timeline with them. *)
Record SessionAuditEvent := { offset_ms : Z; audit_type : string; audit_block : option string; audit_detail : string }.
Record SessionAuditReport := {
  recording_id : option string; report_policy : Z; report_state : string; captured_at : option timestamp;
  report_duration : Z; partial : bool; stop_reason : string; report_events : list SessionAuditEvent }.

Definition AUDIT_TYPES : list string :=
  ["answered"; "prompt"; "digit"; "timeout"; "invalid"; "schedule"; "return"; "voicemail"; "external_call"; "ended"; "gap"].
Definition detail_char (c : ascii) : bool :=
  letter c || char_in 48 57 c || bool_decide (c ∈ ["_"; " "; "."; ":"; "#"; "/"; "*"; "-"]%char).
Definition audit_event_fields (e : SessionAuditEvent) : bool :=
  in_range 0 86400000 (offset_ms e) && bool_decide (audit_type e ∈ AUDIT_TYPES) && option_all BLOCK_ID_PATTERN (audit_block e)
  && shorter 80 (audit_detail e) && forallb detail_char (String.list_ascii_of_string (audit_detail e))
  && contains_no_phone_number (audit_detail e).
(** [offsets == sorted(offsets)] *)
Fixpoint ascending (l : list Z) : bool :=
  match l with a :: (b :: _) as k => (a <=? b)%Z && ascending k | _ => true end.
Definition valid_report (r : SessionAuditReport) : bool :=
  negb (bool_decide (report_state r = "pending_upload")
        && (bool_decide (recording_id r = None) || negb (bool_decide (is_Some (captured_at r))) || (report_duration r <=? 0)%Z))
  && ascending (map offset_ms (report_events r))
  && forallb (λ e, (offset_ms e <=? report_duration r + 1000)%Z) (report_events r).
Definition report_fields (r : SessionAuditReport) : bool :=
  (0 <=? report_policy r)%Z && bool_decide (report_state r ∈ ["disabled"; "pending_upload"; "unavailable"])
  && option_all valid_timestamp (captured_at r) && in_range 0 86400000 (report_duration r)
  && forallb (λ c, char_in 97 122 c || char_in 95 95 c) (String.list_ascii_of_string (stop_reason r)) && shorter 32 (stop_reason r)
  && (length (report_events r) <=? 4096) && forallb audit_event_fields (report_events r) && valid_report r.
Definition dump_audit_event (e : SessionAuditEvent) : json :=
  JObj [("offset_ms", JInt (offset_ms e)); ("type", JStr (audit_type e)); ("block_id", dump_option JStr (audit_block e));
        ("detail", JStr (audit_detail e))].
Definition dump_report (r : SessionAuditReport) : json :=
  JObj [("recording_id", dump_option JStr (recording_id r)); ("policy_version", JInt (report_policy r));
        ("state", JStr (report_state r)); ("captured_at", dump_option (λ t, JStr (dump_timestamp t)) (captured_at r));
        ("duration_ms", JInt (report_duration r)); ("partial", JBool (partial r)); ("stop_reason", JStr (stop_reason r));
        ("events", JList (map dump_audit_event (report_events r)))].
(** The version that [validate_call_report] checks. *)
Definition reported_version (r : option SessionAuditReport) : option Z :=
  r ← r; if bool_decide (report_state r = "disabled") then None else Some (report_policy r).

(** [CallEventInput] *)
Record CallEventInput := {
  session_audit : option SessionAuditReport; call_id : string; started_at : timestamp; caller : option string;
  input_policy : string; input_revision : option Z; input_menu_path : list string; input_result : string;
  input_duration : Z; input_ended : option timestamp; input_cleanup : option string; input_events : list CallSubEvent }.

(** [caller[-4:]] *)
Definition last4 (s : string) : string := String.substring (String.length s - 4) 4 s.

Definition new_call (r : request) (device : string) (c : CallEventInput) : call_row :=
  let caller := match caller c with Some s => if bool_decide (s = "") then None else Some s | None => None end in
  {| call_device := device; call_started := started_at c;
     caller_encrypted := (λ s, encrypt key (nonce r 0) (to_bytes s)) <$> caller;
     caller_last4 := match caller with Some s => last4 s | None => "" end; policy_decision := input_policy c;
     call_revision := input_revision c; menu_path := input_menu_path c; call_result := input_result c;
     duration_seconds := input_duration c; ended_at := input_ended c; cleanup_status := input_cleanup c;
     terminal_notification_scheduled := false; events := []; call_audit := dump_report <$> session_audit c; received_at := now r |}.

(** What a later report changes of a call whose end was not known. *)
Definition settled (r : request) (c : CallEventInput) (row : call_row) : call_row :=
  if bool_decide (call_result row ∈ ["IN_PROGRESS"; "END_DETAILS_UNAVAILABLE"]) && negb (bool_decide (input_result c = "IN_PROGRESS"))
  then
    {| call_device := call_device row; call_started := call_started row; caller_encrypted := caller_encrypted row;
       caller_last4 := caller_last4 row; policy_decision := policy_decision row; call_revision := call_revision row;
       menu_path := input_menu_path c; call_result := input_result c; duration_seconds := input_duration c;
       ended_at := input_ended c; cleanup_status := input_cleanup c;
       terminal_notification_scheduled := terminal_notification_scheduled row; events := events row;
       call_audit := call_audit row; received_at := now r |}
  else row.
(** The audit report of a call, which may be added once. *)
Definition reported (p : policy_tables) (device : string) (c : CallEventInput) (row : call_row) : result call_row :=
  match dump_report <$> session_audit c with
  | None => Ok row
  | Some j =>
      match call_audit row with
      | None => _ ← validate_call_report p (reported_version (session_audit c)) (call_result row) device; Ok (with_audit_report j row)
      | Some k => if py_eq k j then Ok row else Raise (HTTPException 409 ["A terminal audit report cannot be replaced"])
      end
  end.

(** One call of [upload_events]; [r] has its nonce. *)
Definition upload_call (p : policy_tables) (r : request) (device : string) (acc : list notification * call_store) (c : CallEventInput)
    : result (list notification * call_store) :=
  let '(notifications, h) := acc in
  _ ← validate_call_report p (reported_version (session_audit c)) (input_result c) device;
  let documents := map dump_event (input_events c) in
  h ← match call_records h !! call_id c with
      | Some row =>
          if decide (call_device row ≠ device) then Raise (HTTPException 409 ["Call ID belongs to another device"])
          else
            h ← merge_events server_offset (now r) device (call_id c) documents (Some row) h;
            row ← of_option (OtherException "DetachedInstance") (call_records h !! call_id c);
            row ← reported p device c (settled r c row);
            Ok (with_call (call_id c) row h)
      | None => merge_events server_offset (now r) device (call_id c) documents (Some (new_call r device c)) h
      end;
  '(l, h) ← pending_call_notifications (call_id c) h;
  Ok (notifications ++ l, h).
Definition upload_calls (p : policy_tables) (device : string) (calls : list (request * CallEventInput)) (h : call_store)
    : result (list notification * call_store) := foldM (λ acc c, upload_call p c.1 device acc c.2) ([], h) calls.
Definition upload_events (p : policy_tables) (t : datetime) (device : string) (d : device_row)
    (calls : list (request * CallEventInput)) (s : store) (h : call_store)
    : result (list string * list notification * store * call_store) :=
  '(l, h) ← upload_calls p device calls h;
  Ok (map (λ c, call_id c.2) calls, l, with_device device (seen_at t d) s, h).
End Uploads.
