(* ===== verification/CallsFacts.v ===== *)
(** * Lemmas about receipts, events and notifications

    The receipts of a call as a multiset, the effect of a merge, and what the flags of a
    history say has been announced. *)
From Stdlib Require Import Ascii.
From stdpp Require Import base gmap sets strings numbers pretty sorting list.
From S2P Require Import Prelude FlowTree Schemas LegacyGraph Json Crypto Documents Store Drafts Revisions V4Api Diff DiffFacts Devices Policies DocumentsFacts DocumentsStore Calls.

(** ** Receipts of a call *)

Abbreviation receipt_map := (gmap (string * string * string) receipt_row).

Lemma elem_of_receipts (device id : string) (m : receipt_map) i r : (i, r) ∈ receipts_of device id m ↔ m !! (device, id, i) = Some r.
Proof.
  unfold receipts_of. rewrite list_elem_of_In, in_map_iff. split.
  - intros ([[k j] r'] & [= -> ->] & Hin). apply list_elem_of_In, list_elem_of_filter in Hin as [Hk Hin].
    cbn [fst] in Hk. subst k. by apply elem_of_map_to_list.
  - intros Hm. exists (device, id, i, r). split; [done|]. apply list_elem_of_In, list_elem_of_filter. split; [done|].
    by apply elem_of_map_to_list.
Qed.

Lemma NoDup_receipts (device id : string) (m : receipt_map) : NoDup (receipts_of device id m).*1.
Proof.
  unfold receipts_of. pose proof (NoDup_fst_map_to_list m) as Hnd. induction (map_to_list m) as [|[[k i] r] l IH]; [constructor|].
  cbn [fmap list_fmap] in Hnd. apply NoDup_cons in Hnd as [Hx Hnd]. rewrite filter_cons. cbn [fst]. case_decide as E; [|by apply IH].
  cbn [map fmap list_fmap fst snd]. apply NoDup_cons. split; [|by apply IH]. subst k. intros Hin. apply Hx.
  apply list_elem_of_fmap in Hin as ([j r'] & -> & Hin). apply list_elem_of_In, in_map_iff in Hin as ([[k' j'] r''] & [= <- <-] & Hin).
  apply list_elem_of_In, list_elem_of_filter in Hin as [Hk Hin]. cbn [fst] in *. subst k'.
  apply list_elem_of_fmap. by exists ((device, id, j'), r'').
Qed.

Lemma receipts_perm (device id : string) (m : receipt_map) l : NoDup l.*1 → (∀ i r, (i, r) ∈ l ↔ m !! (device, id, i) = Some r) →
  receipts_of device id m ≡ₚ l.
Proof.
  intros Hnd Hl. apply NoDup_Permutation; [eapply NoDup_fmap_1, NoDup_receipts|by eapply NoDup_fmap_1|].
  intros [i r]. by rewrite elem_of_receipts, Hl.
Qed.

(** Receipts of another call do not change. *)
Lemma receipts_same (device id : string) (m m' : receipt_map) : (∀ i, m' !! (device, id, i) = m !! (device, id, i)) →
  receipts_of device id m' ≡ₚ receipts_of device id m.
Proof. intros H. apply receipts_perm; [apply NoDup_receipts|]. intros i r. by rewrite elem_of_receipts, H. Qed.

(** All receipts of one call are marked. *)
Definition mark (device id : string) (m : receipt_map) : receipt_map :=
  map_imap (λ k r, Some (if bool_decide (k.1 = (device, id)) then scheduled r else r)) m.
Lemma lookup_mark (device id : string) (m : receipt_map) k :
  mark device id m !! k = (λ r, if bool_decide (k.1 = (device, id)) then scheduled r else r) <$> m !! k.
Proof. unfold mark. rewrite map_lookup_imap. by destruct (m !! k). Qed.
Lemma receipts_mark (device id : string) (m : receipt_map) : receipts_of device id (mark device id m) ≡ₚ (λ r, (r.1, scheduled r.2)) <$> receipts_of device id m.
Proof.
  apply receipts_perm.
  - rewrite <- list_fmap_compose. erewrite list_fmap_ext; [apply (NoDup_receipts device id m)|]. by intros _ [i r] _.
  - intros i r. rewrite lookup_mark. cbn [fst]. rewrite bool_decide_true by done. rewrite fmap_Some. split.
    + intros ([j q] & [= -> ->] & Hin)%list_elem_of_fmap. exists q. split; [by apply elem_of_receipts|done].
    + intros (q & Hq & ->). apply list_elem_of_fmap. exists (i, q). split; [done|by apply elem_of_receipts].
Qed.

(** ** Adding receipts *)

Section Facts.
Context (server_offset : datetime → Z).
Abbreviation identity := (event_identity server_offset).
Abbreviation adding := (add_receipt server_offset).

(** Keys hold the identities of their documents. *)
Definition keyed (m : receipt_map) : Prop := ∀ k r, m !! k = Some r → identity (receipt_document r) = Ok k.2.

(** [m'] is [m] with receipts of one call that are not announced. *)
Record extends (device id : string) (m m' : receipt_map) : Prop := {
  extends_keeps k r : m !! k = Some r → m' !! k = Some r;
  extends_new k r : m' !! k = Some r → m !! k = None → k.1 = (device, id) ∧ notification_scheduled r = false;
}.
Lemma extends_refl (device id : string) m : extends device id m m.
Proof using Type. split; [done|]. intros k r E1 E2. congruence. Qed.
Lemma extends_trans (device id : string) m1 m2 m3 : extends device id m1 m2 → extends device id m2 m3 → extends device id m1 m3.
Proof using Type.
  intros [K1 N1] [K2 N2]. split; [eauto|]. intros k r Hk Hn. destruct (m2 !! k) as [r2|] eqn:E2.
  - rewrite (K2 _ _ E2) in Hk. injection Hk as <-. eauto.
  - eauto.
Qed.
Lemma extends_other (device id : string) m m' k : extends device id m m' → k.1 ≠ (device, id) → m' !! k = m !! k.
Proof using Type.
  intros [K N] Hk. destruct (m !! k) as [r|] eqn:E; [by apply K|]. destruct (m' !! k) as [r|] eqn:E'; [|done].
  destruct (N k r E' E). done.
Qed.

Lemma add_receipt_ok t (device id : string) b m d m' : adding t device id b m d = Ok m' →
  ∃ i, identity d = Ok i ∧ is_Some (m' !! (device, id, i)) ∧ (is_Some (m !! (device, id, i)) → m' = m) ∧
    (keyed m → keyed m') ∧ (b = false → extends device id m m').
Proof using Type.
  unfold add_receipt. intros E. apply result_bind_ok in E as (i & Hi & E). exists i. split; [done|].
  destruct (m !! (device, id, i)) as [r|] eqn:Hm; injection E as <-.
  - split; [by rewrite Hm|]. split; [done|]. split; [done|]. intros _. apply extends_refl.
  - split; [by rewrite lookup_insert_eq|]. split; [by intros [? [=]]|]. split.
    + intros Hk k r [[<- <-]|[_ Hr]]%lookup_insert_Some; [done|by apply Hk].
    + intros ->. split.
      * intros k r Hr. rewrite lookup_insert_ne; [done|]. congruence.
      * intros k r [[<- <-]|[_ Hr]]%lookup_insert_Some Hn; [done|congruence].
Qed.

Lemma add_receipts_ok t (device id : string) b l m m' : foldM (adding t device id b) m l = Ok m' →
  (keyed m → keyed m') ∧ (b = false → extends device id m m') ∧
  ((∀ d i, d ∈ l → identity d = Ok i → is_Some (m !! (device, id, i))) → m' = m) ∧
  (b = false → ∀ d, d ∈ l → ∃ i, identity d = Ok i ∧ is_Some (m' !! (device, id, i))).
Proof using Type.
  revert m. induction l as [|d l IH]; intros m E; cbn [foldM] in E.
  - injection E as <-. split; [done|]. split; [intros; apply extends_refl|]. split; [done|]. intros _ d Hd. by apply elem_of_nil in Hd.
  - apply result_bind_ok in E as (m1 & E1 & E). apply add_receipt_ok in E1 as (i & Hi & Hin & Hsame & Hk & Hx).
    apply IH in E as (Hk' & Hx' & Hsame' & Hin'). split; [by intros ?%Hk%Hk'|].
    split; [intros Hb; eapply extends_trans; eauto|]. split.
    + intros Hall. assert (m1 = m) as -> by (apply Hsame, (Hall d); [by left|done]). apply Hsame'.
      intros e j He Hj. apply (Hall e); [by right|done].
    + intros Hb e [->|He]%elem_of_cons; [|by apply Hin']. exists i. split; [done|]. destruct Hin as [r Hr].
      exists r. by apply (extends_keeps _ _ _ _ (Hx' Hb)).
Qed.
End Facts.

(** ** Sorted events *)

Section Sorted.
Context (server_offset : datetime → Z).
Abbreviation identity := (event_identity server_offset).

#[local] Existing Instance key_le_dec.
Lemma str_le_total a b : str_le a b ∨ str_le b a.
Proof using Type. unfold str_le. destruct (decide (str_lt b a)) as [H|H]; [|by left]. right. intros H'. by apply (str_lt_irrefl a), (str_lt_trans a b a). Qed.
Lemma str_le_trans a b c : str_le a b → str_le b c → str_le a c.
Proof using Type.
  unfold str_le. intros H1 H2 H3. destruct (str_lt_trichotomy b c) as [H|[->|H]]; [|done..].
  apply H1. by eapply str_lt_trans.
Qed.
#[local] Instance key_le_total : Total key_le.
Proof using Type.
  intros [[a i] x] [[b j] y]. unfold key_le. cbn [fst snd]. destruct (str_lt_trichotomy a b) as [H|[->|H]]; [by do 2 left| |by right; left].
  destruct (str_le_total i j); [left|right]; by right.
Qed.
#[local] Instance key_le_trans : Transitive key_le.
Proof using Type.
  intros [[a i] x] [[b j] y] [[c k] z]. unfold key_le. cbn [fst snd]. intros [H1|[-> H1]] [H2|[-> H2]].
  - left. by eapply str_lt_trans.
  - by left.
  - by left.
  - right. split; [done|]. by eapply str_le_trans.
Qed.

Lemma sorted_events_ok l k : sorted_events server_offset l = Ok k →
  ∃ keyed, Forall2 (λ d p, event_key server_offset d = Ok p.1 ∧ p.2 = d) l keyed ∧ k = (merge_sort key_le keyed).*2 ∧ k ≡ₚ l.
Proof using Type.
  unfold sorted_events. intros E. apply result_bind_ok in E as (keyed & Hk & E). injection E as <-. exists keyed.
  apply mapM_result_ok in Hk. assert (Hf : Forall2 (λ d p, event_key server_offset d = Ok p.1 ∧ p.2 = d) l keyed).
  { eapply Forall2_impl; [exact Hk|]. intros d p Hd. apply result_bind_ok in Hd as (kd & Hd & Hp). by injection Hp as <-. }
  split; [done|]. split; [done|]. rewrite merge_sort_Permutation. clear Hk. induction Hf as [|d p l k [_ Hd] _ IH]; [done|].
  cbn [fmap list_fmap]. by rewrite Hd, IH.
Qed.

Lemma key_identity d p : event_key server_offset d = Ok p → identity d = Ok p.2.
Proof using Type. unfold event_key. intros E. apply result_bind_ok in E as (i & Hi & E). by injection E as <-. Qed.

Lemma mapM_perm {A B} (f : A → result B) l k x : l ≡ₚ k → mapM f l = Ok x → ∃ y, mapM f k = Ok y ∧ x ≡ₚ y.
Proof using Type.
  intros Hp. setoid_rewrite mapM_result_ok. revert x. induction Hp as [|a l k _ IH|a b l|l k j _ IH1 _ IH2]; intros x E.
  - apply Forall2_nil_inv_l in E as ->. by exists [].
  - apply Forall2_cons_inv_l in E as (c & cs & Hc & Hcs & ->). destruct (IH _ Hcs) as (y & Hy & Hperm).
    exists (c :: y). split; [by constructor|by constructor].
  - apply Forall2_cons_inv_l in E as (c & cs & Hc & Hcs & ->). apply Forall2_cons_inv_l in Hcs as (d & ds & Hd & Hds & ->).
    exists (d :: c :: ds). split; [by repeat constructor|constructor].
  - destruct (IH1 _ E) as (y & Hy & Hxy). destruct (IH2 _ Hy) as (z & Hz & Hyz). exists z. split; [done|by etrans].
Qed.

Lemma key_le_antisym (p q : (string * string) * document) : key_le p q → key_le q p → p.1 = q.1.
Proof using Type.
  destruct p as [[a i] x], q as [[b j] y]. unfold key_le. cbn [fst snd]. intros [H1|[-> H1]] [H2|[E H2]].
  - by destruct (str_lt_asym _ _ H1).
  - subst. by destruct (str_lt_irrefl _ H1).
  - by destruct (str_lt_irrefl _ H2).
  - f_equal. unfold str_le in *. destruct (str_lt_trichotomy i j) as [?|[?|?]]; done.
Qed.

(** The order of the receipts does not matter when their identities differ. *)
Lemma sorted_events_perm l k r : l ≡ₚ k → (∀ d e, d ∈ l → e ∈ l → identity d = identity e → d = e) →
  sorted_events server_offset l = Ok r → sorted_events server_offset k = Ok r.
Proof using Type.
  intros Hp Hinj E. unfold sorted_events in *. apply result_bind_ok in E as (x & Hx & E). injection E as <-.
  destruct (mapM_perm _ _ _ _ Hp Hx) as (y & -> & Hxy). cbn [mbind result_bind]. do 2 f_equal.
  apply (StronglySorted_unique_strong key_le).
  - intros p q Hpm Hqm Hpq Hqp. pose proof (key_le_antisym p q Hpq Hqp) as Hk.
    rewrite merge_sort_Permutation in Hpm, Hqm. rewrite <- Hxy in Hpm.
    apply mapM_result_ok in Hx. destruct p as [kp d], q as [kq e]. cbn [fst] in Hk. subst kq. f_equal.
    assert (Hel : ∀ p, p ∈ x → p.2 ∈ l ∧ event_key server_offset p.2 = Ok p.1).
    { intros p Hpx. apply list_elem_of_lookup in Hpx as [n Hn]. destruct (Forall2_lookup_r _ _ _ _ _ Hx Hn) as (a & Ha & Hf).
      apply result_bind_ok in Hf as (kd & Hkd & Hf). injection Hf as <-. split; [by eapply list_elem_of_lookup_2|done]. }
    destruct (Hel _ Hpm) as [Hd Hkd]. destruct (Hel _ Hqm) as [He Hke]. cbn [fst snd] in *.
    apply Hinj; [done|done|]. by rewrite (key_identity _ _ Hkd), (key_identity _ _ Hke).
  - apply (StronglySorted_merge_sort key_le).
  - apply (StronglySorted_merge_sort key_le).
  - by rewrite !merge_sort_Permutation.
Qed.
End Sorted.

(** ** Reports *)

Lemma py_eq_refl j : dict_keys_ok j → py_eq j j = true.
Proof.
  induction j as [|b|z|s|l IH|o IH] using json_nested_ind; intros Hok.
  - done.
  - cbn. by apply bool_decide_eq_true.
  - cbn. by apply bool_decide_eq_true.
  - cbn. by apply bool_decide_eq_true.
  - apply py_eq_list. apply keys_ok_list in Hok.
    induction IH as [|x l Hx _ IHl]; [constructor|]. apply Forall_cons in Hok as [? ?]. constructor; auto.
  - apply keys_ok_members in Hok as [Hnd Hall]. apply py_eq_obj. split; [done|]. intros i x Hin. exists x.
    rewrite assoc_Some by done. split; [done|]. rewrite Forall_forall in IH, Hall. by apply (IH (i, x)), (Hall (i, x)).
Qed.

Lemma dump_report_keys r : dict_keys_ok (dump_report r).
Proof.
  apply keys_ok_obj; [reflexivity|]. repeat apply Forall_cons_2; try apply Forall_nil_2; cbn [snd]; try done.
  - by destruct (recording_id r).
  - by destruct (captured_at r).
  - apply keys_ok_map. intros e _. apply keys_ok_obj; [reflexivity|].
    repeat apply Forall_cons_2; try apply Forall_nil_2; cbn [snd]; try done. by destruct (audit_block e).
Qed.
