(* ===== verification/CallsCorrect.v ===== *)
(** * Properties of the call history

    Whatever a tablet uploads, in whatever order and however often, what has been
    scheduled for delivery is a function of the two tables: the notices of every call
    whose result is known and one alert for each of its failed external calls. *)
From Stdlib Require Import Ascii.
From stdpp Require Import base gmap sets strings numbers pretty sorting list.
From S2P Require Import Prelude FlowTree Schemas LegacyGraph Json Crypto Documents Store Drafts Revisions V4Api Diff DiffFacts Devices Policies DraftsCorrect Examples Calls CallsFacts.

(** A result that may still change. *)
Definition unsettled (result : string) : Prop := result ∈ ["IN_PROGRESS"; "END_DETAILS_UNAVAILABLE"].
#[global] Instance unsettled_dec result : Decision (unsettled result).
Proof. unfold unsettled. apply _. Defined.

Definition documents_of (device id : string) (m : receipt_map) : list document :=
  map (λ r, receipt_document r.2) (receipts_of device id m).
(** The alerts of receipts. *)
Definition alerts (l : list (string * receipt_row)) : list notice := concat ((λ r, event_notices (receipt_document r.2)) <$> l).
Definition terminal_notices (c : call_row) : list notice := classify_call_notifications (policy_decision c) (call_result c) [].

Section Announced.
Context `{Cryptography} (key : bytes) (server_offset : datetime → Z).

(** The masked caller, as [_pending_call_notifications] decrypts it. *)
Definition masked_caller (c : call_row) : option string :=
  match caller_encrypted c with
  | Some e => match decrypt key e with
              | Ok s => if bool_decide (e = []) || bool_decide (s = []) then None else Some (mask_phone (Some (of_bytes s)))
              | Raise _ => None
              end
  | None => None
  end.
Definition notify (id : string) (c : call_row) : list notice → list notification :=
  map (call_notification id c (masked_caller c)).

(** What the flags say has been announced of a call. *)
Definition spent_call (m : receipt_map) (id : string) (c : call_row) : list notification :=
  if terminal_notification_scheduled c
  then notify id c (terminal_notices c ++ alerts (filter (λ r, notification_scheduled r.2 = true) (receipts_of (call_device c) id m)))
  else [].
Definition spent (h : call_store) : list notification :=
  concat ((λ p, spent_call (receipts h) p.1 p.2) <$> map_to_list (call_records h)).

(** What the tables say is to be announced. *)
Definition due_call (m : receipt_map) (id : string) (c : call_row) : list notification :=
  if decide (unsettled (call_result c)) then [] else notify id c (terminal_notices c ++ alerts (receipts_of (call_device c) id m)).
Definition due (h : call_store) : list notification :=
  concat ((λ p, due_call (receipts h) p.1 p.2) <$> map_to_list (call_records h)).

(** *** Congruence *)

Lemma alerts_perm l k : l ≡ₚ k → alerts l ≡ₚ alerts k.
Proof using Type. intros Hp. unfold alerts. apply concat_perm. by rewrite Hp. Qed.
Lemma notify_perm id c l k : l ≡ₚ k → notify id c l ≡ₚ notify id c k.
Proof using Type. intros Hp. unfold notify. apply Permutation_map, Hp. Qed.

Lemma spent_receipts m m' id c : (∀ i, m' !! (call_device c, id, i) = m !! (call_device c, id, i)) →
  spent_call m' id c ≡ₚ spent_call m id c.
Proof using Type.
  intros E. unfold spent_call. destruct (terminal_notification_scheduled c); [|done].
  apply notify_perm. f_equiv. apply alerts_perm. by rewrite (receipts_same (call_device c) id m m') by done.
Qed.

(** What determines the notices of a call. *)
Definition same_call (c c' : call_row) : Prop :=
  call_device c' = call_device c ∧ policy_decision c' = policy_decision c ∧ caller_encrypted c' = caller_encrypted c ∧
  (terminal_notification_scheduled c = true → call_result c' = call_result c).
Lemma notify_same id c c' l : same_call c c' → call_result c' = call_result c → notify id c' l = notify id c l.
Proof using Type.
  intros (_ & Hp & He & _) Hr. unfold notify, masked_caller. rewrite He. apply map_ext. intros n.
  unfold call_notification. by rewrite Hp, Hr.
Qed.
Lemma spent_same m id c c' : same_call c c' → terminal_notification_scheduled c' = terminal_notification_scheduled c →
  spent_call m id c' = spent_call m id c.
Proof using Type.
  intros Hs Ht. unfold spent_call. rewrite Ht. destruct (terminal_notification_scheduled c) eqn:E; [|done].
  pose proof Hs as (Hd & Hp & He & Hr). rewrite Hd. rewrite (notify_same id c c') by auto. unfold terminal_notices. by rewrite Hp, Hr.
Qed.

(** One call changes. *)
Lemma spent_update h m id c l :
  (∀ i d, i ≠ id → call_records h !! i = Some d → spent_call m i d ≡ₚ spent_call (receipts h) i d) →
  spent_call m id c ≡ₚ match call_records h !! id with Some d => spent_call (receipts h) id d | None => [] end ++ l →
  spent (with_call id c (with_receipts m h)) ≡ₚ spent h ++ l.
Proof using Type.
  intros Hother Hone. unfold spent. cbn [with_call with_receipts call_records receipts].
  set (f := λ p : string * call_row, spent_call m p.1 p.2). set (g := λ p : string * call_row, spent_call (receipts h) p.1 p.2).
  assert (Hrest : concat (f <$> map_to_list (delete id (call_records h))) ≡ₚ concat (g <$> map_to_list (delete id (call_records h)))).
  { assert (Hall : Forall (λ p, f p ≡ₚ g p) (map_to_list (delete id (call_records h)))).
    { apply Forall_forall. intros [i d] Hin%elem_of_map_to_list. apply lookup_delete_Some in Hin as [Hne Hin]. refine (Hother i d _ Hin). by intros ->. }
    induction Hall as [|p k Hp _ IH]; [done|]. cbn [fmap list_fmap concat]. by rewrite Hp, IH. }
  rewrite <- insert_delete_eq, map_to_list_insert by apply lookup_delete_eq. cbn [fmap list_fmap concat]. rewrite Hrest.
  unfold f at 1. cbn [fst snd]. rewrite Hone. destruct (call_records h !! id) as [d|] eqn:Ed.
  - rewrite <- (map_to_list_delete (call_records h) id d Ed). cbn [fmap list_fmap concat]. unfold g at 2. cbn [fst snd].
    rewrite <- !(assoc_L (++)). f_equiv. apply Permutation_app_comm.
  - rewrite delete_id by done. cbn [app]. apply Permutation_app_comm.
Qed.
End Announced.

(** ** Histories *)

Section Histories.
Context `{Cryptography} (key : bytes) (server_offset : datetime → Z).
Abbreviation identity := (event_identity server_offset).

Record history_ok (h : call_store) : Prop := {
  announced_settled id c : call_records h !! id = Some c → terminal_notification_scheduled c = true → ¬ unsettled (call_result c);
  announced_receipt device id i r : receipts h !! (device, id, i) = Some r → notification_scheduled r = true →
    ∃ c, call_records h !! id = Some c ∧ call_device c = device ∧ terminal_notification_scheduled c = true;
  receipts_keyed : keyed server_offset (receipts h);
  events_sorted id c : call_records h !! id = Some c →
    sorted_events server_offset (documents_of (call_device c) id (receipts h)) = Ok (events c);
}.

(** Nothing is pending of a call. *)
Definition settled_up (h : call_store) (id : string) : Prop := ∀ c, call_records h !! id = Some c → ¬ unsettled (call_result c) →
  terminal_notification_scheduled c = true ∧
  ∀ i r, receipts h !! (call_device c, id, i) = Some r → notification_scheduled r = true.

Lemma elem_of_documents (device id : string) m d : d ∈ documents_of device id m ↔ ∃ i r, m !! (device, id, i) = Some r ∧ d = receipt_document r.
Proof using Type.
  unfold documents_of. rewrite list_elem_of_In, in_map_iff. split.
  - intros ([i r] & <- & Hin%list_elem_of_In%elem_of_receipts). by exists i, r.
  - intros (i & r & Hr & ->). exists (i, r). split; [done|]. by apply list_elem_of_In, elem_of_receipts.
Qed.
Lemma documents_inj (device id : string) m d e : keyed server_offset m → d ∈ documents_of device id m → e ∈ documents_of device id m →
  identity d = identity e → d = e.
Proof using Type.
  intros Hk (i & r & Hr & ->)%elem_of_documents (j & q & Hq & ->)%elem_of_documents.
  rewrite (Hk _ _ Hr), (Hk _ _ Hq). cbn [snd]. intros [= <-]. congruence.
Qed.

Lemma documents_same (device id : string) m m' : (∀ i, m' !! (device, id, i) = m !! (device, id, i)) →
  documents_of device id m ≡ₚ documents_of device id m'.
Proof using Type. intros E. unfold documents_of. apply Permutation_map. by rewrite (receipts_same device id m m'). Qed.

Lemma settled_same (device id : string) m m' l : keyed server_offset m →
  documents_of device id m ≡ₚ documents_of device id m' → sorted_events server_offset (documents_of device id m) = Ok l →
  sorted_events server_offset (documents_of device id m') = Ok l.
Proof using Type. intros Hk Hp E. eapply sorted_events_perm; [exact Hp| |exact E]. intros d e. by apply documents_inj. Qed.

(** *** Merging *)

(** The row of a call, or a new row. *)
Definition row_of (h : call_store) (id : string) (c : call_row) : Prop :=
  call_records h !! id = Some c ∨
  (call_records h !! id = None ∧ events c = [] ∧ terminal_notification_scheduled c = false).

Lemma seeded h (id : string) c t b m : history_ok h → row_of h id c →
  foldM (add_receipt server_offset t (call_device c) id b) (receipts h) (events c) = Ok m → m = receipts h.
Proof using Type.
  intros Hok Hrow Em. apply add_receipts_ok in Em as (_ & _ & Hsame & _). apply Hsame. intros d i Hd Hi.
  destruct Hrow as [Hrow|(_ & He & _)]; [|rewrite He in Hd; by apply elem_of_nil in Hd].
  destruct (sorted_events_ok _ _ _ (events_sorted _ Hok _ _ Hrow)) as (_ & _ & _ & Hp).
  rewrite Hp in Hd. apply elem_of_documents in Hd as (j & r & Hr & ->). pose proof (receipts_keyed _ Hok _ _ Hr) as Hj.
  rewrite Hi in Hj. injection Hj as ->. by exists r.
Qed.

Lemma extended_ok h (device id : string) m c c' : history_ok h → row_of h id c → call_device c = device →
  extends device id (receipts h) m → keyed server_offset m → same_call c c' →
  terminal_notification_scheduled c' = terminal_notification_scheduled c →
  sorted_events server_offset (documents_of device id m) = Ok (events c') →
  history_ok (with_call id c' (with_receipts m h)) .
Proof using Type.
  intros Hok Hrow Hdev Hx Hk (Hdev' & _ & _ & Hres) Hter Hs. split; cbn [with_call with_receipts call_records receipts].
  - intros i d [[<- <-]|[_ Hd]]%lookup_insert_Some Ht; [|by eapply announced_settled].
    rewrite Hter in Ht. rewrite Hres by done. destruct Hrow as [Hrow|(_ & _ & Hf)]; [by eapply announced_settled|congruence].
  - intros dv i j r Hr Hsch. destruct (receipts h !! (dv, i, j)) as [q|] eqn:E.
    + rewrite (extends_keeps _ _ _ _ Hx _ _ E) in Hr. injection Hr as <-.
      destruct (announced_receipt _ Hok _ _ _ _ E Hsch) as (d & Hd & Hdv & Ht). destruct (decide (i = id)) as [->|Hne].
      * exists c'. rewrite lookup_insert_eq. split; [done|]. destruct Hrow as [Hrow|(Hn & _)]; [|congruence].
        rewrite Hrow in Hd. injection Hd as <-. by rewrite Hdev', Hter.
      * exists d. rewrite lookup_insert_ne by congruence. done.
    + destruct (extends_new _ _ _ _ Hx _ _ Hr E). congruence.
  - done.
  - intros i d [[<- <-]|[Hne Hd]]%lookup_insert_Some; [by rewrite Hdev', Hdev|].
    eapply settled_same; [apply (receipts_keyed _ Hok)| |by apply (events_sorted _ Hok)]. apply documents_same.
    intros j. apply (extends_other _ _ _ _ _ Hx). cbn [fst]. congruence.
Qed.

Lemma extended_spent h (device id : string) m c c' : history_ok h → row_of h id c → call_device c = device →
  extends device id (receipts h) m → same_call c c' → terminal_notification_scheduled c' = terminal_notification_scheduled c →
  spent key (with_call id c' (with_receipts m h)) ≡ₚ spent key h.
Proof using Type.
  intros Hok Hrow Hdev Hx Hs Ht. rewrite <- (app_nil_r (spent key h)). apply spent_update.
  - intros i d Hne Hd. apply spent_receipts. intros j. apply (extends_other _ _ _ _ _ Hx). cbn [fst]. congruence.
  - rewrite (spent_same key m id c c'), app_nil_r by done. destruct Hrow as [Hrow|(Hn & _ & Hf)].
    + rewrite Hrow. unfold spent_call. destruct (terminal_notification_scheduled c); [|done]. apply notify_perm. f_equiv.
      apply alerts_perm. assert (Hf : ∀ m0 : receipt_map, NoDup (filter (λ r, notification_scheduled r.2 = true) (receipts_of (call_device c) id m0)).*1).
      { intros m0. eapply (sublist_NoDup _ _ (NoDup_receipts (call_device c) id m0)). apply fmap_sublist, sublist_filter. }
      apply NoDup_Permutation; [by eapply NoDup_fmap_1|by eapply NoDup_fmap_1|].
      intros [i r]. rewrite !list_elem_of_filter, !elem_of_receipts. cbn [snd]. rewrite Hdev. split; intros [Hsch Hr]; (split; [done|]).
      * destruct (receipts h !! (device, id, i)) as [q|] eqn:E; [by rewrite (extends_keeps _ _ _ _ Hx _ _ E) in Hr|].
        destruct (extends_new _ _ _ _ Hx _ _ Hr E). congruence.
      * by apply (extends_keeps _ _ _ _ Hx).
    + rewrite Hn. unfold spent_call. by rewrite Hf.
Qed.

Lemma extended_settled h (device id other : string) m c : extends device id (receipts h) m → other ≠ id →
  settled_up h other → settled_up (with_call id c (with_receipts m h)) other.
Proof using Type.
  intros Hx Hne Hs d Hd Hu. cbn [with_call with_receipts call_records receipts] in *.
  rewrite lookup_insert_ne in Hd by done. destruct (Hs d Hd Hu) as [Ht Hall]. split; [done|]. intros i r Hr.
  rewrite (extends_other _ _ _ _ _ Hx) in Hr by (cbn [fst]; congruence). by eapply Hall.
Qed.

(** The effect of a merge for a call that is or becomes a row. *)
Lemma merge_ok t device id documents c h h' : history_ok h → row_of h id c →
  merge_events server_offset t device id documents (Some c) h = Ok h' →
  call_device c = device ∧ ∃ l m, h' = with_call id (with_events l c) (with_receipts m h) ∧ extends device id (receipts h) m ∧
    history_ok h' ∧ spent key h' ≡ₚ spent key h ∧
    (∀ d, d ∈ documents → ∃ i, identity d = Ok i ∧ is_Some (m !! (device, id, i))).
Proof using Type.
  intros Hok Hrow E. unfold merge_events in E. destruct (decide (call_device c ≠ device)) as [|Hd]; [done|]. apply dec_stable in Hd.
  split; [done|].
  apply result_bind_ok in E as (m1 & E1 & E). apply result_bind_ok in E as (m & E2 & E). apply result_bind_ok in E as (l & El & E).
  injection E as <-. exists l, m. split; [done|]. rewrite <- Hd in E1. apply (seeded h id c) in E1 as ->; [|done..].
  apply add_receipts_ok in E2 as (Hk & Hx & _ & Hin). specialize (Hx eq_refl). split; [done|]. split; [|split; [|by apply Hin]].
  - apply (extended_ok h device id m c); [done|done|done|done|apply Hk, Hok|by split|done|exact El].
  - by apply (extended_spent h device id m c).
Qed.

(** Events that arrive before their call. *)
Lemma orphans_ok t device id documents h h' : history_ok h → call_records h !! id = None →
  merge_events server_offset t device id documents None h = Ok h' →
  history_ok h' ∧ spent key h' ≡ₚ spent key h ∧ call_records h' = call_records h ∧ extends device id (receipts h) (receipts h') ∧
  (∀ d, d ∈ documents → ∃ i, identity d = Ok i ∧ is_Some (receipts h' !! (device, id, i))).
Proof using Type.
  intros Hok Hn E. apply result_bind_ok in E as (m & Em & E). injection E as <-.
  apply add_receipts_ok in Em as (Hk & Hx & _ & Hin). specialize (Hx eq_refl). cbn [with_receipts call_records receipts].
  assert (Hother : ∀ i c, call_records h !! i = Some c → ∀ j, m !! (call_device c, i, j) = receipts h !! (call_device c, i, j)).
  { intros i c Hc j. apply (extends_other _ _ _ _ _ Hx). cbn [fst]. intros [= _ ->]. congruence. }
  split; [split; cbn [with_receipts call_records receipts]|split; [|split; [done|split; [done|by apply Hin]]]].
  - apply (announced_settled _ Hok).
  - intros dv i j r Hr Hsch. destruct (receipts h !! (dv, i, j)) as [q|] eqn:E.
    + rewrite (extends_keeps _ _ _ _ Hx _ _ E) in Hr. injection Hr as <-. by eapply announced_receipt.
    + destruct (extends_new _ _ _ _ Hx _ _ Hr E). congruence.
  - apply Hk, Hok.
  - intros i c Hc. eapply settled_same; [apply (receipts_keyed _ Hok)| |by apply (events_sorted _ Hok)].
    apply documents_same. by apply Hother.
  - unfold spent. cbn [with_receipts call_records receipts].
    assert (Hall : Forall (λ p, spent_call key m p.1 p.2 ≡ₚ spent_call key (receipts h) p.1 p.2) (map_to_list (call_records h))).
    { apply Forall_forall. intros [i c] Hc%elem_of_map_to_list. apply spent_receipts. by apply Hother. }
    induction Hall as [|p k Hp _ IH]; [done|]. cbn [fmap list_fmap concat]. by rewrite Hp, IH.
Qed.

(** *** The row of a call *)

Lemma row_ok h id c c' : history_ok h → call_records h !! id = Some c → same_call c c' →
  terminal_notification_scheduled c' = terminal_notification_scheduled c → events c' = events c →
  history_ok (with_call id c' h) ∧ spent key (with_call id c' h) ≡ₚ spent key h.
Proof using Type.
  intros Hok Hc Hs Ht He. pose proof (extends_refl (call_device c) id (receipts h)) as Hx. split.
  - apply (extended_ok h (call_device c) id (receipts h) c); [done|by left|done|done|apply Hok|done|done|].
    rewrite He. by apply (events_sorted _ Hok).
  - apply (extended_spent h (call_device c) id (receipts h) c); [done|by left|done..].
Qed.

(** *** Claims *)

Lemma late_notices policy result d : result ≠ "IN_PROGRESS" →
  filter (λ n : notice, n.1 = "external_call_failed") (classify_call_notifications policy result [d]) = event_notices d.
Proof using Type.
  intros Hr. unfold classify_call_notifications. rewrite bool_decide_false by done. rewrite !filter_app.
  assert (Hone : ∀ (b : bool) (n : notice), n.1 ≠ "external_call_failed" →
    filter (λ n : notice, n.1 = "external_call_failed") (if b then [n] else []) = []).
  { intros [] n Hn; [|done]. by rewrite filter_cons, decide_False. }
  rewrite !Hone by done. cbn [map concat app]. rewrite app_nil_r. unfold event_notices.
  destruct (member_is _ _ _); [|done]. destruct (assoc "status" d) as [[| | |s| |]|]; try done. by destruct (bool_decide _).
Qed.

Lemma alerts_split (l : list (string * receipt_row)) :
  alerts l ≡ₚ alerts (filter (λ r, notification_scheduled r.2 = true) l) ++ alerts (filter (λ r, notification_scheduled r.2 = false) l).
Proof using Type.
  unfold alerts. rewrite <- concat_app, <- fmap_app. apply concat_perm. apply fmap_Permutation. 
  induction l as [|[i r] l IH]; [done|]. rewrite !filter_cons. cbn [snd]. destruct (notification_scheduled r).
  - rewrite decide_True, decide_False by done. cbn [app]. by constructor.
  - rewrite decide_False, decide_True by done. rewrite <- Permutation_middle. by constructor.
Qed.
Lemma alerts_marked (l : list (string * receipt_row)) :
  alerts (filter (λ r, notification_scheduled r.2 = true) ((λ r, (r.1, scheduled r.2)) <$> l)) = alerts l.
Proof using Type.
  unfold alerts. induction l as [|[i r] l IH]; [done|]. cbn [fmap list_fmap fst snd]. rewrite filter_cons, decide_True by done.
  cbn [fmap list_fmap concat snd scheduled receipt_document]. f_equal. exact IH.
Qed.

Lemma notify_terminal id c l : notify key id (with_terminal c) l = notify key id c l.
Proof using Type. reflexivity. Qed.

Lemma claimed_spent h id c : history_ok h → call_records h !! id = Some c → ¬ unsettled (call_result c) →
  let first := if terminal_notification_scheduled c then [] else terminal_notices c in
  let pending := filter (λ r, notification_scheduled r.2 = false) (receipts_of (call_device c) id (receipts h)) in
  spent_call key (mark (call_device c) id (receipts h)) id (with_terminal c) ≡ₚ
    spent_call key (receipts h) id c ++ notify key id c (first ++ alerts pending).
Proof using Type.
  intros Hok Hc Hu first pending. unfold spent_call. cbn [with_terminal terminal_notification_scheduled call_device].
  rewrite notify_terminal. etrans.
  { apply notify_perm. apply Permutation_app_head. apply alerts_perm. apply filter_Permutation, receipts_mark. }
  rewrite alerts_marked. unfold terminal_notices. cbn [with_terminal policy_decision call_result].
  etrans; [apply notify_perm, Permutation_app_head, alerts_split|]. fold pending. subst first.
  destruct (terminal_notification_scheduled c) eqn:Ht.
  - cbn [app]. unfold notify. by rewrite <- map_app, <- (assoc_L (++)).
  - cbn [app]. assert (filter (λ r, notification_scheduled r.2 = true) (receipts_of (call_device c) id (receipts h)) = []) as ->; [|done].
    apply list_filter_none. apply Forall_forall. intros [i r] Hin Hsch. apply elem_of_receipts in Hin.
    destruct (announced_receipt _ Hok _ _ _ _ Hin Hsch) as (d & Hd & _ & Hd2). rewrite Hc in Hd. injection Hd as <-. congruence.
Qed.

Lemma claim_ok h id c ns h' : history_ok h → call_records h !! id = Some c → claim_notifications id c h = (ns, h') →
  history_ok h' ∧ spent key h' ≡ₚ spent key h ++ notify key id c ns ∧ settled_up h' id ∧
  (∀ other, other ≠ id → settled_up h other → settled_up h' other).
Proof using Type.
  intros Hok Hc E. unfold claim_notifications in E. destruct (bool_decide _) eqn:Hu; injection E as <- <-.
  - apply bool_decide_eq_true in Hu. split; [done|]. split; [by rewrite app_nil_r|]. split; [|done].
    intros d Hd Hnu. rewrite Hc in Hd. by injection Hd as <-.
  - apply bool_decide_eq_false in Hu. fold (mark (call_device c) id (receipts h)).
    set (m := mark (call_device c) id (receipts h)).
    assert (Hother : ∀ dv i, i ≠ id → ∀ j, m !! (dv, i, j) = receipts h !! (dv, i, j)).
    { intros dv i Hne j. unfold m. rewrite lookup_mark. destruct (receipts h !! (dv, i, j)); [|done]. cbn [fmap option_fmap option_map fst].
      rewrite bool_decide_false by congruence. done. }
    split; [split; cbn [with_call with_receipts call_records receipts]|split; [|split]].
    + intros i d [[<- <-]|[_ Hd]]%lookup_insert_Some Ht; [done|by eapply announced_settled].
    + intros dv i j r Hr Hsch. destruct (decide (i = id)) as [->|Hne].
      * unfold m in Hr. rewrite lookup_mark in Hr. apply fmap_Some in Hr as (q & Hq & ->). cbn [fst] in Hsch.
        destruct (decide (dv = call_device c)) as [->|Hdv].
        { exists (with_terminal c). by rewrite lookup_insert_eq. }
        rewrite bool_decide_false in Hsch by congruence. destruct (announced_receipt _ Hok _ _ _ _ Hq Hsch) as (d & Hd & Hdd & _).
        rewrite Hc in Hd. injection Hd as <-. congruence.
      * rewrite Hother in Hr by done. destruct (announced_receipt _ Hok _ _ _ _ Hr Hsch) as (d & Hd & Hrest).
        exists d. by rewrite lookup_insert_ne.
    + intros k r Hr. unfold m in Hr. rewrite lookup_mark in Hr. apply fmap_Some in Hr as (q & Hq & ->).
      pose proof (receipts_keyed _ Hok _ _ Hq). by case_bool_decide.
    + intros i d [[<- <-]|[Hne Hd]]%lookup_insert_Some.
      * eapply settled_same; [apply (receipts_keyed _ Hok)| |exact (events_sorted _ Hok id c Hc)]. cbn [with_terminal call_device].
        unfold documents_of. etrans; [|apply Permutation_map; symmetry; apply receipts_mark].
        by rewrite map_map.
      * eapply settled_same; [apply (receipts_keyed _ Hok)| |by apply (events_sorted _ Hok)]. apply documents_same. by apply Hother.
    + apply spent_update.
      * intros i d Hne Hd. apply spent_receipts. by apply Hother.
      * rewrite Hc. etrans; [by apply claimed_spent|]. apply Permutation_app_head. apply notify_perm. apply Permutation_app_head.
        apply reflexive_eq. unfold alerts. f_equal. apply map_ext. intros r. symmetry. apply late_notices.
        intros E. apply Hu. rewrite E. by left.
    + intros d Hd _. cbn [with_call with_receipts call_records] in Hd. rewrite lookup_insert_eq in Hd. injection Hd as <-. split; [done|]. cbn [with_terminal call_device].
      intros i r Hr. cbn [with_call with_receipts receipts] in Hr. unfold m in Hr. rewrite lookup_mark in Hr.
      apply fmap_Some in Hr as (q & Hq & ->). cbn [fst]. by rewrite bool_decide_true.
    + intros other Hne Hs d Hd Hnu. cbn [with_call with_receipts call_records receipts] in *.
      rewrite lookup_insert_ne in Hd by done. destruct (Hs d Hd Hnu) as [Ht Hall]. split; [done|]. intros i r Hr.
      rewrite Hother in Hr by done. by eapply Hall.
Qed.

(** *** Uploads *)

(** The states between requests. *)
Definition good (h : call_store) : Prop := history_ok h ∧ ∀ id, settled_up h id.
(** What a step adds to the list of notifications is what it spends. *)
Definition announces (h h' : call_store) (l : list notification) : Prop := good h' ∧ spent key h' ≡ₚ spent key h ++ l.

Lemma pending_ok id h l h' : pending_call_notifications key id h = Ok (l, h') →
  ∃ c ns, call_records h !! id = Some c ∧ claim_notifications id c h = (ns, h') ∧ l = notify key id c ns.
Proof using Type.
  unfold pending_call_notifications. intros E. apply result_bind_ok in E as (c & Hc%of_option_ok & E).
  apply result_bind_ok in E as (caller & Hcaller & E). destruct (claim_notifications id c h) as [ns h1] eqn:Ec. injection E as <- <-.
  exists c, ns. split; [done|]. split; [done|]. unfold notify, masked_caller. destruct (caller_encrypted c) as [e|]; [|by injection Hcaller as <-].
  case_bool_decide as He; [injection Hcaller as <-; by destruct (decrypt key e)|].
  apply result_bind_ok in Hcaller as (s & -> & Hs). injection Hs as <-. done.
Qed.

(** The claim that ends the upload of a call. *)
Lemma announce_call h id l h' : history_ok h → (∀ other, other ≠ id → settled_up h other) →
  pending_call_notifications key id h = Ok (l, h') → announces h h' l.
Proof using Type.
  intros Hok Hother E. apply pending_ok in E as (c & ns & Hc & Ec & ->).
  destruct (claim_ok h id c ns h' Hok Hc Ec) as (Hok' & Hsp & Hid & Hrest). split; [|done]. split; [done|].
  intros i. destruct (decide (i = id)) as [->|Hne]; [done|]. apply Hrest; [done|by apply Hother].
Qed.

Lemma upload_item_ok t device acc h item l h' : good h → upload_item key server_offset t device (acc, h) item = Ok (l, h') →
  ∃ k, l = acc ++ k ∧ announces h h' k.
Proof using Type.
  intros [Hok Hset] E. destruct item as [id events]. unfold upload_item in E. apply result_bind_ok in E as (h1 & Em & E).
  destruct (call_records h !! id) as [c|] eqn:Hc.
  - apply result_bind_ok in E as ([k h2] & Ep & E). injection E as <- <-. exists k. split; [done|].
    destruct (merge_ok t device id (map dump_event events) c h h1) as (Hd & l1 & m & -> & Hx & Hok1 & Hsp & _); [done|by left|done|].
    destruct (announce_call _ id k h2 Hok1) as [Hg Hs]; [|done|].
    + intros other Hne. by eapply extended_settled.
    + split; [done|]. by rewrite Hs, Hsp.
  - injection E as <- <-. exists []. split; [by rewrite app_nil_r|].
    destruct (orphans_ok t device id (map dump_event events) h h1 Hok Hc Em) as (Hok1 & Hsp & Hcalls & Hx & _).
    split; [|by rewrite app_nil_r]. split; [done|]. intros i d Hd Hu. rewrite Hcalls in Hd.
    destruct (Hset i d Hd Hu) as [Ht Hall]. split; [done|]. intros j r Hr. eapply Hall.
    rewrite (extends_other _ _ _ _ _ Hx) in Hr; [exact Hr|]. cbn [fst]. congruence.
Qed.

Lemma reported_ok p device r c row row' : (terminal_notification_scheduled row = true → ¬ unsettled (call_result row)) →
  reported p device c (settled r c row) = Ok row' →
  same_call row row' ∧ terminal_notification_scheduled row' = terminal_notification_scheduled row ∧ events row' = events row.
Proof using Type.
  intros Hset E. assert (Hs : same_call row (settled r c row) ∧
    terminal_notification_scheduled (settled r c row) = terminal_notification_scheduled row ∧ events (settled r c row) = events row).
  { unfold settled. case_bool_decide as Hu; [|done]. cbn [andb]. destruct (negb _); [|done]. split; [|done]. split; [done|].
    split; [done|]. split; [done|]. intros Ht. by destruct (Hset Ht). }
  unfold reported in E. destruct (dump_report <$> session_audit c) as [j|]; [|by injection E as <-].
  destruct (call_audit (settled r c row)).
  - destruct (py_eq _ _); [by injection E as <-|done].
  - apply result_bind_ok in E as (u & _ & E). by injection E as <-.
Qed.

Lemma upload_call_ok p r device acc h c l h' : good h → upload_call key server_offset p r device (acc, h) c = Ok (l, h') →
  ∃ k, l = acc ++ k ∧ announces h h' k.
Proof using Type.
  intros [Hok Hset] E. unfold upload_call in E. apply result_bind_ok in E as (u & _ & E).
  apply result_bind_ok in E as (h1 & Em & E). apply result_bind_ok in E as ([k h2] & Ep & E). injection E as <- <-.
  exists k. split; [done|]. set (id := call_id c) in *.
  assert (Hm : history_ok h1 ∧ spent key h1 ≡ₚ spent key h ∧ ∀ other, other ≠ id → settled_up h1 other).
  { destruct (call_records h !! id) as [row|] eqn:Hc.
    - case_decide as Hd; [done|]. apply result_bind_ok in Em as (h0 & Em & E). apply result_bind_ok in E as (row1 & Hrow1%of_option_ok & E).
      apply result_bind_ok in E as (row2 & Hrep & E). injection E as <-.
      destruct (merge_ok (now r) device id _ row h h0 Hok (or_introl Hc) Em) as (Hdev & l1 & m & -> & Hx & Hok0 & Hsp & _).
      cbn [with_call call_records] in Hrow1. rewrite lookup_insert_eq in Hrow1. injection Hrow1 as <-.
      apply reported_ok in Hrep as (Hs & Ht & He); [|exact (announced_settled _ Hok id row Hc)].
      destruct (row_ok _ id (with_events l1 row) row2 Hok0) as [Hok2 Hsp2]; [apply lookup_insert_eq|done..|].
      split; [done|]. split; [by rewrite Hsp2|]. intros other Hne d Hd'. cbn [with_call call_records] in Hd'.
      rewrite lookup_insert_ne in Hd' by done. apply (extended_settled h device id other m (with_events l1 row)); [done|done|by apply Hset|done].
    - destruct (merge_ok (now r) device id _ (new_call key r device c) h h1 Hok (or_intror (conj Hc (conj eq_refl eq_refl))) Em)
        as (Hdev & l1 & m & -> & Hx & Hok0 & Hsp & _).
      split; [done|]. split; [done|]. intros other Hne. by eapply extended_settled. }
  destruct Hm as (Hok1 & Hsp & Hother). destruct (announce_call h1 id k h2 Hok1 Hother Ep) as [Hg Hs]. split; [done|]. by rewrite Hs, Hsp.
Qed.

(** Any number of them. *)
Lemma uploads_ok {A} (f : list notification * call_store → A → result (list notification * call_store)) l :
  (∀ acc h a k h', good h → f (acc, h) a = Ok (k, h') → ∃ j, k = acc ++ j ∧ announces h h' j) →
  ∀ acc h k h', good h → foldM f (acc, h) l = Ok (k, h') → ∃ j, k = acc ++ j ∧ announces h h' j.
Proof using Type.
  intros Hf. induction l as [|a l IH]; intros acc h k h' Hg E; cbn [foldM] in E.
  - injection E as <- <-. exists []. rewrite app_nil_r. split; [done|]. split; [done|by rewrite app_nil_r].
  - apply result_bind_ok in E as ([k1 h1] & E1 & E). apply Hf in E1 as (j1 & -> & Hg1 & Hs1); [|done].
    apply IH in E as (j2 & -> & Hg2 & Hs2); [|done]. exists (j1 ++ j2). rewrite (assoc_L (++)). split; [done|].
    split; [done|]. by rewrite Hs2, Hs1, (assoc_L (++)).
Qed.

Lemma spent_due h : good h → spent key h ≡ₚ due key h.
Proof using Type.
  intros [Hok Hset]. unfold spent, due.
  assert (Hall : Forall (λ p, spent_call key (receipts h) p.1 p.2 ≡ₚ due_call key (receipts h) p.1 p.2) (map_to_list (call_records h))).
  { apply Forall_forall. intros [id c] Hc%elem_of_map_to_list. cbn [fst snd]. unfold spent_call, due_call. case_decide as Hu.
    - destruct (terminal_notification_scheduled c) eqn:Ht; [|done]. by destruct (announced_settled _ Hok _ _ Hc Ht).
    - destruct (Hset id c Hc Hu) as [-> Hs]. apply notify_perm. f_equiv. apply reflexive_eq. f_equal.
      assert (Hf : Forall (λ r, notification_scheduled r.2 = true) (receipts_of (call_device c) id (receipts h))).
      { apply Forall_forall. intros [i r] Hin%elem_of_receipts. by eapply Hs. }
      induction Hf as [|r l Hr _ IH]; [done|]. rewrite filter_cons, decide_True by done. by rewrite IH. }
  induction Hall as [|p k Hp _ IH]; [done|]. cbn [fmap list_fmap concat]. by rewrite Hp, IH.
Qed.
End Histories.

(** ** Retries *)

Section Retries.
Context `{Cryptography} (key : bytes) (server_offset : datetime → Z).
Abbreviation identity := (event_identity server_offset).

(** What no upload undoes. *)
Definition row_grows (c c' : call_row) : Prop :=
  call_device c' = call_device c ∧ caller_encrypted c' = caller_encrypted c ∧
  (¬ unsettled (call_result c) → call_result c' = call_result c) ∧ (∀ k, call_audit c = Some k → call_audit c' = Some k).
Definition grows (h h' : call_store) : Prop :=
  (∀ id c, call_records h !! id = Some c → ∃ c', call_records h' !! id = Some c' ∧ row_grows c c') ∧
  (∀ k, is_Some (receipts h !! k) → is_Some (receipts h' !! k)).

Lemma row_grows_refl c : row_grows c c.
Proof using Type. done. Qed.
Lemma row_grows_trans a b c : row_grows a b → row_grows b c → row_grows a c.
Proof using Type.
  intros (D1 & E1 & R1 & A1) (D2 & E2 & R2 & A2). split; [congruence|]. split; [congruence|]. split; [|auto].
  intros Hu. rewrite R2; [by apply R1|]. by rewrite R1.
Qed.
Lemma grows_refl h : grows h h.
Proof using Type. split; [|done]. intros id c Hc. by exists c. Qed.
Lemma grows_trans a b c : grows a b → grows b c → grows a c.
Proof using Type.
  intros [C1 R1] [C2 R2]. split; [|auto]. intros id x (y & Hy & Hxy)%C1. apply C2 in Hy as (z & Hz & Hyz). exists z.
  split; [done|by eapply row_grows_trans].
Qed.
Lemma grows_call h id c m : (∀ k, is_Some (receipts h !! k) → is_Some (m !! k)) →
  (∀ d, call_records h !! id = Some d → row_grows d c) → grows h (with_call id c (with_receipts m h)).
Proof using Type.
  intros Hm Hc. split; [|done]. intros i d Hd. cbn [with_call call_records]. destruct (decide (i = id)) as [->|Hne].
  - exists c. rewrite lookup_insert_eq. split; [done|by apply Hc].
  - exists d. rewrite lookup_insert_ne by done. done.
Qed.

Lemma claim_grows id c h ns h' : call_records h !! id = Some c → claim_notifications id c h = (ns, h') → grows h h'.
Proof using Type.
  intros Hc E. unfold claim_notifications in E. destruct (bool_decide _); injection E as _ <-; [apply grows_refl|].
  apply grows_call.
  - intros k Hk. fold (mark (call_device c) id (receipts h)). rewrite lookup_mark. by apply fmap_is_Some.
  - intros d Hd. rewrite Hc in Hd. by injection Hd as <-.
Qed.

(** The encrypted caller can be read. *)
Definition readable (c : call_row) : Prop :=
  match caller_encrypted c with Some e => e = [] ∨ ∃ s, decrypt key e = Ok s | None => True end.

Lemma pending_readable id h l h' : pending_call_notifications key id h = Ok (l, h') →
  ∃ c, call_records h !! id = Some c ∧ readable c.
Proof using Type.
  unfold pending_call_notifications. intros E. apply result_bind_ok in E as (c & Hc%of_option_ok & E). exists c. split; [done|].
  apply result_bind_ok in E as (caller & Hcaller & _). unfold readable. destruct (caller_encrypted c) as [e|]; [|done].
  case_bool_decide; [by left|]. apply result_bind_ok in Hcaller as (s & Hs & _). right. by exists s.
Qed.

(** The state already holds the report [c]. *)
Definition absorbed (p : policy_tables) (device : string) (c : CallEventInput) (h : call_store) : Prop :=
  validate_call_report p (reported_version (session_audit c)) (input_result c) device = Ok tt ∧
  (∀ e, e ∈ input_events c → ∃ i, identity (dump_event e) = Ok i ∧ is_Some (receipts h !! (device, call_id c, i))) ∧
  ∃ row, call_records h !! call_id c = Some row ∧ call_device row = device ∧ readable row ∧
    (input_result c = "IN_PROGRESS" ∨ ¬ unsettled (call_result row)) ∧
    (∀ r, session_audit c = Some r → ∃ k, call_audit row = Some k ∧ py_eq k (dump_report r) = true).

Lemma absorbed_grows p device c h h' : grows h h' → absorbed p device c h → absorbed p device c h'.
Proof using Type.
  intros [Hcalls Hr] (Hv & He & row & Hrow & Hd & Hread & Hres & Ha). split; [done|]. split.
  - intros e (i & Hi & Hin)%He. exists i. split; [done|by apply Hr].
  - destruct (Hcalls _ _ Hrow) as (row' & Hrow' & Hdev & Henc & Hres' & Ha'). exists row'. split; [done|]. split; [congruence|].
    split; [unfold readable; by rewrite Henc|]. split.
    + destruct Hres as [|Hu]; [by left|right]. by rewrite Hres'.
    + intros r (k & Hk & Heq)%Ha. exists k. split; [by apply Ha'|done].
Qed.

Lemma reported_grows p device r c row row' : input_result c ≠ "END_DETAILS_UNAVAILABLE" →
  reported p device c (settled r c row) = Ok row' → row_grows row row' ∧ events row' = events row ∧
  (input_result c = "IN_PROGRESS" ∨ ¬ unsettled (call_result row')) ∧
  (∀ q, session_audit c = Some q → ∃ k, call_audit row' = Some k ∧ py_eq k (dump_report q) = true).
Proof using Type.
  intros Hend E. assert (Hs : row_grows row (settled r c row) ∧ events (settled r c row) = events row ∧
    call_audit (settled r c row) = call_audit row ∧
    (input_result c = "IN_PROGRESS" ∨ ¬ unsettled (call_result (settled r c row)))).
  { unfold settled. destruct (decide (unsettled (call_result row))) as [Hu|Hu];
      [rewrite (bool_decide_true _ Hu)|rewrite (bool_decide_false _ Hu)]; cbn [andb].
    - destruct (decide (input_result c = "IN_PROGRESS")) as [Hp|Hp]; [rewrite bool_decide_true by done; cbn [negb]; by split_and!; [|..|left]|].
      rewrite bool_decide_false by done. cbn [negb]. split; [|split; [done|split; [done|right]]]; [split; [done|split; [done|split; [|done]]]; intros Hn; by destruct Hn|].
      cbn [call_result]. unfold unsettled. by intros [?|[?|[]%elem_of_nil]%elem_of_cons]%elem_of_cons.
    - split_and!; try done. by right. }
  destruct Hs as (Hg & He & Ha & Hr). unfold reported in E. destruct (session_audit c) as [q|]; cbn [fmap option_fmap option_map] in E.
  - rewrite Ha in E. destruct (call_audit row) as [k|] eqn:Ek.
    + destruct (py_eq k (dump_report q)) eqn:Eq; [|done]. injection E as <-. split; [done|]. split; [done|]. split; [done|].
      intros q' [= <-]. exists k. by rewrite Ha.
    + apply result_bind_ok in E as (u & _ & E). injection E as <-. split; [|split; [done|split; [done|]]].
      * destruct Hg as (? & ? & ? & _). split_and!; try done. intros k Hk. congruence.
      * intros q' [= <-]. exists (dump_report q). split; [done|]. apply py_eq_refl, dump_report_keys.
  - injection E as <-. done.
Qed.

Lemma upload_call_absorbs p r device acc h c l h' : good server_offset h → input_result c ≠ "END_DETAILS_UNAVAILABLE" →
  upload_call key server_offset p r device (acc, h) c = Ok (l, h') → absorbed p device c h' ∧ grows h h'.
Proof using Type.
  intros [Hok Hset] Hend E. unfold upload_call in E. apply result_bind_ok in E as ([] & Hv & E).
  apply result_bind_ok in E as (h1 & Em & E). apply result_bind_ok in E as ([k h2] & Ep & E). injection E as <- <-.
  set (id := call_id c) in *.
  assert (Hm : grows h h1 ∧ (∀ e, e ∈ input_events c → ∃ i, identity (dump_event e) = Ok i ∧ is_Some (receipts h1 !! (device, id, i))) ∧
    ∃ row, call_records h1 !! id = Some row ∧ call_device row = device ∧
      (input_result c = "IN_PROGRESS" ∨ ¬ unsettled (call_result row)) ∧
      (∀ q, session_audit c = Some q → ∃ k, call_audit row = Some k ∧ py_eq k (dump_report q) = true)).
  { destruct (call_records h !! id) as [row|] eqn:Hc.
    - case_decide as Hd; [done|]. apply result_bind_ok in Em as (h0 & Em & E). apply result_bind_ok in E as (row1 & Hrow1%of_option_ok & E).
      apply result_bind_ok in E as (row2 & Hrep & E). injection E as <-.
      destruct (merge_ok key server_offset (now r) device id _ row h h0 Hok (or_introl Hc) Em) as (Hdev & l1 & m & -> & Hx & Hok0 & _ & Hin).
      cbn [with_call call_records] in Hrow1. rewrite lookup_insert_eq in Hrow1. injection Hrow1 as <-.
      apply reported_grows in Hrep as (Hg & _ & Hres & Ha); [|done]. split; [|split].
      + eapply grows_trans; [|apply (grows_call _ id row2 m)]; cbn [with_call call_records receipts with_receipts].
        * apply (grows_call h id (with_events l1 row) m); [intros k' [q Hq]; exists q; by apply (extends_keeps _ _ _ _ Hx)|].
          intros d Hd'. rewrite Hc in Hd'. by injection Hd' as <-.
        * done.
        * intros d Hd'. rewrite lookup_insert_eq in Hd'. by injection Hd' as <-.
      + intros e He. destruct (Hin (dump_event e)) as (i & Hi & Hs); [by apply list_elem_of_In, in_map, list_elem_of_In|]. by exists i.
      + exists row2. cbn [with_call call_records]. rewrite lookup_insert_eq. split; [done|]. destruct Hg as (Hd2 & _). split; [|done].
        by rewrite Hd2.
    - destruct (merge_ok key server_offset (now r) device id (map dump_event (input_events c)) (new_call key r device c) h h1 Hok
        (or_intror (conj Hc (conj eq_refl eq_refl))) Em) as (Hdev & l1 & m & -> & Hx & Hok0 & _ & Hin). split; [|split].
      + apply grows_call; [intros k' [q Hq]; exists q; by apply (extends_keeps _ _ _ _ Hx)|]. intros d Hd'. congruence.
      + intros e He. destruct (Hin (dump_event e)) as (i & Hi & Hs); [by apply list_elem_of_In, in_map, list_elem_of_In|]. by exists i.
      + exists (with_events l1 (new_call key r device c)). cbn [with_call call_records]. rewrite lookup_insert_eq. split; [done|].
        split; [done|]. split.
        * destruct (decide (input_result c = "IN_PROGRESS")) as [|Hp]; [by left|right]. cbn [with_events new_call call_result].
          unfold unsettled. by intros [?|[?|[]%elem_of_nil]%elem_of_cons]%elem_of_cons.
        * intros q Hq. exists (dump_report q). cbn [with_events new_call call_audit]. rewrite Hq. split; [done|]. apply py_eq_refl, dump_report_keys. }
  destruct Hm as (Hg & Hev & row & Hrow & Hd & Hres & Ha). pose proof (pending_readable _ _ _ _ Ep) as (row' & Hrow' & Hread).
  fold id in Ep. rewrite Hrow in Hrow'. injection Hrow' as <-.
  apply pending_ok in Ep as (c1 & ns & Hc1 & Ec & ->). pose proof (claim_grows _ _ _ _ _ Hc1 Ec) as Hg2. split; [|by eapply grows_trans].
  destruct Hg2 as [Hcalls Hrec]. split; [done|]. split.
  - intros e (i & Hi & Hin)%Hev. exists i. split; [done|by apply Hrec].
  - destruct (Hcalls _ _ Hrow) as (row' & Hrow' & Hdev & Henc & Hres' & Ha'). exists row'. split; [done|]. split; [congruence|].
    split; [unfold readable; by rewrite Henc|]. split.
    + destruct Hres as [|Hu]; [by left|right]. by rewrite Hres'.
    + intros q (j & Hj & Heq)%Ha. exists j. split; [by apply Ha'|done].
Qed.

(** *** Uploading again *)

Lemma add_known t (device id : string) b l m :
  (∀ d, d ∈ l → ∃ i, identity d = Ok i ∧ is_Some (m !! (device, id, i))) → foldM (add_receipt server_offset t device id b) m l = Ok m.
Proof using Type.
  induction l as [|d l IH]; intros Hall; [done|]. cbn [foldM]. destruct (Hall d) as (i & Hi & r & Hr); [by left|].
  assert (add_receipt server_offset t device id b m d = Ok m) as ->.
  { unfold add_receipt. rewrite Hi. cbn [mbind result_bind]. by rewrite Hr. }
  cbn [mbind result_bind]. apply IH.
  intros e He. apply Hall. by right.
Qed.

Lemma merge_again t device id c documents h : good server_offset h → call_records h !! id = Some c → call_device c = device →
  (∀ d, d ∈ documents → ∃ i, identity d = Ok i ∧ is_Some (receipts h !! (device, id, i))) →
  merge_events server_offset t device id documents (Some c) h = Ok h.
Proof using Type.
  intros [Hok _] Hc <- Hall. unfold merge_events. rewrite decide_False by (by intros Hn; apply Hn).
  rewrite add_known.
  2:{ intros d Hd. destruct (sorted_events_ok _ _ _ (events_sorted _ _ Hok _ _ Hc)) as (_ & _ & _ & Hp).
      rewrite Hp in Hd. apply elem_of_documents in Hd as (i & r & Hr & ->). exists i. split; [by apply (receipts_keyed _ _ Hok _ _ Hr)|by exists r]. }
  cbn [mbind result_bind]. rewrite add_known by done. cbn [mbind result_bind].
  pose proof (events_sorted _ _ Hok _ _ Hc) as Hs. unfold documents_of in Hs. rewrite Hs. cbn [mbind result_bind]. f_equal.
  destruct h as [calls m]. unfold with_call, with_receipts. cbn [call_records receipts] in *. f_equal.
  rewrite insert_id; [done|]. rewrite Hc. f_equal. by destruct c.
Qed.

Lemma claim_again id c h : good server_offset h → call_records h !! id = Some c → claim_notifications id c h = ([], h).
Proof using Type.
  intros [Hok Hset] Hc. unfold claim_notifications. case_bool_decide as Hu; [done|]. destruct (Hset id c Hc Hu) as [Ht Hs]. rewrite Ht.
  rewrite list_filter_none.
  2:{ apply Forall_forall. intros [i r] Hin%elem_of_receipts. cbn [snd]. rewrite (Hs i r Hin). done. }
  cbn [map concat app]. f_equal. destruct h as [calls m]. unfold with_call, with_receipts. cbn [call_records receipts] in *. f_equal.
  - apply insert_id. rewrite Hc. f_equal. destruct c. simpl in Ht. by subst.
  - apply map_eq. intros [[dv i] j]. fold (mark (call_device c) id m). rewrite lookup_mark. cbn [fst].
    destruct (m !! (dv, i, j)) as [r|] eqn:Hr; [|done]. cbn [fmap option_fmap option_map]. f_equal. case_bool_decide as E; [|done].
    injection E as -> ->. specialize (Hs j r Hr). destruct r. simpl in Hs. by subst.
Qed.

Lemma pending_again id c h : good server_offset h → call_records h !! id = Some c → readable c →
  pending_call_notifications key id h = Ok ([], h).
Proof using Type.
  intros Hg Hc Hread. unfold pending_call_notifications. rewrite Hc. cbn [of_option mbind result_bind].
  assert (∃ caller, match caller_encrypted c with
    | Some e => if bool_decide (e = []) then Ok None else s ← decrypt key e; Ok (Some s) | None => Ok None end = Ok caller) as [caller ->].
  { unfold readable in Hread. destruct (caller_encrypted c) as [e|]; [|by eexists]. case_bool_decide as He; [by eexists|].
    destruct Hread as [|[s ->]]; [done|]. by eexists. }
  cbn [mbind result_bind]. by rewrite claim_again.
Qed.

Lemma upload_call_again p r device acc h c : good server_offset h → absorbed p device c h →
  upload_call key server_offset p r device (acc, h) c = Ok (acc, h).
Proof using Type.
  intros Hg (Hv & He & row & Hrow & Hd & Hread & Hres & Ha). unfold upload_call. rewrite Hv. cbn [mbind result_bind].
  rewrite Hrow. rewrite decide_False by (by intros Hn; apply Hn). rewrite (merge_again (now r) device (call_id c) row); [|done..|].
  2:{ intros d Hd'. apply list_elem_of_In, in_map_iff in Hd' as (e & <- & Hin). by apply He, list_elem_of_In. }
  cbn [mbind result_bind]. rewrite Hrow. cbn [of_option mbind result_bind].
  assert (settled r c row = row) as ->.
  { unfold settled. destruct Hres as [->|Hu]; [rewrite (bool_decide_true ("IN_PROGRESS" = _)) by done; by rewrite andb_false_r|].
    by rewrite (bool_decide_false _ Hu). }
  assert (reported p device c row = Ok row) as ->.
  { unfold reported. destruct (session_audit c) as [q|]; [|done]. cbn [fmap option_fmap option_map].
    destruct (Ha q eq_refl) as (k & -> & ->). done. }
  cbn [mbind result_bind]. assert (with_call (call_id c) row h = h) as ->.
  { destruct h as [calls m]. unfold with_call. cbn [call_records receipts] in *. by rewrite insert_id. }
  rewrite (pending_again _ row) by done. cbn [mbind result_bind]. by rewrite app_nil_r.
Qed.

Lemma upload_calls_absorb p device calls acc h l h' : good server_offset h →
  (∀ r c, (r, c) ∈ calls → input_result c ≠ "END_DETAILS_UNAVAILABLE") →
  foldM (λ acc c, upload_call key server_offset p c.1 device acc c.2) (acc, h) calls = Ok (l, h') →
  good server_offset h' ∧ grows h h' ∧ ∀ r c, (r, c) ∈ calls → absorbed p device c h'.
Proof using Type.
  revert acc h. induction calls as [|[r c] calls IH]; intros acc h Hg Hend E; cbn [foldM] in E.
  - injection E as <- <-. split; [done|]. split; [apply grows_refl|]. intros r c Hin. by apply elem_of_nil in Hin.
  - apply result_bind_ok in E as ([l1 h1] & E1 & E). cbn [fst snd] in E1.
    destruct (upload_call_absorbs p r device acc h c l1 h1) as [Ha Hgr]; [done|by apply (Hend r); left|done|].
    apply upload_call_ok in E1 as (k & -> & Hg1 & _); [|done].
    apply IH in E as (Hg2 & Hgr2 & Hall); [|done|by intros r' c' Hin; apply (Hend r'); right].
    split; [done|]. split; [by eapply grows_trans|]. intros r' c' [[= -> ->]|Hin]%elem_of_cons; [|by eapply Hall].
    by eapply absorbed_grows.
Qed.

Lemma upload_calls_again p device calls acc h : good server_offset h → (∀ r c, (r, c) ∈ calls → absorbed p device c h) →
  foldM (λ acc c, upload_call key server_offset p c.1 device acc c.2) (acc, h) calls = Ok (acc, h).
Proof using Type.
  intros Hg. induction calls as [|[r c] calls IH]; intros Hall; [done|]. cbn [foldM fst snd].
  rewrite upload_call_again by (done || by apply (Hall r); left). cbn [mbind result_bind]. apply IH. intros r' c' Hin. apply (Hall r'). by right.
Qed.
End Retries.

(** ** Theorems *)

Section Theorems.
Context `{Cryptography} (key : bytes) (server_offset : datetime → Z).

Definition empty_history : call_store := {| call_records := ∅; receipts := ∅ |}.

(** The histories that requests make of the empty one, with all that they schedule. *)
Inductive uploads : call_store → list notification → Prop :=
| uploads_start : uploads empty_history []
| uploads_calls p device calls h l k h' : uploads h l → upload_calls key server_offset p device calls h = Ok (k, h') →
    uploads h' (l ++ k)
| uploads_events t device items h l k h' : uploads h l → upload_items key server_offset t device items h = Ok (k, h') →
    uploads h' (l ++ k).

Lemma uploads_good h l : uploads h l → good server_offset h ∧ spent key h ≡ₚ l.
Proof using Type.
  induction 1 as [|p device calls h l k h' _ [Hg Hs] E|t device items h l k h' _ [Hg Hs] E].
  - split; [|done]. split; [split|].
    + intros id c Hc. destruct (lookup_empty_Some _ _ Hc).
    + intros device id i r Hr. destruct (lookup_empty_Some _ _ Hr).
    + intros k r Hr. destruct (lookup_empty_Some _ _ Hr).
    + intros id c Hc. destruct (lookup_empty_Some _ _ Hc).
    + intros id c Hc. destruct (lookup_empty_Some _ _ Hc).
  - apply (uploads_ok key server_offset) in E as (j & -> & Hg' & Hs'); [|by intros acc h0 [r c] k0 h0' Hg0 E0; eapply upload_call_ok|done].
    split; [done|]. by rewrite Hs', Hs.
  - apply (uploads_ok key server_offset) in E as (j & -> & Hg' & Hs'); [|by intros acc h0 item k0 h0' Hg0 E0; eapply upload_item_ok|done].
    split; [done|]. by rewrite Hs', Hs.
Qed.

(** C18 every call is announced once: whatever was uploaded, in whatever order and however
    often, what has been scheduled is exactly what the tables say: for each call with a
    final result its notices, and one alert for each of its failed external calls. *)
Theorem notifications_exact h l : uploads h l → l ≡ₚ due key h.
Proof using Type. intros [Hg Hs]%uploads_good. by rewrite <- Hs, (spent_due key server_offset). Qed.

(** C19 a call's events are its receipts, one per identity, in the order of their times
    and identities, whether they arrived before, with or after the call. *)
Theorem events_are_receipts h l id c : uploads h l → call_records h !! id = Some c →
  sorted_events server_offset (documents_of (call_device c) id (receipts h)) = Ok (events c) ∧
  NoDup (receipts_of (call_device c) id (receipts h)).*1 ∧
  ∀ k r, receipts h !! k = Some r → event_identity server_offset (receipt_document r) = Ok k.2.
Proof using Type.
  intros [[Hok _] _]%uploads_good Hc. split; [by apply (events_sorted _ _ Hok)|]. split; [apply NoDup_receipts|].
  apply (receipts_keyed _ _ Hok).
Qed.

(** A tablet that has lost the answer may send a report again: the second upload
    changes nothing and schedules nothing. *)
Theorem retry_is_silent p device calls again h l k h' : uploads h l →
  (∀ r c, (r, c) ∈ calls → input_result c ≠ "END_DETAILS_UNAVAILABLE") →
  upload_calls key server_offset p device calls h = Ok (k, h') → again.*2 = calls.*2 →
  upload_calls key server_offset p device again h' = Ok ([], h').
Proof using Type.
  intros [Hg _]%uploads_good Hend E Hsame. apply upload_calls_absorb in E as (Hg' & _ & Hall); [|done..].
  apply upload_calls_again; [done|]. intros r c Hin. assert (Hc : c ∈ calls.*2).
  { rewrite <- Hsame. apply list_elem_of_fmap. by exists (r, c). }
  apply list_elem_of_fmap in Hc as ([r' c'] & -> & Hc). by eapply Hall.
Qed.
End Theorems.

(** ** The theorems at a concrete history *)

#[local] Existing Instance plain_suite.

Definition example_time (h us : Z) : timestamp :=
  {| local := {| date := (2025, 9, 19)%Z; hour := h; minute := 0; second := 0; microsecond := us |}; utc_offset := Some 0%Z |}.
Definition operator_missed : CallSubEvent :=
  ExternalCallSubEvent "external_call" (example_time 10 0) "NOT_CONNECTED" (uuid "21") "NO_ANSWER".
Definition example_report : CallEventInput :=
  {| session_audit := None; call_id := "call-0001"; started_at := example_time 9 0; caller := Some "+982155512345";
     input_policy := "ALLOWLISTED"; input_revision := Some 1%Z; input_menu_path := ["1"]; input_result := "SESSION_COMPLETE";
     input_duration := 30; input_ended := Some (example_time 10 0); input_cleanup := None; input_events := [operator_missed] |}.
Definition no_policies : policy_tables :=
  {| audit_policies := ∅; audit_acknowledgements := ∅; safety_policies := ∅; safety_acknowledgements := ∅ |}.
Definition utc (_ : datetime) : Z := 0.

Definition example_upload : result (list notification * call_store) :=
  upload_calls example_key utc no_policies "tablet" [(example_request, example_report)] empty_history.
Definition uploaded : list notification * call_store :=
  match example_upload with Ok p => p | Raise _ => ([], empty_history) end.
Lemma example_uploaded :
  upload_calls example_key utc no_policies "tablet" [(example_request, example_report)] empty_history = Ok (uploaded.1, uploaded.2).
Proof.
  fold example_upload. unfold uploaded. assert (is_ok example_upload = true) as Hok by (vm_compute; reflexivity).
  destruct example_upload as [[l h]|]; [reflexivity|discriminate].
Defined.
Lemma example_trace : uploads example_key utc uploaded.2 uploaded.1.
Proof. exact (uploads_calls _ _ _ _ _ _ _ _ _ (uploads_start _ _) example_uploaded). Defined.

Theorem notifications_exact_witness :
  uploaded.1 ≡ₚ due example_key uploaded.2 ∧ map event_key_of uploaded.1 = ["ivr_session_completed"; "external_call_failed"].
Proof. split; [exact (notifications_exact example_key utc uploaded.2 uploaded.1 example_trace)|vm_compute; reflexivity]. Defined.

Lemma example_row : ∃ c, call_records uploaded.2 !! "call-0001" = Some c.
Proof. assert (is_Some (call_records uploaded.2 !! "call-0001")) as [c Hc] by (vm_compute; eexists; reflexivity). by exists c. Defined.
Theorem events_are_receipts_witness : ∃ c, call_records uploaded.2 !! "call-0001" = Some c ∧
  sorted_events utc (documents_of (call_device c) "call-0001" (receipts uploaded.2)) = Ok (events c).
Proof.
  destruct example_row as [c Hc]. exists c. split; [exact Hc|].
  exact (proj1 (events_are_receipts example_key utc uploaded.2 uploaded.1 "call-0001" c example_trace Hc)).
Defined.

Theorem retry_is_silent_witness :
  upload_calls example_key utc no_policies "tablet" [(example_request, example_report)] uploaded.2 = Ok ([], uploaded.2).
Proof.
  refine (retry_is_silent example_key utc no_policies "tablet" [(example_request, example_report)] [(example_request, example_report)]
    empty_history [] uploaded.1 uploaded.2 (uploads_start _ _) _ example_uploaded eq_refl).
  intros r c [[= _ ->]|Hin]%elem_of_cons; [done|by apply elem_of_nil in Hin].
Defined.

(** Times are compared as texts: an event on the full second comes after one half a
    second later. *)
Theorem events_sorted_as_text (first := dump_event operator_missed)
  (second := dump_event (ExternalCallSubEvent "external_call" (example_time 10 500000) "SYSTEM_FAILURE" (uuid "21") "NO_ANSWER")) :
  sorted_events utc [first; second] = Ok [second; first].
Proof. vm_compute. reflexivity. Qed.
