(* ===== verification/Recordings.v ===== *)
(** * Recording storage ([recording_service.py])

    The encryption of recordings under a rotating key, and the directories of encrypted
    chunks from which an upload is put together.  A file or directory under
    [recording_root] is taken to be a regular one that only the server can read, which
    [_require_safe_file] and [_require_safe_directory] check; what they find missing is an
    error here as there. *)
From Stdlib Require Import Ascii.
From stdpp Require Import base gmap sets strings numbers pretty list.
From S2P Require Import Prelude FlowTree Schemas Json Crypto Documents Store Diff Devices Calls.

(** [RecordingError] as the handlers report it. *)
Definition RecordingError (message : string) (code : Z) : exn := HTTPException code [message].

(** ** [RecordingCipher] *)

(** HKDF-SHA256 of a master key and its info, 32 bytes ([cryptography.hazmat]). *)
Class KeyDerivation := { hkdf : bytes → bytes → bytes }.

Definition UPLOAD_MAGIC : bytes := to_bytes "IVRUP1" ++ [octet 0].
Definition MEDIA_MAGIC : bytes := to_bytes "IVREC1" ++ [octet 0].

Record recording_cipher := { master_keys : gmap Z bytes; cipher_version : Z }.

(** [int(s)] of an ASCII text of at most 4300 digits; an underscore may stand between two of
    them. *)
Fixpoint int_digits (l : list ascii) (acc : Z) (after_digit : bool) : option Z :=
  match l with
  | [] => if after_digit then Some acc else None
  | c :: k => if char_in 48 57 c then int_digits k (10 * acc + Z.of_nat (digit_val c)) true
              else if char_in 95 95 c && after_digit then int_digits k acc false
              else None
  end.
Definition python_int (s : string) : option Z :=
  match py_strip ascii_space (String.list_ascii_of_string s) with
  | [] => None
  | c :: l => if char_in 45 45 c then Z.opp <$> int_digits l 0 false
              else if char_in 43 43 c then int_digits l 0 false
              else int_digits (c :: l) 0 false
  end.

Definition add_previous_key (version : Z) (keys : gmap Z bytes) (item : string * json) : result (gmap Z bytes) :=
  let invalid := RuntimeError "a previous recording encryption key is invalid" in
  previous_version ← of_option invalid (python_int item.1);
  previous_key ← match item.2 with
                 | JStr s => match b64decode (to_bytes s) with Ok k => Ok k | Raise _ => Raise invalid end
                 | _ => Raise invalid
                 end;
  if (previous_version <? 1)%Z || bool_decide (previous_version = version) || negb (length previous_key =? 32)
  then Raise (RuntimeError "a previous recording encryption key version is invalid")
  else
    match keys !! previous_version with
    | Some _ => Raise (RuntimeError "a previous recording encryption key version is duplicated")
    | None => Ok (<[previous_version := previous_key]> keys)
    end.

(** The constructor. *)
Definition new_recording_cipher (key_b64 : bytes) (version : Z) (previous_keys_json : bytes) : result recording_cipher :=
  if (version <? 1)%Z then Raise (RuntimeError "recording encryption key version is invalid")
  else
    previous ← match json_loads previous_keys_json with
               | Ok j => Ok j
               | Raise _ => Raise (RuntimeError "previous recording encryption keys are not valid JSON")
               end;
    items ← match previous with
            | JObj o => Ok o
            | _ => Raise (RuntimeError "previous recording encryption keys must be a JSON object")
            end;
    keys ← foldM (add_previous_key version) ∅ items;
    key ← match b64decode key_b64 with
          | Ok k => Ok k
          | Raise _ => Raise (RuntimeError "recording encryption key is not valid base64")
          end;
    if negb (length key =? 32) then Raise (RuntimeError "recording encryption key must decode to 32 bytes")
    else Ok {| master_keys := <[version := key]> keys; cipher_version := version |}.

(** [n.to_bytes(4, "big")] and [int.from_bytes(l, "big")] *)
Definition to_bytes_4 (n : Z) : result bytes :=
  if (n <? 0)%Z || (2 ^ 32 <=? n)%Z then Raise (OtherException "OverflowError") else Ok (Sha256.big_endian 4 (Z.to_N n)).
Definition from_bytes (l : bytes) : Z := foldl (λ n c, 256 * n + Z.of_N (N_of_ascii c))%Z 0%Z l.

(** [l.startswith(p)] *)
Definition starts_with (p l : bytes) : bool := bool_decide (take (length p) l = p).

Section Cipher.
Context `{Cryptography} `{KeyDerivation}.

Definition recording_key (c : recording_cipher) (recording_id : string) (version : Z) : result bytes :=
  master_key ← of_option (RecordingError "Recording key version is unavailable." 503) (master_keys c !! version);
  Ok (hkdf master_key (to_bytes "ivrdroid-recording:" ++ to_bytes recording_id)).

(** The magic number, the key's version, the nonce and what AES-GCM makes of the text. *)
Definition seal_with (magic : bytes) (aad : Z → bytes) (nonce : bytes) (c : recording_cipher) (id : string) (plaintext : bytes)
    : result bytes :=
  key ← recording_key c id (cipher_version c);
  version ← to_bytes_4 (cipher_version c);
  Ok (magic ++ version ++ nonce ++ aes_gcm_encrypt key nonce plaintext (aad (cipher_version c))).
Definition open_with (magic : bytes) (aad : Z → bytes) (malformed rejected : string) (c : recording_cipher) (id : string)
    (payload : bytes) : result bytes :=
  if (length payload <? length magic + 4 + 12 + 16) || negb (starts_with magic payload)
  then Raise (RecordingError malformed 503)
  else
    let rest := drop (length magic) payload in
    let version := from_bytes (take 4 rest) in
    let nonce := take 12 (drop 4 rest) in
    key ← recording_key c id version;
    of_option (RecordingError rejected 503) (aes_gcm_decrypt key nonce (drop 16 rest) (aad version)).

Definition upload_aad (id : string) (offset version : Z) : bytes :=
  to_bytes ("upload:" +:+ pretty version +:+ ":" +:+ id +:+ ":" +:+ pretty offset).
Definition encrypt_chunk (nonce : bytes) (c : recording_cipher) (id : string) (offset : Z) (plaintext : bytes) : result bytes :=
  seal_with UPLOAD_MAGIC (upload_aad id offset) nonce c id plaintext.
Definition decrypt_chunk (c : recording_cipher) (id : string) (offset : Z) (payload : bytes) : result bytes :=
  open_with UPLOAD_MAGIC (upload_aad id offset) "Encrypted upload chunk is malformed."
    "Encrypted upload chunk failed authentication." c id payload.

Definition media_aad (id : string) (version : Z) : bytes := to_bytes ("media:" +:+ pretty version +:+ ":" +:+ id).
Definition encrypt_media (nonce : bytes) (c : recording_cipher) (id : string) (plaintext : bytes) : result bytes :=
  seal_with MEDIA_MAGIC (media_aad id) nonce c id plaintext.
Definition decrypt_media (c : recording_cipher) (id : string) (payload : bytes) : result bytes :=
  open_with MEDIA_MAGIC (media_aad id) "Encrypted recording is malformed." "Encrypted recording failed authentication." c id payload.
Definition media_version (payload : bytes) : result Z :=
  if (length payload <? length MEDIA_MAGIC + 4) || negb (starts_with MEDIA_MAGIC payload)
  then Raise (RecordingError "Encrypted recording is malformed." 503)
  else Ok (from_bytes (take 4 (drop (length MEDIA_MAGIC) payload))).
End Cipher.

(** ** Chunks *)

(** [RecordingUpload] and the same columns of [ConversationRecordingSegment]. *)
Record upload_row := {
  expected_size_bytes : Z; upload_sha256 : string; upload_offset : Z; upload_storage : string; upload_updated : datetime }.
Definition advance (n : Z) (t : datetime) (u : upload_row) : upload_row :=
  {| expected_size_bytes := expected_size_bytes u; upload_sha256 := upload_sha256 u; upload_offset := n;
     upload_storage := upload_storage u; upload_updated := t |}.

(** [f"{n:012x}"] *)
Fixpoint hex_digits (fuel : nat) (n : N) : list ascii :=
  match fuel with
  | 0 => []
  | S fuel => if (n =? 0)%N then [] else hex_digits fuel (n / 16)%N ++ [hex_digit (N.to_nat (n mod 16))]
  end.
Definition hex_12 (n : Z) : list ascii :=
  let l := hex_digits (S (N.size_nat (Z.to_N n))) (Z.to_N n) in
  replicate (12 - length l) "0"%char ++ l.
Definition chunk_name (offset : Z) : string := of_bytes (hex_12 offset) +:+ ".chunk".

Abbreviation chunk_directory := (gmap string bytes).

Section Chunks.
Context `{Cryptography} `{KeyDerivation} (limit : Z) (c : recording_cipher).

(** [store_chunk] with the name [identity] its chunks are encrypted under and what
    [_upload_directory] gives: the row and the directory.  The file is written at once, the row
    when the request commits. *)
Definition store_chunk (t : datetime) (nonce : bytes) (identity : string) (u : upload_row) (found : result chunk_directory)
    (offset : Z) (plaintext : bytes) : result (upload_row * chunk_directory) :=
  let size := Z.of_nat (length plaintext) in
  if bool_decide (plaintext = []) then Raise (RecordingError "Recording chunk is empty." 422)
  else if (limit <? size)%Z then Raise (RecordingError "Recording chunk exceeds 1 MiB." 413)
  else if (expected_size_bytes u <? offset + size)%Z then Raise (RecordingError "Recording chunk exceeds the declared size." 413)
  else
    directory ← found;
    let name := chunk_name offset in
    let mismatch := RecordingError "Upload replay does not match stored content." 409 in
    if (offset <? upload_offset u)%Z then
      payload ← of_option mismatch (directory !! name);
      existing ← decrypt_chunk c identity offset payload;
      if negb (bool_decide (existing = plaintext)) || (upload_offset u <? offset + size)%Z then Raise mismatch
      else Ok (u, directory)
    else if bool_decide (offset ≠ upload_offset u)
    then Raise (RecordingError "Upload offset does not match the server offset." 409)
    else
      encrypted ← encrypt_chunk nonce c identity offset plaintext;
      directory ← match directory !! name with
                  | Some payload =>
                      existing ← decrypt_chunk c identity offset payload;
                      if bool_decide (existing = plaintext) then Ok directory
                      else Raise (RecordingError "A different chunk already exists at this offset." 409)
                  | None => Ok (<[name := encrypted]> directory)
                  end;
      Ok (advance (offset + size) t u, directory).

(** The loop of [read_uploaded_wav]; every turn reads a byte at least. *)
Fixpoint read_chunks (inconsistent : exn) (fuel : nat) (identity : string) (u : upload_row) (directory : chunk_directory)
    (offset : Z) (chunks : bytes) : result bytes :=
  if (offset <? expected_size_bytes u)%Z then
    match fuel with
    | 0 => Raise OutOfFuel
    | S fuel =>
        payload ← of_option (RecordingError "Recording storage is unavailable." 503) (directory !! chunk_name offset);
        plaintext ← decrypt_chunk c identity offset payload;
        if bool_decide (plaintext = []) || (expected_size_bytes u <? offset + Z.of_nat (length plaintext))%Z
        then Raise inconsistent
        else read_chunks inconsistent fuel identity u directory (offset + Z.of_nat (length plaintext)) (chunks ++ plaintext)
    end
  else Ok chunks.

Definition read_uploaded_wav (identity : string) (u : upload_row) (found : result chunk_directory) : result bytes :=
  if bool_decide (upload_offset u ≠ expected_size_bytes u) then Raise (RecordingError "Recording upload is incomplete." 409)
  else
    directory ← found;
    source ← read_chunks (RecordingError "Encrypted upload chunks are inconsistent." 422) (Z.to_nat (expected_size_bytes u))
               identity u directory 0 [];
    if bool_decide (Z.of_nat (length source) ≠ expected_size_bytes u)
    then Raise (RecordingError "Recording size does not match its receipt." 422)
    else if bool_decide (sha256_hexdigest source ≠ upload_sha256 u)
    then Raise (RecordingError "Recording hash does not match its receipt." 422)
    else Ok source.

(** [write_uploaded_wav_to_path] of a conversation's segment: what is written. *)
Definition write_uploaded_wav (recording_id : string) (segment_index : Z) (u : upload_row) (found : result chunk_directory)
    : result bytes :=
  if bool_decide (upload_offset u ≠ expected_size_bytes u) then Raise (RecordingError "Conversation segment upload is incomplete." 409)
  else
    directory ← found;
    source ← read_chunks (RecordingError "Encrypted conversation chunks are inconsistent." 422) (Z.to_nat (expected_size_bytes u))
               (recording_id +:+ ":" +:+ pretty segment_index) u directory 0 [];
    if bool_decide (Z.of_nat (length source) ≠ expected_size_bytes u)
    then Raise (RecordingError "Conversation segment size does not match its receipt." 422)
    else if bool_decide (sha256_hexdigest source ≠ upload_sha256 u)
    then Raise (RecordingError "Conversation segment hash does not match its receipt." 422)
    else Ok source.
End Chunks.
