(* ===== verification/RecordingsFacts.v ===== *)
(** * Facts about the recording cipher and the chunks' names *)
From Stdlib Require Import Ascii.
From stdpp Require Import base gmap sets strings numbers pretty list.
From S2P Require Import Prelude FlowTree Schemas Json Crypto Documents Store Diff Devices Calls Recordings.

(** ** Widths *)

Lemma length_big_endian k n : length (Sha256.big_endian k n) = k.
Proof. revert n. induction k as [|k IH]; intros n; simpl; [done|]. rewrite length_app, IH. simpl. lia. Qed.

Lemma from_bytes_snoc l c : from_bytes (l ++ [c]) = (256 * from_bytes l + Z.of_N (N_of_ascii c))%Z.
Proof. unfold from_bytes. by rewrite foldl_snoc. Qed.

Lemma N_of_octet n : N_of_ascii (octet n) = (n mod 256)%N.
Proof. unfold octet. apply N_ascii_embedding. apply N.mod_lt. done. Qed.

Lemma from_big_endian k n : (n < 256 ^ N.of_nat k)%N → from_bytes (Sha256.big_endian k n) = Z.of_N n.
Proof.
  revert n. induction k as [|k IH]; intros n Hn; simpl.
  - assert (n = 0)%N as -> by (simpl in Hn; lia). done.
  - rewrite from_bytes_snoc, N_of_octet, IH.
    + pose proof (N.div_mod n 256 ltac:(done)). lia.
    + apply N.Div0.div_lt_upper_bound.
      replace (N.of_nat (S k)) with (N.succ (N.of_nat k)) in Hn by lia.
      by rewrite N.pow_succ_r' in Hn.
Qed.

Lemma to_bytes_4_ok n l : to_bytes_4 n = Ok l → length l = 4 ∧ from_bytes l = n.
Proof.
  unfold to_bytes_4. pose proof (length_big_endian 4 (Z.to_N n)) as Hlen.
  pose proof (from_big_endian 4 (Z.to_N n)) as Hval. change (256 ^ N.of_nat 4)%N with 4294967296%N in Hval.
  revert Hlen Hval. generalize (Sha256.big_endian 4 (Z.to_N n)). intros k Hlen Hval.
  destruct (Z.ltb_spec n 0), (Z.leb_spec (2 ^ 32) n); cbn [orb]; try done.
  intros [= <-]. split; [done|]. rewrite Hval; lia.
Qed.

Lemma to_bytes_4_in_range n : (0 ≤ n < 2 ^ 32)%Z → ∃ l, to_bytes_4 n = Ok l.
Proof.
  intros Hn. unfold to_bytes_4. destruct (Z.ltb_spec n 0), (Z.leb_spec (2 ^ 32) n); simpl; try lia. by eexists.
Qed.

(** ** Names of chunks *)

Definition hex_value (c : ascii) : N :=
  let n := N_of_ascii c in if (n <? 58)%N then (n - 48)%N else (n - 87)%N.
Definition hex_number (l : list ascii) : N := foldl (λ n c, 16 * n + hex_value c)%N 0%N l.

Lemma hex_value_digit n : n < 16 → hex_value (hex_digit n) = N.of_nat n.
Proof. intros Hn. do 16 (destruct n as [|n]; [done|]). lia. Qed.

Lemma hex_number_snoc l c : hex_number (l ++ [c]) = (16 * hex_number l + hex_value c)%N.
Proof. unfold hex_number. by rewrite foldl_snoc. Qed.

Lemma hex_number_digits fuel n : (n < 2 ^ N.of_nat fuel)%N → hex_number (hex_digits fuel n) = n.
Proof.
  revert n. induction fuel as [|fuel IH]; intros n Hn; [by assert (n = 0)%N as -> by (simpl in Hn; lia)|].
  cbn [hex_digits]. destruct (N.eqb_spec n 0) as [->|Hn0]; [done|].
  pose proof (N.div_mod n 16 ltac:(done)) as Hd. pose proof (N.mod_lt n 16 ltac:(done)) as Hm.
  revert Hd Hm IH. generalize (n `div` 16)%N (n `mod` 16)%N. intros q r Hd Hm IH.
  rewrite hex_number_snoc, hex_value_digit by lia. rewrite IH; [lia|].
  replace (N.of_nat (S fuel)) with (N.succ (N.of_nat fuel)) in Hn by lia.
  rewrite N.pow_succ_r' in Hn. lia.
Qed.

Lemma hex_number_zeros k l : hex_number (replicate k "0"%char ++ l) = hex_number l.
Proof. induction k as [|k IH]; [done|]. exact IH. Qed.

Lemma hex_number_hex_12 n : (0 ≤ n)%Z → hex_number (hex_12 n) = Z.to_N n.
Proof.
  intros Hn. unfold hex_12. rewrite hex_number_zeros. apply hex_number_digits.
  destruct (Z.to_N n) as [|p] eqn:E; [done|].
  pose proof (N.size_gt (N.pos p)). rewrite (Nat2N.inj_succ).
  rewrite N.pow_succ_r'. replace (N.of_nat (N.size_nat (N.pos p))) with (N.size (N.pos p)); [lia|].
  clear. simpl. induction p; simpl; lia.
Qed.

Lemma to_bytes_app s t : to_bytes (s +:+ t) = to_bytes s ++ to_bytes t.
Proof. unfold to_bytes. induction s as [|c s IH]; simpl; [done|]. by rewrite IH. Qed.

Lemma chunk_name_inj m n : (0 ≤ m)%Z → (0 ≤ n)%Z → chunk_name m = chunk_name n → m = n.
Proof.
  intros Hm Hn H. apply (f_equal to_bytes) in H. unfold chunk_name in H. rewrite !to_bytes_app in H.
  apply (inj (.++ to_bytes ".chunk")) in H. unfold to_bytes, of_bytes in H.
  rewrite !String.list_ascii_of_string_of_list_ascii in H. apply (f_equal hex_number) in H.
  rewrite !hex_number_hex_12 in H by done. lia.
Qed.

(** ** The sealed formats *)

Section Sealed.
Context `{CryptographyLaws} `{KeyDerivation}.

Lemma open_payload magic aad malformed rejected c id version nonce sealed :
  length version = 4 → length nonce = 12 → 16 ≤ length sealed →
  open_with magic aad malformed rejected c id (magic ++ version ++ nonce ++ sealed) =
    key ← recording_key c id (from_bytes version);
    of_option (RecordingError rejected 503) (aes_gcm_decrypt key nonce sealed (aad (from_bytes version))).
Proof using Type.
  intros Hv Hn Hs. unfold open_with, starts_with. rewrite !length_app, Hv, Hn.
  rewrite (proj2 (Nat.ltb_ge _ _)) by lia. rewrite take_app_length, bool_decide_true, drop_app_length by done.
  cbn [negb orb]. rewrite (take_app_length' version), (drop_app_length' version) by done.
  rewrite take_app_length' by done. rewrite app_assoc, drop_app_length'; [done|]. rewrite length_app. lia.
Qed.

Lemma seal_with_ok magic aad nonce c id p payload :
  seal_with magic aad nonce c id p = Ok payload →
  ∃ key version, recording_key c id (cipher_version c) = Ok key ∧ length version = 4 ∧ from_bytes version = cipher_version c ∧
    payload = magic ++ version ++ nonce ++ aes_gcm_encrypt key nonce p (aad (cipher_version c)).
Proof using Type.
  unfold seal_with. intros Hs. destruct (recording_key _ _ _) as [key|] eqn:Hk; [|done]. cbn [mbind result_bind] in Hs.
  destruct (to_bytes_4 _) as [version|] eqn:Hv; [|done]. cbn [mbind result_bind] in Hs.
  apply to_bytes_4_ok in Hv as [? ?]. exists key, version. by injection Hs as <-.
Qed.

Lemma open_seal magic aad malformed rejected nonce c c' id p payload :
  length nonce = 12 → master_keys c' !! cipher_version c = master_keys c !! cipher_version c →
  seal_with magic aad nonce c id p = Ok payload → open_with magic aad malformed rejected c' id payload = Ok p.
Proof using Type*.
  intros Hn Hkeys (key & version & Hk & Hlen & Hv & ->)%seal_with_ok.
  rewrite open_payload; [|done|done|rewrite aes_gcm_length; lia].
  rewrite Hv. unfold recording_key in *. rewrite Hkeys, Hk. cbn [mbind result_bind]. by rewrite aes_gcm_open.
Qed.

Lemma open_without_key magic aad malformed rejected nonce c c' id p payload :
  length nonce = 12 → master_keys c' !! cipher_version c = None →
  seal_with magic aad nonce c id p = Ok payload →
  open_with magic aad malformed rejected c' id payload = Raise (RecordingError "Recording key version is unavailable." 503).
Proof using Type*.
  intros Hn Hkeys (key & version & Hk & Hlen & Hv & ->)%seal_with_ok.
  rewrite open_payload; [|done|done|rewrite aes_gcm_length; lia].
  rewrite Hv. unfold recording_key. by rewrite Hkeys.
Qed.

Lemma seal_with_total magic aad nonce c id p :
  is_Some (master_keys c !! cipher_version c) → (0 ≤ cipher_version c < 2 ^ 32)%Z →
  ∃ payload, seal_with magic aad nonce c id p = Ok payload.
Proof using Type.
  intros [key Hk] [version Hv]%to_bytes_4_in_range. unfold seal_with, recording_key. rewrite Hk, Hv. by eexists.
Qed.

Lemma media_version_seal nonce c id p payload :
  encrypt_media nonce c id p = Ok payload → media_version payload = Ok (cipher_version c).
Proof using Type.
  intros (key & version & _ & Hlen & Hv & ->)%seal_with_ok. unfold media_version, starts_with.
  rewrite !length_app, Hlen. rewrite (proj2 (Nat.ltb_ge _ _)) by lia.
  rewrite take_app_length, bool_decide_true, drop_app_length by done. cbn [negb orb].
  by rewrite take_app_length', Hv.
Qed.
End Sealed.
