(* ===== verification/RecordingsCorrect.v ===== *)
(** * The recording cipher and resumable uploads

    What was encrypted under a key is read back as long as the server keeps that key, and the
    directory of encrypted chunks behaves as one growing buffer, whatever requests were lost. *)
From Stdlib Require Import Ascii.
From stdpp Require Import base gmap sets strings numbers pretty relations list.
From S2P Require Import Prelude FlowTree Schemas Json Crypto Documents Store Diff Devices Calls Recordings RecordingsFacts.

(** ** The configured keys *)

Lemma add_previous_key_ok version keys item keys' :
  add_previous_key version keys item = Ok keys' →
  ∃ k s key, item.2 = JStr s ∧ python_int item.1 = Some k ∧ b64decode (to_bytes s) = Ok key ∧
    (1 ≤ k)%Z ∧ k ≠ version ∧ length key = 32 ∧ keys !! k = None ∧ keys' = <[k := key]> keys.
Proof.
  unfold add_previous_key. destruct (python_int item.1) as [k|] eqn:Hk; [|done]. cbn [of_option mbind result_bind].
  destruct item.2 as [| | |s| |] eqn:Hs; try done. destruct (b64decode _) as [key|] eqn:Hkey; [|done].
  cbn [mbind result_bind]. destruct (Z.ltb_spec k 1); [done|]. case_bool_decide; [done|].
  destruct (Nat.eqb_spec (length key) 32); [|done]. cbn [negb orb].
  destruct (keys !! k) eqn:Hl; [done|]. intros [= <-]. by exists k, s, key.
Qed.

Lemma previous_keys_kept version keys items keys' :
  foldM (add_previous_key version) keys items = Ok keys' →
  (∀ k key, keys !! k = Some key → keys' !! k = Some key) ∧
  (∀ item k s key, item ∈ items → item.2 = JStr s → python_int item.1 = Some k → b64decode (to_bytes s) = Ok key →
     k ≠ version ∧ keys' !! k = Some key).
Proof.
  revert keys. induction items as [|item items IH]; intros keys; simpl.
  - intros [= <-]. split; [done|]. by intros ???? ?%elem_of_nil.
  - intros (keys1 & Hadd & [Hold Hnew]%IH)%result_bind_ok.
    apply add_previous_key_ok in Hadd as (k & s & key & Hs & Hk & Hkey & ? & ? & ? & Hl & ->). split.
    + intros k' key' Hk'. apply Hold. rewrite lookup_insert_ne; [done|congruence].
    + intros item' k' s' key' [->|Hin]%elem_of_cons Hs' Hp Hd; [|by eapply Hnew].
      rewrite Hs in Hs'. injection Hs' as <-. rewrite Hk in Hp. injection Hp as <-.
      rewrite Hkey in Hd. injection Hd as <-. split; [done|]. apply Hold, lookup_insert_eq.
Qed.

Lemma new_recording_cipher_ok key_b64 version previous c :
  new_recording_cipher key_b64 version previous = Ok c →
  (1 ≤ version)%Z ∧ cipher_version c = version ∧
  ∃ items keys key, json_loads previous = Ok (JObj items) ∧ foldM (add_previous_key version) ∅ items = Ok keys ∧
    b64decode key_b64 = Ok key ∧ length key = 32 ∧ master_keys c = <[version := key]> keys.
Proof.
  unfold new_recording_cipher. destruct (Z.ltb_spec version 1); [done|].
  destruct (json_loads previous) as [j|] eqn:Hj; [|done]. cbn [mbind result_bind].
  destruct j as [| | | | |items]; try done. cbn [mbind result_bind].
  destruct (foldM _ _ _) as [keys|] eqn:Hkeys; [|done]. cbn [mbind result_bind].
  destruct (b64decode key_b64) as [key|] eqn:Hkey; [|done]. cbn [mbind result_bind].
  destruct (Nat.eqb_spec (length key) 32); [|done]. cbn [negb].
  intros [= <-]. split; [lia|]. split; [done|]. by exists items, keys, key.
Qed.

(** After a rotation that lists the replaced key among the previous ones, the new
    configuration still reads every recording and upload chunk sealed before it. *)
Theorem rotation_keeps_recordings `{CryptographyLaws} `{KeyDerivation} old_key old_version old_previous old
    new_key new_version new_previous new items text :
  new_recording_cipher old_key old_version old_previous = Ok old →
  new_recording_cipher new_key new_version new_previous = Ok new →
  json_loads new_previous = Ok (JObj items) → (text, JStr (of_bytes old_key)) ∈ items → python_int text = Some old_version →
  ∀ nonce id p, length nonce = 12 →
    (∀ payload, encrypt_media nonce old id p = Ok payload →
       media_version payload = Ok old_version ∧ decrypt_media new id payload = Ok p) ∧
    (∀ offset payload, encrypt_chunk nonce old id offset p = Ok payload → decrypt_chunk new id offset payload = Ok p).
Proof.
  intros (_ & Hv & _ & old_keys & key & _ & _ & Hkey & Hlen & Hold)%new_recording_cipher_ok
    (_ & Hv' & items' & keys' & key' & Hj & Hfold & _ & _ & Hnew)%new_recording_cipher_ok Hj' Hin Htext nonce id p Hn.
  rewrite Hj in Hj'. injection Hj' as ->.
  apply previous_keys_kept in Hfold as [_ Hfold].
  destruct (Hfold _ old_version (of_bytes old_key) key Hin) as [Hne Hl]; [done..| |].
  { unfold to_bytes, of_bytes. by rewrite String.list_ascii_of_string_of_list_ascii. }
  assert (master_keys new !! cipher_version old = master_keys old !! cipher_version old) as Hkeys.
  { rewrite Hnew, Hold, Hv, lookup_insert_ne, lookup_insert_eq by congruence. done. }
  split; [intros payload Hp; split|intros offset payload Hp].
  - rewrite <- Hv. by eapply media_version_seal.
  - by eapply open_seal.
  - by eapply open_seal.
Qed.

(** ** Resumable uploads *)

Section Uploads.
Context `{CryptographyLaws} `{KeyDerivation} (limit : Z) (c : recording_cipher) (identity : string).
Context (sends : Z → bytes → Prop) (expected : Z) (digest storage : string).

(** What may have become of an upload: requests of a device that were answered, and requests
    whose chunk reached the disk and whose row did not ([uploaded_lost]).  The last argument is
    the text acknowledged so far. *)
Inductive uploaded : upload_row → chunk_directory → bytes → Prop :=
| uploaded_new t :
    uploaded {| expected_size_bytes := expected; upload_sha256 := digest; upload_offset := 0; upload_storage := storage;
                upload_updated := t |} ∅ []
| uploaded_answered u d content t nonce offset p u' d' :
    uploaded u d content → sends offset p → (0 ≤ offset)%Z → length nonce = 12 →
    store_chunk limit c t nonce identity u (Ok d) offset p = Ok (u', d') →
    uploaded u' d' (if decide (offset = upload_offset u) then content ++ p else content)
| uploaded_lost u d content t nonce offset p u' d' :
    uploaded u d content → sends offset p → (0 ≤ offset)%Z → length nonce = 12 →
    store_chunk limit c t nonce identity u (Ok d) offset p = Ok (u', d') →
    uploaded u d' content.

(** The stored chunks from [n] on. *)
Inductive tiled (d : chunk_directory) : Z → bytes → Prop :=
| tiled_nil n : tiled d n []
| tiled_cons n p l payload :
    p ≠ [] → d !! chunk_name n = Some payload → decrypt_chunk c identity n payload = Ok p →
    tiled d (n + Z.of_nat (length p)) l → tiled d n (p ++ l).

(** A chunk named [n] in the directory: it lies in the acknowledged text, or it was lost at its end. *)
Definition chunk_invariant (content : bytes) (n : Z) (payload : bytes) : Prop :=
  ∃ p, decrypt_chunk c identity n payload = Ok p ∧ p ≠ [] ∧ sends n p ∧ (n + Z.of_nat (length p) ≤ expected)%Z ∧
    (n = Z.of_nat (length content) ∨
     n + Z.of_nat (length p) ≤ Z.of_nat (length content) ∧ p = take (length p) (drop (Z.to_nat n) content))%Z.

Record upload_invariant (u : upload_row) (d : chunk_directory) (content : bytes) : Prop := {
  inv_row : u = {| expected_size_bytes := expected; upload_sha256 := digest; upload_offset := Z.of_nat (length content);
                   upload_storage := storage; upload_updated := upload_updated u |};
  inv_bound : (Z.of_nat (length content) ≤ expected)%Z;
  inv_tiled : tiled d 0 content;
  inv_chunks n payload : (0 ≤ n)%Z → d !! chunk_name n = Some payload → chunk_invariant content n payload;
}.

(** The two ways a chunk is accepted. *)
Lemma store_chunk_ok t nonce u d offset p u' d' :
  length nonce = 12 → store_chunk limit c t nonce identity u (Ok d) offset p = Ok (u', d') →
  p ≠ [] ∧ (Z.of_nat (length p) ≤ limit)%Z ∧ (offset + Z.of_nat (length p) ≤ expected_size_bytes u)%Z ∧
  ((offset < upload_offset u)%Z ∧ u' = u ∧ d' = d ∧ (offset + Z.of_nat (length p) ≤ upload_offset u)%Z ∧
     (∃ payload, d !! chunk_name offset = Some payload ∧ decrypt_chunk c identity offset payload = Ok p) ∨
   offset = upload_offset u ∧ u' = advance (offset + Z.of_nat (length p)) t u ∧
     ∃ payload, decrypt_chunk c identity offset payload = Ok p ∧ d' !! chunk_name offset = Some payload ∧
       (d' = d ∨ d !! chunk_name offset = None ∧ d' = <[chunk_name offset := payload]> d)).
Proof using Type*.
  intros Hn. unfold store_chunk. case_bool_decide as Hp; [done|].
  destruct (Z.ltb_spec limit (Z.of_nat (length p))) as [|Hlim]; [done|].
  destruct (Z.ltb_spec (expected_size_bytes u) (offset + Z.of_nat (length p))) as [|Hexp]; [done|].
  intros Hs. cbn [mbind result_bind] in Hs. split_and!; [done..|].
  destruct (Z.ltb_spec offset (upload_offset u)) as [Hlt|Hge]; [left|right].
  - destruct (d !! chunk_name offset) as [payload|] eqn:Hd; [|done]. cbn [of_option mbind result_bind] in Hs.
    destruct (decrypt_chunk c identity offset payload) as [q|] eqn:Hq; [|done]. cbn [mbind result_bind] in Hs.
    case_bool_decide as Heq; [subst q|done]. cbn [negb orb] in Hs.
    destruct (Z.ltb_spec (upload_offset u) (offset + Z.of_nat (length p))); [done|].
    injection Hs as <- <-. split_and!; [done..|]. by exists payload.
  - case_bool_decide as Hoff; [done|].
    destruct (encrypt_chunk nonce c identity offset p) as [sealed|] eqn:He; [|done]. cbn [mbind result_bind] in Hs.
    destruct (d !! chunk_name offset) as [payload|] eqn:Hd.
    + destruct (decrypt_chunk c identity offset payload) as [q|] eqn:Hq; [|done]. cbn [mbind result_bind] in Hs.
      case_bool_decide as Heq; [subst q|done]. cbn [mbind result_bind] in Hs. injection Hs as <- <-.
      split_and!; [done..|]. exists payload. split_and!; [done..|by left].
    + cbn [mbind result_bind] in Hs. injection Hs as <- <-. split_and!; [done..|]. exists sealed.
      split_and!; [by eapply open_seal|by apply lookup_insert_eq|by right].
Qed.

Lemma tiled_insert d n l m payload :
  (0 ≤ n)%Z → (n + Z.of_nat (length l) ≤ m)%Z → tiled d n l → tiled (<[chunk_name m := payload]> d) n l.
Proof using Type.
  intros Hn Hm Ht. induction Ht as [n|n p l q Hp Hd Hq Ht IH]; [constructor|].
  rewrite length_app in Hm. assert (0 < length p) by (destruct p; [done|simpl; lia]).
  apply (tiled_cons _ _ _ _ q); [done| |done|apply IH; lia].
  rewrite lookup_insert_ne; [done|]. intros ?%chunk_name_inj; lia.
Qed.

Lemma tiled_snoc d n l p payload :
  p ≠ [] → d !! chunk_name (n + Z.of_nat (length l)) = Some payload →
  decrypt_chunk c identity (n + Z.of_nat (length l)) payload = Ok p → tiled d n l → tiled d n (l ++ p).
Proof using Type.
  intros Hp Hd Hq Ht. induction Ht as [n|n q l q' Hne Hl Hdec Ht IH].
  - simpl in *. rewrite Z.add_0_r in *. rewrite <- (app_nil_r p). by apply (tiled_cons _ _ _ _ payload); [..|constructor].
  - rewrite <- app_assoc. apply (tiled_cons _ _ _ _ q'); [done..|]. apply IH.
    + by rewrite length_app, Nat2Z.inj_add, Z.add_assoc in Hd.
    + by rewrite length_app, Nat2Z.inj_add, Z.add_assoc in Hq.
Qed.

(** What the directory holds after a chunk was taken at the end. *)
Lemma upload_invariant_lost u d content p payload d' :
  upload_invariant u d content → p ≠ [] → sends (upload_offset u) p →
  (upload_offset u + Z.of_nat (length p) ≤ expected)%Z → decrypt_chunk c identity (upload_offset u) payload = Ok p →
  (d' = d ∨ d !! chunk_name (upload_offset u) = None ∧ d' = <[chunk_name (upload_offset u) := payload]> d) →
  upload_invariant u d' content.
Proof using Type.
  intros [Hrow Hb Ht Hc] Hp Hs Hle Hdec [->|[_ ->]]; [done|].
  assert (upload_offset u = Z.of_nat (length content)) as Hoff by (rewrite Hrow; done). split; [done..| |].
  - apply tiled_insert; [done|lia|done].
  - intros n payload' Hn [[Hm <-]|[_ Hd]]%lookup_insert_Some; [|by apply Hc].
    apply chunk_name_inj in Hm; [|lia..]. subst n. exists p. split_and!; try done. by left.
Qed.

Lemma upload_invariant_taken u d content p payload t :
  upload_invariant u d content → p ≠ [] → (upload_offset u + Z.of_nat (length p) ≤ expected)%Z →
  decrypt_chunk c identity (upload_offset u) payload = Ok p → d !! chunk_name (upload_offset u) = Some payload →
  upload_invariant (advance (upload_offset u + Z.of_nat (length p)) t u) d (content ++ p).
Proof using Type.
  intros [Hrow Hb Ht Hc] Hp Hle Hdec Hd.
  assert (upload_offset u = Z.of_nat (length content)) as Hoff by (rewrite Hrow; done). rewrite Hoff in *.
  split.
  - unfold advance. rewrite Hrow. cbn. rewrite length_app. f_equal; lia.
  - rewrite length_app. lia.
  - by eapply tiled_snoc.
  - intros n payload' Hn Hd'. destruct (Hc n payload' Hn Hd') as (q & Hq & Hne & Hsq & Hle' & Hcase).
    exists q. split_and!; [done..|]. right. rewrite length_app. destruct Hcase as [->|[Hin Hslice]].
    + assert (q = p) as -> by congruence. split; [lia|].
      rewrite Nat2Z.id, drop_app_length, firstn_all. done.
    + split; [lia|]. rewrite drop_app_le by lia. rewrite take_app_le; [done|]. rewrite length_drop. lia.
Qed.

(** An accepted request, with and without its row. *)
Lemma store_chunk_keeps u d content t nonce offset p u' d' :
  upload_invariant u d content → sends offset p → length nonce = 12 →
  store_chunk limit c t nonce identity u (Ok d) offset p = Ok (u', d') →
  upload_invariant u d' content ∧ upload_invariant u' d' (if decide (offset = upload_offset u) then content ++ p else content).
Proof using Type*.
  intros Hinv Hs Hn Hst. pose proof (inv_row _ _ _ Hinv) as Hrow.
  assert (expected_size_bytes u = expected) as He by (rewrite Hrow; done).
  apply store_chunk_ok in Hst as (Hp & _ & Hle & [(Hlt & -> & -> & _)|(-> & -> & payload & Hdec & Hd & Hd')]); [| |done].
  - rewrite decide_False by lia. done.
  - rewrite decide_True by done. rewrite He in Hle. pose proof (upload_invariant_lost _ _ _ _ _ _ Hinv Hp Hs Hle Hdec Hd').
    split; [done|]. by eapply upload_invariant_taken.
Qed.

Lemma upload_invariant_new t : (0 ≤ expected)%Z →
  upload_invariant {| expected_size_bytes := expected; upload_sha256 := digest; upload_offset := 0; upload_storage := storage;
                      upload_updated := t |} ∅ [].
Proof using Type. intros Hex. split; [done|done|constructor|]. intros n payload _ Hd. by rewrite lookup_empty in Hd. Qed.

Lemma uploaded_invariant u d content : (0 ≤ expected)%Z → uploaded u d content → upload_invariant u d content.
Proof using Type*.
  intros Hex Hu.
  induction Hu as [t|? ? ? ? ? ? ? ? ? Hu IH Hs Ho Hn Hst|? ? ? ? ? ? ? ? ? Hu IH Hs Ho Hn Hst].
  - by apply upload_invariant_new.
  - by eapply store_chunk_keeps.
  - by eapply store_chunk_keeps.
Qed.

Lemma read_chunks_tiled inconsistent u d fuel n l acc :
  tiled d n l → (n + Z.of_nat (length l) = expected_size_bytes u)%Z → length l ≤ fuel →
  read_chunks c inconsistent fuel identity u d n acc = Ok (acc ++ l).
Proof using Type.
  intros Ht. revert fuel acc. induction Ht as [n|n p l payload Hp Hd Hdec Ht IH]; intros fuel acc Hend Hfuel.
  - simpl in Hend. destruct fuel; cbn [read_chunks]; rewrite (proj2 (Z.ltb_ge _ _)) by lia; by rewrite app_nil_r.
  - rewrite length_app in Hend, Hfuel. assert (0 < length p) by (destruct p; [done|simpl; lia]).
    destruct fuel as [|fuel]; [lia|]. cbn [read_chunks]. rewrite (proj2 (Z.ltb_lt _ _)) by lia.
    rewrite Hd. cbn [of_option mbind result_bind]. rewrite Hdec. cbn [mbind result_bind].
    rewrite bool_decide_false by done. rewrite (proj2 (Z.ltb_ge _ _)) by lia. cbn [orb].
    rewrite IH by lia. by rewrite app_assoc.
Qed.

Lemma read_uploaded_ok u d content : upload_invariant u d content →
  read_uploaded_wav c identity u (Ok d) =
    if decide (Z.of_nat (length content) ≠ expected) then Raise (RecordingError "Recording upload is incomplete." 409)
    else if decide (sha256_hexdigest content ≠ digest) then Raise (RecordingError "Recording hash does not match its receipt." 422)
    else Ok content.
Proof using Type.
  intros [Hrow Hb Ht _]. unfold read_uploaded_wav. cbn [mbind result_bind]. rewrite Hrow.
  cbn [upload_offset expected_size_bytes upload_sha256].
  case_bool_decide as Hend; [by rewrite decide_True by done|]. rewrite decide_False by auto.
  rewrite (read_chunks_tiled _ _ _ _ 0 content); [|done|cbn; lia|lia].
  cbn [mbind result_bind app]. rewrite bool_decide_false by auto.
  case_bool_decide; [by rewrite decide_True by done|by rewrite decide_False by auto].
Qed.

(** C20 an upload is a buffer that only grows at its end: whatever requests were answered or
    lost between the disk and the database, the server's offset is the length of the text it
    acknowledged, a chunk is taken at that offset or is a slice of that text and changes
    nothing, and what is read at the end is that text if its hash is the declared one. *)
Theorem upload_is_a_buffer u d content : (0 ≤ expected)%Z → uploaded u d content →
  upload_offset u = Z.of_nat (length content) ∧ (upload_offset u ≤ expected)%Z ∧
  (∀ t nonce offset p u' d', sends offset p → (0 ≤ offset)%Z → length nonce = 12 →
     store_chunk limit c t nonce identity u (Ok d) offset p = Ok (u', d') →
     offset = upload_offset u ∧ upload_offset u' = Z.of_nat (length (content ++ p)) ∧ uploaded u' d' (content ++ p) ∨
     (offset < upload_offset u)%Z ∧ u' = u ∧ d' = d ∧ p = take (length p) (drop (Z.to_nat offset) content)) ∧
  read_uploaded_wav c identity u (Ok d) =
    if decide (upload_offset u ≠ expected) then Raise (RecordingError "Recording upload is incomplete." 409)
    else if decide (sha256_hexdigest content ≠ digest) then Raise (RecordingError "Recording hash does not match its receipt." 422)
    else Ok content.
Proof using Type*.
  intros Hex Hu. pose proof (uploaded_invariant _ _ _ Hex Hu) as Hinv.
  assert (upload_offset u = Z.of_nat (length content)) as Hoff by (rewrite (inv_row _ _ _ Hinv); done).
  split_and!; [done|rewrite Hoff; by apply Hinv| |rewrite Hoff; by apply read_uploaded_ok].
  intros t nonce offset p u' d' Hs Ho Hn Hst. pose proof (uploaded_answered _ _ _ _ _ _ _ _ _ Hu Hs Ho Hn Hst) as Hu'.
  pose proof (store_chunk_ok _ _ _ _ _ _ _ _ Hn Hst) as (Hp & _ & _ & [(Hlt & -> & -> & _ & payload & Hd & Hdec)|(-> & -> & _)]).
  - right. split_and!; [done..|]. destruct (inv_chunks _ _ _ Hinv offset payload Ho Hd) as (q & Hq & _ & _ & _ & Hcase).
    assert (q = p) as -> by congruence. destruct Hcase as [->|[_ ?]]; [lia|done].
  - left. rewrite decide_True in Hu' by done. rewrite length_app. split_and!; [done| |done].
    cbn [advance upload_offset]. lia.
Qed.

Lemma store_chunk_total u d content t nonce p :
  upload_invariant u d content → (∀ n q q', sends n q → sends n q' → q = q') → sends (upload_offset u) p → p ≠ [] →
  (Z.of_nat (length p) ≤ limit)%Z → (upload_offset u + Z.of_nat (length p) ≤ expected)%Z →
  is_Some (master_keys c !! cipher_version c) → (0 ≤ cipher_version c < 2 ^ 32)%Z →
  ∃ u' d', store_chunk limit c t nonce identity u (Ok d) (upload_offset u) p = Ok (u', d').
Proof using Type.
  intros Hinv Hfun Hs Hp Hl He Hk Hv. pose proof (inv_row _ _ _ Hinv) as Hrow.
  unfold store_chunk. cbn [mbind result_bind]. rewrite bool_decide_false by done. rewrite (proj2 (Z.ltb_ge _ _)) by lia.
  rewrite (proj2 (Z.ltb_ge (expected_size_bytes u) _)) by (rewrite Hrow in *; simpl in *; lia).
  rewrite Z.ltb_irrefl, bool_decide_false by auto.
  destruct (seal_with_total UPLOAD_MAGIC (upload_aad identity (upload_offset u)) nonce c identity p Hk Hv) as [sealed Hseal].
  unfold encrypt_chunk. rewrite Hseal. cbn [mbind result_bind].
  destruct (d !! _) as [payload|] eqn:Hd; [|by do 2 eexists].
  apply (inv_chunks _ _ _ Hinv) in Hd as (q & Hq & _ & Hsq & _); [|rewrite Hrow; simpl; lia].
  rewrite Hq. cbn [mbind result_bind]. rewrite bool_decide_true by eauto. by do 2 eexists.
Qed.
End Uploads.

(** ** A device that resends from the server's offset *)

Section Resume.
Context `{CryptographyLaws} `{KeyDerivation} (limit : Z) (c : recording_cipher) (identity : string).
Context (source : bytes) (piece : Z → bytes) (storage : string).

(** The device cuts its recording the same way every time it sends it. *)
Definition cuts : Prop := ∀ n, (0 ≤ n < Z.of_nat (length source))%Z →
  piece n ≠ [] ∧ (Z.of_nat (length (piece n)) ≤ limit)%Z ∧ piece n `prefix_of` drop (Z.to_nat n) source.
Abbreviation device_uploaded :=
  (uploaded limit c identity (λ n p, p = piece n) (Z.of_nat (length source)) (sha256_hexdigest source) storage).

(** The next chunk is answered. *)
Definition sent (s s' : upload_row * chunk_directory) : Prop :=
  ∃ t nonce, store_chunk limit c t nonce identity s.1 (Ok s.2) (upload_offset s.1) (piece (upload_offset s.1)) = Ok s'.

Lemma tiled_prefix d n l :
  cuts → (0 ≤ n)%Z → (n + Z.of_nat (length l) ≤ Z.of_nat (length source))%Z →
  (∀ m payload, (0 ≤ m)%Z → d !! chunk_name m = Some payload → decrypt_chunk c identity m payload = Ok (piece m)) →
  tiled c identity d n l → l `prefix_of` drop (Z.to_nat n) source.
Proof using Type.
  intros Hcuts Hn Hl Hd Ht. induction Ht as [n|n p l payload Hp Hlook Hdec Ht IH]; [apply prefix_nil|].
  rewrite length_app in Hl. assert (0 < length p) by (destruct p; [done|simpl; lia]).
  rewrite (Hd n payload Hn Hlook) in Hdec. injection Hdec as <-.
  destruct (Hcuts n ltac:(lia)) as (_ & _ & rest & Hrest). rewrite Hrest. apply prefix_app.
  assert (rest = drop (Z.to_nat (n + Z.of_nat (length (piece n)))) source) as ->; [|apply IH; lia].
  rewrite Z2Nat.inj_add, Nat2Z.id by lia. rewrite <- drop_drop, Hrest. by rewrite drop_app_length.
Qed.

Lemma acknowledged_prefix u d content :
  cuts → device_uploaded u d content → content `prefix_of` source.
Proof using Type*.
  intros Hcuts Hu. apply uploaded_invariant in Hu as [_ Hb Ht Hc]; [|lia].
  apply (tiled_prefix d 0 content); [done|done|lia| |done].
  intros m payload Hm Hd. by destruct (Hc m payload Hm Hd) as (q & ? & _ & -> & _).
Qed.

Lemma upload_advances u d content :
  cuts → is_Some (master_keys c !! cipher_version c) → (0 ≤ cipher_version c < 2 ^ 32)%Z →
  device_uploaded u d content → length content < length source →
  ∃ u' d' content', sent (u, d) (u', d') ∧ device_uploaded u' d' content' ∧ length content < length content'.
Proof using Type*.
  intros Hcuts Hk Hv Hu Hlen. pose proof Hu as Hinv. apply uploaded_invariant in Hinv; [|lia].
  pose proof (inv_row _ _ _ _ _ _ _ _ _ Hinv) as Hrow.
  assert (upload_offset u = Z.of_nat (length content)) as Hoff by (rewrite Hrow; done).
  destruct (Hcuts (upload_offset u) ltac:(lia)) as (Hp & Hl & Hpre). pose proof (prefix_length _ _ Hpre) as Hle.
  rewrite length_drop in Hle. destruct (store_chunk_total limit c identity (λ n p, p = piece n) (Z.of_nat (length source))
    (sha256_hexdigest source) storage u d content (upload_updated u) (replicate 12 (octet 0)) (piece (upload_offset u)))
    as (u' & d' & Hst); [done|congruence|done..|lia|done|done|].
  exists u', d', (content ++ piece (upload_offset u)). split_and!.
  - by exists (upload_updated u), (replicate 12 (octet 0)).
  - epose proof (uploaded_answered limit c identity (λ n p, p = piece n) _ _ _ u d content (upload_updated u) (replicate 12 (octet 0))
      (upload_offset u) (piece (upload_offset u)) u' d' Hu eq_refl ltac:(lia) eq_refl Hst) as Hu'.
    by rewrite decide_True in Hu' by done.
  - rewrite length_app. destruct (piece (upload_offset u)); [done|simpl; lia].
Qed.

(** C21 an interrupted upload always finishes: from every state its requests can have left
    behind, resending from the server's offset reaches a state from which the server reads
    exactly the device's recording. *)
Theorem interrupted_upload_finishes u d content :
  cuts → is_Some (master_keys c !! cipher_version c) → (0 ≤ cipher_version c < 2 ^ 32)%Z →
  device_uploaded u d content →
  ∃ u' d', rtc sent (u, d) (u', d') ∧ read_uploaded_wav c identity u' (Ok d') = Ok source.
Proof using Type*.
  intros Hcuts Hk Hv. remember (length source - length content) as n eqn:Hn. revert u d content Hn.
  induction n as [n IH] using lt_wf_ind. intros u d content Hn Hu.
  pose proof (acknowledged_prefix _ _ _ Hcuts Hu) as Hpre. pose proof (prefix_length _ _ Hpre) as Hle.
  destruct (decide (length content = length source)) as [Heq|Hne].
  - exists u, d. split; [done|]. destruct Hpre as [rest Hrest].
    assert (rest = []) as -> by (apply nil_length_inv; rewrite Hrest, length_app in Heq; lia).
    rewrite app_nil_r in Hrest. subst content.
    apply uploaded_invariant in Hu; [|lia].
    rewrite (read_uploaded_ok _ _ _ _ _ _ _ _ _ Hu). by rewrite !decide_False by auto.
  - destruct (upload_advances u d content) as (u' & d' & content' & Hs & Hu' & Hlt); [done..|lia|].
    destruct (IH (length source - length content') ltac:(lia) u' d' content') as (u'' & d'' & Hr & Hread); [done..|].
    exists u'', d''. split; [by eapply rtc_l|done].
Qed.
End Resume.

(** ** Witnesses *)

Definition demo_derivation : KeyDerivation := {| hkdf master_key _ := master_key |}.
Definition demo_key (n : N) : bytes := b64encode (replicate 32 (octet n)).
Definition demo_cipher : recording_cipher := {| master_keys := {[1%Z := replicate 32 (octet 7)]}; cipher_version := 1 |}.
Definition demo_source : bytes := to_bytes "RIFF-WAVE".
Definition demo_piece (n : Z) : bytes := take 4 (drop (Z.to_nat n) demo_source).
Definition demo_moment : datetime := datetime_of_instant 63900000000000000.
Definition demo_row (n : Z) : upload_row :=
  {| expected_size_bytes := 9; upload_sha256 := sha256_hexdigest demo_source; upload_offset := n; upload_storage := "u";
     upload_updated := demo_moment |}.
(** The directory after [n] chunks were written. *)
Definition demo_nonce : bytes := replicate 12 (octet 9).
Fixpoint demo_directory (n : nat) : chunk_directory :=
  match n with
  | 0 => ∅
  | S n => let offset := Z.of_nat (4 * n) in
           match @encrypt_chunk plain_suite demo_derivation demo_nonce demo_cipher "r" offset (demo_piece offset) with
           | Ok payload => <[chunk_name offset := payload]> (demo_directory n)
           | Raise _ => demo_directory n
           end
  end.

Lemma demo_cuts : cuts 4 demo_source demo_piece.
Proof.
  intros n Hn. unfold demo_piece. assert (length demo_source = 9) as Hl by done. rewrite Hl in Hn. split_and!.
  - intros He%(f_equal length). rewrite length_take, length_drop, Hl in He. cbn [length] in He. lia.
  - rewrite length_take. lia.
  - apply prefix_take.
Qed.

(** The first chunk was answered, the second reached the disk only. *)
Lemma demo_uploaded (sends : Z → bytes → Prop) :
  (∀ n, sends n (demo_piece n)) →
  @uploaded plain_suite demo_derivation 4 demo_cipher "r" sends 9 (sha256_hexdigest demo_source) "u"
    (demo_row 4) (demo_directory 2) (take 4 demo_source).
Proof.
  intros Hs.
  assert (@uploaded plain_suite demo_derivation 4 demo_cipher "r" sends 9 (sha256_hexdigest demo_source) "u"
    (demo_row 4) (demo_directory 1) (take 4 demo_source)) as H1.
  { change (take 4 demo_source) with (if decide (0%Z = upload_offset (demo_row 0)) then [] ++ demo_piece 0 else []).
    apply (@uploaded_answered plain_suite demo_derivation _ _ _ _ _ _ _ (demo_row 0) ∅ [] demo_moment demo_nonce);
      [apply uploaded_new|apply Hs|done|done|].
    vm_compute; reflexivity. }
  apply (@uploaded_lost plain_suite demo_derivation _ _ _ _ _ _ _ (demo_row 4) (demo_directory 1) _ demo_moment demo_nonce
    4 (demo_piece 4) (demo_row 8)); [exact H1|apply Hs|done|done|].
  vm_compute; reflexivity.
Qed.

Theorem upload_is_a_buffer_witness :
  upload_offset (demo_row 4) = 4%Z ∧
  @read_uploaded_wav plain_suite demo_derivation demo_cipher "r" (demo_row 4) (Ok (demo_directory 2)) =
    Raise (RecordingError "Recording upload is incomplete." 409).
Proof.
  destruct (@upload_is_a_buffer plain_suite plain_suite_laws demo_derivation 4 demo_cipher "r" (λ n p, p = demo_piece n) 9
    (sha256_hexdigest demo_source) "u" (demo_row 4) (demo_directory 2) (take 4 demo_source)) as (Ho & _ & _ & Hr);
    [lia|by apply demo_uploaded|].
  split; [exact Ho|]. rewrite Hr. apply decide_True. vm_compute. discriminate.
Defined.

Theorem interrupted_upload_finishes_witness :
  ∃ u' d', rtc (@sent plain_suite demo_derivation 4 demo_cipher "r" demo_piece) (demo_row 4, demo_directory 2) (u', d') ∧
    @read_uploaded_wav plain_suite demo_derivation demo_cipher "r" u' (Ok d') = Ok demo_source.
Proof.
  apply (@interrupted_upload_finishes plain_suite plain_suite_laws demo_derivation 4 demo_cipher "r" demo_source demo_piece "u"
    (demo_row 4) (demo_directory 2) (take 4 demo_source)).
  - exact demo_cuts.
  - by eexists.
  - vm_compute. split; [discriminate|reflexivity].
  - by apply demo_uploaded.
Defined.

Definition configured (key : bytes) (version : Z) (previous : list (string * json)) : recording_cipher :=
  match new_recording_cipher key version (dumps (JObj previous)) with Ok c => c | Raise _ => demo_cipher end.
Definition demo_before : recording_cipher := configured (demo_key 7) 1 [].
Definition demo_previous : list (string * json) := [("1", JStr (of_bytes (demo_key 7)))].
Definition demo_after : recording_cipher := configured (demo_key 8) 2 demo_previous.

Theorem rotation_keeps_recordings_witness :
  ∃ payload, @encrypt_media plain_suite demo_derivation demo_nonce demo_before "r" demo_source = Ok payload ∧
    media_version payload = Ok 1%Z ∧
    @decrypt_media plain_suite demo_derivation demo_after "r" payload = Ok demo_source.
Proof.
  assert (∃ payload, @encrypt_media plain_suite demo_derivation demo_nonce demo_before "r" demo_source = Ok payload) as [payload Hp].
  { eexists. vm_compute. reflexivity. }
  exists payload. split; [exact Hp|].
  refine (proj1 (@rotation_keeps_recordings plain_suite plain_suite_laws demo_derivation (demo_key 7) 1 (dumps (JObj []))
    demo_before (demo_key 8) 2 (dumps (JObj demo_previous)) demo_after demo_previous "1" _ _ _ _ _ demo_nonce "r" demo_source _)
    payload Hp); [vm_compute; reflexivity..| |vm_compute; reflexivity|vm_compute; reflexivity].
  unfold demo_previous. left.
Defined.
