(* ===== verification/Wave.v ===== *)
(** * Recordings as WAV files ([recording_service.py])

    [inspect_caller_wav], [inspect_pcm_wav_path] and the choice of the filter for the
    conversion, with the part of Python's [wave] module they run: the chunks of a RIFF file
    and its format. *)
From Stdlib Require Import Ascii.
From stdpp Require Import base gmap sets strings numbers pretty list.
From S2P Require Import Prelude FlowTree Schemas Json Crypto Documents Store Diff Devices Calls Recordings.

(** [EOFError], [wave.Error] and the [RuntimeError] of a seek past the end *)
Definition EOFError : exn := OtherException "EOFError".
Definition wave_Error : exn := OtherException "wave.Error".
Definition seek_error : exn := RuntimeError "".

Definition little_endian (l : bytes) : Z := foldr (λ c n, Z.of_N (N_of_ascii c) + 256 * n)%Z 0%Z l.

Section Riff.
(** What follows the size of the RIFF chunk; [inspect_caller_wav] has checked that the chunk
    ends with the file. *)
Context (riff : bytes).

Definition riff_size : Z := Z.of_nat (length riff).
Definition riff_read (pos n : Z) : bytes := take (Z.to_nat (Z.min n (riff_size - pos))) (drop (Z.to_nat pos) riff).

(** A chunk and the position of the reader in the file. *)
Record chunk := { chunk_id : bytes; chunk_size : Z; size_read : Z; position : Z }.

Definition open_chunk (pos : Z) : option chunk :=
  let name := riff_read pos 4 in
  let size := riff_read (pos + 4) 4 in
  if (length name <? 4) || (length size <? 4) then None
  else Some {| chunk_id := name; chunk_size := little_endian size; size_read := 0; position := pos + 8 |}.

Definition advance_chunk (n : Z) (c : chunk) : chunk :=
  {| chunk_id := chunk_id c; chunk_size := chunk_size c; size_read := size_read c + n; position := position c + n |}.
Definition chunk_read (n : Z) (c : chunk) : bytes * chunk :=
  if (chunk_size c <=? size_read c)%Z then ([], c)
  else
    let data := riff_read (position c) (Z.min n (chunk_size c - size_read c)) in
    let c := advance_chunk (Z.of_nat (length data)) c in
    if bool_decide (size_read c = chunk_size c) && Z.odd (chunk_size c)
    then (data, advance_chunk (Z.of_nat (length (riff_read (position c) 1))) c)
    else (data, c).

(** [skip]: the position after the chunk. *)
Definition chunk_skip (c : chunk) : result Z :=
  let n := (chunk_size c - size_read c + (if Z.odd (chunk_size c) then 1 else 0))%Z in
  if (position c + n <? 0)%Z || (riff_size <? position c + n)%Z then Raise seek_error else Ok (position c + n)%Z.

Record wave_format := { nchannels : Z; sampwidth : Z; framerate : Z }.
Definition KSDATAFORMAT_SUBTYPE_PCM : bytes :=
  map octet [1; 0; 0; 0; 0; 0; 16; 0; 128; 0; 0; 170; 0; 56; 155; 113]%N.

Definition read_fmt_chunk (c : chunk) : result (wave_format * chunk) :=
  let (head, c) := chunk_read 14 c in
  if length head <? 14 then Raise EOFError
  else
    let tag := little_endian (take 2 head) in
    if negb (bool_decide (tag = 1)%Z) && negb (bool_decide (tag = 65534)%Z) then Raise wave_Error
    else
      let (bits, c) := chunk_read 2 c in
      if length bits <? 2 then Raise EOFError
      else
        c ← (if bool_decide (tag = 65534)%Z then
               let (extension, c) := chunk_read 8 c in
               if length extension <? 8 then Raise EOFError
               else
                 let (subformat, c) := chunk_read 16 c in
                 if length subformat <? 16 then Raise EOFError
                 else if bool_decide (subformat ≠ KSDATAFORMAT_SUBTYPE_PCM) then Raise wave_Error
                 else Ok c
             else Ok c);
        let width := ((little_endian bits + 7) / 8)%Z in
        let channels := little_endian (take 2 (drop 2 head)) in
        if bool_decide (width = 0)%Z then Raise wave_Error
        else if bool_decide (channels = 0)%Z then Raise wave_Error
        else Ok ({| nchannels := channels; sampwidth := width; framerate := little_endian (take 4 (drop 4 head)) |}, c).

(** [initfp]: the format and the data chunk; every turn reads eight bytes. *)
Fixpoint find_chunks (fuel : nat) (format : option wave_format) (pos : Z) : result (wave_format * chunk) :=
  match fuel with
  | 0 => Raise OutOfFuel
  | S fuel =>
      match open_chunk pos with
      | None => Raise wave_Error
      | Some c =>
          if bool_decide (chunk_id c = to_bytes "fmt ") then
            p ← read_fmt_chunk c;
            pos ← chunk_skip p.2;
            find_chunks fuel (Some p.1) pos
          else if bool_decide (chunk_id c = to_bytes "data") then
            match format with Some f => Ok (f, c) | None => Raise wave_Error end
          else pos ← chunk_skip c; find_chunks fuel format pos
      end
  end.
Definition wave_open : result (wave_format * chunk) :=
  if bool_decide (riff_read 0 4 ≠ to_bytes "WAVE") then Raise wave_Error else find_chunks (S (length riff)) None 4.
End Riff.

Definition framesize (f : wave_format) : Z := nchannels f * sampwidth f.
Definition getnframes (f : wave_format) (c : chunk) : Z := chunk_size c / framesize f.

(** [round(frames * 1000 / 48_000)], half to even *)
Definition milliseconds (frames : Z) : Z :=
  let q := (frames / 48)%Z in
  let r := (frames mod 48)%Z in
  if (r <? 24)%Z then q else if (24 <? r)%Z then (q + 1)%Z else if Z.even q then q else (q + 1)%Z.

Record WavDetails := { wav_duration_ms : Z; wav_frames : Z }.

Definition catch_wave {A} (message : string) (m : result A) : result A :=
  match m with
  | Raise e => if bool_decide (e = EOFError) || bool_decide (e = wave_Error) then Raise (RecordingError message 422) else Raise e
  | Ok a => Ok a
  end.

Definition inspect_caller_wav (source : bytes) (expected_duration_ms : Z) : result WavDetails :=
  if (length source <? 44) || bool_decide (take 4 source ≠ to_bytes "RIFF")
     || bool_decide (take 4 (drop 8 source) ≠ to_bytes "WAVE")
  then Raise (RecordingError "Caller recording is not a RIFF/WAVE file." 422)
  else if bool_decide (little_endian (take 4 (drop 4 source)) + 8 ≠ Z.of_nat (length source))%Z
  then Raise (RecordingError "Caller WAV length header does not match its content." 422)
  else
    let riff := drop 8 source in
    d ← catch_wave "Caller recording is not a valid WAV file." (
      p ← wave_open riff;
      let '(f, c) := p in
      if bool_decide (nchannels f ≠ 2)%Z || bool_decide (sampwidth f ≠ 2)%Z || bool_decide (framerate f ≠ 48000)%Z
      then Raise (RecordingError "Caller recording must be 48 kHz stereo PCM16 WAV." 422)
      else
        let frames := getnframes f c in
        if bool_decide (Z.of_nat (length (chunk_read riff (frames * framesize f) c).1) ≠ frames * 4)%Z
        then Raise (RecordingError "Caller WAV audio is truncated." 422)
        else Ok {| wav_duration_ms := milliseconds frames; wav_frames := frames |});
    if (wav_duration_ms d <=? 0)%Z || (180000 <? wav_duration_ms d)%Z
    then Raise (RecordingError "Caller recording duration is outside the allowed range." 422)
    else if (100 <? Z.abs (wav_duration_ms d - expected_duration_ms))%Z
    then Raise (RecordingError "Caller recording duration does not match its receipt." 422)
    else Ok d.

(** The loop of [inspect_pcm_wav_path] and of the assembly over [remaining] frames, at most a
    second at a time; every turn reads some of the file. *)
Fixpoint read_frames (short : exn) (riff : bytes) (fuel : nat) (f : wave_format) (c : chunk) (remaining : Z) (frames : bytes)
    : result bytes :=
  if bool_decide (remaining = 0)%Z then Ok frames
  else match fuel with
       | 0 => Raise OutOfFuel
       | S fuel =>
           let count := Z.min 48000 remaining in
           let (payload, c) := chunk_read riff (count * framesize f) c in
           if bool_decide (Z.of_nat (length payload) ≠ count * 4)%Z then Raise short
           else read_frames short riff fuel f c (remaining - count) (frames ++ payload)
       end.

Definition inspect_pcm_wav (source : bytes) (expected_duration_ms : Z) : result WavDetails :=
  if bool_decide (take 4 source ≠ to_bytes "RIFF")
  then Raise (RecordingError "Conversation segment is not a RIFF/WAVE file." 422)
  else if length source <? 8 then Raise (OtherException "struct.error")
  else if bool_decide (take 4 (drop 8 source) ≠ to_bytes "WAVE")
          || bool_decide (little_endian (take 4 (drop 4 source)) + 8 ≠ Z.of_nat (length source))%Z
  then Raise (RecordingError "Conversation WAV length header does not match its content." 422)
  else
    let riff := drop 8 source in
    d ← catch_wave "Conversation segment is not a valid WAV file." (
      p ← wave_open riff;
      let '(f, c) := p in
      if bool_decide (nchannels f ≠ 2)%Z || bool_decide (sampwidth f ≠ 2)%Z || bool_decide (framerate f ≠ 48000)%Z
      then Raise (RecordingError "Conversation segments must be 48 kHz stereo PCM16 WAV." 422)
      else
        let frames := getnframes f c in
        _ ← read_frames (RecordingError "Conversation WAV audio is truncated." 422) riff (S (length riff)) f c frames [];
        Ok {| wav_duration_ms := milliseconds frames; wav_frames := frames |});
    if (wav_duration_ms d <=? 0)%Z || (180000 <? wav_duration_ms d)%Z
    then Raise (RecordingError "Conversation segment duration is outside the allowed range." 422)
    else if (100 <? Z.abs (wav_duration_ms d - expected_duration_ms))%Z
    then Raise (RecordingError "Conversation segment duration does not match its receipt." 422)
    else Ok d.

(** ** The conversion *)

Definition VOICEMAIL_MONO_FILTER : string := "pan=mono|c0=c0".
Definition VOICEMAIL_AUDIO_FILTER : string := VOICEMAIL_MONO_FILTER +:+ ",loudnorm=I=-18:TP=-1.5:LRA=7".

(** Some byte of the audio is not zero; [_voicemail_filter] reads it in seconds. *)
Definition voicemail_filter (source : bytes) : result string :=
  let riff := drop 8 source in
  p ← wave_open riff;
  let '(f, c) := p in
  Ok (if (getnframes f c <? 24000)%Z then VOICEMAIL_MONO_FILTER
      else if existsb (λ b, negb (Ascii.eqb b zero)) (riff_read riff (position c) (chunk_size c)) then VOICEMAIL_AUDIO_FILTER
      else VOICEMAIL_MONO_FILTER).

(** ffmpeg with a filter: its status and output, nothing if it cannot be run or takes too long. *)
Class Transcoder := { ffmpeg : string → bytes → option (Z * bytes) }.

Definition transcode_voicemail `{Transcoder} (source : bytes) : result bytes :=
  filter ← voicemail_filter source;
  process ← of_option (RecordingError "Voicemail audio conversion is unavailable." 503) (ffmpeg filter source);
  if bool_decide (process.1 ≠ 0)%Z || negb (starts_with (to_bytes "ID3") process.2 || starts_with [octet 255] process.2)
  then Raise (RecordingError "Voicemail audio conversion failed." 422)
  else Ok process.2.
