(* ===== verification/Script.v ===== *)
(** * Programs that change a disk and a database

    A handler as the sequence of its durable effects: what it does to the disk at once, and
    the transaction it commits.  It may be cut off between any two of them, and a commit may
    fail.  [safe] is what holds of every state it can leave behind. *)
From stdpp Require Import base list.
From S2P Require Import Prelude.

Section Script.
Context {disk db : Type}.

Record machine := { on_disk : disk; committed : db }.

(** A commit is done, refused for a constraint, or fails for another reason. *)
Inductive commit_result := Committed | Violated | Failed.

Inductive script (A : Type) : Type :=
| Return (r : result A)
| Act (effect : machine → disk) (next : machine → script A) (* both see the state before *)
| Commit (change : db → option db) (next : commit_result → script A). (* [None] for a violated constraint *)
Arguments Return {A} r.
Arguments Act {A} effect next.
Arguments Commit {A} change next.

#[global] Instance script_ret : MRet script := λ A a, Return (Ok a).
#[global] Instance script_bind : MBind script := λ A B f,
  fix bind s :=
    match s with
    | Return (Ok a) => f a
    | Return (Raise e) => Return (Raise e)
    | Act effect next => Act effect (λ m, bind (next m))
    | Commit change next => Commit change (λ r, bind (next r))
    end.

(** What the disk and the committed rows say. *)
Definition look {A} (f : machine → result A) : script A := Act on_disk (λ m, Return (f m)).
(** An action on the disk; it changes nothing if it raises. *)
Definition act {A} (f : machine → result (A * disk)) : script A :=
  Act (λ m, match f m with Ok (_, d) => d | Raise _ => on_disk m end)
      (λ m, Return (match f m with Ok (a, _) => Ok a | Raise e => Raise e end)).
(** [session.commit()] *)
Definition commit (change : db → option db) : script commit_result := Commit change (λ r, Return (Ok r)).
Definition lift {A} (r : result A) : script A := Return r.

(** [try: ... except Exception: handler; raise] and its like. *)
Fixpoint catch {A} (s : script A) (handler : exn → script A) : script A :=
  match s with
  | Return (Ok a) => Return (Ok a)
  | Return (Raise e) => handler e
  | Act effect next => Act effect (λ m, catch (next m) handler)
  | Commit change next => Commit change (λ r, catch (next r) handler)
  end.
Fixpoint for_each {A} (f : A → script unit) (l : list A) : script unit :=
  match l with [] => Return (Ok ()) | x :: l => f x ≫= λ _, for_each f l end.
Fixpoint collect_each {A B} (f : A → script B) (l : list A) : script (list B) :=
  match l with
  | [] => Return (Ok [])
  | x :: l => y ← f x; k ← collect_each f l; Return (Ok (y :: k))
  end.

(** ** Execution *)

Definition after (effect : machine → disk) (m : machine) : machine := {| on_disk := effect m; committed := committed m |}.
Definition with_committed (d : db) (m : machine) : machine := {| on_disk := on_disk m; committed := d |}.

(** A run that is not cut off and whose commits do not fail. *)
Fixpoint perform {A} (s : script A) (m : machine) : result A * machine :=
  match s with
  | Return r => (r, m)
  | Act effect next => perform (next m) (after effect m)
  | Commit change next =>
      match change (committed m) with
      | Some d => perform (next Committed) (with_committed d m)
      | None => perform (next Violated) m
      end
  end.

(** The states in which a run may be cut off or end. *)
Inductive leaves {A} : script A → machine → machine → Prop :=
| leaves_here s m : leaves s m m
| leaves_act effect next m m' : leaves (next m) (after effect m) m' → leaves (Act effect next) m m'
| leaves_committed change next m d m' :
    change (committed m) = Some d → leaves (next Committed) (with_committed d m) m' → leaves (Commit change next) m m'
| leaves_violated change next m m' :
    change (committed m) = None → leaves (next Violated) m m' → leaves (Commit change next) m m'
| leaves_failed change next m m' : leaves (next Failed) m m' → leaves (Commit change next) m m'.

(** Every state a run passes satisfies [I], and its end satisfies [Q]. *)
Fixpoint safe {A} (I : machine → Prop) (Q : result A → machine → Prop) (s : script A) (m : machine) : Prop :=
  I m ∧
  match s with
  | Return r => Q r m
  | Act effect next => safe I Q (next m) (after effect m)
  | Commit change next =>
      match change (committed m) with
      | Some d => safe I Q (next Committed) (with_committed d m)
      | None => safe I Q (next Violated) m
      end ∧ safe I Q (next Failed) m
  end.

Lemma safe_leaves {A} I Q (s : script A) m m' : safe I Q s m → leaves s m m' → I m'.
Proof.
  intros Hs Hl. induction Hl as [s m|effect next m m' _ IH|change next m d m' Hc _ IH|change next m m' Hc _ IH|change next m m' _ IH].
  - by destruct s, Hs.
  - apply IH, Hs.
  - apply IH. destruct Hs as (_ & Hs & _). by rewrite Hc in Hs.
  - apply IH. destruct Hs as (_ & Hs & _). by rewrite Hc in Hs.
  - apply IH, Hs.
Qed.

Lemma safe_perform {A} I Q (s : script A) m : safe I Q s m → Q (perform s m).1 (perform s m).2.
Proof.
  revert m. induction s as [r|effect next IH|change next IH]; intros m; simpl.
  - by intros [_ ?].
  - intros [_ Hs]. by apply IH.
  - intros (_ & Hs & _). destruct (change (committed m)); by apply IH.
Qed.

Lemma safe_here {A} I Q (s : script A) m : safe I Q s m → I m.
Proof. by destruct s; intros [? _]. Qed.

Lemma safe_mono {A} (I I' : machine → Prop) (Q Q' : result A → machine → Prop) s m :
  (∀ m, I m → I' m) → (∀ r m, I m → Q r m → Q' r m) → safe I Q s m → safe I' Q' s m.
Proof.
  intros HI HQ. revert m. induction s as [r|effect next IH|change next IH]; intros m; simpl.
  - intros [? ?]. auto.
  - intros [? Hs]. auto.
  - intros (? & Hs & Hf). split_and!; [auto| |auto]. destruct (change (committed m)); auto.
Qed.

Lemma safe_bind {A B} I Q (s : script A) (f : A → script B) m :
  safe I (λ r m, match r with Ok a => safe I Q (f a) m | Raise e => Q (Raise e) m end) s m → safe I Q (s ≫= f) m.
Proof.
  revert m. induction s as [r|effect next IH|change next IH]; intros m Hs.
  - destruct Hs as [? Hs]. by destruct r.
  - destruct Hs as [? Hs]. split; [done|]. by apply IH.
  - destruct Hs as (? & Hs & Hf). split_and!; [done| |by apply IH]. destruct (change (committed m)); by apply IH.
Qed.

Lemma safe_catch {A} I Q (s : script A) handler m :
  safe I (λ r m, match r with Ok a => Q (Ok a) m | Raise e => safe I Q (handler e) m end) s m → safe I Q (catch s handler) m.
Proof.
  revert m. induction s as [r|effect next IH|change next IH]; intros m Hs.
  - destruct Hs as [? Hs]. by destruct r.
  - destruct Hs as [? Hs]. split; [done|]. by apply IH.
  - destruct Hs as (? & Hs & Hf). split_and!; [done| |by apply IH]. destruct (change (committed m)); by apply IH.
Qed.

Lemma safe_look {A} (I : machine → Prop) (Q : result A → machine → Prop) f m : I m → Q (f m) m → safe I Q (look f) m.
Proof. intros HI HQ. destruct m as [d c]. by repeat split. Qed.

Lemma safe_act {A} (I : machine → Prop) (Q : result A → machine → Prop) f m :
  I m → (∀ a d, f m = Ok (a, d) → let m' := {| on_disk := d; committed := committed m |} in I m' ∧ Q (Ok a) m') →
  (∀ e, f m = Raise e → Q (Raise e) m) → safe I Q (act f) m.
Proof.
  intros HI Hok Hraise. split; [done|]. unfold after. cbn. destruct (f m) as [[a d]|e].
  - by destruct (Hok a d eq_refl).
  - destruct m as [d c]. cbn in *. split; [done|]. by apply Hraise.
Qed.

Lemma safe_commit (I : machine → Prop) (Q : result commit_result → machine → Prop) change m :
  I m → (∀ d, change (committed m) = Some d → I (with_committed d m) ∧ Q (Ok Committed) (with_committed d m)) →
  (change (committed m) = None → Q (Ok Violated) m) → Q (Ok Failed) m → safe I Q (commit change) m.
Proof.
  intros HI Hok Hviol Hfail. split; [done|]. split; [|done].
  destruct (change (committed m)) as [d|]; [by apply Hok|split; auto].
Qed.

Lemma safe_for_each {A} (I J : machine → Prop) (Q : result unit → machine → Prop) (f : A → script unit) l m :
  J m → (∀ m, J m → I m) →
  (∀ x m, x ∈ l → J m → safe I (λ r m, match r with Ok _ => J m | Raise e => Q (Raise e) m end) (f x) m) →
  (∀ m, J m → Q (Ok ()) m) → safe I Q (for_each f l) m.
Proof.
  intros HJ HI Hf HQ. revert m HJ. induction l as [|x l IH]; intros m HJ; cbn [for_each].
  - split; auto.
  - apply safe_bind. eapply (safe_mono I I); [done| |apply Hf; [by left|done]].
    intros [[]|e] m' _ Hm'; [|done]. apply IH; [|done]. intros y m'' Hy. apply Hf. by right.
Qed.

(** ** Runs to the end *)

Lemma perform_bind {A B} (s : script A) (f : A → script B) m :
  perform (s ≫= f) m = match perform s m with (Ok a, m') => perform (f a) m' | (Raise e, m') => (Raise e, m') end.
Proof.
  revert m. induction s as [[a|e]|effect next IH|change next IH]; intros m; [done|done|exact (IH m (after effect m))|].
  cbn [mbind script_bind perform]. destruct (change (committed m)); apply IH.
Qed.

(** A loop over what [J] says is left to do. *)
Lemma perform_for_each {A} (J : list A → machine → Prop) (f : A → script unit) l m :
  J l m → (∀ x l m, J (x :: l) m → ∃ m', perform (f x) m = (Ok (), m') ∧ J l m') →
  ∃ m', perform (for_each f l) m = (Ok (), m') ∧ J [] m'.
Proof.
  intros HJ Hf. revert m HJ. induction l as [|x l IH]; intros m HJ; [by exists m|].
  destruct (Hf x l m HJ) as (m1 & H1 & HJ1). destruct (IH m1 HJ1) as (m2 & H2 & HJ2).
  exists m2. split; [|done]. cbn [for_each]. by rewrite perform_bind, H1.
Qed.
End Script.
Arguments machine : clear implicits.
Arguments script : clear implicits.
Arguments Return {disk db A} r.
Arguments Act {disk db A} effect next.
Arguments Commit {disk db A} change next.

Lemma perform_act {disk db A} (f : machine disk db → result (A * disk)) m :
  perform (act f) m = match f m with
                      | Ok (a, d) => (Ok a, {| on_disk := d; committed := committed m |})
                      | Raise e => (Raise e, m)
                      end.
Proof. unfold act. cbn. unfold after. destruct (f m) as [[a d]|e]; [done|]. by destruct m. Qed.
Lemma perform_look {disk db A B} (f : machine disk db → result A) (k : A → script disk db B) m :
  perform (look f ≫= k) m = match f m with Ok a => perform (k a) m | Raise e => (Raise e, m) end.
Proof. unfold look. cbn. unfold after. destruct m as [d s]. cbn. by destruct (f _). Qed.

Lemma perform_leaves {disk db A} (s : script disk db A) m : leaves s m (perform s m).2.
Proof.
  revert m. induction s as [r|effect next IH|change next IH]; intros m; cbn [perform].
  - apply leaves_here.
  - apply leaves_act, IH.
  - destruct (change (committed m)) eqn:Hc; [by eapply leaves_committed|by apply leaves_violated].
Qed.

(** The state in which a run is cut off after [n] of its effects. *)
Fixpoint cut_off {disk db A} (n : nat) (s : script disk db A) (m : machine disk db) : machine disk db :=
  match n, s with
  | S n, Act effect next => cut_off n (next m) (after effect m)
  | S n, Commit change next =>
      match change (committed m) with
      | Some d => cut_off n (next Committed) (with_committed d m)
      | None => cut_off n (next Violated) m
      end
  | _, _ => m
  end.
Lemma cut_off_leaves {disk db A} n (s : script disk db A) m : leaves s m (cut_off n s m).
Proof.
  revert s m. induction n as [|n IH]; intros s m; [apply leaves_here|]. destruct s as [r|effect next|change next]; cbn [cut_off].
  - apply leaves_here.
  - apply leaves_act, IH.
  - destruct (change (committed m)) eqn:Hc; [by eapply leaves_committed|by apply leaves_violated].
Qed.

(** A run during which another program is performed after [n] of its steps. *)
Fixpoint perform_with {disk db A B} (n : nat) (other : script disk db B) (s : script disk db A) (m : machine disk db)
    : result A * machine disk db :=
  match n with
  | 0 => perform s (perform other m).2
  | S n =>
      match s with
      | Return r => (r, (perform other m).2)
      | Act effect next => perform_with n other (next m) (after effect m)
      | Commit change next =>
          match change (committed m) with
          | Some d => perform_with n other (next Committed) (with_committed d m)
          | None => perform_with n other (next Violated) m
          end
      end
  end.
