(* ===== verification/Storage.v ===== *)
(** * The recording store ([recording_service.py], [models.py])

    Rows and files of recordings, and what the service does to both: the media of a finished
    upload, deletion by way of a quarantine, retention, and the reconciliation that repairs
    what an interruption left behind.  Only regular files and directories that the server owns
    are on its disk, so [_require_safe_file] and [_require_safe_directory] fail where nothing,
    or the other kind, is found. *)
From Stdlib Require Import Ascii.
From stdpp Require Import base gmap sets strings numbers pretty list.
From S2P Require Import Prelude FlowTree Schemas Json Crypto Documents Store Drafts Diff Devices Calls Recordings Wave Script.

(** ** Rows *)

Inductive recording_status := Uploading | Processing | Ready | RecordingFailed | Deleted.
#[global] Instance recording_status_eq_dec : EqDecision recording_status.
Proof. solve_decision. Defined.

(** [Recording]: what its creation fixes, *)
Record capture := {
  rec_device : string; rec_call : string; rec_revision : option Z; rec_block : option string; rec_sequence : Z;
  kind : string; audit_metadata : option json; operator_encrypted : option bytes; operator_last4 : string;
  captured_at : timestamp; source_format : string }.
(** the audio as received, *)
Record source_columns := {
  rec_duration_ms : Z; rec_stop_reason : string; source_size_bytes : Z; source_sha256 : string; partial : bool; segment_count : Z }.
(** and the file it is played from. *)
Record media_columns := {
  media_key_version : option Z; media_storage_name : option string; media_size_bytes : option Z; media_sha256 : option string }.
Definition no_media : media_columns :=
  {| media_key_version := None; media_storage_name := None; media_size_bytes := None; media_sha256 := None |}.
Record recording_row := {
  capture_of : capture; source_of : source_columns; media_of : media_columns; rec_status : recording_status;
  processing_error : option string; listened_at : option datetime; deleted_at : option datetime;
  deletion_reason : option string; rec_updated : datetime }.

Definition with_status (s : recording_status) (t : datetime) (r : recording_row) : recording_row :=
  {| capture_of := capture_of r; source_of := source_of r; media_of := media_of r; rec_status := s;
     processing_error := processing_error r; listened_at := listened_at r; deleted_at := deleted_at r;
     deletion_reason := deletion_reason r; rec_updated := t |}.
Definition with_media (s : recording_status) (duration : Z) (m : media_columns) (t : datetime) (r : recording_row) : recording_row :=
  {| capture_of := capture_of r;
     source_of := {| rec_duration_ms := duration; rec_stop_reason := rec_stop_reason (source_of r);
                     source_size_bytes := source_size_bytes (source_of r); source_sha256 := source_sha256 (source_of r);
                     partial := partial (source_of r); segment_count := segment_count (source_of r) |};
     media_of := m; rec_status := s; processing_error := processing_error r; listened_at := listened_at r;
     deleted_at := deleted_at r; deletion_reason := deletion_reason r; rec_updated := t |}.
Definition with_listened (o : option datetime) (t : datetime) (r : recording_row) : recording_row :=
  {| capture_of := capture_of r; source_of := source_of r; media_of := media_of r; rec_status := rec_status r;
     processing_error := processing_error r; listened_at := o; deleted_at := deleted_at r;
     deletion_reason := deletion_reason r; rec_updated := t |}.

(** [ConversationRecordingSegment]; recording and index are the key. *)
Inductive segment_status := SegmentUploading | Verified | Assembled | SegmentFailed.
#[global] Instance segment_status_eq_dec : EqDecision segment_status.
Proof. solve_decision. Defined.
Record segment_row := {
  segment_captured : timestamp; segment_duration_ms : Z; segment_stop_reason : string; segment_partial : bool;
  segment_upload : upload_row; seg_status : segment_status }.
(** [ContinuousRecording] *)
Inductive continuous_status :=
| ContinuousUploading | Queued | ContinuousProcessing | Retrying | ContinuousReady | Invalid | NeedsAttention | ContinuousDeleted.
#[global] Instance continuous_status_eq_dec : EqDecision continuous_status.
Proof. solve_decision. Defined.
Record continuous_row := {
  row_validation_error : option string; capture_manifest : json; continuous_state : continuous_status; run_attempts : Z; retry_at : option datetime;
  accepted_at : option datetime; operation_duration_ms : option Z; continuous_updated : datetime }.
(** [RecordingRetentionPolicy] *)
Record retention_row := { automatic : bool; retention_days : Z; retention_updated : datetime; retention_by : string }.

Record recordings_db := {
  recordings : gmap string recording_row;
  upload_rows : gmap string upload_row; (* by recording *)
  segments : gmap (string * Z) segment_row;
  continuous : gmap string continuous_row;
  retention : option retention_row;
  recording_audits : list audit_row;
}.
Definition with_recordings (m : gmap string recording_row) (s : recordings_db) : recordings_db :=
  {| recordings := m; upload_rows := upload_rows s; segments := segments s; continuous := continuous s;
     retention := retention s; recording_audits := recording_audits s |}.
Definition with_uploads (m : gmap string upload_row) (s : recordings_db) : recordings_db :=
  {| recordings := recordings s; upload_rows := m; segments := segments s; continuous := continuous s;
     retention := retention s; recording_audits := recording_audits s |}.
Definition with_segments (m : gmap (string * Z) segment_row) (s : recordings_db) : recordings_db :=
  {| recordings := recordings s; upload_rows := upload_rows s; segments := m; continuous := continuous s;
     retention := retention s; recording_audits := recording_audits s |}.
Definition with_continuous (m : gmap string continuous_row) (s : recordings_db) : recordings_db :=
  {| recordings := recordings s; upload_rows := upload_rows s; segments := segments s; continuous := m;
     retention := retention s; recording_audits := recording_audits s |}.
Definition with_retention (p : retention_row) (s : recordings_db) : recordings_db :=
  {| recordings := recordings s; upload_rows := upload_rows s; segments := segments s; continuous := continuous s;
     retention := Some p; recording_audits := recording_audits s |}.
Definition with_audit (actor action target : string) (details : json) (s : recordings_db) : recordings_db :=
  {| recordings := recordings s; upload_rows := upload_rows s; segments := segments s; continuous := continuous s;
     retention := retention s;
     recording_audits := recording_audits s ++ [{| audit_actor := actor; action := action; target := target; details := details |}] |}.

(** ** Files *)

Inductive root_entry := PrivateFile (content : bytes) | PrivateDirectory.

(** [recording_root], without [.uploads], and [recording_root / ".uploads"]. *)
Record disk := { root : gmap string root_entry; upload_directories : gmap string chunk_directory }.
Definition with_root (m : gmap string root_entry) (d : disk) : disk := {| root := m; upload_directories := upload_directories d |}.
Definition with_directories (m : gmap string chunk_directory) (d : disk) : disk := {| root := root d; upload_directories := m |}.

Abbreviation host := (machine disk recordings_db).
Abbreviation program := (script disk recordings_db).

(** [path.name.startswith(p)], [.endswith(p)] and [name.removeprefix(p)] *)
Definition has_prefix (p s : string) : bool := starts_with (to_bytes p) (to_bytes s).
Definition has_suffix (p s : string) : bool :=
  bool_decide (drop (length (to_bytes s) - length (to_bytes p)) (to_bytes s) = to_bytes p).
Definition remove_prefix (p s : string) : string :=
  if has_prefix p s then of_bytes (drop (length (to_bytes p)) (to_bytes s)) else s.

Definition hex_character (c : ascii) : bool := char_in 48 57 c || char_in 97 102 c.
Definition hex_name (n : nat) (l : bytes) : bool := (length l =? n) && forallb hex_character l.
(** 32 hexadecimal digits, and those followed by [.rec] *)
Definition valid_upload_name (name : string) : bool := hex_name 32 (to_bytes name).
Definition valid_media_name (name : string) : bool :=
  (length (to_bytes name) =? 36) && has_suffix ".rec" name && forallb hex_character (take 32 (to_bytes name)).

Definition quarantine_name (name : string) : string := ".delete-" +:+ name.

Definition require_safe_file (name : string) (d : disk) : result bytes :=
  match root d !! name with
  | None => Raise (RecordingError "Recording storage is unavailable." 503)
  | Some PrivateDirectory => Raise (RecordingError "Recording storage is not a regular file." 503)
  | Some (PrivateFile content) => Ok content
  end.
Definition upload_directory (u : upload_row) (d : disk) : result chunk_directory :=
  if negb (valid_upload_name (upload_storage u)) then Raise (RecordingError "Upload storage metadata is invalid." 503)
  else of_option (RecordingError "Upload storage is unavailable." 503) (upload_directories d !! upload_storage u).

(** [os.replace(a, b)] of a file *)
Definition FileNotFoundError : exn := OtherException "FileNotFoundError".
Definition replace (a b : string) (d : disk) : result disk :=
  match root d !! a with
  | None => Raise FileNotFoundError
  | Some e =>
      match root d !! b with
      | Some PrivateDirectory => Raise (OtherException "IsADirectoryError")
      | _ => Ok (with_root (<[b := e]> (delete a (root d))) d)
      end
  end.
(** [path.unlink(missing_ok=True)] of a file *)
Definition unlink (name : string) (d : disk) : disk := with_root (delete name (root d)) d.

(** ** Space *)

Definition zsum {K} `{Countable K} {A} (f : A → Z) (m : gmap K A) : Z := map_fold (λ _ x n, f x + n)%Z 0%Z m.

Record recording_settings := {
  recording_quota_bytes : Z; recording_chunk_limit_bytes : Z; recording_upload_limit_bytes : Z; recording_abandoned_upload_hours : Z;
  audit_recording_quota_bytes : Z; audit_recording_reserve_bytes : Z; development_admin_email : string }.

Definition ready_bytes (r : recording_row) : Z :=
  if decide (rec_status r = Ready) then default 0%Z (media_size_bytes (media_of r)) else 0.
Definition reserved (s : segment_row) : bool := bool_decide (seg_status s = SegmentUploading) || bool_decide (seg_status s = Verified).
Definition segment_bytes (s : segment_row) : Z := if reserved s then expected_size_bytes (segment_upload s) else 0.

Definition recording_used_bytes (exclude_upload exclude_conversation : option string) (s : recordings_db) : Z :=
  zsum ready_bytes (recordings s)
  + zsum expected_size_bytes (match exclude_upload with Some id => delete id (upload_rows s) | None => upload_rows s end)
  + zsum segment_bytes (match exclude_conversation with
                        | Some id => filter (λ '((i, _), _), i ≠ id) (segments s)
                        | None => segments s
                        end).

(** [initialize_retention_policy]: the row, which the next commit adds where it is missing. *)
Definition initialize_retention_policy (t : datetime) (actor : string) (s : recordings_db) : retention_row :=
  default {| automatic := true; retention_days := 30; retention_updated := t; retention_by := actor |} (retention s).

(** ** Media *)

(** [mkdir] of a new directory of chunks *)
Definition create_upload_directory (name : string) : program string :=
  act (λ m, match upload_directories (on_disk m) !! name with
            | Some _ => Raise (OtherException "FileExistsError")
            | None => Ok (name, with_directories (<[name := ∅]> (upload_directories (on_disk m))) (on_disk m))
            end).
(** [path.rmdir()] *)
Definition rmdir (name : string) : program unit :=
  act (λ m, match upload_directories (on_disk m) !! name with
            | None => Raise FileNotFoundError
            | Some chunks =>
                if bool_decide (chunks = ∅) then Ok ((), with_directories (delete name (upload_directories (on_disk m))) (on_disk m))
                else Raise (OtherException "OSError")
            end).
(** Every file of a directory, one after the other, then the directory. *)
Definition clear_directory (name : string) : program unit :=
  children ← look (λ m, Ok (elements (dom (default ∅ (upload_directories (on_disk m) !! name)))));
  for_each (λ child, act (λ m, Ok ((), with_directories (alter (delete child) name (upload_directories (on_disk m))) (on_disk m))))
    children ≫= λ _, rmdir name.
Definition remove_upload_files (u : upload_row) : program unit :=
  found ← look (λ m, Ok (is_ok (upload_directory u (on_disk m))));
  if found : bool then clear_directory (upload_storage u) else Return (Ok ()).

(** [_media_path]: the name of a recording's file. *)
Definition media_path (r : recording_row) (d : disk) : result string :=
  match media_storage_name (media_of r) with
  | Some name => if valid_media_name name then _ ← require_safe_file name d; Ok name
                 else Raise (RecordingError "Recording storage metadata is invalid." 503)
  | None => Raise (RecordingError "Recording storage metadata is invalid." 503)
  end.

Definition quarantine_media (r : recording_row) : program string :=
  act (λ m, name ← media_path r (on_disk m);
            match root (on_disk m) !! quarantine_name name with
            | Some _ => Raise (RecordingError "Recording deletion is already in progress." 409)
            | None => d ← replace name (quarantine_name name) (on_disk m); Ok (name, d)
            end).
Definition restore_quarantined_media (name : string) : program unit :=
  act (λ m, match root (on_disk m) !! quarantine_name name, root (on_disk m) !! name with
            | Some _, None => _ ← require_safe_file (quarantine_name name) (on_disk m);
                              d ← replace (quarantine_name name) name (on_disk m); Ok ((), d)
            | _, _ => Ok ((), on_disk m)
            end).
Definition discard_quarantined_media (name : string) : program unit :=
  act (λ m, match root (on_disk m) !! quarantine_name name with
            | Some _ => _ ← require_safe_file (quarantine_name name) (on_disk m);
                        Ok ((), unlink (quarantine_name name) (on_disk m))
            | None => Ok ((), on_disk m)
            end).

Definition tombstone_recording (reason : string) (t : datetime) (r : recording_row) : recording_row :=
  {| capture_of := capture_of r; source_of := source_of r; media_of := no_media; rec_status := Deleted;
     processing_error := processing_error r; listened_at := listened_at r; deleted_at := Some t;
     deletion_reason := Some reason; rec_updated := t |}.

Definition utc (t : timestamp) : Z := (instant (local t) - default 0 (utc_offset t) * 60000000)%Z.

(** [purge_expired_recordings]: the recordings it quarantined, with the names of their files;
    those already quarantined return if one cannot be. *)
Definition expired (p : retention_row) (t : datetime) (s : recordings_db) : list (string * recording_row) :=
  map_to_list (filter (λ '(_, r), rec_status r = Ready ∧ utc (captured_at (capture_of r)) < instant t - retention_days p * 86400000000)%Z
                      (recordings s)).
Fixpoint quarantine_all (done : list (string * string)) (l : list (string * recording_row)) : program (list (string * string)) :=
  match l with
  | [] => Return (Ok (reverse done))
  | (id, r) :: l =>
      name ← catch (quarantine_media r) (λ e, _ ← for_each (restore_quarantined_media ∘ snd) done; Return (Raise e));
      quarantine_all ((id, name) :: done) l
  end.
Definition purge_expired_recordings (p : retention_row) (t : datetime) : program (list (string * string)) :=
  if negb (automatic p) then Return (Ok [])
  else rows ← look (λ m, Ok (expired p t (committed m))); quarantine_all [] rows.
Definition purged (items : list (string * string)) (t : datetime) (s : recordings_db) : recordings_db :=
  with_recordings (foldr (λ item rows, alter (tombstone_recording "retention" t) item.1 rows) (recordings s) items) s.

(** [cleanup_abandoned_uploads]: the uploads and segments it gives up, and their rows. *)
Definition abandoned_before (cfg : recording_settings) (t : datetime) : Z :=
  (instant t - recording_abandoned_upload_hours cfg * 3600000000)%Z.
Definition abandoned_uploads (cfg : recording_settings) (t : datetime) (s : recordings_db) : list (string * upload_row) :=
  map_to_list (filter (λ '(id, u), (instant (upload_updated u) < abandoned_before cfg t)%Z ∧ continuous s !! id = None) (upload_rows s)).
Definition abandoned_segments (cfg : recording_settings) (t : datetime) (s : recordings_db) : list ((string * Z) * segment_row) :=
  map_to_list (filter (λ '(_, g), seg_status g = SegmentUploading
                                  ∧ (instant (upload_updated (segment_upload g)) < abandoned_before cfg t)%Z) (segments s)).
Definition failed_upload (t : datetime) (r : recording_row) : recording_row :=
  if decide (rec_status r = Uploading) then with_status RecordingFailed t r else r.
Definition touched (t : datetime) (u : upload_row) : upload_row :=
  {| expected_size_bytes := expected_size_bytes u; upload_sha256 := upload_sha256 u; upload_offset := upload_offset u;
     upload_storage := upload_storage u; upload_updated := t |}.
Definition with_segment_status (st : segment_status) (t : datetime) (g : segment_row) : segment_row :=
  {| segment_captured := segment_captured g; segment_duration_ms := segment_duration_ms g; segment_stop_reason := segment_stop_reason g;
     segment_partial := segment_partial g; segment_upload := touched t (segment_upload g); seg_status := st |}.
Definition abandon (us : list (string * upload_row)) (gs : list ((string * Z) * segment_row)) (t : datetime)
    (s : recordings_db) : recordings_db :=
  let s := foldr (λ u s, with_recordings (alter (failed_upload t) u.1 (recordings s)) (with_uploads (delete u.1 (upload_rows s)) s)) s us in
  with_segments (foldr (λ g rows, alter (with_segment_status SegmentFailed t) g.1 rows) (segments s) gs) s.

(** ** Reconciliation *)

Definition owner_of (name : string) (allowed : recording_row → Prop) `{∀ r, Decision (allowed r)} (s : recordings_db)
    : option (string * recording_row) :=
  head (map_to_list (filter (λ '(_, r), media_storage_name (media_of r) = Some name ∧ allowed r) (recordings s))).

(** [glob(".delete-*.rec")] *)
Definition quarantined_entries (d : disk) : list string :=
  filter (λ n, has_prefix ".delete-" n && has_suffix ".rec" n) (elements (dom (root d))).
Definition reconcile_quarantined (path : string) : program unit :=
  act (λ m, let d := on_disk m in
            let name := remove_prefix ".delete-" path in
            _ ← require_safe_file path d;
            match owner_of name (λ r, rec_status r = Ready) (committed m) with
            | Some _ =>
                match root d !! name with
                | Some _ => Raise (RecordingError "Recording deletion recovery found conflicting media." 503)
                | None => d ← replace path name d; Ok ((), d)
                end
            | None => Ok ((), unlink path d)
            end).
Definition reconcile_quarantined_media : program unit :=
  paths ← look (λ m, Ok (quarantined_entries (on_disk m)));
  for_each reconcile_quarantined paths.

Definition reconcile_entry (name : string) : program unit :=
  act (λ m, let d := on_disk m in
            if bool_decide (name = ".processing") then
              match root d !! name with
              | Some PrivateDirectory => Ok ((), d)
              | _ => Raise (RecordingError "Recording processing directory is unsafe." 503)
              end
            else if has_prefix ".delete-" name then Ok ((), d)
            else if has_prefix ".media-" name || has_prefix ".playback-" name then
              _ ← require_safe_file name d; Ok ((), unlink name d)
            else if has_suffix ".rec" name then
              if negb (valid_media_name name) then Raise (RecordingError "Recording storage contains an unknown media file." 503)
              else
                _ ← require_safe_file name d;
                match owner_of name (λ r, rec_status r = Ready ∨ rec_status r = Processing) (committed m) with
                | Some _ => Ok ((), d)
                | None => Ok ((), unlink name d)
                end
            else Raise (RecordingError "Recording storage contains an unknown entry." 503)).

Definition active_names (s : recordings_db) : list string :=
  (upload_storage ∘ snd <$> map_to_list (upload_rows s))
  ++ (upload_storage ∘ segment_upload ∘ snd <$> map_to_list (filter (λ '(_, g), reserved g = true) (segments s))).
Definition reconcile_directory (active : list string) (name : string) : program unit :=
  if negb (valid_upload_name name) then Return (Raise (RecordingError "Recording upload storage contains an unknown entry." 503))
  else if bool_decide (name ∈ active) then Return (Ok ())
  else clear_directory name.
Definition reconcile_recording_storage : program unit :=
  names ← look (λ m, Ok (elements (dom (root (on_disk m)))));
  _ ← for_each reconcile_entry names;
  active ← look (λ m, Ok (active_names (committed m)));
  directories ← look (λ m, Ok (elements (dom (upload_directories (on_disk m)))));
  for_each (reconcile_directory active) directories.

(** [maintain_recordings] of [main.py], at the start of the server and every hour *)
Definition DatabaseError : exn := OtherException "DatabaseError".
Definition IntegrityError : exn := OtherException "IntegrityError".
Definition commit_or (undo : program unit) (change : recordings_db → option recordings_db) : program unit :=
  done ← commit change;
  match done with
  | Committed => Return (Ok ())
  | Violated => _ ← undo; Return (Raise IntegrityError)
  | Failed => _ ← undo; Return (Raise DatabaseError)
  end.
Definition restore_all (items : list (string * string)) : program unit := for_each (restore_quarantined_media ∘ snd) (reverse items).
Definition discard_all (items : list (string * string)) : program unit := for_each (discard_quarantined_media ∘ snd) items.
Definition remove_abandoned (us : list (string * upload_row)) (gs : list ((string * Z) * segment_row)) : program unit :=
  for_each remove_upload_files ((snd <$> us) ++ (segment_upload ∘ snd <$> gs)).

(** What maintenance and the reading of the settings do under the policy. *)
Definition retention_pass (cfg : recording_settings) (t : datetime) (policy : retention_row) : program unit :=
  items ← purge_expired_recordings policy t;
  given_up ← look (λ m, Ok (abandoned_uploads cfg t (committed m), abandoned_segments cfg t (committed m)));
  _ ← commit_or (restore_all items) (λ s, Some (abandon given_up.1 given_up.2 t (purged items t (with_retention policy s))));
  _ ← discard_all items;
  remove_abandoned given_up.1 given_up.2.

Definition maintain_recordings (cfg : recording_settings) (t : datetime) : program unit :=
  _ ← reconcile_quarantined_media;
  _ ← reconcile_recording_storage;
  policy ← look (λ m, Ok (initialize_retention_policy t (development_admin_email cfg) (committed m)));
  retention_pass cfg t policy.
