(* ===== verification/StorageFacts.v ===== *)
(** * Facts about names, sums and rows of the recording store *)
From Stdlib Require Import Ascii.
From stdpp Require Import base gmap sets strings numbers pretty list.
From S2P Require Import Prelude FlowTree Schemas Json Crypto Documents Store Drafts Diff Devices Calls Recordings RecordingsFacts Wave Script Storage.

(** ** Names *)

Lemma of_to_bytes s : of_bytes (to_bytes s) = s.
Proof. apply String.string_of_list_ascii_of_string. Qed.
Lemma to_of_bytes l : to_bytes (of_bytes l) = l.
Proof. apply String.list_ascii_of_string_of_list_ascii. Qed.
#[global] Instance to_bytes_inj : Inj (=) (=) to_bytes.
Proof. intros s t H. by rewrite <- (of_to_bytes s), H, of_to_bytes. Qed.

Lemma has_prefix_app p s : has_prefix p (p +:+ s) = true.
Proof. unfold has_prefix, starts_with. rewrite to_bytes_app, take_app_length. by apply bool_decide_true. Qed.
Lemma remove_prefix_app p s : remove_prefix p (p +:+ s) = s.
Proof. unfold remove_prefix. by rewrite has_prefix_app, to_bytes_app, drop_app_length, of_to_bytes. Qed.
Lemma has_prefix_agree p q s : has_prefix p s = true → has_prefix q s = true →
  take (length (to_bytes q)) (to_bytes p) = take (length (to_bytes p)) (to_bytes q).
Proof.
  unfold has_prefix, starts_with. rewrite !bool_decide_eq_true. intros Hp Hq.
  revert Hp Hq. generalize (length (to_bytes p)) (length (to_bytes q)). intros a b <- <-.
  by rewrite !take_take, Nat.min_comm.
Qed.
Lemma has_suffix_app p s : has_suffix p (s +:+ p) = true.
Proof.
  unfold has_suffix. rewrite to_bytes_app, length_app, Nat.add_sub, drop_app_length. by apply bool_decide_true.
Qed.
Lemma has_suffix_prefixed p q s : has_suffix p s = true → has_suffix p (q +:+ s) = true.
Proof.
  unfold has_suffix. rewrite !bool_decide_eq_true, to_bytes_app, length_app. intros Hs.
  assert (length (to_bytes p) ≤ length (to_bytes s)) by (rewrite <- Hs, length_drop; lia).
  rewrite drop_app_ge by lia. by replace (length (to_bytes q) + length (to_bytes s) - length (to_bytes p) - length (to_bytes q))
    with (length (to_bytes s) - length (to_bytes p)) by lia.
Qed.
Lemma has_prefix_head c p s : has_prefix (String c p) s = true → ∃ l, to_bytes s = c :: l.
Proof.
  unfold has_prefix, starts_with. rewrite bool_decide_eq_true. destruct (to_bytes s) as [|d l]; [done|].
  unfold to_bytes. cbn. intros [= -> _]. by exists l.
Qed.

(** A name of the store starts with a digit of its identifier, every other one with a dot. *)
Definition dotted (s : string) : Prop := ∃ l, to_bytes s = "."%char :: l.

Lemma valid_media_name_spec name :
  valid_media_name name = true ↔ length (to_bytes name) = 36 ∧ has_suffix ".rec" name = true ∧ forallb hex_character (take 32 (to_bytes name)) = true.
Proof. unfold valid_media_name. rewrite !andb_true_iff, Nat.eqb_eq. tauto. Qed.

Lemma valid_not_dotted name : valid_media_name name = true → ¬ dotted name.
Proof.
  intros (_ & _ & Hhex)%valid_media_name_spec [l Hl]. rewrite Hl in Hhex. done.
Qed.
Lemma valid_new_media_name u : valid_upload_name u = true → valid_media_name (u +:+ ".rec") = true.
Proof.
  unfold valid_upload_name, hex_name. rewrite andb_true_iff, Nat.eqb_eq. intros [Hlen Hhex].
  apply valid_media_name_spec. rewrite has_suffix_app, to_bytes_app, length_app, Hlen, take_app_length' by done. done.
Qed.
Lemma valid_media_suffix name : valid_media_name name = true → has_suffix ".rec" name = true.
Proof. by intros (_ & ? & _)%valid_media_name_spec. Qed.

Lemma dotted_app p s : dotted (String "." p +:+ s).
Proof. by eexists. Qed.
Lemma prefixed_dotted p s : has_prefix (String "." p) s = true → dotted s.
Proof. apply has_prefix_head. Qed.
Lemma not_prefixed p name : valid_media_name name = true → has_prefix (String "." p) name = false.
Proof.
  intros Hv. apply not_true_is_false. intros Hp. eapply valid_not_dotted; [done|]. by eapply prefixed_dotted.
Qed.
Lemma valid_not_processing name : valid_media_name name = true → name ≠ ".processing".
Proof. intros Hv ->. done. Qed.
#[global] Instance quarantine_name_inj : Inj (=) (=) quarantine_name.
Proof. intros s t H. unfold quarantine_name in H. by rewrite <- (remove_prefix_app ".delete-" s), H, remove_prefix_app. Qed.
Lemma quarantine_dotted name : dotted (quarantine_name name).
Proof. apply dotted_app. Qed.
Lemma quarantine_not_valid n name : valid_media_name n = true → n ≠ quarantine_name name.
Proof. intros Hv ->. eapply valid_not_dotted; [done|]. apply quarantine_dotted. Qed.
Lemma media_not_quarantine s name : ".media-" +:+ s ≠ quarantine_name name.
Proof. done. Qed.

(** ** Sums over a table *)

Section Zsum.
Context {K : Type} `{Countable K} {A : Type} (f : A → Z).
Implicit Types m : gmap K A.

Lemma zsum_insert k x m : m !! k = None → zsum f (<[k := x]> m) = (f x + zsum f m)%Z.
Proof. intros Hk. unfold zsum. rewrite map_fold_insert_L; [done| |done]. intros. lia. Qed.
Lemma zsum_delete k x m : m !! k = Some x → (f x + zsum f (delete k m) = zsum f m)%Z.
Proof.
  intros Hk. rewrite <- (zsum_insert k x (delete k m)) by apply lookup_delete_eq. by rewrite insert_delete_id.
Qed.
Lemma zsum_delete_le k m : (∀ i x, m !! i = Some x → 0 ≤ f x)%Z → (zsum f (delete k m) ≤ zsum f m)%Z.
Proof.
  intros Hf. destruct (m !! k) as [x|] eqn:Hk; [|by rewrite delete_id].
  pose proof (zsum_delete _ _ _ Hk). specialize (Hf _ _ Hk). lia.
Qed.
Lemma zsum_alter g k x m : m !! k = Some x → (zsum f (alter g k m) = zsum f m - f x + f (g x))%Z.
Proof.
  intros Hk. pose proof (zsum_delete k x m Hk) as Hd.
  pose proof (zsum_delete k (g x) (alter g k m)) as Ha. rewrite lookup_alter_eq, Hk, delete_alter_eq in Ha.
  specialize (Ha eq_refl). lia.
Qed.
Lemma zsum_alter_le g k m : (∀ x, m !! k = Some x → f (g x) ≤ f x)%Z → (zsum f (alter g k m) ≤ zsum f m)%Z.
Proof.
  intros Hg. destruct (m !! k) as [x|] eqn:Hk.
  - rewrite (zsum_alter _ _ _ _ Hk). specialize (Hg _ eq_refl). lia.
  - by rewrite alter_id by (intros; congruence).
Qed.
End Zsum.

(** ** Owners *)

Lemma head_map_to_list_filter {A} (P : string * A → Prop) `{∀ x, Decision (P x)} (m : gmap string A) :
  head (map_to_list (filter P m)) = None → ∀ k x, m !! k = Some x → ¬ P (k, x).
Proof.
  intros Hh k x Hk HP. destruct (map_to_list (filter P m)) as [|p l] eqn:Hl; [|done].
  assert ((k, x) ∈ map_to_list (filter P m)) as Hin by by apply elem_of_map_to_list, map_lookup_filter_Some.
  rewrite Hl in Hin. by apply elem_of_nil in Hin.
Qed.
Lemma owner_of_none name (allowed : recording_row → Prop) `{∀ r, Decision (allowed r)} s id r :
  owner_of name allowed s = None → recordings s !! id = Some r → allowed r → media_storage_name (media_of r) ≠ Some name.
Proof. intros Ho Hr Ha Hn. by eapply (head_map_to_list_filter _ _ Ho id r Hr). Qed.
Lemma owner_of_some name (allowed : recording_row → Prop) `{∀ r, Decision (allowed r)} s id r :
  owner_of name allowed s = Some (id, r) → recordings s !! id = Some r ∧ media_storage_name (media_of r) = Some name ∧ allowed r.
Proof.
  unfold owner_of. intros Hh. destruct (map_to_list _) as [|p l] eqn:Hl; [done|]. injection Hh as ->.
  assert ((id, r) ∈ (id, r) :: l) as Hin by by left. rewrite <- Hl in Hin.
  by apply elem_of_map_to_list, map_lookup_filter_Some in Hin.
Qed.

(** ** Who holds a directory of chunks *)

Definition holds (s : recordings_db) (k : string + string * Z) (name : string) : Prop :=
  match k with
  | inl id => ∃ u, upload_rows s !! id = Some u ∧ upload_storage u = name
  | inr k => ∃ g, segments s !! k = Some g ∧ reserved g = true ∧ upload_storage (segment_upload g) = name
  end.
Lemma elem_of_active_names name s : name ∈ active_names s ↔ ∃ k, holds s k name.
Proof.
  unfold active_names. rewrite elem_of_app, !list_elem_of_fmap. split.
  - intros [([id u] & -> & Hu%elem_of_map_to_list)|([k g] & -> & Hg%elem_of_map_to_list)].
    + exists (inl id), u. done.
    + apply map_lookup_filter_Some in Hg as [Hg ?]. exists (inr k), g. done.
  - intros [[id|k] Hk].
    + destruct Hk as (u & Hu & <-). left. exists (id, u). split; [done|]. by apply elem_of_map_to_list.
    + destruct Hk as (g & Hg & Hr & <-). right. exists (k, g). split; [done|].
      by apply elem_of_map_to_list, map_lookup_filter_Some.
Qed.

(** ** Rows changed one after the other *)

Section Fold.
Context {K : Type} `{Countable K} {A B : Type} (g : A → A).
Implicit Types m : gmap K A.

Definition alter_all (m : gmap K A) (l : list (K * B)) : gmap K A := foldr (λ item rows, alter g item.1 rows) m l.

Lemma alter_all_none m l k : alter_all m l !! k = None ↔ m !! k = None.
Proof.
  unfold alter_all. induction l as [|[i y] l IH]; simpl; [done|]. rewrite lookup_alter_None. exact IH.
Qed.
Lemma alter_all_some m l k x' :
  alter_all m l !! k = Some x' → ∃ x, m !! k = Some x ∧ ((k ∉ l.*1) ∧ x' = x ∨ k ∈ l.*1 ∧ (∃ y, x' = g y)).
Proof.
  unfold alter_all. revert x'. induction l as [|[i y] l IH]; csimpl; intros x' Hk.
  - exists x'. split; [done|]. left. split; [apply not_elem_of_nil|done].
  - destruct (decide (i = k)) as [->|Hne].
    + rewrite lookup_alter_eq in Hk. destruct (foldr _ m l !! k) as [z|] eqn:Hz; [|done]. injection Hk as <-.
      destruct (IH z eq_refl) as (x & Hx & _). exists x. split; [done|]. right. split; [by left|by exists z].
    + rewrite lookup_alter_ne in Hk by done. destruct (IH x' Hk) as (x & Hx & [[? ->]|[? Hy]]); exists x; split; try done.
      * left. by rewrite not_elem_of_cons.
      * right. split; [by right|done].
Qed.
(** A property of the rows that a change keeps holds of the changed row. *)
Lemma alter_all_keeps (P : K → A → Prop) m l :
  (∀ k x, P k x → P k (g x)) → (∀ k x, m !! k = Some x → P k x) → ∀ k x, alter_all m l !! k = Some x → P k x.
Proof.
  intros Hg Hm. unfold alter_all. induction l as [|[i y] l IH]; simpl; [done|]. intros k x Hk.
  destruct (decide (i = k)) as [->|Hne].
  - rewrite lookup_alter_eq in Hk. destruct (foldr _ m l !! k) as [z|] eqn:Hz; [|done]. injection Hk as <-. by apply Hg, (IH k z).
  - rewrite lookup_alter_ne in Hk by done. by apply IH.
Qed.
Lemma zsum_alter_all (f : A → Z) (P : A → Prop) m l :
  (∀ k x, m !! k = Some x → P x) → (∀ x, P x → P (g x) ∧ (f (g x) ≤ f x)%Z) → (zsum f (alter_all m l) ≤ zsum f m)%Z.
Proof.
  intros Hm Hg. unfold alter_all. induction l as [|[i y] l IH]; simpl; [done|]. etrans; [|exact IH].
  apply zsum_alter_le. intros x Hx. apply Hg.
  apply (alter_all_keeps (λ _, P) m l (λ _ x Hx, proj1 (Hg x Hx)) Hm i x). exact Hx.
Qed.
End Fold.
