(* ===== verification/StorageInvariant.v ===== *)
(** * What every interruption leaves intact

    The invariant of the recording store: every finished recording has its file, in its place
    or in quarantine, and can be played; every reserved upload has its directory; what was
    acknowledged of a continuous recording is there until the recording is accepted; and the
    space in use stays within the quota. *)
From Stdlib Require Import Ascii.
From stdpp Require Import base gmap sets strings numbers pretty list.
From S2P Require Import Prelude FlowTree Schemas Json Crypto Documents Store Drafts Diff Devices Calls Recordings RecordingsFacts RecordingsCorrect Wave Script Storage StorageFacts.

(** What a tablet sends of a continuous recording, the most it sends at once, and how many bytes
    the server has said it holds. *)
Record spool := { audio : bytes; chunk_bytes : nat; told : nat }.

Section Invariant.
Context `{Cryptography} `{KeyDerivation} (c : recording_cipher) (quota : Z) (spools : string → spool).

(** The payload is what the row describes. *)
Definition playable (id : string) (r : recording_row) (payload : bytes) : Prop :=
  ∃ p v, media_size_bytes (media_of r) = Some (Z.of_nat (length payload)) ∧ media_key_version (media_of r) = Some v ∧
    media_version payload = Ok v ∧ decrypt_media c id payload = Ok p ∧ media_sha256 (media_of r) = Some (sha256_hexdigest p).

(** The file is in its place or in quarantine. *)
Definition stored (name : string) (payload : bytes) (d : disk) : Prop :=
  root d !! name = Some (PrivateFile payload) ∧ root d !! quarantine_name name = None ∨
  root d !! quarantine_name name = Some (PrivateFile payload) ∧ root d !! name = None.

Definition known_entry (name : string) (e : root_entry) : Prop :=
  match e with
  | PrivateDirectory => name = ".processing" ∨ has_prefix ".conversation-" name = true ∨ has_prefix ".verify-segment-" name = true
  | PrivateFile _ => valid_media_name name = true ∨ has_prefix ".media-" name = true ∨ has_prefix ".playback-" name = true
                     ∨ ∃ n, valid_media_name n = true ∧ name = quarantine_name n
  end.

(** The upload of a continuous recording that is not accepted. *)
Definition waiting (s : recordings_db) (id : string) (u : upload_row) : Prop :=
  ∃ x, continuous s !! id = Some x ∧ accepted_at x = None ∧ upload_rows s !! id = Some u.
(** A piece of the tablet's audio, *)
Definition piece (id : string) (offset : Z) (p : bytes) : Prop :=
  p `prefix_of` drop (Z.to_nat offset) (audio (spools id)) ∧ length p ≤ chunk_bytes (spools id).
(** and what the directory of an upload holds of them. *)
Definition received (id : string) (u : upload_row) (chunks : chunk_directory) (content : bytes) : Prop :=
  upload_invariant c id (piece id) (expected_size_bytes u) (upload_sha256 u) (upload_storage u) u chunks content.
Definition at_work (x : continuous_row) : Prop := continuous_state x ∈ [Queued; ContinuousProcessing; Retrying].

Definition sound_receipt (s : recordings_db) (id : string) (x : continuous_row) : Prop :=
  ∃ r, recordings s !! id = Some r ∧ source_format (capture_of r) ≠ "legacy_wav" ∧
    match accepted_at x with
    | Some _ => (rec_status r = Ready ∨ rec_status r = Deleted) ∧ upload_rows s !! id = None ∧ ¬ at_work x
    | None => rec_status r ≠ Ready ∧ rec_status r ≠ Deleted ∧
        ∃ u, upload_rows s !! id = Some u ∧ expected_size_bytes u = source_size_bytes (source_of r) ∧
          (at_work x → upload_offset u = expected_size_bytes u)
    end.
Definition sound_receipts (s : recordings_db) : Prop := ∀ id x, continuous s !! id = Some x → sound_receipt s id x.

Record sound_rows (s : recordings_db) : Prop := {
  unique_media i j q r name :
    recordings s !! i = Some q → recordings s !! j = Some r →
    media_storage_name (media_of q) = Some name → media_storage_name (media_of r) = Some name → i = j;
  media_valid i r name : recordings s !! i = Some r → media_storage_name (media_of r) = Some name → valid_media_name name = true;
  unique_holder k l name : holds s k name → holds s l name → k = l;
  valid_holder k name : holds s k name → valid_upload_name name = true;
  upload_size id u : upload_rows s !! id = Some u → (0 ≤ expected_size_bytes u)%Z;
  segment_size k g : segments s !! k = Some g → (0 ≤ expected_size_bytes (segment_upload g))%Z;
  within_quota : (recording_used_bytes None None s ≤ quota)%Z;
  receipts_sound : sound_receipts s;
}.

Record consistent (d : disk) (s : recordings_db) : Prop := {
  rows_sound : sound_rows s;
  known_root name e : root d !! name = Some e → known_entry name e;
  known_directory name chunks : upload_directories d !! name = Some chunks → valid_upload_name name = true;
  ready_stored id r : recordings s !! id = Some r → rec_status r = Ready →
    ∃ name payload, media_storage_name (media_of r) = Some name ∧ valid_media_name name = true ∧ stored name payload d ∧
      playable id r payload;
  held_directory k name : holds s k name → is_Some (upload_directories d !! name);
  source_kept id u : waiting s id u →
    ∃ chunks content, upload_directories d !! upload_storage u = Some chunks ∧ received id u chunks content ∧ told (spools id) ≤ length content;
  told_known id : 0 < told (spools id) → is_Some (continuous s !! id);
}.
Definition invariant (m : host) : Prop := consistent (on_disk m) (committed m).

Lemma waiting_holds s id u : waiting s id u → holds s (inl id) (upload_storage u).
Proof. intros (x & _ & _ & Hu). by exists u. Qed.
Lemma legacy_not_continuous d s id r :
  consistent d s → recordings s !! id = Some r → source_format (capture_of r) = "legacy_wav" → continuous s !! id = None.
Proof.
  intros Hc Hid Hf. destruct (continuous s !! id) as [x|] eqn:Hx; [|done].
  destruct (receipts_sound _ (rows_sound _ _ Hc) id x Hx) as (q & Hq & Hn & _). congruence.
Qed.
Lemma absent_not_continuous d s id : consistent d s → recordings s !! id = None → continuous s !! id = None.
Proof.
  intros Hc Hid. destruct (continuous s !! id) as [x|] eqn:Hx; [|done].
  destruct (receipts_sound _ (rows_sound _ _ Hc) id x Hx) as (q & Hq & _). congruence.
Qed.
Lemma not_waiting s id : continuous s !! id = None → ∀ u, ¬ waiting s id u.
Proof. intros Hx u (x & Hx' & _). congruence. Qed.
(** Only its own upload holds the directory of a recording. *)
Lemma waiting_other d s k name id u :
  consistent d s → holds s k name → k ≠ inl id → waiting s id u → upload_storage u ≠ name.
Proof. intros Hc Hk Hne Hw <-. apply Hne. eapply (unique_holder _ (rows_sound _ _ Hc)); [exact Hk|exact (waiting_holds _ _ _ Hw)]. Qed.

(** ** Changes of the disk *)

Lemma consistent_disk d d' s :
  consistent d s →
  (∀ name e, root d' !! name = Some e → known_entry name e) →
  (∀ name chunks, upload_directories d' !! name = Some chunks → valid_upload_name name = true) →
  (∀ id r name payload, recordings s !! id = Some r → rec_status r = Ready → media_storage_name (media_of r) = Some name →
     valid_media_name name = true → stored name payload d → stored name payload d') →
  (∀ k name, holds s k name → is_Some (upload_directories d' !! name)) →
  (∀ id u, waiting s id u → upload_directories d' !! upload_storage u = upload_directories d !! upload_storage u) →
  consistent d' s.
Proof.
  intros [Hs Hk Hd Hr Hh Hw Ha] Hroot Hdir Hstored Hheld Hkept. split; [done..| |done| |done].
  2:{ intros id u Hu. destruct (Hw id u Hu) as (chunks & content & Hch & Hc). exists chunks, content. by rewrite (Hkept id u Hu). }
  intros id r Hid Hready. destruct (Hr id r Hid Hready) as (name & payload & Hn & Hv & Hst & Hp).
  exists name, payload. split_and!; [done..| |done]. by eapply Hstored.
Qed.

(** No finished recording is played from a file of this name. *)
Definition unowned (name : string) (s : recordings_db) : Prop :=
  ∀ id r n, recordings s !! id = Some r → rec_status r = Ready → media_storage_name (media_of r) = Some n →
    valid_media_name n = true → name ≠ n ∧ name ≠ quarantine_name n.

Lemma consistent_root d s m :
  consistent d s → (∀ name e, m !! name = Some e → known_entry name e) →
  (∀ id r n, recordings s !! id = Some r → rec_status r = Ready → media_storage_name (media_of r) = Some n →
     valid_media_name n = true → m !! n = root d !! n ∧ m !! quarantine_name n = root d !! quarantine_name n) →
  consistent (with_root m d) s.
Proof.
  intros Hc Hm Hsame. eapply consistent_disk; [done|done|apply Hc| |apply Hc|done].
  intros id r name payload Hid Hr Hn Hv. unfold stored. cbn [root with_root].
  destruct (Hsame id r name Hid Hr Hn Hv) as [Hs Hq]. by rewrite Hs, Hq.
Qed.

Lemma consistent_unlink d s name : consistent d s → unowned name s → consistent (unlink name d) s.
Proof.
  intros Hc Hu. apply consistent_root; [done| |].
  - intros n e [_ He]%lookup_delete_Some. by eapply known_root.
  - intros id r n Hid Hr Hn Hv. destruct (Hu id r n Hid Hr Hn Hv). by rewrite !lookup_delete_ne by done.
Qed.
Lemma consistent_write d s name e :
  consistent d s → unowned name s → known_entry name e → consistent (with_root (<[name := e]> (root d)) d) s.
Proof.
  intros Hc Hu He. apply consistent_root; [done| |].
  - intros n e' [[<- <-]|[_ ?]]%lookup_insert_Some; [done|by eapply known_root].
  - intros id r n Hid Hr Hn Hv. destruct (Hu id r n Hid Hr Hn Hv). by rewrite !lookup_insert_ne by done.
Qed.

Lemma unowned_dotted name s : (∀ n, name ≠ quarantine_name n) → dotted name → unowned name s.
Proof. intros Hq Hd id r n _ _ _ Hv. split; [|done]. intros ->. by eapply valid_not_dotted. Qed.
Lemma unowned_media name s :
  valid_media_name name = true →
  (∀ id r, recordings s !! id = Some r → rec_status r = Ready → media_storage_name (media_of r) ≠ Some name) → unowned name s.
Proof. intros Hv Hn id r n Hid Hr Hs Hv'. split; [intros ->; by eapply Hn|by apply quarantine_not_valid]. Qed.
Lemma unowned_quarantine name s :
  (∀ id r, recordings s !! id = Some r → rec_status r = Ready → media_storage_name (media_of r) ≠ Some name) →
  unowned (quarantine_name name) s.
Proof.
  intros Hn id r n Hid Hr Hs Hv'. split; [by intros <-; eapply (quarantine_not_valid _ name)|].
  intros <-%(inj quarantine_name). by eapply Hn.
Qed.

(** A file goes from its place to quarantine or back. *)
Lemma replace_ok a b d d' : replace a b d = Ok d' → ∃ e, root d !! a = Some e ∧ d' = with_root (<[b := e]> (delete a (root d))) d.
Proof.
  unfold replace. destruct (root d !! a) as [e|]; [|done]. intros Hr. exists e. split; [done|].
  by destruct (root d !! b) as [[]|]; simplify_eq.
Qed.
Lemma consistent_swap d s a b name payload :
  consistent d s → valid_media_name name = true → (a = name ∧ b = quarantine_name name ∨ a = quarantine_name name ∧ b = name) →
  root d !! a = Some (PrivateFile payload) → root d !! b = None →
  consistent (with_root (<[b := PrivateFile payload]> (delete a (root d))) d) s.
Proof.
  intros Hc Hv Hab Ha Hb.
  assert (a ≠ b) as Hne by congruence.
  eapply consistent_disk; [done| |apply Hc| |apply Hc|done].
  - intros n e He. cbn [root with_root] in He. apply lookup_insert_Some in He as [[<- <-]|[_ [_ He]%lookup_delete_Some]]; [|by eapply known_root].
    destruct Hab as [[_ ->]|[_ ->]]; simpl; [right; right; right; by exists name|by left].
  - intros id r n p Hid Hr Hn Hvn Hst. unfold stored in *. cbn [root with_root].
    pose proof (quarantine_not_valid n name Hvn) as Hq1. pose proof (quarantine_not_valid name n Hv) as Hq2.
    pose proof (quarantine_not_valid n n Hvn) as Hq3.
    destruct (decide (n = name)) as [->|Hnn].
    + destruct Hab as [[-> ->]|[-> ->]].
      * right. rewrite lookup_insert_eq, lookup_insert_ne, lookup_delete_eq by congruence. naive_solver.
      * left. rewrite lookup_insert_eq, lookup_insert_ne, lookup_delete_eq by congruence. naive_solver.
    + assert (quarantine_name n ≠ quarantine_name name) as Hqq by (by intros ?%(inj quarantine_name)).
      destruct Hab as [[-> ->]|[-> ->]]; rewrite !lookup_insert_ne, !lookup_delete_ne by congruence; done.
Qed.

(** ** Changes of the directories *)

Lemma consistent_directories d s m :
  consistent d s → (∀ name chunks, m !! name = Some chunks → valid_upload_name name = true) →
  (∀ k name, holds s k name → is_Some (m !! name)) →
  (∀ id u, waiting s id u → m !! upload_storage u = upload_directories d !! upload_storage u) → consistent (with_directories m d) s.
Proof. intros Hc Hm Hh Hw. eapply consistent_disk; [done|apply Hc|done|done|done|done]. Qed.
Lemma consistent_directory_insert d s name chunks :
  consistent d s → valid_upload_name name = true → (∀ id u, waiting s id u → upload_storage u ≠ name) →
  consistent (with_directories (<[name := chunks]> (upload_directories d)) d) s.
Proof.
  intros Hc Hv Hw. apply consistent_directories; [done| | |].
  - intros n ch [[<- _]|[_ ?]]%lookup_insert_Some; [done|by eapply known_directory].
  - intros k n Hk. destruct (decide (name = n)) as [->|Hne]; [by rewrite lookup_insert_eq|].
    rewrite lookup_insert_ne by done. by eapply held_directory.
  - intros id u Hu%Hw. by rewrite lookup_insert_ne.
Qed.
Lemma consistent_directory_alter d s name f :
  consistent d s → (∀ id u, waiting s id u → upload_storage u ≠ name) →
  consistent (with_directories (alter f name (upload_directories d)) d) s.
Proof.
  intros Hc Hw. apply consistent_directories; [done| | |].
  - intros n ch Hn. destruct (decide (name = n)) as [->|Hne].
    + rewrite lookup_alter_eq in Hn. destruct (upload_directories d !! n) eqn:Hd; [|done]. by eapply known_directory.
    + rewrite lookup_alter_ne in Hn by done. by eapply known_directory.
  - intros k n Hk. pose proof (held_directory _ _ Hc k n Hk) as Hs. destruct (decide (name = n)) as [->|Hne].
    + rewrite lookup_alter_eq. destruct Hs as [? ->]. by eexists.
    + by rewrite lookup_alter_ne.
  - intros id u Hu%Hw. by rewrite lookup_alter_ne.
Qed.
Lemma consistent_directory_delete d s name :
  consistent d s → (∀ k, ¬ holds s k name) → consistent (with_directories (delete name (upload_directories d)) d) s.
Proof.
  intros Hc Hn. apply consistent_directories; [done| | |].
  - intros n ch [_ ?]%lookup_delete_Some. by eapply known_directory.
  - intros k n Hk. destruct (decide (name = n)) as [->|Hne]; [by destruct (Hn k)|].
    rewrite lookup_delete_ne by done. by eapply held_directory.
  - intros id u Hu%waiting_holds. rewrite lookup_delete_ne; [done|]. intros ->. by eapply Hn.
Qed.
End Invariant.
