(* ===== verification/StorageCorrect.v ===== *)
(** * The invariant through the service's operations *)
From Stdlib Require Import Ascii.
From stdpp Require Import base gmap sets strings numbers pretty list.
From S2P Require Import Prelude FlowTree Schemas Json Crypto Documents Store Drafts Diff Devices Calls Recordings RecordingsFacts Wave Script Storage StorageFacts StorageInvariant.

Section Operations.
Context `{Cryptography} `{KeyDerivation} (c : recording_cipher) (quota : Z) (spools : string → spool).
Abbreviation consistent := (consistent c quota spools).
Abbreviation sound_rows := (sound_rows quota).
Abbreviation invariant := (invariant c quota spools).

(** ** Rows *)

Lemma consistent_rows d s s' :
  consistent d s → sound_rows s' →
  (∀ id r', recordings s' !! id = Some r' → rec_status r' = Ready →
     ∃ r, recordings s !! id = Some r ∧ rec_status r = Ready ∧ media_of r = media_of r') →
  (∀ k name, holds s' k name → holds s k name) →
  (∀ id u, waiting s' id u → waiting s id u) → (∀ id, is_Some (continuous s !! id) → is_Some (continuous s' !! id)) → consistent d s'.
Proof using Type.
  intros Hc Hs Hready Hheld Hwait Hknown. split; [done|apply Hc|apply Hc| | | |].
  - intros id r' Hid Hr'. destruct (Hready id r' Hid Hr') as (r & Hr & Hst & Hm).
    destruct (ready_stored _ _ _ _ _ Hc id r Hr Hst) as (name & payload & Hn & Hv & Hd & Hp).
    exists name, payload. unfold playable in *. rewrite <- Hm. done.
  - intros k name Hk%Hheld. by eapply held_directory.
  - intros id u Hu%Hwait. by eapply source_kept.
  - intros id Hid. by eapply Hknown, told_known.
Qed.

(** Rows of continuous recordings stay as they are, but for the deletion of a finished one. *)
Lemma sound_receipts_change s s' :
  sound_receipts s → continuous s' = continuous s →
  (∀ id x r, continuous s !! id = Some x → recordings s !! id = Some r →
     upload_rows s' !! id = upload_rows s !! id ∧
     ∃ r', recordings s' !! id = Some r' ∧ capture_of r' = capture_of r ∧
       source_size_bytes (source_of r') = source_size_bytes (source_of r) ∧
       (rec_status r' = rec_status r ∨ rec_status r = Ready ∧ rec_status r' = Deleted)) →
  sound_receipts s'.
Proof using Type.
  intros Hs Hcont Hrows id x Hx. rewrite Hcont in Hx. destruct (Hs id x Hx) as (r & Hr & Hf & Hx').
  destruct (Hrows id x r Hx Hr) as (Hup & r' & Hr' & Hcap & Hsize & Hst). exists r'. split; [done|]. rewrite Hcap. split; [done|].
  destruct (accepted_at x); [rewrite Hup; destruct Hx' as (? & ? & ?); split_and!; [destruct Hst as [->|[_ ?]]; [done|by right]|done|done]|]. destruct Hx' as (Hnr & Hnd & u & Hu & Hex & Hw).
  destruct Hst as [Hst|[? _]]; [|done]. rewrite Hst. split_and!; [done..|]. exists u. rewrite Hup, Hsize. done.
Qed.
Lemma waiting_same s s' id u :
  continuous s' = continuous s → (∀ x, continuous s !! id = Some x → upload_rows s' !! id = upload_rows s !! id) →
  waiting s' id u → waiting s id u.
Proof using Type. intros Hc Hu (x & Hx & Ha & Hup). rewrite Hc in Hx. exists x. rewrite <- (Hu x Hx). done. Qed.

Lemma sound_rows_change s s' :
  sound_rows s →
  (∀ id r' name, recordings s' !! id = Some r' → media_storage_name (media_of r') = Some name →
     ∃ r, recordings s !! id = Some r ∧ media_storage_name (media_of r) = Some name) →
  (∀ k name, holds s' k name → holds s k name) →
  (∀ id u, upload_rows s' !! id = Some u → 0 ≤ expected_size_bytes u)%Z →
  (∀ k g, segments s' !! k = Some g → 0 ≤ expected_size_bytes (segment_upload g))%Z →
  (recording_used_bytes None None s' ≤ recording_used_bytes None None s)%Z → sound_receipts s' → sound_rows s'.
Proof using Type.
  intros Hs Hname Hheld Hu Hg Hused Hrec. split; [| | | |done|done|etrans; [exact Hused|apply Hs]|done].
  - intros i j q r name Hi Hj Hq Hr. destruct (Hname i q name Hi Hq) as (q' & ? & ?).
    destruct (Hname j r name Hj Hr) as (r' & ? & ?). by eapply unique_media.
  - intros i r name Hi Hr. destruct (Hname i r name Hi Hr) as (q & ? & ?). by eapply media_valid.
  - intros k l name ?%Hheld ?%Hheld. by eapply unique_holder.
  - intros k name ?%Hheld. by eapply valid_holder.
Qed.

Lemma ready_bytes_nonneg d s id r : consistent d s → recordings s !! id = Some r → (0 ≤ ready_bytes r)%Z.
Proof using Type.
  intros Hc Hr. unfold ready_bytes. case_decide as Hst; [|done].
  destruct (ready_stored _ _ _ _ _ Hc id r Hr Hst) as (name & payload & _ & _ & _ & p & v & -> & _). simpl. lia.
Qed.

Lemma consistent_alter d s id g :
  consistent d s →
  (∀ r, recordings s !! id = Some r → (media_of (g r) = media_of r ∧ (rec_status (g r) = Ready ↔ rec_status r = Ready)) ∨
     (media_of (g r) = no_media ∧ rec_status (g r) ≠ Ready)) →
  (continuous s !! id = None ∨ ∀ r, recordings s !! id = Some r →
     capture_of (g r) = capture_of r ∧ source_size_bytes (source_of (g r)) = source_size_bytes (source_of r) ∧
     (rec_status (g r) = rec_status r ∨ rec_status r = Ready ∧ rec_status (g r) = Deleted)) →
  consistent d (with_recordings (alter g id (recordings s)) s).
Proof using Type.
  intros Hc Hg Hcont.
  assert (∀ i r', alter g id (recordings s) !! i = Some r' →
    ∃ r, recordings s !! i = Some r ∧ (r' = r ∨ i = id ∧ r' = g r)) as Hlook.
  { intros i r' Hi. destruct (decide (id = i)) as [->|Hne].
    - rewrite lookup_alter_eq in Hi. destruct (recordings s !! i) as [r|]; [|done]. injection Hi as <-. exists r. auto.
    - rewrite lookup_alter_ne in Hi by done. exists r'. auto. }
  apply (consistent_rows d s); [done| | |done|done|done].
  - apply (sound_rows_change s); [apply Hc| |done|apply Hc|apply Hc| |].
    + intros i r' name (r & Hr & [->|[-> ->]])%Hlook Hn; [by exists r|].
      exists r. split; [done|]. destruct (Hg r Hr) as [[<- _]|[Hm _]]; [done|]. by rewrite Hm in Hn.
    + unfold recording_used_bytes. cbn [recordings upload_rows segments with_recordings].
      assert (zsum ready_bytes (alter g id (recordings s)) ≤ zsum ready_bytes (recordings s))%Z; [|lia].
      apply zsum_alter_le. intros r Hr. pose proof (ready_bytes_nonneg d s id r Hc Hr) as Hn. unfold ready_bytes in *.
      destruct (Hg r Hr) as [[-> Hst]|[-> Hst]]; repeat case_decide; naive_solver.
    + apply (sound_receipts_change s); [apply Hc|done|]. intros i x r Hx Hr. split; [done|]. cbn [recordings with_recordings].
      destruct (decide (id = i)) as [->|Hne]; [|rewrite lookup_alter_ne by done; exists r; auto].
      rewrite lookup_alter_eq, Hr. exists (g r). split; [done|]. destruct Hcont as [?|Hcont]; [congruence|auto].
  - intros i r' (r & Hr & [->|[-> ->]])%Hlook Hst; [by exists r|]. exists r. split; [done|].
    destruct (Hg r Hr) as [[-> ?]|[_ ?]]; naive_solver.
Qed.

(** A recording becomes ready; what it took before may be given up with it. *)
Lemma consistent_ready d s s' id row g name payload :
  consistent d s → recordings s !! id = Some row → recordings s' = alter g id (recordings s) →
  (∀ i u, upload_rows s' !! i = Some u → upload_rows s !! i = Some u) → segments s' = segments s →
  (∀ i u, waiting s' i u → waiting s i u) → (∀ i, is_Some (continuous s !! i) → is_Some (continuous s' !! i)) → sound_receipts s' →
  (∀ i q, i ≠ id → recordings s !! i = Some q → media_storage_name (media_of q) ≠ Some name) →
  media_storage_name (media_of (g row)) = Some name → valid_media_name name = true → stored name payload d →
  playable c id (g row) payload → (recording_used_bytes None None s' ≤ quota)%Z → consistent d s'.
Proof using Type.
  intros Hc Hid Hrec Hup Hseg Hwait Hknown Hreceipts Hfree Hname Hv Hst Hplay Hquota.
  assert (∀ i q, recordings s' !! i = Some q → i = id ∧ q = g row ∨ i ≠ id ∧ recordings s !! i = Some q) as Hlook.
  { rewrite Hrec. intros i q Hi. destruct (decide (id = i)) as [<-|Hne].
    - rewrite lookup_alter_eq, Hid in Hi. injection Hi as <-. by left.
    - rewrite lookup_alter_ne in Hi by done. by right. }
  assert (∀ k n, holds s' k n → holds s k n) as Hheld.
  { intros [i|k] n; unfold holds; rewrite ?Hseg; [|done]. intros (v & Hv' & <-). exists v. auto. }
  split; [split|apply Hc|apply Hc| | | |].
  - intros i j q q' n Hi Hj Hqn Hqn'.
    destruct (Hlook i q Hi) as [[-> ->]|[Hi1 Hi2]], (Hlook j q' Hj) as [[-> ->]|[Hj1 Hj2]]; [done| | |].
    + assert (n = name) as -> by congruence. by destruct (Hfree j q').
    + assert (n = name) as -> by congruence. by destruct (Hfree i q).
    + by eapply (unique_media _ _ (rows_sound _ _ _ _ _ Hc)).
  - intros i q n Hi Hqn. destruct (Hlook i q Hi) as [[-> ->]|[_ Hi2]]; [congruence|]. by eapply (media_valid _ _ (rows_sound _ _ _ _ _ Hc)).
  - intros k l n ?%Hheld ?%Hheld. by eapply (unique_holder _ _ (rows_sound _ _ _ _ _ Hc)).
  - intros k n ?%Hheld. by eapply (valid_holder _ _ (rows_sound _ _ _ _ _ Hc)).
  - intros i v Hi%Hup. by eapply (upload_size _ _ (rows_sound _ _ _ _ _ Hc)).
  - rewrite Hseg. apply Hc.
  - done.
  - done.
  - intros i q Hi Hready. destruct (Hlook i q Hi) as [[-> ->]|[_ Hi']].
    + exists name, payload. done.
    + by apply (ready_stored _ _ _ _ _ Hc).
  - intros k n Hk%Hheld. by eapply held_directory.
  - intros i v Hw%Hwait. by eapply source_kept.
  - intros i Hi. by eapply Hknown, told_known.
Qed.

(** ** Retention *)

(** The files whose recordings are about to be given up. *)
Definition quarantined_items (s : recordings_db) (items : list (string * string)) : Prop :=
  ∀ id name, (id, name) ∈ items → ∃ r, recordings s !! id = Some r ∧ media_storage_name (media_of r) = Some name ∧
    valid_media_name name = true ∧ rec_status r = Ready.

Lemma consistent_purged d s items t :
  consistent d s → quarantined_items s items → consistent d (purged items t s).
Proof using Type.
  intros Hc Hitems. set (g := tombstone_recording "retention" t).
  change (purged items t s) with (with_recordings (alter_all g (recordings s) items) s).
  assert (∀ id r', alter_all g (recordings s) items !! id = Some r' →
    ∃ r, recordings s !! id = Some r ∧ (r' = r ∨ ∃ y, r' = g y)) as Hlook.
  { intros id r' (r & ? & Hr)%alter_all_some. exists r. naive_solver. }
  apply (consistent_rows d s); [done| | |done|done|done].
  - apply (sound_rows_change s); [apply Hc| |done|apply Hc|apply Hc| |].
    + intros id r' name (r & ? & [->|[y ->]])%Hlook Hn; [by exists r|done].
    + unfold recording_used_bytes. cbn [recordings upload_rows segments with_recordings].
      assert (zsum ready_bytes (alter_all g (recordings s) items) ≤ zsum ready_bytes (recordings s))%Z; [|lia].
      apply (zsum_alter_all g ready_bytes (λ r, 0 ≤ ready_bytes r)%Z).
      * intros id r. by apply (ready_bytes_nonneg d).
      * intros r Hr. split; [done|]. done.
    + apply (sound_receipts_change s); [apply Hc|done|]. intros i x r Hx Hr. split; [done|]. cbn [recordings with_recordings].
      destruct (decide (i ∈ items.*1)) as [Hin|Hnot].
      * apply list_elem_of_fmap in Hin as ([j name] & -> & Hin). destruct (Hitems j name Hin) as (q & Hq & _ & _ & Hready).
        cbn [fst] in *. assert (q = r) as -> by congruence.
        destruct (alter_all_keeps g (λ k q, k = j → capture_of q = capture_of r ∧ source_size_bytes (source_of q) = source_size_bytes (source_of r)
          ∧ (rec_status q = Ready ∨ rec_status q = Deleted)) (recordings s) items) with (k := j) (x := default r (alter_all g (recordings s) items !! j))
          as (? & ? & ?); [| | |done|].
        -- intros k q' IH ->. destruct (IH eq_refl) as (? & ? & _). cbn. auto.
        -- intros k q' Hq' ->. assert (q' = r) as -> by congruence. auto.
        -- destruct (alter_all g (recordings s) items !! j) as [r'|] eqn:Hr'; [done|]. by rewrite alter_all_none, Hr in Hr'.
        -- destruct (alter_all g (recordings s) items !! j) as [r'|] eqn:Hr'; [|by rewrite alter_all_none, Hr in Hr'].
           exists r'. rewrite Hready. split_and!; naive_solver.
      * exists r. split; [|auto]. destruct (alter_all g (recordings s) items !! i) as [r'|] eqn:Hr'; [|by rewrite alter_all_none, Hr in Hr'].
        apply alter_all_some in Hr' as (q & Hq & [[_ ->]|[? _]]); [|done]. congruence.
  - intros id r' (r & Hr & [->|[y ->]])%Hlook Hst; [by exists r|done].
Qed.

Lemma unowned_purged s items t :
  sound_rows s → quarantined_items s items → ∀ id name, (id, name) ∈ items → unowned (quarantine_name name) (purged items t s).
Proof using Type.
  intros Hs Hitems id name Hin. apply unowned_quarantine. intros i r' Hi Hst Hn.
  change (purged items t s) with (with_recordings (alter_all (tombstone_recording "retention" t) (recordings s) items) s) in Hi.
  cbn [recordings with_recordings] in Hi.
  apply alter_all_some in Hi as (r & Hr & [[Hnot ->]|[_ [y ->]]]); [|done].
  destruct (Hitems id name Hin) as (q & Hq & Hqn & _ & _). apply Hnot.
  rewrite (unique_media _ _ Hs i id r q name Hr Hq Hn Hqn). apply list_elem_of_fmap. by exists (id, name).
Qed.

(** ** Abandoned uploads *)

Definition abandon_one (t : datetime) (us : list (string * upload_row)) (s : recordings_db) : recordings_db :=
  foldr (λ u s, with_recordings (alter (failed_upload t) u.1 (recordings s)) (with_uploads (delete u.1 (upload_rows s)) s)) s us.
Definition delete_all (us : list (string * upload_row)) (m : gmap string upload_row) : gmap string upload_row :=
  foldr (λ u rows, delete u.1 rows) m us.

Lemma abandon_one_fields t us s :
  recordings (abandon_one t us s) = alter_all (failed_upload t) (recordings s) us ∧
  upload_rows (abandon_one t us s) = delete_all us (upload_rows s) ∧ segments (abandon_one t us s) = segments s.
Proof using Type.
  unfold abandon_one, delete_all, alter_all. induction us as [|u us (Hr & Hu & Hs)]; simpl; [done|]. by rewrite Hr, Hu.
Qed.

Lemma delete_all_some us m id u : delete_all us m !! id = Some u → m !! id = Some u ∧ id ∉ us.*1.
Proof using Type.
  clear spools. unfold delete_all. induction us as [|[i v] us IH]; csimpl; [intros ?; split; [done|apply not_elem_of_nil]|].
  intros [Hne ?]%lookup_delete_Some. rewrite not_elem_of_cons. naive_solver.
Qed.
Lemma zsum_delete_all us m : (∀ id u, m !! id = Some u → 0 ≤ expected_size_bytes u)%Z →
  (zsum expected_size_bytes (delete_all us m) ≤ zsum expected_size_bytes m)%Z.
Proof using Type.
  intros Hm. unfold delete_all. induction us as [|u us IH]; simpl; [done|]. etrans; [|exact IH].
  apply zsum_delete_le. intros i v Hv. apply delete_all_some in Hv as [? _]. by eapply Hm.
Qed.

Lemma reserved_with_status t g : reserved (with_segment_status SegmentFailed t g) = false.
Proof using Type. done. Qed.

Lemma abandon_holds us gs t s k name :
  holds (abandon us gs t s) k name →
  holds s k name ∧ match k with inl id => id ∉ us.*1 | inr k => k ∉ gs.*1 end.
Proof using Type.
  unfold abandon. fold (abandon_one t us s). destruct (abandon_one_fields t us s) as (_ & Hu & Hs).
  destruct k as [id|k]; unfold holds; cbn [upload_rows segments with_segments].
  - rewrite Hu. intros (u & [Hl ?]%delete_all_some & <-). split; [by exists u|done].
  - rewrite Hs. fold (alter_all (B := segment_row) (with_segment_status SegmentFailed t) (segments s) gs).
    intros (g & (g' & Hg & [[? ->]|[_ [y ->]]])%alter_all_some & Hres & Hn); [|by rewrite reserved_with_status in Hres].
    split; [by exists g'|done].
Qed.

Lemma abandon_continuous us gs t s : continuous (abandon us gs t s) = continuous s.
Proof using Type. unfold abandon. cbn [continuous with_segments]. induction us as [|u us IH]; [done|exact IH]. Qed.

Lemma consistent_abandon d us gs t s :
  consistent d s → (∀ id u, (id, u) ∈ us → continuous s !! id = None) → consistent d (abandon us gs t s).
Proof using Type.
  intros Hc Hus.
  assert (∀ id x, continuous s !! id = Some x → id ∉ us.*1) as Hnot.
  { intros id x Hx ([j u] & -> & Hin)%list_elem_of_fmap. cbn [fst] in Hx. by rewrite (Hus j u Hin) in Hx. }
  assert (recordings (abandon us gs t s) = alter_all (failed_upload t) (recordings s) us) as Hrec.
  { unfold abandon. fold (abandon_one t us s). cbn [recordings with_segments]. apply abandon_one_fields. }
  assert (upload_rows (abandon us gs t s) = delete_all us (upload_rows s)) as Hup.
  { unfold abandon. fold (abandon_one t us s). cbn [upload_rows with_segments]. apply abandon_one_fields. }
  assert (segments (abandon us gs t s) = alter_all (with_segment_status SegmentFailed t) (segments s) gs) as Hseg.
  { unfold abandon. fold (abandon_one t us s). cbn [segments with_segments]. by destruct (abandon_one_fields t us s) as (_ & _ & ->). }
  assert (∀ k g', segments (abandon us gs t s) !! k = Some g' → 0 ≤ expected_size_bytes (segment_upload g'))%Z as Hsize.
  { rewrite Hseg. apply (alter_all_keeps _ (λ _ g, 0 ≤ expected_size_bytes (segment_upload g))%Z); [done|apply Hc]. }
  assert (∀ id r', recordings (abandon us gs t s) !! id = Some r' →
    ∃ r, recordings s !! id = Some r ∧ media_of r' = media_of r ∧ (rec_status r' = Ready ↔ rec_status r = Ready)) as Hlook.
  { rewrite Hrec. intros id r' Hid.
    pose proof (alter_all_keeps (failed_upload t) (λ i r, ∃ q, recordings s !! i = Some q ∧ media_of r = media_of q ∧
      (rec_status r = Ready ↔ rec_status q = Ready)) (recordings s) us) as Hk. apply (Hk) in Hid; [done| |].
    - intros i r (q & Hq & Hm & Hst). exists q. unfold failed_upload. case_decide as Hup'; [|done].
      split_and!; [done..|]. simpl. rewrite Hup' in Hst. naive_solver.
    - intros i r Hr. by exists r. }
  assert (∀ id x, continuous s !! id = Some x → upload_rows (abandon us gs t s) !! id = upload_rows s !! id) as Hupload.
  { intros id x Hx%Hnot. rewrite Hup. clear -Hx. unfold delete_all. revert Hx. induction us as [|[j u] us IH]; csimpl; [done|].
    intros [Hne Hx]%not_elem_of_cons. rewrite lookup_delete_ne by done. by apply IH. }
  apply (consistent_rows d s); [done| | |by intros k name [? _]%abandon_holds| |by rewrite abandon_continuous].
  - apply (sound_rows_change s); [apply Hc| |by intros k name [? _]%abandon_holds| |done| |].
    + intros id r' name (r & Hr & Hm & _)%Hlook Hn. exists r. by rewrite <- Hm.
    + rewrite Hup. intros id u [? _]%delete_all_some. eapply upload_size; [apply Hc|done].
    + unfold recording_used_bytes. rewrite Hrec, Hup, Hseg.
      pose proof (zsum_delete_all us (upload_rows s) ltac:(apply Hc)).
      assert (zsum ready_bytes (alter_all (failed_upload t) (recordings s) us) ≤ zsum ready_bytes (recordings s))%Z.
      { apply (zsum_alter_all _ _ (λ _, True)); [done|]. intros r _. split; [done|]. unfold failed_upload, ready_bytes.
        repeat case_decide; simpl in *; try congruence; lia. }
      assert (zsum segment_bytes (alter_all (with_segment_status SegmentFailed t) (segments s) gs) ≤ zsum segment_bytes (segments s))%Z; [|lia].
      apply (zsum_alter_all _ _ (λ g, 0 ≤ expected_size_bytes (segment_upload g))%Z); [apply Hc|].
      intros g Hg. split; [done|]. unfold segment_bytes. rewrite reserved_with_status. destruct (reserved g); done.
    + apply (sound_receipts_change s); [apply Hc|apply abandon_continuous|]. intros i x r Hx Hr. split; [by eapply Hupload|].
      exists r. split; [|auto]. rewrite Hrec. destruct (alter_all (failed_upload t) (recordings s) us !! i) as [r'|] eqn:Hr';
        [|by rewrite alter_all_none, Hr in Hr'].
      apply alter_all_some in Hr' as (q & Hq & [[_ ->]|[? _]]); [congruence|]. by destruct (Hnot i x Hx).
  - intros id r' (r & Hr & Hm & Hst)%Hlook Hready. exists r. naive_solver.
  - intros id u. apply waiting_same; [apply abandon_continuous|by apply Hupload].
Qed.

(** ** Programs *)

(** The invariant, with these committed rows. *)
Definition at_rows (s : recordings_db) (m : host) : Prop := invariant m ∧ committed m = s.
Lemma at_rows_disk s d : consistent d s → at_rows s {| on_disk := d; committed := s |}.
Proof using Type. done. Qed.

Lemma require_safe_file_ok name d payload : require_safe_file name d = Ok payload → root d !! name = Some (PrivateFile payload).
Proof using Type. unfold require_safe_file. destruct (root d !! name) as [[]|]; by intros [= <-]. Qed.
Lemma media_path_ok r d name : media_path r d = Ok name →
  media_storage_name (media_of r) = Some name ∧ valid_media_name name = true ∧ ∃ payload, root d !! name = Some (PrivateFile payload).
Proof using Type.
  unfold media_path. destruct (media_storage_name _) as [n|]; [|done]. destruct (valid_media_name n) eqn:Hv; [|done].
  destruct (require_safe_file n d) as [payload|] eqn:Hf; [|done]. intros [= <-]. apply require_safe_file_ok in Hf. by eauto.
Qed.

Lemma safe_quarantine s r (Q : result string → host → Prop) m :
  at_rows s m → (∀ e, Q (Raise e) m) →
  (∀ name m', media_storage_name (media_of r) = Some name → valid_media_name name = true → at_rows s m' → Q (Ok name) m') →
  safe invariant Q (quarantine_media r) m.
Proof using Type.
  intros [Hinv Hs] Hraise Hok. apply safe_act; [done| |done].
  intros name d Hq. destruct (media_path r (on_disk m)) as [n|] eqn:Hp; [|done]. cbn [mbind result_bind] in Hq.
  apply media_path_ok in Hp as (Hn & Hv & payload & Hf).
  destruct (root (on_disk m) !! quarantine_name n) eqn:Hqn; [done|].
  destruct (replace _ _ _) as [d'|] eqn:Hr; [|done]. cbn in Hq. injection Hq as -> ->.
  apply replace_ok in Hr as (e & He & ->). assert (e = PrivateFile payload) as -> by congruence.
  assert (consistent (with_root (<[quarantine_name name := PrivateFile payload]> (delete name (root (on_disk m)))) (on_disk m)) (committed m)).
  { eapply consistent_swap; [done|done|by left|done|done]. }
  split; [done|]. apply Hok; [done..|]. by split.
Qed.

Lemma safe_restore s name (Q : result unit → host → Prop) m :
  valid_media_name name = true → at_rows s m → (∀ r m', at_rows s m' → Q r m') →
  safe invariant Q (restore_quarantined_media name) m.
Proof using Type.
  intros Hv [Hinv Hs] HQ. apply safe_act; [done| |intros; by apply HQ].
  intros [] d Hd.
  destruct (root (on_disk m) !! quarantine_name name) as [e|] eqn:Hq; [|injection Hd as <-; destruct m; split; [done|by apply HQ]].
  destruct (root (on_disk m) !! name) eqn:Hn; [injection Hd as <-; destruct m; split; [done|by apply HQ]|].
  destruct (require_safe_file _ _) as [payload|] eqn:Hf; [|done]. apply require_safe_file_ok in Hf.
  cbn [mbind result_bind] in Hd. destruct (replace _ _ _) as [d'|] eqn:Hr; [|done]. cbn in Hd. injection Hd as ->.
  apply replace_ok in Hr as (e' & He & ->). assert (e' = PrivateFile payload) as -> by congruence.
  assert (consistent (with_root (<[name := PrivateFile payload]> (delete (quarantine_name name) (root (on_disk m)))) (on_disk m)) (committed m)).
  { eapply consistent_swap; [done|done|by right|done|done]. }
  split; [done|]. apply HQ. by split.
Qed.

Lemma safe_discard s name (Q : result unit → host → Prop) m :
  unowned (quarantine_name name) s → at_rows s m → (∀ r m', at_rows s m' → Q r m') →
  safe invariant Q (discard_quarantined_media name) m.
Proof using Type.
  intros Hu [Hinv Hs] HQ. apply safe_act; [done| |intros; by apply HQ].
  intros [] d Hd.
  destruct (root (on_disk m) !! quarantine_name name) as [e|] eqn:Hq; [|injection Hd as <-; destruct m; split; [done|by apply HQ]].
  destruct (require_safe_file _ _) as [payload|] eqn:Hf; [|done]. cbn in Hd. injection Hd as <-.
  assert (consistent (unlink (quarantine_name name) (on_disk m)) (committed m)).
  { apply consistent_unlink; [done|]. by rewrite Hs. }
  split; [done|]. apply HQ. by split.
Qed.

Lemma at_rows_invariant s m : at_rows s m → invariant m.
Proof using Type. by intros [? _]. Qed.

(** A loop whose turns keep the committed rows. *)
Lemma safe_loop {A} s (f : A → program unit) l (Q : result unit → host → Prop) m :
  at_rows s m → (∀ r m', at_rows s m' → Q r m') →
  (∀ x m (R : result unit → host → Prop), x ∈ l → at_rows s m → (∀ r m', at_rows s m' → R r m') → safe invariant R (f x) m) →
  safe invariant Q (for_each f l) m.
Proof using Type.
  intros Hm HQ Hf. apply (safe_for_each _ (at_rows s)); [done|apply at_rows_invariant| |intros; by apply HQ].
  intros x m' Hx Hm'. apply Hf; [done|done|]. intros [[]|e] m'' Hm''; [done|by apply HQ].
Qed.

Lemma safe_quarantine_all s done l (Q : result (list (string * string)) → host → Prop) m :
  at_rows s m → quarantined_items s done → (∀ id r, (id, r) ∈ l → recordings s !! id = Some r ∧ rec_status r = Ready) →
  (∀ e m', at_rows s m' → Q (Raise e) m') → (∀ items m', at_rows s m' → quarantined_items s items → Q (Ok items) m') →
  safe invariant Q (quarantine_all done l) m.
Proof using Type.
  intros Hm Hdone Hl Hraise Hok. revert m done Hm Hdone. induction l as [|[id r] l IH]; intros m done Hm Hdone; cbn [quarantine_all].
  - split; [by eapply at_rows_invariant|]. apply Hok; [done|]. intros id name Hin. apply Hdone. by apply elem_of_reverse.
  - apply safe_bind, safe_catch. apply (safe_quarantine s); [done| |].
    + intros e. apply safe_bind. apply (safe_loop s); [done| |].
      * intros [] m' Hm'; [|by apply Hraise]. split; [by eapply at_rows_invariant|by apply Hraise].
      * intros [i name] m' R Hin Hm' HR. destruct (Hdone i name Hin) as (q & _ & _ & Hv & _). by apply (safe_restore s).
    + intros name m' Hn Hv Hm'. apply IH; [|done|].
      * intros i q Hin. apply Hl. by right.
      * intros i n [[= -> ->]|Hin]%elem_of_cons; [|by apply Hdone]. destruct (Hl id r ltac:(by left)) as [? ?]. by exists r.
Qed.

Lemma safe_purge s p t (Q : result (list (string * string)) → host → Prop) m :
  at_rows s m → (∀ e m', at_rows s m' → Q (Raise e) m') →
  (∀ items m', at_rows s m' → quarantined_items s items → Q (Ok items) m') →
  safe invariant Q (purge_expired_recordings p t) m.
Proof using Type.
  intros Hm Hraise Hok. unfold purge_expired_recordings. destruct (automatic p); cbn [negb].
  - apply safe_bind, safe_look; [by eapply at_rows_invariant|]. destruct Hm as [Hinv <-].
    apply (safe_quarantine_all (committed m)); [done|by intros ?? ?%elem_of_nil| |done|done].
    intros id r [Hr [? _]]%elem_of_map_to_list%map_lookup_filter_Some. done.
  - split; [by eapply at_rows_invariant|]. apply Hok; [done|]. by intros ?? ?%elem_of_nil.
Qed.

Lemma safe_restore_all s items (Q : result unit → host → Prop) m :
  at_rows s m → quarantined_items s items → (∀ r m', at_rows s m' → Q r m') → safe invariant Q (restore_all items) m.
Proof using Type.
  intros Hm Hi HQ. apply (safe_loop s); [done|done|]. intros [id name] m' R Hin Hm' HR.
  rewrite elem_of_reverse in Hin. destruct (Hi id name Hin) as (q & _ & _ & Hv & _). by apply (safe_restore s).
Qed.
Lemma safe_discard_all s items (Q : result unit → host → Prop) m :
  at_rows s m → (∀ id name, (id, name) ∈ items → unowned (quarantine_name name) s) → (∀ r m', at_rows s m' → Q r m') →
  safe invariant Q (discard_all items) m.
Proof using Type.
  intros Hm Hi HQ. apply (safe_loop s); [done|done|]. intros [id name] m' R Hin Hm' HR. by apply (safe_discard s); [eapply Hi| |].
Qed.

(** A transaction, and what undoes the disk if it fails. *)
Lemma safe_commit_or s undo change (Q : result unit → host → Prop) m :
  at_rows s m →
  (∀ s' m', change s = Some s' → committed m' = s' → on_disk m' = on_disk m → invariant m' ∧ Q (Ok ()) m') →
  (∀ e, safe invariant (λ r m, match r with Ok _ => Q (Raise e) m | Raise e' => Q (Raise e') m end) undo m) →
  safe invariant Q (commit_or undo change) m.
Proof using Type.
  intros [Hinv Hs] Hok Hundo. apply safe_bind, safe_commit; [done| | |].
  - intros s' Hc. rewrite Hs in Hc. destruct (Hok s' (with_committed s' m) Hc) as [Hi HQ]; [done..|]. split; [done|]. by split.
  - intros _. apply safe_bind. eapply (safe_mono invariant invariant); [done| |apply (Hundo IntegrityError)].
    intros [[]|e] m' Hi HQ; [by split|done].
  - apply safe_bind. eapply (safe_mono invariant invariant); [done| |apply (Hundo DatabaseError)].
    intros [[]|e] m' Hi HQ; [by split|done].
Qed.

Lemma safe_rmdir s name (Q : result unit → host → Prop) m :
  (∀ k, ¬ holds s k name) → at_rows s m → (∀ r m', at_rows s m' → Q r m') → safe invariant Q (rmdir name) m.
Proof using Type.
  intros Hfree [Hinv Hs] HQ. apply safe_act; [done| |intros; by apply HQ].
  intros [] d Hd. destruct (upload_directories (on_disk m) !! name); [|done]. case_bool_decide; [|done]. injection Hd as <-.
  assert (consistent (with_directories (delete name (upload_directories (on_disk m))) (on_disk m)) (committed m)).
  { apply consistent_directory_delete; [done|]. by rewrite Hs. }
  split; [done|]. apply HQ. by split.
Qed.

Lemma safe_clear s name (Q : result unit → host → Prop) m :
  (∀ k, ¬ holds s k name) → at_rows s m → (∀ r m', at_rows s m' → Q r m') → safe invariant Q (clear_directory name) m.
Proof using Type.
  intros Hfree Hm HQ. apply safe_bind, safe_look; [by eapply at_rows_invariant|]. apply safe_bind.
  apply (safe_loop s); [done| |].
  - intros [[]|e] m' Hm'; [by apply (safe_rmdir s)|by apply HQ].
  - intros child m' R _ [Hinv Hs] HR. apply safe_act; [done| |done]. intros [] d [= <-].
    assert (consistent (with_directories (alter (delete child) name (upload_directories (on_disk m'))) (on_disk m')) (committed m'))
      by (apply consistent_directory_alter; [done|]; intros id u Hu%waiting_holds Hn; rewrite Hn, Hs in Hu; by eapply Hfree).
    split; [done|]. apply HR. by split.
Qed.

Lemma safe_remove_upload s u (Q : result unit → host → Prop) m :
  (∀ k, ¬ holds s k (upload_storage u)) → at_rows s m → (∀ r m', at_rows s m' → Q r m') →
  safe invariant Q (remove_upload_files u) m.
Proof using Type.
  intros Hfree Hm HQ. apply safe_bind, safe_look; [by eapply at_rows_invariant|].
  destruct (is_ok _); [by apply (safe_clear s)|]. split; [by eapply at_rows_invariant|by apply HQ].
Qed.

Lemma safe_reconcile_quarantined s path (Q : result unit → host → Prop) m :
  has_prefix ".delete-" path = true → at_rows s m → (∀ r m', at_rows s m' → Q r m') →
  safe invariant Q (reconcile_quarantined path) m.
Proof using Type.
  intros Hpre [Hinv Hs] HQ. apply safe_act; [done| |intros; by apply HQ].
  intros [] d Hd. cbn beta zeta in Hd. destruct (require_safe_file path (on_disk m)) as [payload|] eqn:Hf; [|done].
  apply require_safe_file_ok in Hf. cbn [mbind result_bind] in Hd.
  assert (∃ n, valid_media_name n = true ∧ path = quarantine_name n) as (n & Hv & ->).
  { destruct (known_root _ _ _ _ _ Hinv _ _ Hf) as [Hv|[Hp|[Hp|?]]]; [| |  |done].
    - by rewrite not_prefixed in Hpre.
    - by pose proof (has_prefix_agree _ _ _ Hp Hpre).
    - by pose proof (has_prefix_agree _ _ _ Hp Hpre). }
  unfold quarantine_name in Hd. rewrite remove_prefix_app in Hd. fold (quarantine_name n) in Hd.
  destruct (owner_of n _ _) as [[i r]|] eqn:Ho.
  - destruct (root (on_disk m) !! n) eqn:Hn; [done|].
    destruct (replace _ _ _) as [d'|] eqn:Hr; [|done]. cbn in Hd. injection Hd as ->.
    apply replace_ok in Hr as (e' & He & ->). assert (e' = PrivateFile payload) as -> by congruence.
    assert (consistent (with_root (<[n := PrivateFile payload]> (delete (quarantine_name n) (root (on_disk m)))) (on_disk m)) (committed m)).
    { eapply consistent_swap; [done|done|by right|done|done]. }
    split; [done|]. apply HQ. by split.
  - injection Hd as <-. assert (consistent (unlink (quarantine_name n) (on_disk m)) (committed m)).
    { apply consistent_unlink; [done|]. apply unowned_quarantine. intros id r Hid Hst. by eapply owner_of_none. }
    split; [done|]. apply HQ. by split.
Qed.

Lemma safe_reconcile_entry s name (Q : result unit → host → Prop) m :
  at_rows s m → (∀ r m', at_rows s m' → Q r m') → safe invariant Q (reconcile_entry name) m.
Proof using Type.
  intros [Hinv Hs] HQ. apply safe_act; [done| |intros; by apply HQ].
  assert (∀ d, consistent d (committed m) → invariant {| on_disk := d; committed := committed m |} ∧ Q (Ok ()) {| on_disk := d; committed := committed m |}) as Hdone.
  { intros d Hd. split; [done|]. apply HQ. by split. }
  intros [] d Hd. cbn zeta. apply Hdone. revert Hd. cbn beta zeta. case_bool_decide as Hproc.
  { destruct (root (on_disk m) !! name) as [[]|]; try done. by intros [= <-]. }
  destruct (has_prefix ".delete-" name) eqn:Hdel; [by intros [= <-]|].
  destruct (has_prefix ".media-" name || has_prefix ".playback-" name) eqn:Htmp.
  { destruct (require_safe_file name (on_disk m)); [|done]. intros [= <-]. apply consistent_unlink; [done|].
    apply unowned_dotted; [|by apply orb_true_iff in Htmp as [?|?]; eapply prefixed_dotted].
    intros n ->. unfold quarantine_name in Hdel. by rewrite has_prefix_app in Hdel. }
  destruct (has_suffix ".rec" name); [|done]. destruct (valid_media_name name) eqn:Hv; [|done]. cbn [negb].
  destruct (require_safe_file name (on_disk m)); [|done]. cbn [mbind result_bind].
  destruct (owner_of _ _ _) eqn:Ho; intros [= <-]; [done|]. apply consistent_unlink; [done|]. apply unowned_media; [done|].
  intros id r Hid Hst. eapply owner_of_none; [done|done|by left].
Qed.

Lemma safe_reconcile_directory s name (Q : result unit → host → Prop) m :
  at_rows s m → (∀ r m', at_rows s m' → Q r m') → safe invariant Q (reconcile_directory (active_names s) name) m.
Proof using Type.
  intros Hm HQ. pose proof (at_rows_invariant _ _ Hm). unfold reconcile_directory.
  destruct (valid_upload_name name); cbn [negb]; [|by split; [|apply HQ]].
  case_bool_decide as Hin; [by split; [|apply HQ]|]. apply (safe_clear s); [|done|done].
  intros k Hk. apply Hin, elem_of_active_names. by exists k.
Qed.

Lemma safe_reconcile_media s (Q : result unit → host → Prop) m :
  at_rows s m → (∀ r m', at_rows s m' → Q r m') → safe invariant Q reconcile_quarantined_media m.
Proof using Type.
  intros Hm HQ. apply safe_bind, safe_look; [by eapply at_rows_invariant|].
  apply (safe_loop s); [done|done|]. intros path m1 R Hin Hm1 HR.
  apply (safe_reconcile_quarantined s); [|done|done].
  unfold quarantined_entries in Hin. apply list_elem_of_filter in Hin as [Hp _]. by apply andb_prop_elim, proj1, Is_true_true in Hp.
Qed.

Lemma safe_reconcile_storage s (Q : result unit → host → Prop) m :
  at_rows s m → (∀ r m', at_rows s m' → Q r m') → safe invariant Q reconcile_recording_storage m.
Proof using Type.
  intros Hm HQ. pose proof (at_rows_invariant s) as HI. apply safe_bind, safe_look; [by eapply HI|]. apply safe_bind.
  apply (safe_loop s); [done| |].
  - intros [[]|e] m2 Hm2; [|by apply HQ]. apply safe_bind, safe_look; [by eapply HI|]. apply safe_bind, safe_look; [by eapply HI|].
    apply (safe_loop s); [done|done|]. intros name m3 R _ Hm3 HR. destruct Hm2 as [_ ->]. by apply (safe_reconcile_directory s).
  - intros name m2 R _ Hm2 HR. by apply (safe_reconcile_entry s).
Qed.

(** ** Requests *)

Lemma safe_return {A} (r : result A) m (Q : result A → host → Prop) : invariant m → Q r m → safe invariant Q (Return r) m.
Proof using Type. by split. Qed.
Lemma safe_lift {A B} (x : result A) (f : A → program B) (Q : result B → host → Prop) m :
  invariant m → (∀ e, x = Raise e → Q (Raise e) m) → (∀ a, x = Ok a → safe invariant Q (f a) m) → safe invariant Q (a ← lift x; f a) m.
Proof using Type. intros Hm Hraise Hok. apply safe_bind, safe_return; [done|]. destruct x; auto. Qed.
Lemma safe_look_bind {A B} (g : host → result A) (f : A → program B) (Q : result B → host → Prop) m :
  invariant m → (∀ e, g m = Raise e → Q (Raise e) m) → (∀ a, g m = Ok a → safe invariant Q (f a) m) → safe invariant Q (a ← look g; f a) m.
Proof using Type. intros Hm Hraise Hok. apply safe_bind, safe_look; [done|]. destruct (g m) eqn:Hg; auto. Qed.
(** A transaction with nothing to undo. *)
Lemma safe_commit_only s change (Q : result unit → host → Prop) m :
  at_rows s m → (∀ e, Q (Raise e) m) →
  (∀ s' m', change s = Some s' → committed m' = s' → on_disk m' = on_disk m → consistent (on_disk m) s' ∧ (invariant m' → Q (Ok ()) m')) →
  safe invariant Q (commit_or (Return (Ok ())) change) m.
Proof using Type.
  intros Hm Hraise Hok. apply (safe_commit_or s); [done| |].
  - intros s' m' Hs' Hc Hd. destruct (Hok s' m' Hs' Hc Hd) as [Hcons HQ].
    assert (invariant m') as Hi by (unfold invariant, StorageInvariant.invariant; by rewrite Hc, Hd). auto.
  - intros e. by split; [apply Hm|].
Qed.

Lemma safe_create_directory s name (Q : result string → host → Prop) m :
  valid_upload_name name = true → at_rows s m → (∀ e m', at_rows s m' → Q (Raise e) m') →
  (∀ m', at_rows s m' → upload_directories (on_disk m') !! name = Some ∅ → (∀ k, ¬ holds s k name) → Q (Ok name) m') →
  safe invariant Q (create_upload_directory name) m.
Proof using Type.
  intros Hv [Hinv Hs] Hraise Hok. apply safe_act; [done| |intros; by apply Hraise].
  intros n d Hd. cbn beta zeta in Hd. destruct (upload_directories (on_disk m) !! name) eqn:Hn; [done|]. injection Hd as <- <-.
  assert (consistent (with_directories (<[name := ∅]> (upload_directories (on_disk m))) (on_disk m)) (committed m))
    by (apply consistent_directory_insert; [done|done|]; intros id u Hu%waiting_holds Hn'; rewrite Hn' in Hu; apply (held_directory _ _ _ _ _ Hinv) in Hu as [ch Hu]; congruence).
  split; [done|]. apply Hok; [done| |].
  - cbn. by rewrite lookup_insert_eq.
  - intros k Hk. rewrite <- Hs in Hk. apply (held_directory _ _ _ _ _ Hinv) in Hk as [ch Hk]. by rewrite Hn in Hk.
Qed.

(** ** Retention and maintenance *)

Lemma consistent_same d s s' : consistent d s →
  recordings s' = recordings s → upload_rows s' = upload_rows s → segments s' = segments s → continuous s' = continuous s →
  consistent d s'.
Proof using Type.
  intros Hc Hr Hu Hg Hx.
  assert (∀ k name, holds s' k name → holds s k name) as Hheld.
  { intros [id|k] name; unfold holds; by rewrite ?Hu, ?Hg. }
  apply (consistent_rows d s); [done| | |done| |by rewrite Hx].
  - apply (sound_rows_change s); [apply Hc| |done| | | |].
    + intros id r' name. rewrite Hr. by eauto.
    + rewrite Hu. apply Hc.
    + rewrite Hg. apply Hc.
    + unfold recording_used_bytes. by rewrite Hr, Hu, Hg.
    + apply (sound_receipts_change s); [apply Hc|done|]. intros i x r _ Hi. rewrite Hr, Hu. split; [done|]. exists r. auto.
  - intros id r'. rewrite Hr. by eauto.
  - intros id u. apply waiting_same; [done|]. by rewrite Hu.
Qed.

(** What retention and the abandonment of uploads do to the rows of a transaction. *)
Definition retained (cfg : recording_settings) (t : datetime) (policy : retention_row) (items : list (string * string))
    (s : recordings_db) : recordings_db :=
  abandon (abandoned_uploads cfg t s) (abandoned_segments cfg t s) t (purged items t (with_retention policy s)).

Lemma unowned_same name s s' : recordings s' = recordings s → unowned name s → unowned name s'.
Proof using Type. intros Hr Hu id r n. rewrite Hr. apply Hu. Qed.

Lemma abandon_unowned name us gs t s : unowned name s → unowned name (abandon us gs t s).
Proof using Type.
  intros Hu id r' n Hid Hst Hn Hv. unfold abandon in Hid. fold (abandon_one t us s) in Hid. cbn [recordings with_segments] in Hid.
  rewrite (proj1 (abandon_one_fields t us s)) in Hid.
  destruct (alter_all_keeps (failed_upload t) (λ i r, ∃ q, recordings s !! i = Some q ∧ media_of r = media_of q ∧
    (rec_status r = Ready → rec_status q = Ready)) (recordings s) us) with (k := id) (x := r') as (q & Hq & Hm & Hr); [|by eauto|done|].
  - intros i r (q & Hq & Hm & Hr). exists q. unfold failed_upload. by case_decide.
  - eapply (Hu id q n); [done|auto|by rewrite <- Hm|done].
Qed.

Lemma abandoned_not_held cfg t items policy s k name :
  sound_rows s →
  name ∈ upload_storage <$> ((snd <$> abandoned_uploads cfg t s) ++ (segment_upload ∘ snd <$> abandoned_segments cfg t s)) →
  ¬ holds (retained cfg t policy items s) k name.
Proof using Type.
  intros Hs Hin Hheld. apply abandon_holds in Hheld as [Hheld Hnot].
  assert (holds s k name) as Hk by (destruct k; exact Hheld).
  apply list_elem_of_fmap in Hin as (u & -> & Hin). rewrite elem_of_app, !list_elem_of_fmap in Hin.
  destruct Hin as [([id u'] & -> & Hin)|([i g] & -> & Hin)].
  - assert (holds s (inl id) (upload_storage u')) as Hh.
    { apply elem_of_map_to_list, map_lookup_filter_Some in Hin as [Hu _]. by exists u'. }
    rewrite (unique_holder _ _ Hs _ _ _ Hk Hh) in Hnot. apply Hnot, list_elem_of_fmap. by exists (id, u').
  - assert (holds s (inr i) (upload_storage (segment_upload g))) as Hh.
    { apply elem_of_map_to_list, map_lookup_filter_Some in Hin as [Hg [Hst _]]. exists g. split_and!; [done| |done].
      unfold reserved. by rewrite Hst. }
    rewrite (unique_holder _ _ Hs _ _ _ Hk Hh) in Hnot. apply Hnot, list_elem_of_fmap. by exists (i, g).
Qed.

Lemma safe_remove_abandoned s us gs (Q : result unit → host → Prop) m :
  (∀ k name, name ∈ upload_storage <$> ((snd <$> us) ++ (segment_upload ∘ snd <$> gs)) → ¬ holds s k name) →
  at_rows s m → (∀ r m', at_rows s m' → Q r m') → safe invariant Q (remove_abandoned us gs) m.
Proof using Type.
  intros Hfree Hm HQ. apply (safe_loop s); [done|done|]. intros u m' R Hin Hm' HR.
  apply (safe_remove_upload s); [|done|done]. intros k. apply Hfree. apply list_elem_of_fmap. by exists u.
Qed.

Lemma safe_retention_pass cfg t policy (Q : result unit → host → Prop) m :
  invariant m → (∀ r m', invariant m' → Q r m') → safe invariant Q (retention_pass cfg t policy) m.
Proof using Type.
  intros Hm HQ. set (s := committed m). assert (at_rows s m) as Hs by done.
  assert (∀ r m' s', at_rows s' m' → Q r m') as HQ' by (intros r m' s' [? _]; auto).
  apply safe_bind, (safe_purge s); [done|eauto|]. intros items m1 Hm1 Hitems.
  apply safe_bind, safe_look; [apply Hm1|]. destruct Hm1 as [Hm1 Hs1]. rewrite Hs1. cbn [fst snd].
  apply safe_bind, (safe_commit_or s); [done| |].
  - intros s' m2 [= Hs'] Hc Hd.
    assert (at_rows (retained cfg t policy items s) m2) as Hm2.
    { split; [|unfold retained; congruence]. unfold invariant, StorageInvariant.invariant. rewrite Hc, <- Hs', Hd.
      apply consistent_abandon; [apply consistent_purged; [apply (consistent_same _ s); [rewrite <- Hs1; exact Hm1|done..]|exact Hitems]|].
      by intros id u [_ [_ ?]]%elem_of_map_to_list%map_lookup_filter_Some. }
    split; [by destruct Hm2|].
    apply safe_bind, (safe_discard_all (retained cfg t policy items s)); [done| |].
    + intros id name Hin. apply abandon_unowned. apply (unowned_purged (with_retention policy s) items t) with (id := id); [|done|done].
      apply (consistent_same (on_disk m) s); [exact Hm|done..].
    + intros [[]|e] m3 Hm3; [|by eauto]. apply (safe_remove_abandoned (retained cfg t policy items s)); [|done|by eauto].
      intros k name Hin. apply (abandoned_not_held cfg t); [apply Hm|done].
  - intros e. apply (safe_restore_all s); [done|done|]. intros [[]|e'] m' Hm'; by eauto.
Qed.

Lemma safe_maintenance cfg t (Q : result unit → host → Prop) m :
  invariant m → (∀ r m', invariant m' → Q r m') → safe invariant Q (maintain_recordings cfg t) m.
Proof using Type.
  intros Hm HQ. unfold maintain_recordings.
  apply safe_bind, (safe_reconcile_media (committed m)); [done|]. intros [[]|e] m1 Hm1; [|by apply HQ, Hm1].
  apply safe_bind, (safe_reconcile_storage (committed m)); [done|]. intros [[]|e] m2 Hm2; [|by apply HQ, Hm2].
  apply safe_bind, safe_look; [apply Hm2|]. by apply safe_retention_pass; [apply Hm2|].
Qed.
End Operations.
