(* ===== verification/StorageRepair.v ===== *)
(** * Reconciliation repairs every interruption

    From every state that satisfies the invariant and has no directory of an interrupted
    assembly, [reconcile_quarantined_media] and
    [reconcile_recording_storage] end without an error and leave the file of every finished
    recording in its place, and no file or directory that no row owns. *)
From Stdlib Require Import Ascii.
From stdpp Require Import base gmap sets strings numbers pretty list.
From S2P Require Import Prelude FlowTree Schemas Json Crypto Documents Store Drafts Diff Devices Calls Recordings RecordingsFacts Wave Script Storage StorageFacts StorageInvariant StorageCorrect.

Section Repair.
Context `{Cryptography} `{KeyDerivation} (c : recording_cipher) (quota : Z) (spools : string → spool) (s : recordings_db).
Abbreviation at_rows := (at_rows c quota spools s).

(** No assembly or inspection of segments was cut off. *)
Definition tidy (m : host) : Prop := ∀ name, root (on_disk m) !! name = Some PrivateDirectory → name = ".processing".

(** ** Quarantined files *)

(** The directories among the files are the same. *)
Definition same_directories (m m' : host) : Prop :=
  ∀ name, root (on_disk m') !! name = Some PrivateDirectory ↔ root (on_disk m) !! name = Some PrivateDirectory.
Definition quarantine_left (start : host) (l : list string) (m : host) : Prop :=
  at_rows m ∧ same_directories start m ∧ NoDup l ∧
  (∀ path, path ∈ l → ∃ n payload, valid_media_name n = true ∧ path = quarantine_name n ∧ root (on_disk m) !! path = Some (PrivateFile payload)) ∧
  (∀ n, valid_media_name n = true → is_Some (root (on_disk m) !! quarantine_name n) → quarantine_name n ∈ l).

Definition on (d : disk) (m : host) : host := {| on_disk := d; committed := committed m |}.
Lemma reconcile_quarantined_owned n payload m p :
  root (on_disk m) !! quarantine_name n = Some (PrivateFile payload) → root (on_disk m) !! n = None →
  owner_of n (λ r, rec_status r = Ready) (committed m) = Some p →
  perform (reconcile_quarantined (quarantine_name n)) m =
    (Ok (), on (with_root (<[n := PrivateFile payload]> (delete (quarantine_name n) (root (on_disk m)))) (on_disk m)) m).
Proof using Type.
  intros Hf Hn Ho. unfold reconcile_quarantined. rewrite perform_act. cbn zeta. unfold require_safe_file. rewrite Hf. cbn [mbind result_bind].
  replace (remove_prefix ".delete-" (quarantine_name n)) with n by (by unfold quarantine_name; rewrite remove_prefix_app).
  rewrite Ho, Hn. unfold replace. by rewrite Hf, Hn.
Qed.
Lemma reconcile_quarantined_orphan n payload m :
  root (on_disk m) !! quarantine_name n = Some (PrivateFile payload) →
  owner_of n (λ r, rec_status r = Ready) (committed m) = None →
  perform (reconcile_quarantined (quarantine_name n)) m = (Ok (), on (unlink (quarantine_name n) (on_disk m)) m).
Proof using Type.
  intros Hf Ho. unfold reconcile_quarantined. rewrite perform_act. cbn zeta. unfold require_safe_file. rewrite Hf. cbn [mbind result_bind].
  replace (remove_prefix ".delete-" (quarantine_name n)) with n by (by unfold quarantine_name; rewrite remove_prefix_app).
  by rewrite Ho.
Qed.

(** A turn that takes the file away and touches no other quarantined one. *)
Lemma quarantine_left_step start n l m m' :
  quarantine_left start (quarantine_name n :: l) m → at_rows m' → same_directories start m' →
  (∀ k, root (on_disk m') !! quarantine_name k = delete (quarantine_name n) (root (on_disk m)) !! quarantine_name k) →
  quarantine_left start l m'.
Proof using Type.
  intros (_ & _ & [Hnot Hnd]%NoDup_cons & Hl & Hall) Hm' Ht Hsame. split_and!; [done|done|done| |].
  - intros path Hin. destruct (Hl path ltac:(by right)) as (k & q & Hv & -> & Hq). exists k, q. split_and!; [done..|].
    rewrite Hsame, lookup_delete_ne; [done|]. intros Heq. apply Hnot. by rewrite Heq.
  - intros k Hv. rewrite Hsame. intros [e [Hne He]%lookup_delete_Some].
    assert (quarantine_name k ∈ quarantine_name n :: l) as Hin by (apply Hall; [done|by eexists]).
    apply elem_of_cons in Hin as [?|?]; [congruence|done].
Qed.

Lemma reconcile_quarantined_step start path l m : quarantine_left start (path :: l) m →
  ∃ m', perform (reconcile_quarantined path) m = (Ok (), m') ∧ quarantine_left start l m'.
Proof using Type.
  intros Hleft. pose proof Hleft as (Hm & Ht & _ & Hl & _).
  destruct (Hl path ltac:(by left)) as (n & payload & Hv & -> & Hf).
  assert (at_rows (perform (reconcile_quarantined (quarantine_name n)) m).2) as Hm'.
  { apply (safe_perform (invariant c quota spools) (λ _, at_rows)). apply (safe_reconcile_quarantined _ _ _ s); [apply has_prefix_app|done|done]. }
  destruct (owner_of n (λ r, rec_status r = Ready) (committed m)) as [[i r]|] eqn:Ho.
  - pose proof Ho as Ho'. apply owner_of_some in Ho' as (Hi & Hn & Hst). destruct Hm as [Hinv _].
    destruct (ready_stored _ _ _ _ _ Hinv i r Hi Hst) as (n' & p & Hn' & _ & Hstored & _). assert (n' = n) as -> by congruence.
    destruct Hstored as [[_ ?]|[_ Hnone]]; [congruence|].
    rewrite (reconcile_quarantined_owned n payload m (i, r)) in * by done.
    eexists. split; [done|]. apply (quarantine_left_step start n _ m); [done|done| |].
    { intros k. rewrite <- (Ht k). cbn. destruct (decide (n = k)) as [<-|Hk]; [rewrite lookup_insert_eq; naive_solver|].
      rewrite lookup_insert_ne by done. rewrite lookup_delete_Some. naive_solver. }
    intros k. cbn. by rewrite lookup_insert_ne by (by apply quarantine_not_valid).
  - rewrite (reconcile_quarantined_orphan n payload m) in * by done.
    eexists. split; [done|]. apply (quarantine_left_step start n _ m); [done|done| |done].
    intros k. rewrite <- (Ht k). cbn. rewrite lookup_delete_Some. naive_solver.
Qed.

Lemma reconcile_media_ends m : at_rows m →
  ∃ m', perform reconcile_quarantined_media m = (Ok (), m') ∧ at_rows m' ∧ same_directories m m' ∧
    ∀ n, valid_media_name n = true → root (on_disk m') !! quarantine_name n = None.
Proof using Type.
  intros Hm. unfold reconcile_quarantined_media. rewrite perform_look.
  destruct (perform_for_each (quarantine_left m) reconcile_quarantined (quarantined_entries (on_disk m)) m) as (m' & Hp & Hm' & Ht' & _ & _ & Hno).
  - split_and!; [done|done| | |].
    + unfold quarantined_entries. apply NoDup_filter, NoDup_elements.
    + intros path [Hpre Hin]%list_elem_of_filter. apply Is_true_true, andb_true_iff in Hpre as [Hpre Hsuf].
      apply elem_of_elements, elem_of_dom in Hin as [e He]. destruct Hm as [Hinv _].
      pose proof (known_root _ _ _ _ _ Hinv _ _ He) as Hk. destruct e as [payload|]; [|destruct Hk as [->|Hk]; [done|]; destruct Hk as [Hp|Hp]; by pose proof (has_prefix_agree _ _ _ Hp Hpre)].
      destruct Hk as [Hv|[Hp|[Hp|(n & Hv & ->)]]].
      * by rewrite not_prefixed in Hpre.
      * by pose proof (has_prefix_agree _ _ _ Hp Hpre).
      * by pose proof (has_prefix_agree _ _ _ Hp Hpre).
      * by exists n, payload.
    + intros n Hv [e He]. unfold quarantined_entries. apply list_elem_of_filter. split.
      * apply Is_true_true, andb_true_iff. split; [apply has_prefix_app|]. by apply has_suffix_prefixed, valid_media_suffix.
      * apply elem_of_elements, elem_of_dom. by eexists.
  - intros path l m1. apply reconcile_quarantined_step.
  - exists m'. split_and!; [done..|]. intros n Hv. destruct (root (on_disk m') !! quarantine_name n) eqn:He; [|done].
    exfalso. assert (quarantine_name n ∈ []) as Hin by (apply Hno; [done|by eexists]). by apply elem_of_nil in Hin.
Qed.

(** ** Files *)

(** A file that reconciliation leaves: the worker's directory and the media of a row. *)
Definition settled (name : string) (e : root_entry) : Prop :=
  e = PrivateDirectory ∧ name = ".processing" ∨
  ∃ payload id r, e = PrivateFile payload ∧ recordings s !! id = Some r ∧ (rec_status r = Ready ∨ rec_status r = Processing) ∧
    media_storage_name (media_of r) = Some name.

Definition no_quarantine (m : host) : Prop := ∀ n, valid_media_name n = true → root (on_disk m) !! quarantine_name n = None.
Definition entries_left (l : list string) (m : host) : Prop :=
  at_rows m ∧ tidy m ∧ no_quarantine m ∧ NoDup l ∧ (∀ n, n ∈ l → is_Some (root (on_disk m) !! n)) ∧
  (∀ n e, root (on_disk m) !! n = Some e → n ∈ l ∨ settled n e).

Lemma entries_left_kept n e l m : entries_left (n :: l) m → root (on_disk m) !! n = Some e → settled n e → entries_left l m.
Proof using Type.
  intros (Hm & Ht & Hq & [Hnot Hnd]%NoDup_cons & Hl & Hall) He Hs. split_and!; [done..| |].
  - intros k Hk. apply Hl. by right.
  - intros k e' Hk. destruct (Hall k e' Hk) as [[->|?]%elem_of_cons|?]; [|by left|by right]. right. congruence.
Qed.
Lemma entries_left_removed n l m m' : entries_left (n :: l) m → at_rows m' → root (on_disk m') = delete n (root (on_disk m)) → entries_left l m'.
Proof using Type.
  intros (Hm & Ht & Hq & [Hnot Hnd]%NoDup_cons & Hl & Hall) Hm' Hroot. unfold entries_left, no_quarantine, tidy. rewrite Hroot.
  split_and!; [done| | |done| |].
  - intros k [_ ?]%lookup_delete_Some. by apply Ht.
  - intros k Hk. apply lookup_delete_None. right. by apply Hq.
  - intros k Hk. rewrite lookup_delete_ne by (by intros ->). apply Hl. by right.
  - intros k e [Hne He]%lookup_delete_Some. destruct (Hall k e He) as [[->|?]%elem_of_cons|?]; [done|by left|by right].
Qed.

Lemma reconcile_entry_step n l m : entries_left (n :: l) m →
  ∃ m', perform (reconcile_entry n) m = (Ok (), m') ∧ entries_left l m'.
Proof using Type.
  intros Hleft. pose proof Hleft as (Hm & Ht & Hq & _ & Hl & _). destruct (Hl n ltac:(by left)) as [e He].
  pose proof Hm as [Hinv Hs]. pose proof (known_root _ _ _ _ _ Hinv _ _ He) as Hk.
  assert (at_rows (perform (reconcile_entry n) m).2) as Hm'.
  { apply (safe_perform (invariant c quota spools) (λ _, at_rows)). by apply (safe_reconcile_entry _ _ _ s). }
  assert (perform (reconcile_entry n) m = (Ok (), m) ∧ settled n e ∨
          perform (reconcile_entry n) m = (Ok (), on (unlink n (on_disk m)) m)) as [[Hp Hset]|Hp].
  - unfold reconcile_entry. rewrite perform_act. cbn zeta. unfold require_safe_file. rewrite He.
    destruct e as [payload|]; simpl in Hk.
    + assert (n ≠ ".processing") as Hnp.
      { intros ->. destruct Hk as [?|[?|[?|(k & _ & ?)]]]; done. }
      rewrite bool_decide_false by done. destruct Hk as [Hv|Hk].
      * rewrite !not_prefixed, (valid_media_suffix _ Hv), Hv by done. cbn [orb negb mbind result_bind].
        destruct (owner_of _ _ _) as [[i r]|] eqn:Ho; [left|by right].
        apply owner_of_some in Ho as (Hi & Hn & Hst). split; [by destruct m|]. right. exists payload, i, r. by rewrite <- Hs.
      * assert (has_prefix ".media-" n = true ∨ has_prefix ".playback-" n = true) as Hk'.
        { destruct Hk as [?|[?|(k & Hv & ->)]]; [by left|by right|]. by rewrite (Hq k Hv) in He. }
        assert (has_prefix ".delete-" n = false) as ->.
        { apply not_true_is_false. intros Hdel. destruct Hk' as [Hp|Hp]; by pose proof (has_prefix_agree _ _ _ Hp Hdel). }
        assert (has_prefix ".media-" n || has_prefix ".playback-" n = true) as -> by (apply orb_true_iff; done). by right.
    + pose proof (Ht n He) as ->. left. split; [by destruct m|by left].
  - exists m. split; [done|]. by eapply entries_left_kept.
  - rewrite Hp in Hm'. eexists. split; [done|]. by apply (entries_left_removed n l m).
Qed.

(** ** Directories *)

Lemma clear_directory_ends n m : is_Some (upload_directories (on_disk m) !! n) →
  perform (clear_directory n) m = (Ok (), on (with_directories (delete n (upload_directories (on_disk m))) (on_disk m)) m).
Proof using Type.
  intros [chunks Hn]. unfold clear_directory. rewrite perform_look, Hn. cbn [default from_option].
  set (J := λ (l : list string) (m' : host), ∃ ch, m' = on (with_directories (<[n := ch]> (upload_directories (on_disk m))) (on_disk m)) m ∧
    (∀ k, is_Some (ch !! k) → k ∈ l)).
  match goal with |- perform (for_each ?f ?l ≫= _) _ = _ => destruct (perform_for_each J f l m) as (m' & Hp & ch & -> & Hch) end.
  - exists chunks. split; [|intros k ?; by apply elem_of_elements, elem_of_dom].
    rewrite insert_id by done. by destruct m as [[] ].
  - intros k l m' (ch & -> & Hch). rewrite perform_act. eexists. split; [done|]. exists (delete k ch). split.
    + unfold on. cbn. f_equal. unfold with_directories. cbn. by rewrite alter_insert_eq.
    + intros k' [e [Hne He]%lookup_delete_Some]. destruct (elem_of_cons l k' k) as [Hc _].
      destruct Hc as [?|?]; [apply Hch; by eexists|congruence|done].
  - assert (ch = ∅) as ->.
    { apply map_eq. intros k. rewrite lookup_empty. destruct (ch !! k) eqn:Hk; [|done].
      assert (k ∈ []) as Hin by (apply Hch; by eexists). by apply elem_of_nil in Hin. }
    rewrite perform_bind, Hp. unfold rmdir. rewrite perform_act. cbn. rewrite lookup_insert_eq.
    rewrite bool_decide_true by done. unfold on, with_directories. cbn. by rewrite delete_insert_eq.
Qed.

Definition directories_left (d : disk) (l : list string) (m : host) : Prop :=
  at_rows m ∧ root (on_disk m) = root d ∧ NoDup l ∧ (∀ n, n ∈ l → is_Some (upload_directories (on_disk m) !! n)) ∧
  (∀ n, is_Some (upload_directories (on_disk m) !! n) → n ∈ l ∨ n ∈ active_names s).

Lemma reconcile_directory_step d n l m : directories_left d (n :: l) m →
  ∃ m', perform (reconcile_directory (active_names s) n) m = (Ok (), m') ∧ directories_left d l m'.
Proof using Type.
  intros (Hm & Hr & [Hnot Hnd]%NoDup_cons & Hl & Hall). destruct (Hl n ltac:(by left)) as [ch Hn].
  assert (at_rows (perform (reconcile_directory (active_names s) n) m).2) as Hm'.
  { apply (safe_perform (invariant c quota spools) (λ _, at_rows)). by apply (safe_reconcile_directory _ _ _ s). }
  unfold reconcile_directory in *. pose proof Hm as [Hinv Hs].
  rewrite (known_directory _ _ _ _ _ Hinv _ _ Hn) in *. cbn [negb] in *.
  destruct (bool_decide (n ∈ active_names s)) eqn:Hact.
  - apply bool_decide_eq_true in Hact. exists m. split; [done|]. split_and!; [done..| |].
    + intros k Hk. apply Hl. by right.
    + intros k Hk. destruct (Hall k Hk) as [[->|?]%elem_of_cons|?]; [by right|by left|by right].
  - rewrite clear_directory_ends in * by by eexists. eexists. split; [done|]. split_and!; [done..| |].
    + intros k Hk. cbn. rewrite lookup_delete_ne by (by intros ->). apply Hl. by right.
    + intros k [e He]. cbn in He. apply lookup_delete_Some in He as [Hne He].
      destruct (Hall k) as [[->|?]%elem_of_cons|?]; [by eexists|done|by left|by right].
Qed.

(** ** The whole pass *)

Lemma reconcile_storage_ends m : at_rows m → tidy m → no_quarantine m →
  ∃ m', perform reconcile_recording_storage m = (Ok (), m') ∧ at_rows m' ∧ no_quarantine m' ∧
    (∀ n e, root (on_disk m') !! n = Some e → settled n e) ∧
    (∀ n, is_Some (upload_directories (on_disk m') !! n) ↔ n ∈ active_names s).
Proof using Type.
  intros Hm Ht Hq. unfold reconcile_recording_storage. rewrite perform_look.
  destruct (perform_for_each entries_left reconcile_entry (elements (dom (root (on_disk m)))) m) as (m1 & Hp1 & Hm1 & _ & Hq1 & _ & _ & Hset).
  { split_and!; [done|done|done|apply NoDup_elements| |].
    - intros n Hn. by apply elem_of_dom, elem_of_elements.
    - intros n e He. left. apply elem_of_elements, elem_of_dom. by eexists. }
  { intros n l m1. apply reconcile_entry_step. }
  rewrite perform_bind, Hp1, !perform_look. destruct Hm1 as [Hinv1 Hs1]. rewrite Hs1.
  destruct (perform_for_each (directories_left (on_disk m1)) (reconcile_directory (active_names s))
    (elements (dom (upload_directories (on_disk m1)))) m1) as (m2 & Hp2 & Hm2 & Hroot & _ & _ & Hdir).
  { split_and!; [done|done|apply NoDup_elements| |].
    - intros n Hn. by apply elem_of_dom, elem_of_elements.
    - intros n Hn. left. by apply elem_of_elements, elem_of_dom. }
  { intros n l m2. apply reconcile_directory_step. }
  exists m2. split_and!; [exact Hp2|done| | |].
  - intros n Hv. rewrite Hroot. by apply Hq1.
  - intros n e. rewrite Hroot. intros He. by destruct (Hset n e He) as [?%elem_of_nil|?].
  - intros n. split; [intros Hn; by destruct (Hdir n Hn) as [?%elem_of_nil|?]|].
    intros [k Hk]%elem_of_active_names. destruct Hm2 as [Hinv2 Hs2]. rewrite <- Hs2 in Hk. by eapply held_directory.
Qed.

(** ** A directory that reconciliation does not know *)

Definition refused (r : result unit) : Prop := ∃ message, r = Raise (RecordingError message 503).
Lemma reconcile_entry_cases n e m : at_rows m → root (on_disk m) !! n = Some e →
  (∃ m', perform (reconcile_entry n) m = (Ok (), m') ∧ at_rows m' ∧
     ∀ k, k ≠ n → root (on_disk m') !! k = root (on_disk m) !! k) ∧ (e = PrivateDirectory → n = ".processing") ∨
  e = PrivateDirectory ∧ n ≠ ".processing" ∧ refused (perform (reconcile_entry n) m).1.
Proof using Type.
  intros Hm He. pose proof Hm as [Hinv Hs]. pose proof (known_root _ _ _ _ _ Hinv _ _ He) as Hk.
  assert (at_rows (perform (reconcile_entry n) m).2) as Hm'.
  { apply (safe_perform (invariant c quota spools) (λ _, at_rows)). by apply (safe_reconcile_entry _ _ _ s). }
  assert (∀ d, perform (reconcile_entry n) m = (Ok (), on d m) → (∀ k, k ≠ n → root d !! k = root (on_disk m) !! k) →
    ∃ m', perform (reconcile_entry n) m = (Ok (), m') ∧ at_rows m' ∧ ∀ k, k ≠ n → root (on_disk m') !! k = root (on_disk m) !! k) as Hdone.
  { intros d Hp Hd. exists (on d m). rewrite Hp in Hm'. done. }
  assert (on (on_disk m) m = m) as Hon by by destruct m.
  assert (∀ k, k ≠ n → root (unlink n (on_disk m)) !! k = root (on_disk m) !! k) as Hun by (intros; by apply lookup_delete_ne).
  revert Hdone. unfold reconcile_entry. rewrite perform_act. cbn zeta. unfold require_safe_file. rewrite He. intros Hdone.
  destruct e as [payload|].
  - left. split; [|done].
    assert (n ≠ ".processing") as Hnp by (intros ->; destruct Hk as [?|[?|[?|(k & _ & ?)]]]; done).
    rewrite bool_decide_false in * by done. destruct (has_prefix ".delete-" n) eqn:Hdel.
    { apply (Hdone (on_disk m)); [done|done]. }
    destruct Hk as [Hv|Hk].
    + rewrite !not_prefixed, (valid_media_suffix _ Hv), Hv in * by done. cbn [orb negb mbind result_bind] in *.
      destruct (owner_of _ _ _); [by apply (Hdone (on_disk m))|by apply (Hdone (unlink n (on_disk m)))].
    + assert (has_prefix ".media-" n || has_prefix ".playback-" n = true) as Hp.
      { apply orb_true_iff. destruct Hk as [?|[?|(k & _ & ->)]]; [by left|by right|].
        unfold quarantine_name in Hdel. by rewrite has_prefix_app in Hdel. }
      rewrite Hp in *. cbn [mbind result_bind] in *. by apply (Hdone (unlink n (on_disk m))).
  - destruct (decide (n = ".processing")) as [->|Hnp]; [left|right].
    + split; [|done]. rewrite bool_decide_true in * by done. by apply (Hdone (on_disk m)).
    + split_and!; [done|done|]. rewrite bool_decide_false by done.
      assert (has_prefix ".conversation-" n = true ∨ has_prefix ".verify-segment-" n = true) as Hp by (destruct Hk as [?|[?|?]]; auto).
      assert (∀ p, take 14 (to_bytes p) ≠ take (length (to_bytes p)) (to_bytes ".conversation-") →
                   take 16 (to_bytes p) ≠ take (length (to_bytes p)) (to_bytes ".verify-segment-") → has_prefix p n = false) as Hother.
      { intros p Hp1 Hp2. apply not_true_is_false. intros Hn. destruct Hp as [Hp|Hp]; pose proof (has_prefix_agree _ _ _ Hn Hp); done. }
      rewrite !Hother by by vm_compute. cbn [orb].
      assert (valid_media_name n = false) as Hv.
      { apply not_true_is_false. intros Hv. destruct Hp as [Hp|Hp]; by rewrite not_prefixed in Hp. }
      rewrite Hv. cbn [negb]. destruct (has_suffix ".rec" n); by eexists.
Qed.

Lemma reconcile_entries_refused name l m :
  at_rows m → (∀ n, n ∈ l → is_Some (root (on_disk m) !! n)) → NoDup l → name ∈ l → name ≠ ".processing" →
  root (on_disk m) !! name = Some PrivateDirectory → refused (perform (for_each reconcile_entry l) m).1.
Proof using Type.
  intros Hm Hl Hnd Hin Hnp Hdir. revert m Hm Hl Hdir. induction l as [|n l IH]; intros m Hm Hl Hdir; [by apply elem_of_nil in Hin|].
  apply NoDup_cons in Hnd as [Hnot Hnd]. destruct (Hl n ltac:(by left)) as [e He]. cbn [for_each]. rewrite perform_bind.
  destruct (reconcile_entry_cases n e m Hm He) as [[(m' & -> & Hm' & Hsame) Hproc]|(-> & _ & message & Hraise)].
  - assert (n ≠ name) as Hne by (intros ->; apply Hnp, Hproc; congruence).
    apply elem_of_cons in Hin as [?|Hin]; [congruence|]. apply (IH Hnd Hin); [done| |by rewrite Hsame by done].
    intros k Hk. rewrite Hsame by congruence. apply Hl. by right.
  - destruct (perform (reconcile_entry n) m) as [r m']. cbn in Hraise. subst r. by exists message.
Qed.

Lemma reconcile_storage_refused name m : at_rows m → name ≠ ".processing" → root (on_disk m) !! name = Some PrivateDirectory →
  refused (perform reconcile_recording_storage m).1.
Proof using Type.
  intros Hm Hnp Hdir. unfold reconcile_recording_storage. rewrite perform_look, perform_bind.
  destruct (reconcile_entries_refused name (elements (dom (root (on_disk m)))) m) as [message Hraise]; try done.
  - intros n Hn. by apply elem_of_dom, elem_of_elements.
  - apply NoDup_elements.
  - apply elem_of_elements, elem_of_dom. by eexists.
  - destruct (perform (for_each _ _) m) as [r m']. cbn in Hraise. subst r. by exists message.
Qed.
End Repair.
