(* ===== verification/Voicemail.v ===== *)
(** * Voicemail recordings ([recording_api.py])

    The requests of a tablet that reserve, send and finish a recording, and those of the
    administrator that list, play and delete it and set the retention.  A handler is a
    [Script.script] over the store of [Storage]. *)
From Stdlib Require Import Ascii.
From stdpp Require Import base gmap sets strings numbers pretty list.
From S2P Require Import Prelude FlowTree Schemas Json Crypto Documents Store Drafts Revisions V4Api Diff Devices Calls Recordings Wave Script Storage.

(** [RecordingUploadResponse] *)
Record upload_response := {
  response_id : string; response_status : recording_status; response_offset : Z; response_expected : Z;
  response_sha256 : string; acknowledged : bool }.
Definition as_upload_response (id : string) (r : recording_row) (u : option upload_row) : upload_response :=
  {| response_id := id;
     response_status := if decide (rec_status r = Deleted) then Ready else rec_status r;
     response_offset := match u with Some u => upload_offset u | None => 0 end;
     response_expected := match u with Some u => expected_size_bytes u | None => source_size_bytes (source_of r) end;
     response_sha256 := source_sha256 (source_of r);
     acknowledged := bool_decide (rec_status r = Ready) || bool_decide (rec_status r = Deleted) |}.

(** [RecordingCreateRequest] *)
Record recording_request := {
  create_recording_id : string; create_call_id : string; create_revision_id : Z; create_block_id : string; create_sequence : Z;
  create_captured_at : timestamp; create_duration_ms : Z; create_stop_reason : string; create_expected_size : Z;
  create_sha256 : string }.
Definition request_fields (b : recording_request) : bool :=
  (1 <=? create_revision_id b)%Z && BLOCK_ID_PATTERN (create_block_id b) && in_range 0 63 (create_sequence b)
  && in_range 1 180000 (create_duration_ms b)
  && bool_decide (create_stop_reason b ∈ ["finish_key"; "maximum_duration"; "caller_hangup"])
  && in_range 45 41943040 (create_expected_size b) && is_hash (create_sha256 b).

(** [manifest.get(k, {})] *)
Definition get_object (k : string) (j : json) : result json := default (JObj []) <$> get_member k j.
Definition recording_instruction_exists (manifest : json) (block_id : string) : result bool :=
  program ← get_object "program" manifest;
  instructions ← member_list "instructions" program;
  foldM (λ (found : bool) instruction,
           if found then Ok true
           else op ← get_member "op" instruction;
                if py_eq (default JNull op) (JStr "record_message") then
                  block ← get_member "block_id" instruction; Ok (py_eq (default JNull block) (JStr block_id))
                else Ok false) false instructions.

Definition not_found : exn := HTTPException 404 ["Recording not found"].
Definition use_continuous_api : exn := HTTPException 409 ["Use the continuous recording API for this recording"].
Definition get_owned_recording (device id : string) (s : recordings_db) : result recording_row :=
  r ← of_option not_found (recordings s !! id);
  if bool_decide (rec_device (capture_of r) ≠ device) then Raise (HTTPException 403 ["Recording belongs to another device"])
  else if bool_decide (source_format (capture_of r) ≠ "legacy_wav") then Raise use_continuous_api
  else Ok r.

Definition storage_full : exn := HTTPException 507 ["Voicemail storage quota is full; retain the encrypted device spool"].
Definition require_recording_capacity (cfg : recording_settings) (required : Z) (s : recordings_db) : result unit :=
  if (recording_quota_bytes cfg <? recording_used_bytes None None s + required)%Z then Raise storage_full else Ok ().

(** The unique constraints of the new rows. *)
Definition free_call_step (r : recording_row) (s : recordings_db) : bool :=
  bool_decide (map_Forall (λ _ q, ¬ (rec_device (capture_of q) = rec_device (capture_of r)
    ∧ rec_call (capture_of q) = rec_call (capture_of r) ∧ rec_sequence (capture_of q) = rec_sequence (capture_of r))) (recordings s)).
Definition free_upload_name (name : string) (s : recordings_db) : bool :=
  bool_decide (map_Forall (λ _ u, upload_storage u ≠ name) (upload_rows s)).
Definition free_media_name (id name : string) (s : recordings_db) : bool :=
  bool_decide (map_Forall (λ i q, i ≠ id → media_storage_name (media_of q) ≠ Some name) (recordings s)).

Definition new_upload (b : recording_request) (name : string) (t : datetime) : upload_row :=
  {| expected_size_bytes := create_expected_size b; upload_sha256 := create_sha256 b; upload_offset := 0; upload_storage := name;
     upload_updated := t |}.
Definition new_recording (device : string) (b : recording_request) (t : datetime) : recording_row :=
  {| capture_of := {| rec_device := device; rec_call := create_call_id b; rec_revision := Some (create_revision_id b);
                      rec_block := Some (create_block_id b); rec_sequence := create_sequence b; kind := "voicemail";
                      audit_metadata := None; operator_encrypted := None; operator_last4 := "";
                      captured_at := create_captured_at b; source_format := "legacy_wav" |};
     source_of := {| rec_duration_ms := create_duration_ms b; rec_stop_reason := create_stop_reason b;
                     source_size_bytes := create_expected_size b; source_sha256 := create_sha256 b; partial := false;
                     segment_count := 0 |};
     media_of := no_media; rec_status := Uploading; processing_error := None; listened_at := None; deleted_at := None;
     deletion_reason := None; rec_updated := t |}.
Definition same_metadata (b : recording_request) (r : recording_row) : bool :=
  bool_decide (rec_call (capture_of r) = create_call_id b) && bool_decide (rec_revision (capture_of r) = Some (create_revision_id b))
  && bool_decide (rec_block (capture_of r) = Some (create_block_id b)) && bool_decide (rec_sequence (capture_of r) = create_sequence b)
  && bool_decide (rec_duration_ms (source_of r) = create_duration_ms b) && bool_decide (rec_stop_reason (source_of r) = create_stop_reason b)
  && bool_decide (source_size_bytes (source_of r) = create_expected_size b) && bool_decide (source_sha256 (source_of r) = create_sha256 b).

Definition seconds_us (n : Z) : Z := n * 1000000.

Section Create.
Context `{Cryptography} (key : bytes) (cfg : recording_settings).

(** What the call and the signed revision allow. *)
Definition check_recording (r : request) (device : string) (b : recording_request) (st : store) (calls : call_store) : result unit :=
  call ← of_option (HTTPException 409 ["Call event must be acknowledged before its recording"]) (call_records calls !! create_call_id b);
  if bool_decide (call_device call ≠ device) then Raise (HTTPException 403 ["Call belongs to another device"])
  else
    let captured := utc (create_captured_at b) in
    let started := utc (call_started call) in
    if (captured <? started - seconds_us 5)%Z || (started + seconds_us 600 <? captured)%Z
       || (instant (now r) + seconds_us 300 <? captured)%Z
    then Raise (HTTPException 422 ["Recording timestamp is outside its call session"])
    else
      let unknown := HTTPException 422 ["Recording revision is not a V3/V4 revision"] in
      revision ← of_option unknown (revisions st !! create_revision_id b);
      if negb (bool_decide (revision_schema_version revision = 3)%Z || bool_decide (revision_schema_version revision = 4)%Z)
      then Raise unknown
      else if bool_decide (call_revision call ≠ Some (create_revision_id b))
      then Raise (HTTPException 409 ["Recording revision does not match the call"])
      else
        manifest ← load_manifest key revision;
        exists_ ← recording_instruction_exists manifest (create_block_id b);
        if negb (exists_ : bool) then Raise (HTTPException 422 ["Recording block is not present in the signed revision"])
        else
          behavior ← get_object "recording_behavior" manifest;
          finish ← (if bool_decide (create_stop_reason b = "finish_key") then get_member "finish_key" behavior else Ok (Some (JBool true)));
          if py_eq (default JNull finish) JNull then Raise (HTTPException 422 ["The signed revision disables finish-key stopping"])
          else
            seconds ← get_member "maximum_duration_seconds" behavior;
            seconds ← py_int (default (JInt 0) seconds);
            let maximum := (seconds * 1000)%Z in
            if (maximum <? create_duration_ms b)%Z then Raise (HTTPException 422 ["Recording duration exceeds the signed limit"])
            else if bool_decide (create_stop_reason b = "maximum_duration") && (create_duration_ms b <? maximum - 100)%Z
            then Raise (HTTPException 422 ["Maximum-duration receipt ended too early"])
            else if (recording_upload_limit_bytes cfg <? create_expected_size b)%Z
                    || (44 + create_duration_ms b * 192 + 4096 <? create_expected_size b)%Z
            then Raise (HTTPException 413 ["Recording size exceeds its duration bound"])
            else Ok ().

Definition reserve_again (r : request) (id : string) (b : recording_request) (policy : retention_row) (s : recordings_db)
    : option recordings_db :=
  match upload_rows s !! id with
  | None => if free_upload_name (uuid_hex r) s
            then Some (with_uploads (<[id := new_upload b (uuid_hex r) (now r)]> (upload_rows s))
                   (with_recordings (alter (with_status Uploading (now r)) id (recordings s)) (with_retention policy s)))
            else None
  | Some _ => None
  end.
Definition reserve (r : request) (device : string) (b : recording_request) (policy : retention_row) (s : recordings_db)
    : option recordings_db :=
  let id := create_recording_id b in
  let row := new_recording device b (now r) in
  match recordings s !! id, upload_rows s !! id with
  | None, None => if free_call_step row s && free_upload_name (uuid_hex r) s
                  then Some (with_uploads (<[id := new_upload b (uuid_hex r) (now r)]> (upload_rows s))
                         (with_recordings (<[id := row]> (recordings s)) (with_retention policy s)))
                  else None
  | _, _ => None
  end.

Definition create_recording (r : request) (device : string) (b : recording_request) (st : store) (calls : call_store)
    : program upload_response :=
  let id := create_recording_id b in
  s ← look (λ m, Ok (committed m));
  let policy := initialize_retention_policy (now r) (development_admin_email cfg) s in
  match recordings s !! id with
  | Some existing =>
      if bool_decide (source_format (capture_of existing) ≠ "legacy_wav") then Return (Raise use_continuous_api)
      else if bool_decide (rec_device (capture_of existing) ≠ device)
      then Return (Raise (HTTPException 409 ["Recording ID belongs to another device"]))
      else if negb (same_metadata b existing)
      then Return (Raise (HTTPException 409 ["Recording ID was reused with different metadata"]))
      else if bool_decide (rec_status existing = RecordingFailed) && bool_decide (upload_rows s !! id = None) then
        _ ← lift (require_recording_capacity cfg (create_expected_size b) s);
        name ← create_upload_directory (uuid_hex r);
        _ ← commit_or (Return (Ok ())) (reserve_again r id b policy);
        Return (Ok (as_upload_response id (with_status Uploading (now r) existing) (Some (new_upload b name (now r)))))
      else Return (Ok (as_upload_response id existing (upload_rows s !! id)))
  | None =>
      _ ← lift (check_recording r device b st calls);
      _ ← lift (require_recording_capacity cfg (create_expected_size b) s);
      name ← create_upload_directory (uuid_hex r);
      done ← commit (reserve r device b policy);
      match done with
      | Committed => Return (Ok (as_upload_response id (new_recording device b (now r)) (Some (new_upload b name (now r)))))
      | Violated => _ ← rmdir name; Return (Raise (HTTPException 409 ["Duplicate recording for this call step"]))
      | Failed => Return (Raise DatabaseError)
      end
  end.

Definition recording_upload_status (device id : string) : program upload_response :=
  look (λ m, r ← get_owned_recording device id (committed m); Ok (as_upload_response id r (upload_rows (committed m) !! id))).
End Create.

(** ** Content *)

(** [_read_bounded_chunk] of a declared length and the parts of the stream *)
Fixpoint read_parts (too_large : string) (limit : Z) (body : bytes) (parts : list bytes) : result bytes :=
  match parts with
  | [] => Ok body
  | part :: parts =>
      if (limit <? Z.of_nat (length body + length part))%Z then Raise (HTTPException 413 [too_large])
      else read_parts too_large limit (body ++ part) parts
  end.
Definition read_bounded_chunk (too_large : string) (limit : Z) (declared : option string) (parts : list bytes) : result bytes :=
  _ ← match declared with
      | None => Ok ()
      | Some text =>
          n ← of_option (HTTPException 400 ["Content-Length is invalid"]) (python_int text);
          if (n <? 0)%Z then Raise (HTTPException 400 ["Content-Length is invalid"])
          else if (limit <? n)%Z then Raise (HTTPException 413 [too_large])
          else Ok ()
      end;
  read_parts too_large limit [] parts.

(** [value.split(sep, 1)]: what precedes the separator, and what follows it if it occurs. *)
Fixpoint split_once (sep : ascii) (l : bytes) : bytes * option bytes :=
  match l with
  | [] => ([], None)
  | c :: l => if Ascii.eqb c sep then ([], Some l) else let (a, b) := split_once sep l in (c :: a, b)
  end.

Section Content.
Context `{Cryptography} `{KeyDerivation} (cfg : recording_settings) (c : recording_cipher).

Definition store_recording_chunk (t : datetime) (n : bytes) (identity : string) (u : upload_row) (offset : Z) (body : bytes)
    : program upload_row :=
  act (λ m, '(u', chunks) ← store_chunk (recording_chunk_limit_bytes cfg) c t n identity u (upload_directory u (on_disk m)) offset body;
            Ok (u', with_directories (<[upload_storage u := chunks]> (upload_directories (on_disk m))) (on_disk m))).
Definition advanced (id : string) (u : upload_row) (t : datetime) (replay : bool) (s : recordings_db) : recordings_db :=
  if replay then s
  else with_uploads (alter (λ _, u) id (upload_rows s))
         (with_recordings (alter (λ r, with_status (rec_status r) t r) id (recordings s)) s).

Definition upload_recording_content (r : request) (device id : string) (offset : option Z) (content_type : string)
    (declared : option string) (parts : list bytes) : program upload_response :=
  match offset with
  | None => Return (Raise (HTTPException 400 ["Upload-Offset is required"]))
  | Some offset =>
      if (offset <? 0)%Z then Return (Raise (HTTPException 400 ["Upload-Offset is required"]))
      else if bool_decide (fst (split_once ";" (to_bytes content_type)) ≠ to_bytes "application/offset+octet-stream")
      then Return (Raise (HTTPException 415 ["Use application/offset+octet-stream"]))
      else
        s ← look (λ m, Ok (committed m));
        row ← lift (get_owned_recording device id s);
        if bool_decide (rec_status row = Ready) || bool_decide (rec_status row = Deleted)
        then Return (Ok (as_upload_response id row None))
        else if bool_decide (rec_status row ≠ Uploading) then Return (Raise (HTTPException 409 ["Recording is not accepting content"]))
        else
          u ← lift (of_option (HTTPException 409 ["Recording upload is unavailable"]) (upload_rows s !! id));
          body ← lift (read_bounded_chunk "Recording chunk exceeds 1 MiB" (recording_chunk_limit_bytes cfg) declared parts);
          u' ← store_recording_chunk (now r) (nonce r 0) id u offset body;
          _ ← commit_or (Return (Ok ())) (λ s, Some (advanced id u' (now r) (offset <? upload_offset u)%Z s));
          Return (Ok (as_upload_response id row (Some u')))
  end.

(** ** Completion *)

Context `{Transcoder}.

(** [finalize_recording]: the name of the file it placed, with the row's columns. *)
Definition finalize_recording (r : request) (id : string) (row : recording_row) (u : upload_row)
    : program (string * (Z * media_columns)) :=
  source ← look (λ m, read_uploaded_wav c id u (upload_directory u (on_disk m)));
  details ← lift (inspect_caller_wav source (rec_duration_ms (source_of row)));
  encoded ← lift (transcode_voicemail source);
  encrypted ← lift (encrypt_media (nonce r 0) c id encoded);
  _ ← look (λ m, _ ← of_option (RecordingError "Voicemail retention state is unavailable." 503) (retention (committed m));
                 if (recording_quota_bytes cfg <? recording_used_bytes (Some id) None (committed m) + Z.of_nat (length encrypted))%Z
                 then Raise (RecordingError "Voicemail storage quota is full; the device must retain its spool." 507)
                 else Ok ());
  let name := uuid_hex r +:+ ".rec" in
  let temporary := ".media-" +:+ uuid_hex r in
  _ ← act (λ m, Ok ((), with_root (<[temporary := PrivateFile encrypted]> (root (on_disk m))) (on_disk m)));
  let finally := act (λ m, Ok ((), unlink temporary (on_disk m))) in
  _ ← catch (act (λ m, d ← replace temporary name (on_disk m); Ok ((), d))) (λ e, _ ← finally; Return (Raise e));
  _ ← finally;
  Return (Ok (name, (wav_duration_ms details,
    {| media_key_version := Some (cipher_version c); media_storage_name := Some name;
       media_size_bytes := Some (Z.of_nat (length encrypted)); media_sha256 := Some (sha256_hexdigest encoded) |}))).

(** The row is ready and the upload's row is gone. *)
Definition completed (r : request) (id : string) (p : Z * media_columns) (s : recordings_db) : option recordings_db :=
  if match media_storage_name p.2 with Some name => free_media_name id name s | None => true end
  then Some (with_recordings (alter (with_media Ready p.1 p.2 (now r)) id (recordings s)) (with_uploads (delete id (upload_rows s)) s))
  else None.

(** The caller whom the notification of the recording names, with the data key. *)
Definition announced_caller (key : bytes) (calls : call_store) (call_id : string) : result (option bytes) :=
  match call_records calls !! call_id ≫= caller_encrypted with
  | Some e => if bool_decide (e = []) then Ok None else Some <$> decrypt key e
  | None => Ok None
  end.

(** The notification that follows the answer is the event [voicemail_ready]. *)
Definition complete_recording (key : bytes) (r : request) (device id : string) (calls : call_store) : program upload_response :=
  s ← look (λ m, Ok (committed m));
  row ← lift (get_owned_recording device id s);
  if bool_decide (rec_status row = Ready) || bool_decide (rec_status row = Deleted)
  then Return (Ok (as_upload_response id row None))
  else if bool_decide (rec_status row ≠ Uploading) then Return (Raise (HTTPException 409 ["Recording cannot be completed"]))
  else
    u ← lift (of_option (HTTPException 409 ["Recording upload is unavailable"]) (upload_rows s !! id));
    done ← finalize_recording r id row u;
    _ ← lift (announced_caller key calls (rec_call (capture_of row)));
    _ ← commit_or (act (λ m, Ok ((), unlink done.1 (on_disk m)))) (completed r id done.2);
    _ ← remove_upload_files u;
    Return (Ok (as_upload_response id (with_media Ready done.2.1 done.2.2 (now r) row) None)).

(** ** Retention, deletion and the administrator's marks *)

Definition apply_retention (t : datetime) (actor : string) (change : recordings_db → recordings_db) (policy : retention_row)
    : program unit :=
  items ← purge_expired_recordings policy t;
  _ ← commit_or (restore_all items) (λ s, Some (change (purged items t (with_retention policy s))));
  discard_all items.

(** [_apply_retention], with which every listing starts *)
Definition list_retention (r : request) : program unit :=
  policy ← look (λ m, Ok (initialize_retention_policy (now r) (development_admin_email cfg) (committed m)));
  apply_retention (now r) (actor r) (λ s, s) policy.

Definition get_recording_settings (r : request) : program retention_row :=
  policy ← look (λ m, Ok (initialize_retention_policy (now r) (development_admin_email cfg) (committed m)));
  _ ← retention_pass cfg (now r) policy;
  Return (Ok policy).

Definition put_recording_settings (r : request) (mode_automatic : bool) (days : Z) : program retention_row :=
  let policy := {| automatic := mode_automatic; retention_days := days; retention_updated := now r; retention_by := actor r |} in
  _ ← apply_retention (now r) (actor r)
        (with_audit (actor r) "recording.retention_updated" "recording-retention-policy"
           (JObj [("mode", JStr (if mode_automatic then "automatic" else "manual")); ("days", JInt days)])) policy;
  Return (Ok policy).

Definition set_recording_listened (r : request) (id : string) (listened : bool) : program recording_row :=
  s ← look (λ m, Ok (committed m));
  row ← lift (of_option not_found (recordings s !! id));
  if bool_decide (rec_status row = Deleted) then Return (Raise not_found)
  else if bool_decide (rec_status row ≠ Ready) then Return (Raise (HTTPException 409 ["Only completed recordings can be marked listened"]))
  else
    let mark := with_listened (if listened then Some (now r) else None) (now r) in
    _ ← commit_or (Return (Ok ())) (λ s, Some (with_audit (actor r) "recording.listened_changed" ("recording:" +:+ id)
                                                (JObj [("listened", JBool listened)]) (with_recordings (alter mark id (recordings s)) s)));
    Return (Ok (mark row)).

Definition delete_recording (r : request) (id : string) : program unit :=
  s ← look (λ m, Ok (committed m));
  row ← lift (of_option not_found (recordings s !! id));
  if bool_decide (rec_status row = Deleted) then Return (Ok ())
  else if bool_decide (rec_status row ≠ Ready) then Return (Raise (HTTPException 409 ["Pending device recordings cannot be deleted"]))
  else
    name ← quarantine_media row;
    _ ← commit_or (restore_quarantined_media name)
          (λ s, Some (with_audit (actor r) "recording.deleted" ("recording:" +:+ id) (JObj [])
                        (with_recordings (alter (tombstone_recording "manual" (now r)) id (recordings s)) s)));
    discard_quarantined_media name.

(** ** Playback *)

(** [load_media] *)
Definition load_media (id : string) (r : recording_row) (d : disk) : result bytes :=
  if bool_decide (rec_status r ≠ Ready) || negb (truthy (media_storage_name (media_of r)))
  then Raise (RecordingError "Voicemail audio is unavailable." 404)
  else
    name ← media_path r d;
    payload ← require_safe_file name d;
    if bool_decide (media_size_bytes (media_of r) ≠ Some (Z.of_nat (length payload)))
    then Raise (RecordingError "Recording media size verification failed." 503)
    else
      _ ← match media_key_version (media_of r) with
          | None => Raise (RecordingError "Recording media key-version verification failed." 503)
          | Some v => version ← media_version payload;
                      if bool_decide (version ≠ v) then Raise (RecordingError "Recording media key-version verification failed." 503)
                      else Ok ()
          end;
      plaintext ← decrypt_media c id payload;
      if truthy (media_sha256 (media_of r)) && bool_decide (Some (sha256_hexdigest plaintext) ≠ media_sha256 (media_of r))
      then Raise (RecordingError "Recording media hash verification failed." 503)
      else Ok plaintext.

(** [_parse_range]; the text [x] without a dash raises an [IndexError] of its own. *)
Definition range_error (message : string) : exn := HTTPException 416 [message].
Definition parse_range (value : option string) (size : Z) : result (option (Z * Z)) :=
  match value with
  | None => Ok None
  | Some value =>
      if negb (has_prefix "bytes=" value) || bool_decide (","%char ∈ to_bytes value)
      then Raise (range_error "Only one byte range is supported")
      else
        let (first, second) := split_once "-" (drop 6 (to_bytes value)) in
        let int (l : bytes) := of_option (range_error "Invalid byte range") (python_int (of_bytes l)) in
        bounds ←
          (if bool_decide (first = []) then
             last ← of_option IndexError second;
             n ← int last;
             if (n <=? 0)%Z then Raise (range_error "Invalid byte range") else Ok (Z.max 0 (size - n), size - 1)%Z
           else
             start ← int first;
             last ← of_option IndexError second;
             if bool_decide (last = []) then Ok (start, size - 1)%Z
             else n ← int last; Ok (start, n));
        if (bounds.1 <? 0)%Z || (size <=? bounds.1)%Z || (bounds.2 <? bounds.1)%Z
        then Raise (range_error "Byte range is outside the recording")
        else Ok (Some (bounds.1, Z.min bounds.2 (size - 1)))
  end.

(** The status, the bytes and the value of [Content-Range] of an answer. *)
Record audio_response := { audio_status : Z; audio_content : bytes; content_range : option (Z * Z * Z) }.

(** [_audio_response] of a voicemail.  Other recordings are decrypted to a private file with
    the same checks, which the server sends and then removes. *)
Definition audio_response_of (id : string) (range : option string) : program audio_response :=
  look (λ m,
    match recordings (committed m) !! id with
    | None => Raise not_found
    | Some r =>
        if bool_decide (rec_status r = Deleted) then Raise not_found
        else if bool_decide (rec_status r ≠ Ready) then Raise (HTTPException 409 ["Recording audio is not ready"])
        else
          media ← load_media id r (on_disk m);
          selected ← parse_range range (Z.of_nat (length media));
          match selected with
          | None => Ok {| audio_status := 200; audio_content := media; content_range := None |}
          | Some (a, b) =>
              Ok {| audio_status := 206; audio_content := take (Z.to_nat (b + 1 - a)) (drop (Z.to_nat a) media);
                    content_range := Some (a, b, Z.of_nat (length media)) |}
          end
    end).
End Content.

(** [_policy_response] *)
Record policy_response := { response_policy : retention_row; quota_bytes : Z; storage_used_bytes : Z; pending_count : Z }.
Definition policy_response_of (cfg : recording_settings) (policy : retention_row) : program policy_response :=
  look (λ m, Ok {| response_policy := policy; quota_bytes := recording_quota_bytes cfg;
                   storage_used_bytes := recording_used_bytes None None (committed m);
                   pending_count := Z.of_nat (size (filter (λ '(_, r), rec_status r = Uploading ∨ rec_status r = Processing)
                                                          (recordings (committed m)))) |}).
