(* ===== verification/WaveFacts.v ===== *)
(** * WAV files: inspection terminates, and reads exactly the samples *)
From Stdlib Require Import Ascii.
From stdpp Require Import base gmap sets strings numbers pretty list.
From S2P Require Import Prelude FlowTree Schemas Json Crypto Documents Store Diff Devices Calls Recordings Wave.

(** ** Reading *)

Ltac unfold_chunk := unfold advance_chunk in *; cbv beta iota delta [fst snd chunk_id size_read chunk_size position] in *.

Section Riff.
Context (riff : bytes).
Abbreviation size := (riff_size riff).

Lemma riff_read_length pos n : (0 ≤ pos)%Z → Z.of_nat (length (riff_read riff pos n)) = Z.max 0 (Z.min n (size - pos)).
Proof. intros Hpos. unfold riff_read, riff_size. rewrite length_take, length_drop. lia. Qed.

(** A chunk that was just opened or read in part. *)
Definition within (c : chunk) : Prop :=
  (0 ≤ size_read c)%Z ∧ (0 ≤ chunk_size c)%Z ∧ (8 ≤ position c ≤ size)%Z ∧
  (size_read c ≤ chunk_size c + (if Z.odd (chunk_size c) then 1 else 0))%Z.

Lemma little_endian_nonneg l : (0 ≤ little_endian l)%Z.
Proof. induction l as [|x l IH]; simpl; lia. Qed.
Lemma open_chunk_within pos c : (0 ≤ pos)%Z → open_chunk riff pos = Some c → within c ∧ size_read c = 0%Z ∧ position c = (pos + 8)%Z.
Proof.
  intros Hpos. unfold open_chunk. destruct (Nat.ltb_spec (length (riff_read riff pos 4)) 4) as [|H1]; [done|].
  destruct (Nat.ltb_spec (length (riff_read riff (pos + 4) 4)) 4) as [|H2]; [done|]. intros [= <-].
  pose proof (riff_read_length (pos + 4) 4 ltac:(lia)). pose proof (little_endian_nonneg (riff_read riff (pos + 4) 4)).
  unfold within. cbn [chunk_size size_read position].
  destruct (Z.odd _); lia.
Qed.

Lemma chunk_read_within n c : (0 ≤ n)%Z → within c →
  within (chunk_read riff n c).2 ∧ (position c ≤ position (chunk_read riff n c).2)%Z.
Proof.
  destruct c as [name total done at_]. intros Hn Hc. pose proof Hc as (H1 & H2 & H3 & H4). unfold chunk_read. unfold_chunk.
  destruct (Z.leb_spec total done); [split; [done|cbn; lia]|].
  pose proof (riff_read_length at_ (Z.min n (total - done)) ltac:(lia)) as Hlen.
  set (data := riff_read _ _ _) in *. case_bool_decide as Hend; cbn [andb].
  - destruct (Z.odd total) eqn:Hodd.
    + unfold within. unfold_chunk. rewrite ?Hodd. pose proof (riff_read_length (at_ + Z.of_nat (length data)) 1 ltac:(lia)). lia.
    + unfold within. unfold_chunk. rewrite ?Hodd. lia.
  - unfold within. unfold_chunk. destruct (Z.odd total); lia.
Qed.
Lemma chunk_skip_forward c pos : within c → chunk_skip riff c = Ok pos → (position c ≤ pos ≤ size)%Z.
Proof.
  intros (H1 & H2 & H3 & H4). unfold chunk_skip. destruct (_ || _) eqn:Hb; [done|]. intros [= <-].
  apply orb_false_iff in Hb as [_ Hb%Z.ltb_ge]. destruct (Z.odd _); lia.
Qed.
Lemma chunk_skip_total c : chunk_skip riff c ≠ Raise OutOfFuel.
Proof. unfold chunk_skip. by destruct (_ || _). Qed.

Lemma read_fmt_chunk_within c : within c →
  match read_fmt_chunk riff c with
  | Ok p => within p.2 ∧ (position c ≤ position p.2)%Z ∧ (0 < nchannels p.1)%Z ∧ (0 < sampwidth p.1)%Z
  | Raise e => e ≠ OutOfFuel
  end.
Proof.
  intros Hc. unfold read_fmt_chunk.
  destruct (chunk_read riff 14 c) as [head c1] eqn:E1. destruct (chunk_read_within 14 c) as [Hc1 Hp1]; [lia|done|]. rewrite E1 in Hc1, Hp1.
  destruct (_ <? 14); [done|]. destruct (_ && _); [done|].
  destruct (chunk_read riff 2 c1) as [bits c2] eqn:E2. destruct (chunk_read_within 2 c1) as [Hc2 Hp2]; [lia|done|]. rewrite E2 in Hc2, Hp2.
  cbn [snd] in *. destruct (_ <? 2); [done|].
  assert (∀ c3, within c3 → (position c ≤ position c3)%Z →
    match (if bool_decide (((little_endian bits + 7) / 8)%Z = 0%Z) then Raise wave_Error
           else if bool_decide (little_endian (take 2 (drop 2 head)) = 0%Z) then Raise wave_Error
           else Ok ({| nchannels := little_endian (take 2 (drop 2 head)); sampwidth := (little_endian bits + 7) / 8;
                       framerate := little_endian (take 4 (drop 4 head)) |}, c3)) with
    | Ok p => within p.2 ∧ (position c ≤ position p.2)%Z ∧ (0 < nchannels p.1)%Z ∧ (0 < sampwidth p.1)%Z
    | Raise e => e ≠ OutOfFuel
    end) as Hlast.
  { intros c3 Hc3 Hp3. case_bool_decide as Hw; [done|]. case_bool_decide as Hch; [done|]. cbn.
    pose proof (little_endian_nonneg bits). pose proof (little_endian_nonneg (take 2 (drop 2 head))).
    pose proof (Z.div_pos (little_endian bits + 7) 8 ltac:(lia)). split_and!; [done|done|lia|lia]. }
  destruct (bool_decide (little_endian (take 2 head) = 65534)%Z).
  - destruct (chunk_read riff 8 c2) as [ext c3] eqn:E3. destruct (chunk_read_within 8 c2) as [Hc3 Hp3]; [lia|done|]. rewrite E3 in Hc3, Hp3.
    cbn [snd] in *. destruct (_ <? 8); [cbn; discriminate|].
    destruct (chunk_read riff 16 c3) as [sub c4] eqn:E4. destruct (chunk_read_within 16 c3) as [Hc4 Hp4]; [lia|done|]. rewrite E4 in Hc4, Hp4.
    cbn [snd] in *. destruct (_ <? 16); [cbn; discriminate|]. destruct (bool_decide (sub ≠ KSDATAFORMAT_SUBTYPE_PCM)); [cbn; discriminate|]. apply Hlast; [done|lia].
  - apply Hlast; [done|lia].
Qed.

Lemma find_chunks_within fuel format pos :
  (0 ≤ pos ≤ size)%Z → (size - pos < 8 * Z.of_nat fuel)%Z → option_all (λ f, (0 <? nchannels f)%Z && (0 <? sampwidth f)%Z) format = true →
  match find_chunks riff fuel format pos with
  | Ok (f, c) => within c ∧ size_read c = 0%Z ∧ (0 < nchannels f)%Z ∧ (0 < sampwidth f)%Z
  | Raise e => e ≠ OutOfFuel
  end.
Proof.
  revert format pos. induction fuel as [|fuel IH]; intros format pos Hpos Hfuel Hformat; [lia|]. simpl.
  destruct (open_chunk riff pos) as [c|] eqn:Hopen; [|done]. apply open_chunk_within in Hopen as (Hc & Hread & Hat); [|lia].
  case_bool_decide as Hfmt.
  - pose proof (read_fmt_chunk_within c Hc) as Hr. destruct (read_fmt_chunk riff c) as [[f c']|e]; [|exact Hr]. cbn [mbind result_bind snd fst] in *.
    destruct Hr as (Hc' & Hp' & Hch & Hw). destruct (chunk_skip riff c') as [pos'|e] eqn:Hskip.
    + apply chunk_skip_forward in Hskip; [|done]. apply IH; [lia|lia|]. cbn. by rewrite !(proj2 (Z.ltb_lt _ _)) by done.
    + intros ->. by apply (chunk_skip_total c').
  - case_bool_decide.
    + destruct format as [f|]; [|done]. cbn in Hformat. apply andb_true_iff in Hformat as [?%Z.ltb_lt ?%Z.ltb_lt]. by split_and!.
    + destruct (chunk_skip riff c) as [pos'|e] eqn:Hskip; cbn [mbind result_bind].
      * apply chunk_skip_forward in Hskip; [|done]. apply IH; [lia|lia|done].
      * intros ->. by apply (chunk_skip_total c).
Qed.
Lemma wave_open_within :
  match wave_open riff with
  | Ok (f, c) => within c ∧ size_read c = 0%Z ∧ (0 < nchannels f)%Z ∧ (0 < sampwidth f)%Z
  | Raise e => e ≠ OutOfFuel
  end.
Proof.
  unfold wave_open. case_bool_decide as Hw; [done|]. apply find_chunks_within; [|unfold riff_size; lia|done].
  assert (riff_read riff 0 4 = to_bytes "WAVE") as Hr by (by destruct (decide (riff_read riff 0 4 = to_bytes "WAVE"))).
  apply (f_equal length) in Hr. unfold riff_read in Hr. rewrite length_take in Hr. cbn in Hr. unfold riff_size in *. lia.
Qed.

(** ** The loop over the samples *)

Lemma read_frames_exact short fuel f : ∀ c n acc,
  framesize f = 4%Z → within c → (0 ≤ n)%Z → (size_read c + 4 * n ≤ chunk_size c)%Z → (size - position c < 4 * Z.of_nat fuel)%Z →
  read_frames short riff fuel f c n acc =
    if decide (position c + 4 * n ≤ size)%Z then Ok (acc ++ take (Z.to_nat (4 * n)) (drop (Z.to_nat (position c)) riff)) else Raise short.
Proof.
  induction fuel as [|fuel IH]; intros c n acc Hf Hc Hn Hsize Hfuel.
  { destruct Hc as (_ & _ & ? & _). lia. }
  simpl. case_bool_decide as Hz.
  { subst n. destruct Hc as (_ & _ & ? & _). rewrite decide_True by lia. cbn. by rewrite app_nil_r. }
  rewrite Hf. set (count := Z.min 48000 n).
  destruct (chunk_read riff (count * 4) c) as [payload c'] eqn:Hread.
  destruct (chunk_read_within (count * 4) c) as [Hc' Hp']; [lia|done|]. rewrite Hread in Hc', Hp'. cbn [snd] in *.
  destruct c as [name total done_ at_]. pose proof Hc as (H1 & H2 & H3 & H4). unfold_chunk. unfold chunk_read in Hread. unfold_chunk.
  destruct (Z.leb_spec total done_); [lia|]. rewrite (Z.min_l (count * 4)) in Hread by lia.
  pose proof (riff_read_length at_ (count * 4) ltac:(lia)) as Hlen.
  assert (payload = riff_read riff at_ (count * 4)) as Hpayload
    by (revert Hread; destruct (_ && _); by intros [= ? _]).
  subst payload.
  destruct (decide (Z.of_nat (length (riff_read riff at_ (count * 4))) = (count * 4)%Z)) as [Hfull|Hshort].
  2: { rewrite bool_decide_true by done. by rewrite decide_False by lia. }
  rewrite bool_decide_false by auto.
  assert (at_ + count * 4 ≤ size)%Z as Hfit by lia.
  destruct (decide (n = count)) as [Heq|Hmore].
  - rewrite <- Heq, Z.sub_diag. destruct fuel; simpl.
    all: rewrite decide_True by lia; do 2 f_equal; unfold riff_read; f_equal; lia.
  - assert (c' = {| chunk_id := name; chunk_size := total; size_read := done_ + count * 4; position := at_ + count * 4 |}) as ->.
    { revert Hread. rewrite Hlen. rewrite Z.max_r, Z.min_l by lia. rewrite bool_decide_false by lia. cbn [andb]. by intros [= <-]. }
    rewrite IH; unfold_chunk; [|done|done|lia|lia|lia].
    destruct (decide (at_ + 4 * n ≤ size)%Z); [rewrite decide_True by lia|by rewrite decide_False by lia].
    f_equal. rewrite <- app_assoc. f_equal. unfold riff_read. rewrite Z.min_l by lia.
    replace (Z.to_nat (4 * n)) with (Z.to_nat (count * 4) + Z.to_nat (4 * (n - count))) by lia.
    rewrite <- take_take_drop, drop_drop. do 3 f_equal. lia.
Qed.
End Riff.

(** ** Inspection *)

(** The samples of a file that [wave] can open. *)
Definition samples (source : bytes) : bytes :=
  let riff := drop 8 source in
  match wave_open riff with
  | Ok (f, c) => take (Z.to_nat (4 * getnframes f c)) (drop (Z.to_nat (position c)) riff)
  | Raise _ => []
  end.

Lemma getnframes_bound f c : framesize f = 4%Z → (0 ≤ chunk_size c)%Z → (0 ≤ getnframes f c ∧ 4 * getnframes f c ≤ chunk_size c)%Z.
Proof. intros Hf Hc. unfold getnframes. rewrite Hf. split; [by apply Z.div_pos|apply Z.mul_div_le; lia]. Qed.

(** The loop over a file that was opened reads its samples, or finds it too short. *)
Lemma read_samples short source f c acc :
  wave_open (drop 8 source) = Ok (f, c) → framesize f = 4%Z →
  read_frames short (drop 8 source) (S (length (drop 8 source))) f c (getnframes f c) acc =
    (if decide (position c + 4 * getnframes f c ≤ riff_size (drop 8 source))%Z then Ok (acc ++ samples source) else Raise short)
  ∧ (position c + 4 * getnframes f c ≤ riff_size (drop 8 source) → Z.of_nat (length (samples source)) = 4 * getnframes f c)%Z.
Proof.
  intros Hopen Hf. pose proof (wave_open_within (drop 8 source)) as Hw. rewrite Hopen in Hw. destruct Hw as (Hc & Hread & _).
  pose proof Hc as (_ & Hsize & Hpos & _). destruct (getnframes_bound f c Hf Hsize). unfold samples. rewrite Hopen. split.
  - apply read_frames_exact; [done|done|lia|lia|]. unfold riff_size. lia.
  - unfold riff_size. intros Hfit. rewrite length_take, length_drop. lia.
Qed.

Lemma catch_wave_fuel {A} message (m : result A) : m ≠ Raise OutOfFuel → catch_wave message m ≠ Raise OutOfFuel.
Proof. destruct m as [|e]; [done|]. cbn. intros He. by destruct (_ || _). Qed.
Lemma catch_wave_ok {A} message (m : result A) a : catch_wave message m = Ok a → m = Ok a.
Proof. destruct m as [|e]; [done|]. cbn. by destruct (_ || _). Qed.

Lemma framesize_checked f :
  bool_decide (nchannels f ≠ 2)%Z || bool_decide (sampwidth f ≠ 2)%Z || bool_decide (framerate f ≠ 48000)%Z = false →
  framesize f = 4%Z ∧ framerate f = 48000%Z.
Proof.
  rewrite !orb_false_iff, !bool_decide_eq_false. intros [[?%dec_stable ?%dec_stable] ?%dec_stable]. unfold framesize. lia.
Qed.

(** Inspections end. *)
Lemma inspect_pcm_wav_total source expected : inspect_pcm_wav source expected ≠ Raise OutOfFuel.
Proof.
  unfold inspect_pcm_wav. destruct (bool_decide _); [done|]. destruct (_ <? 8); [done|]. destruct (_ || _); [done|].
  match goal with |- (?m ≫= _) ≠ _ => assert (m ≠ Raise OutOfFuel) as Hm; [|destruct m as [d|e]; [cbn|cbn; congruence]] end.
  - apply catch_wave_fuel. pose proof (wave_open_within (drop 8 source)) as Hw.
    destruct (wave_open (drop 8 source)) as [[f c]|e] eqn:Hopen; [|cbn; congruence]. cbn [mbind result_bind].
    destruct (_ || _) eqn:Hf; [done|]. apply framesize_checked in Hf as [Hf _].
    destruct (read_samples (RecordingError "Conversation WAV audio is truncated." 422) source f c [] Hopen Hf) as [-> _].
    by case_decide.
  - by destruct (_ || _); [|destruct (_ <? _)%Z].
Qed.
Lemma inspect_caller_wav_total source expected : inspect_caller_wav source expected ≠ Raise OutOfFuel.
Proof.
  unfold inspect_caller_wav. destruct (_ || _); [done|]. destruct (bool_decide _); [done|].
  match goal with |- (?m ≫= _) ≠ _ => assert (m ≠ Raise OutOfFuel) as Hm; [|destruct m as [d|e]; [cbn|cbn; congruence]] end.
  - apply catch_wave_fuel. pose proof (wave_open_within (drop 8 source)) as Hw.
    destruct (wave_open (drop 8 source)) as [[f c]|e]; [|cbn; congruence]. cbn [mbind result_bind].
    destruct (_ || _); [done|]. by destruct (bool_decide _).
  - by destruct (_ || _); [|destruct (_ <? _)%Z].
Qed.

(** What an accepted segment is: as many milliseconds of 48 kHz stereo samples as its receipt
    says, give or take a tenth of a second, all of them there. *)
Lemma inspect_pcm_wav_ok source expected d :
  inspect_pcm_wav source expected = Ok d →
  (0 < wav_duration_ms d ≤ 180000 ∧ Z.abs (wav_duration_ms d - expected) ≤ 100)%Z ∧
  wav_duration_ms d = milliseconds (wav_frames d) ∧ Z.of_nat (length (samples source)) = (4 * wav_frames d)%Z ∧
  ∃ f c, wave_open (drop 8 source) = Ok (f, c) ∧ getnframes f c = wav_frames d ∧
    ∀ short acc, read_frames short (drop 8 source) (S (length (drop 8 source))) f c (wav_frames d) acc = Ok (acc ++ samples source).
Proof.
  unfold inspect_pcm_wav. destruct (bool_decide _); [done|]. destruct (_ <? 8); [done|]. destruct (_ || _); [done|].
  intros (d' & Hd & Hrest)%result_bind_ok. revert Hrest. destruct (_ || _) eqn:Hrange; [done|].
  apply orb_false_iff in Hrange as [?%Z.leb_gt ?%Z.ltb_ge]. destruct (Z.ltb_spec 100 (Z.abs (wav_duration_ms d' - expected))); [done|].
  intros [= ->].
  apply catch_wave_ok in Hd. apply result_bind_ok in Hd as ([f c] & Hopen & Hd). revert Hd. destruct (_ || _) eqn:Hf; [done|]. intros Hd.
  apply framesize_checked in Hf as [Hf _]. apply result_bind_ok in Hd as (l & Hread & [= <-]). cbn [wav_frames wav_duration_ms] in *.
  destruct (read_samples (RecordingError "Conversation WAV audio is truncated." 422) source f c [] Hopen Hf) as [Hl Hlen].
  rewrite Hread in Hl. case_decide as Hfit; [|done].
  split_and!; [lia..|done|by apply Hlen|]. exists f, c. split_and!; [done..|]. intros short acc.
  destruct (read_samples short source f c acc Hopen Hf) as [-> _]. by rewrite decide_True.
Qed.

(** ** The files that tablets write *)

Fixpoint le_bytes (k : nat) (n : Z) : bytes :=
  match k with 0 => [] | S k => octet (Z.to_N (n mod 256)) :: le_bytes k (n / 256) end.
(** A header of 44 bytes and the samples. *)
Definition pcm_wav (pcm : bytes) : bytes :=
  let n := Z.of_nat (length pcm) in
  to_bytes "RIFF" ++ le_bytes 4 (36 + n) ++ to_bytes "WAVE" ++ to_bytes "fmt " ++ le_bytes 4 16 ++ le_bytes 2 1 ++ le_bytes 2 2
  ++ le_bytes 4 48000 ++ le_bytes 4 192000 ++ le_bytes 2 4 ++ le_bytes 2 16 ++ to_bytes "data" ++ le_bytes 4 n ++ pcm.

Lemma little_endian_bytes k : ∀ n, (0 ≤ n < 256 ^ Z.of_nat k)%Z → little_endian (le_bytes k n) = n.
Proof.
  induction k as [|k IH]; intros n Hn; [cbn in *; lia|].
  rewrite Nat2Z.inj_succ, Z.pow_succ_r in Hn by lia.
  assert (0 ≤ n / 256 < 256 ^ Z.of_nat k)%Z as Hrest by (split; [apply Z.div_pos; lia|apply Z.div_lt_upper_bound; [lia|apply Hn]]).
  cbn [le_bytes]. unfold little_endian in *. cbn [foldr]. rewrite IH by done.
  pose proof (Z.mod_pos_bound n 256 ltac:(lia)). unfold octet. rewrite N.mod_small, N_ascii_embedding, Z2N.id by lia.
  pose proof (Z.div_mod n 256). lia.
Qed.
Lemma le_bytes_length k n : length (le_bytes k n) = k.
Proof. revert n. induction k as [|k IH]; intros n; [done|]. cbn. by rewrite IH. Qed.

Section Written.
Context (pcm : bytes) (n : Z) (Hlength : Z.of_nat (length pcm) = (4 * n)%Z) (Hsize : (36 + 4 * n < 2 ^ 32)%Z).
Definition wave_header (size : Z) : bytes :=
  to_bytes "WAVE" ++ to_bytes "fmt " ++ le_bytes 4 16 ++ le_bytes 2 1 ++ le_bytes 2 2 ++ le_bytes 4 48000 ++ le_bytes 4 192000
  ++ le_bytes 2 4 ++ le_bytes 2 16 ++ to_bytes "data" ++ le_bytes 4 size.
#[local] Abbreviation riff := (wave_header (4 * n) ++ pcm).

Lemma written_riff : drop 8 (pcm_wav pcm) = riff.
Proof using Hlength. unfold pcm_wav, wave_header. rewrite Hlength, <- !app_assoc. reflexivity. Qed.
Lemma header_read pos k :
  (0 ≤ pos)%Z → (0 ≤ k)%Z → (pos + k ≤ 36)%Z →
  riff_read riff pos k = take (Z.to_nat k) (drop (Z.to_nat pos) (wave_header (4 * n))).
Proof using Type.
  intros ???. unfold riff_read, riff_size. assert (length (wave_header (4 * n)) = 36) as Hh by done.
  rewrite length_app, Hh, Z.min_l by lia. rewrite drop_app_le by lia. apply take_app_le. rewrite length_drop. lia.
Qed.
Lemma chunk_read_header k name done_ at_ :
  (0 < k)%Z → (0 ≤ done_)%Z → (done_ + k ≤ 16)%Z → (0 ≤ at_)%Z → (at_ + k ≤ 36)%Z →
  chunk_read riff k {| chunk_id := name; chunk_size := 16; size_read := done_; position := at_ |} =
  (take (Z.to_nat k) (drop (Z.to_nat at_) (wave_header (4 * n))),
   {| chunk_id := name; chunk_size := 16; size_read := done_ + k; position := at_ + k |}).
Proof using Type.
  intros. unfold chunk_read. unfold_chunk. rewrite (proj2 (Z.leb_gt _ _)) by lia. rewrite Z.min_l, header_read by lia.
  rewrite length_take, length_drop. assert (length (wave_header (4 * n)) = 36) as -> by done.
  rewrite andb_false_r. repeat f_equal; lia.
Qed.
Lemma written_opens :
  wave_open riff = Ok ({| nchannels := 2; sampwidth := 2; framerate := 48000 |},
                       {| chunk_id := to_bytes "data"; chunk_size := 4 * n; size_read := 0; position := 36 |}).
Proof using Hlength Hsize.
  assert (open_chunk riff 4 = Some {| chunk_id := to_bytes "fmt "; chunk_size := 16; size_read := 0; position := 12 |}) as Hfmt.
  { unfold open_chunk. by rewrite !header_read by lia. }
  assert (open_chunk riff 28 = Some {| chunk_id := to_bytes "data"; chunk_size := 4 * n; size_read := 0; position := 36 |}) as Hdata.
  { unfold open_chunk. rewrite !header_read by lia.
    change (take (Z.to_nat 4) (drop (Z.to_nat (28 + 4)) (wave_header (4 * n)))) with (le_bytes 4 (4 * n)).
    rewrite little_endian_bytes by (cbn; lia). by rewrite le_bytes_length. }
  assert (read_fmt_chunk riff {| chunk_id := to_bytes "fmt "; chunk_size := 16; size_read := 0; position := 12 |}
          = Ok ({| nchannels := 2; sampwidth := 2; framerate := 48000 |},
                {| chunk_id := to_bytes "fmt "; chunk_size := 16; size_read := 16; position := 28 |})) as Hread.
  { unfold read_fmt_chunk. rewrite (chunk_read_header 14) by lia. cbn [fst snd].
    change (take (Z.to_nat 14) (drop (Z.to_nat 12) (wave_header (4 * n))))
      with (le_bytes 2 1 ++ le_bytes 2 2 ++ le_bytes 4 48000 ++ le_bytes 4 192000 ++ le_bytes 2 4).
    rewrite (chunk_read_header 2) by lia. reflexivity. }
  assert (chunk_skip riff {| chunk_id := to_bytes "fmt "; chunk_size := 16; size_read := 16; position := 28 |} = Ok 28%Z) as Hskip.
  { unfold chunk_skip. unfold_chunk. change (28 + (16 - 16 + (if Z.odd 16 then 1 else 0)))%Z with 28%Z.
    rewrite (proj2 (orb_false_iff _ _)); [done|]. split; [done|]. apply Z.ltb_ge. unfold riff_size. rewrite length_app. cbn. lia. }
  unfold wave_open. rewrite header_read by lia. rewrite bool_decide_false by (intros Hne; by apply Hne).
  assert (∃ k, length riff = S (S k)) as [k ->] by (eexists; reflexivity).
  cbn [find_chunks]. rewrite Hfmt. cbn [chunk_id]. rewrite bool_decide_true by done. rewrite Hread. cbn [mbind result_bind fst snd].
  rewrite Hskip. cbn [mbind result_bind]. rewrite Hdata. cbn [chunk_id].
  by rewrite bool_decide_false, bool_decide_true by done.
Qed.
End Written.

Lemma samples_written pcm n : Z.of_nat (length pcm) = (4 * n)%Z → (36 + 4 * n < 2 ^ 32)%Z → samples (pcm_wav pcm) = pcm.
Proof.
  intros Hl Hs. unfold samples. rewrite (written_riff pcm n Hl), (written_opens pcm n Hl Hs). unfold getnframes, framesize.
  cbn [chunk_size nchannels sampwidth position]. rewrite drop_app_length' by done. rewrite take_ge; [done|].
  rewrite (Z.mul_comm 4 n), Z.div_mul by lia. lia.
Qed.

(** A file that a tablet wrote is accepted, if its receipt has about its duration. *)
Lemma inspect_written pcm n expected :
  Z.of_nat (length pcm) = (4 * n)%Z → (36 + 4 * n < 2 ^ 32)%Z → (0 < milliseconds n ≤ 180000)%Z →
  (Z.abs (milliseconds n - expected) ≤ 100)%Z →
  inspect_pcm_wav (pcm_wav pcm) expected = Ok {| wav_duration_ms := milliseconds n; wav_frames := n |}.
Proof.
  intros Hl Hs Hms Hnear. unfold inspect_pcm_wav.
  assert (take 4 (pcm_wav pcm) = to_bytes "RIFF") as -> by done. rewrite bool_decide_false by (intros H; by apply H).
  assert (length (pcm_wav pcm) = 44 + length pcm) as Hlen by done. rewrite Hlen. cbn [Nat.ltb Nat.leb Nat.add].
  assert (take 4 (drop 8 (pcm_wav pcm)) = to_bytes "WAVE") as -> by done.
  assert (take 4 (drop 4 (pcm_wav pcm)) = le_bytes 4 (36 + Z.of_nat (length pcm))) as -> by done.
  rewrite little_endian_bytes by (cbn; lia). rewrite (proj2 (orb_false_iff _ _)).
  2: { split; apply bool_decide_false; [intros H; by apply H|]. lia. }
  rewrite (written_riff pcm n Hl), (written_opens pcm n Hl Hs). cbn [mbind result_bind nchannels sampwidth framerate].
  set (f := {| nchannels := 2; sampwidth := 2; framerate := 48000 |}). set (c := {| chunk_id := to_bytes "data"; chunk_size := 4 * n; size_read := 0; position := 36 |}).
  assert (getnframes f c = n) as Hn by (unfold getnframes, framesize; cbn; rewrite Z.mul_comm; by apply Z.div_mul).
  assert (wave_open (drop 8 (pcm_wav pcm)) = Ok (f, c)) as Hopen by by rewrite (written_riff pcm n Hl), (written_opens pcm n Hl Hs).
  destruct (read_samples (RecordingError "Conversation WAV audio is truncated." 422) (pcm_wav pcm) f c [] Hopen eq_refl) as [Hread _].
  rewrite (written_riff pcm n Hl) in Hread. rewrite !bool_decide_false by (intros H; by apply H). cbn [orb]. rewrite Hread, Hn.
  rewrite decide_True by (unfold riff_size; rewrite length_app; cbn; lia). cbn [mbind result_bind catch_wave wav_duration_ms].
  rewrite (proj2 (orb_false_iff _ _)) by (split; [apply Z.leb_gt|apply Z.ltb_ge]; lia). by rewrite (proj2 (Z.ltb_ge _ _)) by lia.
Qed.
