(* ===== verification/Segments.v ===== *)
(** * Segmented recordings ([conversation_recording_api.py], [session_audit_api.py])

    The recording of an external call and the audio of a whole call arrive in segments that a
    tablet sends one by one, and are assembled when it has sent the last.  The two APIs share
    the handlers of segments; [segment_api] has their texts. *)
From Stdlib Require Import Ascii.
From stdpp Require Import base gmap sets strings numbers pretty sorting list.
From S2P Require Import Prelude FlowTree Schemas LegacyGraph Json Crypto Documents Store Drafts Revisions V4Api Diff Devices Policies Calls Recordings Wave Script Storage Voicemail.

(** ** Requests and answers *)

(** [ConversationRecordingUploadResponse] and [ConversationSegmentUploadResponse] *)
Record segmented_response := {
  segmented_id : string; segmented_status : recording_status; segmented_count : Z; segmented_duration : Z; segmented_done : bool }.
Definition segmented_response_of (id : string) (r : recording_row) : segmented_response :=
  {| segmented_id := id; segmented_status := if decide (rec_status r = Deleted) then Ready else rec_status r;
     segmented_count := segment_count (source_of r); segmented_duration := rec_duration_ms (source_of r);
     segmented_done := bool_decide (rec_status r = Ready) || bool_decide (rec_status r = Deleted) |}.
Record segment_response := {
  answer_id : string; answer_index : Z; answer_status : segment_status; answer_offset : Z; answer_expected : Z;
  answer_sha256 : string; answer_done : bool }.
Definition kept_segment (g : segment_row) : bool := bool_decide (seg_status g = Verified) || bool_decide (seg_status g = Assembled).
Definition segment_response_of (k : string * Z) (g : segment_row) : segment_response :=
  {| answer_id := k.1; answer_index := k.2; answer_status := seg_status g; answer_offset := upload_offset (segment_upload g);
     answer_expected := expected_size_bytes (segment_upload g); answer_sha256 := upload_sha256 (segment_upload g);
     answer_done := kept_segment g |}.

(** [ConversationRecordingCreateRequest] and [SessionAuditRecordingCreateRequest] *)
Record conversation_request := {
  conversation_recording : string; conversation_call : string; conversation_revision : Z; conversation_block : string;
  conversation_captured : timestamp }.
Record audit_request := {
  audit_recording : string; audit_call : string; audit_policy : Z; audit_captured : timestamp }.
(** What [ConversationSegmentCreateRequest] and [SessionAuditSegmentCreateRequest] share. *)
Record segment_request := {
  request_recording : string; request_call : string; request_index : Z; request_captured : timestamp; request_duration : Z;
  request_stop_reason : string; request_expected : Z; request_sha256 : string; request_partial : bool }.

Definition conversation_segment_fields (revision : Z) (block : string) (sequence : Z) (b : segment_request) : bool :=
  (1 <=? revision)%Z && BLOCK_ID_PATTERN block && in_range 0 65535 sequence && in_range 0 65535 (request_index b)
  && in_range 1 180000 (request_duration b)
  && bool_decide (request_stop_reason b ∈ ["segment_boundary"; "operator_hangup"; "caller_hangup"; "recording_failure"])
  && in_range 45 41943040 (request_expected b) && is_hash (request_sha256 b) && bool_decide (sequence = request_index b)
  && bool_decide (request_partial b = bool_decide (request_stop_reason b = "recording_failure")).
Definition audit_segment_fields (policy : Z) (b : segment_request) : bool :=
  (1 <=? policy)%Z && in_range 0 5759 (request_index b) && in_range 1 15000 (request_duration b)
  && bool_decide (request_stop_reason b ∈ ["segment_boundary"; "session_complete"; "caller_hangup"; "preempted"; "capture_failure";
                                           "storage_full"; "interrupted"; "writer_failure"])
  && in_range 45 3145728 (request_expected b) && is_hash (request_sha256 b)
  && bool_decide (request_partial b = negb (bool_decide (request_stop_reason b ∈ ["segment_boundary"; "session_complete"; "caller_hangup"]))).

(** The texts in which the two APIs differ. *)
Record segment_api := {
  api_kind : string; recording_missing : string; recording_foreign : string; other_kind : string; segment_missing : string;
  chunk_too_large : string; recording_complete : string; segments_closed : string; segment_outside : string;
  segment_too_long : string; segment_duplicate : string; content_closed : string; completion_closed : string;
  recording_closed : string; count_mismatch : string }.
Definition conversation_api : segment_api :=
  {| api_kind := "conversation"; recording_missing := "Conversation recording not found";
     recording_foreign := "Conversation recording belongs to another device"; other_kind := "Recording ID belongs to voicemail";
     segment_missing := "Conversation segment not found"; chunk_too_large := "Conversation chunk exceeds 1 MiB";
     recording_complete := "Conversation recording is already complete";
     segments_closed := "Conversation recording is not accepting segments";
     segment_outside := "Segment timestamp is outside its conversation";
     segment_too_long := "Conversation segment exceeds its duration bound"; segment_duplicate := "Duplicate conversation segment";
     content_closed := "Conversation segment is not accepting content";
     completion_closed := "Conversation segment cannot be completed"; recording_closed := "Conversation recording cannot be completed";
     count_mismatch := "Conversation segment count does not match" |}.
Definition session_audit_api : segment_api :=
  {| api_kind := "session_audit"; recording_missing := "Session audit recording not found";
     recording_foreign := "Session audit recording belongs to another device";
     other_kind := "Recording ID belongs to another recording kind"; segment_missing := "Session audit segment not found";
     chunk_too_large := "Audit chunk exceeds 1 MiB"; recording_complete := "Session audit recording is already complete";
     segments_closed := "Session audit recording is not accepting segments";
     segment_outside := "Segment timestamp is outside its session";
     segment_too_long := "Session audit segment exceeds its duration bound"; segment_duplicate := "Duplicate audit segment";
     content_closed := "Session audit segment is not accepting content";
     completion_closed := "Session audit segment cannot be completed"; recording_closed := "Session audit recording cannot be completed";
     count_mismatch := "Session audit segment count does not match" |}.

Section Owned.
Context (api : segment_api).

Definition owned_recording (device id : string) (s : recordings_db) : result recording_row :=
  r ← of_option (HTTPException 404 [recording_missing api]) (recordings s !! id);
  if bool_decide (rec_device (capture_of r) ≠ device) then Raise (HTTPException 403 [recording_foreign api])
  else if bool_decide (kind (capture_of r) ≠ api_kind api) then Raise (HTTPException 409 [other_kind api])
  else if bool_decide (source_format (capture_of r) ≠ "legacy_wav") then Raise use_continuous_api
  else Ok r.
Definition owned_segment (id : string) (index : Z) (s : recordings_db) : result segment_row :=
  of_option (HTTPException 404 [segment_missing api]) (segments s !! (id, index)).
End Owned.

Definition segmented_recording_status (api : segment_api) (device id : string) : program segmented_response :=
  look (λ m, r ← owned_recording api device id (committed m); Ok (segmented_response_of id r)).
Definition segment_upload_status (api : segment_api) (device id : string) (index : Z) : program segment_response :=
  look (λ m, _ ← owned_recording api device id (committed m); g ← owned_segment api id index (committed m);
             Ok (segment_response_of (id, index) g)).
Definition conversation_recording_status : string → string → program segmented_response := segmented_recording_status conversation_api.
Definition session_recording_status : string → string → program segmented_response := segmented_recording_status session_audit_api.
Definition conversation_segment_upload_status : string → string → Z → program segment_response := segment_upload_status conversation_api.
Definition session_segment_upload_status : string → string → Z → program segment_response := segment_upload_status session_audit_api.

(** ** The call of a recording *)

Definition external_instruction (manifest : json) (block_id : string) : result (option json) :=
  program ← get_object "program" manifest;
  instructions ← member_list "instructions" program;
  foldM (λ (found : option json) instruction,
           match found with
           | Some _ => Ok found
           | None =>
               op ← get_member "op" instruction;
               if py_eq (default JNull op) (JStr "external_call") then
                 block ← get_member "block_id" instruction;
                 Ok (if py_eq (default JNull block) (JStr block_id) then Some instruction else None)
               else Ok None
           end) None instructions.

(** A datetime in one of the texts that [model_dump] writes. *)
Definition load_timestamp (j : json) : result timestamp :=
  match j with
  | JStr s => of_option validation_error (fromisoformat (replace_z (String.list_ascii_of_string s)))
  | _ => Raise validation_error
  end.
(** [ExternalCallSubEvent.model_validate(document)] *)
Definition external_event (d : document) : result CallSubEvent :=
  load_object ["event"; "occurred_at"; "status"; "block_id"; "reason"] (λ o,
    event ← required "event" (load_str (λ s, bool_decide (s ∈ ["external_call"; "recording_failure"]))) o;
    t ← required "occurred_at" load_timestamp o;
    status ← required "status" (load_str (λ s, bool_decide (s ∈ EVENT_STATUSES))) o;
    block ← required "block_id" (load_str BLOCK_ID_PATTERN) o;
    reason ← required "reason" (load_str (λ s, reason_pattern s && contains_no_phone_number s)) o;
    Ok (ExternalCallSubEvent event t status block reason)) (JObj d).
Definition conference_instant (block_id : string) (d : document) : option Z :=
  match external_event d with
  | Ok (ExternalCallSubEvent _ t status block _) =>
      if bool_decide (block = block_id) && bool_decide (status = "CONFERENCED") then Some (utc t) else None
  | _ => None
  end.
Definition conference_at (call : call_row) (block_id : string) : option Z :=
  match omap (conference_instant block_id) (events call) with [] => None | t :: l => Some (foldr Z.min t l) end.

(** [SessionAuditReport.model_validate] of what [dump_report] wrote. *)
Definition load_audit_event : json → result SessionAuditEvent :=
  load_object ["offset_ms"; "type"; "block_id"; "detail"] (λ o,
    offset ← required "offset_ms" (load_int 0 86400000) o;
    type ← required "type" (load_str (λ s, bool_decide (s ∈ AUDIT_TYPES))) o;
    block ← optional "block_id" (load_option (load_str BLOCK_ID_PATTERN)) None o;
    detail ← optional "detail" (load_str (λ _, true)) "" o;
    Ok {| offset_ms := offset; audit_type := type; audit_block := block; audit_detail := detail |}).
Definition load_report (j : json) : result SessionAuditReport :=
  r ← load_object ["recording_id"; "policy_version"; "state"; "captured_at"; "duration_ms"; "partial"; "stop_reason"; "events"] (λ o,
    id ← optional "recording_id" (load_option (load_str (λ _, true))) None o;
    policy ← required "policy_version" (λ j, match j with JInt z => Ok z | _ => Raise validation_error end) o;
    state ← required "state" (load_str (λ _, true)) o;
    captured ← optional "captured_at" (load_option load_timestamp) None o;
    duration ← optional "duration_ms" (load_int 0 86400000) 0%Z o;
    partial ← optional "partial" load_bool false o;
    reason ← optional "stop_reason" (load_str (λ _, true)) "" o;
    events ← optional "events" (load_list 4096 load_audit_event) [] o;
    Ok {| recording_id := id; report_policy := policy; report_state := state; Calls.captured_at := captured;
          report_duration := duration; Calls.partial := partial; stop_reason := reason; report_events := events |}) j;
  _ ← require (report_fields r);
  Ok r.

(** [a == b] of two datetimes; a naive one equals no aware one. *)
Definition same_time (a b : timestamp) : bool :=
  match utc_offset a, utc_offset b with
  | Some _, Some _ => bool_decide (utc a = utc b)
  | None, None => bool_decide (instant (local a) = instant (local b))
  | _, _ => false
  end.

(** [select(func.max(Recording.sequence))] *)
Definition maximum_sequence (p : recording_row → bool) (s : recordings_db) : option Z :=
  map_fold (λ _ r m, if p r then Some (match m with Some n => Z.max n (rec_sequence (capture_of r)) | None => rec_sequence (capture_of r) end)
                     else m) None (recordings s).

Definition insert_recording (id : string) (row : recording_row) (s : recordings_db) : option recordings_db :=
  match recordings s !! id with
  | None => if free_call_step row s then Some (with_recordings (<[id := row]> (recordings s)) s) else None
  | Some _ => None
  end.

Definition empty_source (reason : string) : source_columns :=
  {| rec_duration_ms := 0; rec_stop_reason := reason; source_size_bytes := 0;
     source_sha256 := of_bytes (replicate 64 "0"%char); partial := false; segment_count := 0 |}.
Definition new_row (capture : capture) (source : source_columns) (t : datetime) : recording_row :=
  {| capture_of := capture; source_of := source; media_of := no_media; rec_status := Uploading; processing_error := None;
     listened_at := None; deleted_at := None; deletion_reason := None; rec_updated := t |}.

Section Creation.
Context `{Cryptography} (key : bytes).

(** The operator's number of the block, if the call and its revision allow the recording. *)
Definition check_conversation (device : string) (b : conversation_request) (st : store) (calls : call_store) : result string :=
  call ← of_option (HTTPException 409 ["Call event must be acknowledged before its conversation"]) (call_records calls !! conversation_call b);
  if bool_decide (call_device call ≠ device) then Raise (HTTPException 403 ["Call belongs to another device"])
  else if bool_decide (call_result call = "IN_PROGRESS")
  then Raise (HTTPException 409 ["A terminal call event is required before upload"])
  else
    let unknown := HTTPException 422 ["Conversation revision is not a V4 revision"] in
    revision ← of_option unknown (revisions st !! conversation_revision b);
    if bool_decide (revision_schema_version revision ≠ 4)%Z then Raise unknown
    else if bool_decide (call_revision call ≠ Some (conversation_revision b))
    then Raise (HTTPException 409 ["Conversation revision does not match the call"])
    else
      manifest ← load_manifest key revision;
      found ← external_instruction manifest (conversation_block b);
      instruction ← of_option (HTTPException 422 ["External-call block is absent from the signed revision"]) found;
      let captured := utc (conversation_captured b) in
      let started := utc (call_started call) in
      let ended := (started + seconds_us (duration_seconds call))%Z in
      conference ← of_option (HTTPException 409 ["A verified CONFERENCED call event is required before conversation upload"])
                     (conference_at call (conversation_block b));
      if (captured <? started - seconds_us 5)%Z || (ended + seconds_us 5 <? captured)%Z
         || (conference <? started - seconds_us 5)%Z || (ended + seconds_us 5 <? conference)%Z
         || (captured <? conference - seconds_us 1)%Z
      then Raise (HTTPException 422 ["Conversation timestamp is outside its verified conference session"])
      else
        phone ← get_item "phone_number" instruction;
        match phone with JStr number => Ok number | _ => Raise (AttributeError "encode") end.

Definition same_conversation (b : conversation_request) (r : recording_row) : bool :=
  bool_decide (kind (capture_of r) = "conversation") && bool_decide (rec_call (capture_of r) = conversation_call b)
  && bool_decide (rec_revision (capture_of r) = Some (conversation_revision b))
  && bool_decide (rec_block (capture_of r) = Some (conversation_block b))
  && bool_decide (utc (captured_at (capture_of r)) = utc (conversation_captured b)).

Definition create_conversation_recording (r : request) (device : string) (b : conversation_request) (st : store) (calls : call_store)
    : program segmented_response :=
  let id := conversation_recording b in
  s ← look (λ m, Ok (committed m));
  match recordings s !! id with
  | Some existing =>
      if bool_decide (source_format (capture_of existing) ≠ "legacy_wav") then Return (Raise use_continuous_api)
      else if bool_decide (rec_device (capture_of existing) ≠ device)
      then Return (Raise (HTTPException 409 ["Recording ID belongs to another device"]))
      else if negb (same_conversation b existing)
      then Return (Raise (HTTPException 409 ["Recording ID was reused with different metadata"]))
      else Return (Ok (segmented_response_of id existing))
  | None =>
      number ← lift (check_conversation device b st calls);
      let current := maximum_sequence (λ q, bool_decide (rec_device (capture_of q) = device)
                                            && bool_decide (rec_call (capture_of q) = conversation_call b)) s in
      let row := new_row
        {| rec_device := device; rec_call := conversation_call b; rec_revision := Some (conversation_revision b);
           rec_block := Some (conversation_block b); rec_sequence := match current with Some n => n + 1 | None => 0 end;
           kind := "conversation"; audit_metadata := None;
           operator_encrypted := Some (encrypt key (nonce r 0) (to_bytes number)); operator_last4 := last4 number;
           captured_at := conversation_captured b; source_format := "legacy_wav" |} (empty_source "recording_failure") (now r) in
      done ← commit (insert_recording id row);
      match done with
      | Committed => Return (Ok (segmented_response_of id row))
      | Violated => Return (Raise (HTTPException 409 ["Duplicate conversation recording"]))
      | Failed => Return (Raise DatabaseError)
      end
  end.
End Creation.

Definition create_session_recording (r : request) (device : string) (b : audit_request) (p : policy_tables) (calls : call_store)
    : program segmented_response :=
  let id := audit_recording b in
  checked ← lift (
    let unknown := HTTPException 409 ["A terminal call event must be acknowledged before audit upload"] in
    call ← of_option unknown (call_records calls !! audit_call b);
    if bool_decide (call_result call = "IN_PROGRESS") then Raise unknown
    else if bool_decide (call_device call ≠ device) then Raise (HTTPException 403 ["Call belongs to another device"])
    else
      audit ← of_option (HTTPException 409 ["The acknowledged call has no audit receipt"]) (call_audit call);
      report ← load_report audit;
      _ ← validate_call_report p (reported_version (Some report)) (call_result call) device;
      if bool_decide (report_state report ≠ "pending_upload") || bool_decide (recording_id report ≠ Some id)
         || bool_decide (report_policy report ≠ audit_policy b)
         || negb (match Calls.captured_at report with Some t => same_time t (audit_captured b) | None => false end)
      then Raise (HTTPException 409 ["Audit receipt does not match the acknowledged call"])
      else
        let captured := utc (audit_captured b) in
        let started := utc (call_started call) in
        if (captured <? started - seconds_us 5)%Z || (started + seconds_us (duration_seconds call + 5) <? captured)%Z
        then Raise (HTTPException 422 ["Audit timestamp is outside its call"])
        else Ok (call, report));
  s ← look (λ m, Ok (committed m));
  match recordings s !! id with
  | Some existing =>
      if bool_decide (source_format (capture_of existing) ≠ "legacy_wav") then Return (Raise use_continuous_api)
      else if bool_decide (rec_device (capture_of existing) ≠ device) || bool_decide (kind (capture_of existing) ≠ "session_audit")
              || bool_decide (rec_call (capture_of existing) ≠ audit_call b)
      then Return (Raise (HTTPException 409 ["Recording identity was reused"]))
      else Return (Ok (segmented_response_of id existing))
  | None =>
      let row := new_row
        {| rec_device := device; rec_call := audit_call b; rec_revision := call_revision checked.1; rec_block := None;
           rec_sequence := -1; kind := "session_audit"; audit_metadata := Some (dump_report checked.2); operator_encrypted := None;
           operator_last4 := ""; captured_at := audit_captured b; source_format := "legacy_wav" |}
        (empty_source (stop_reason checked.2)) (now r) in
      done ← commit (insert_recording id row);
      match done with
      | Committed => Return (Ok (segmented_response_of id row))
      | Violated => Return (Raise (HTTPException 409 ["This call already has an audit recording"]))
      | Failed => Return (Raise DatabaseError)
      end
  end.

(** ** Segments *)

Definition require_capacity (cfg : recording_settings) (required : Z) (s : recordings_db) : result unit :=
  if (recording_quota_bytes cfg <? recording_used_bytes None None s + required)%Z
  then Raise (HTTPException 507 ["Recording storage quota is full; retain the encrypted device spool"]) else Ok ().

(** What the recordings of whole calls take, with [free] bytes left on the disk. *)
Definition is_audit (s : recordings_db) (id : string) : bool :=
  match recordings s !! id with Some r => bool_decide (kind (capture_of r) = "session_audit") | None => false end.
Definition audit_ready_bytes (s : recordings_db) : Z :=
  zsum ready_bytes (filter (λ '(_, r), kind (capture_of r) = "session_audit") (recordings s)).
Definition audit_segment_bytes (s : recordings_db) : Z :=
  zsum segment_bytes (filter (λ '((id, _), _), is_audit s id = true) (segments s)).
Definition require_audit_capacity (cfg : recording_settings) (free required : Z) (s : recordings_db) : result unit :=
  if (audit_recording_quota_bytes cfg <? audit_ready_bytes s + audit_segment_bytes s + required)%Z
     || (recording_quota_bytes cfg <? recording_used_bytes None None s + required + audit_recording_reserve_bytes cfg)%Z
     || (free <? required + audit_recording_reserve_bytes cfg)%Z
  then Raise (HTTPException 507 ["Audit storage is full; retain the encrypted tablet spool"]) else Ok ().

Definition with_upload (u : upload_row) (g : segment_row) : segment_row :=
  {| segment_captured := segment_captured g; segment_duration_ms := segment_duration_ms g; segment_stop_reason := segment_stop_reason g;
     segment_partial := segment_partial g; segment_upload := u; seg_status := seg_status g |}.
(** A failed segment is sent again, to a new directory. *)
Definition restarted (name : string) (t : datetime) (g : segment_row) : segment_row :=
  {| segment_captured := segment_captured g; segment_duration_ms := segment_duration_ms g; segment_stop_reason := segment_stop_reason g;
     segment_partial := segment_partial g;
     segment_upload := {| expected_size_bytes := expected_size_bytes (segment_upload g); upload_sha256 := upload_sha256 (segment_upload g);
                          upload_offset := 0; upload_storage := name; upload_updated := t |};
     seg_status := SegmentUploading |}.
Definition verified (duration : Z) (t : datetime) (g : segment_row) : segment_row :=
  {| segment_captured := segment_captured g; segment_duration_ms := duration; segment_stop_reason := segment_stop_reason g;
     segment_partial := segment_partial g; segment_upload := touched t (segment_upload g); seg_status := Verified |}.
Definition new_segment (b : segment_request) (name : string) (t : datetime) : segment_row :=
  {| segment_captured := request_captured b; segment_duration_ms := request_duration b; segment_stop_reason := request_stop_reason b;
     segment_partial := request_partial b;
     segment_upload := {| expected_size_bytes := request_expected b; upload_sha256 := request_sha256 b; upload_offset := 0;
                          upload_storage := name; upload_updated := t |};
     seg_status := SegmentUploading |}.
Definition same_segment (b : segment_request) (g : segment_row) : bool :=
  bool_decide (utc (segment_captured g) = utc (request_captured b)) && bool_decide (segment_duration_ms g = request_duration b)
  && bool_decide (segment_stop_reason g = request_stop_reason b) && bool_decide (segment_partial g = request_partial b)
  && bool_decide (expected_size_bytes (segment_upload g) = request_expected b)
  && bool_decide (upload_sha256 (segment_upload g) = request_sha256 b).

(** The unique constraints of the table. *)
Definition free_segment_name (k : string * Z) (name : string) (s : recordings_db) : bool :=
  bool_decide (map_Forall (λ i g, i ≠ k → upload_storage (segment_upload g) ≠ name) (segments s)).
Definition insert_segment (k : string * Z) (g : segment_row) (policy : retention_row) (s : recordings_db) : option recordings_db :=
  match segments s !! k with
  | None => if free_segment_name k (upload_storage (segment_upload g)) s
            then Some (with_segments (<[k := g]> (segments s)) (with_retention policy s)) else None
  | Some _ => None
  end.
Definition restart_segment (k : string * Z) (name : string) (t : datetime) (policy : retention_row) (s : recordings_db)
    : option recordings_db :=
  if free_segment_name k name s
  then Some (with_segments (alter (restarted name t) k (segments s)) (with_retention policy s)) else None.

Section Handlers.
Context `{Cryptography} `{KeyDerivation} (cfg : recording_settings) (c : recording_cipher) (api : segment_api).

(** [create_conversation_segment] and [create_session_segment]: the receipt of the recording,
    the times and the space that they require are arguments. *)
Definition create_segment (r : request) (device id : string) (index : Z) (b : segment_request) (calls : call_store)
    (matches : recording_row → bool) (timing : recording_row → result unit) (capacity : recordings_db → result unit)
    : program segment_response :=
  let k := (id, request_index b) in
  s ← look (λ m, Ok (committed m));
  recording ← lift (owned_recording api device id s);
  if bool_decide (index ≠ request_index b) then Return (Raise (HTTPException 409 ["Segment path and receipt indexes do not match"]))
  else if negb (matches recording) then Return (Raise (HTTPException 409 ["Segment receipt does not match its logical recording"]))
  else
    let policy := initialize_retention_policy (now r) (development_admin_email cfg) s in
    match segments s !! k with
    | Some existing =>
        if negb (same_segment b existing) then Return (Raise (HTTPException 409 ["Segment index was reused with different metadata"]))
        else if bool_decide (seg_status existing = SegmentFailed) then
          _ ← lift (capacity s);
          name ← create_upload_directory (uuid_hex r);
          _ ← commit_or (Return (Ok ())) (restart_segment k name (now r) policy);
          Return (Ok (segment_response_of k (restarted name (now r) existing)))
        else Return (Ok (segment_response_of k existing))
    | None =>
        if bool_decide (rec_status recording = Ready) || bool_decide (rec_status recording = Deleted)
        then Return (Raise (HTTPException 409 [recording_complete api]))
        else if bool_decide (rec_status recording ≠ Uploading) then Return (Raise (HTTPException 409 [segments_closed api]))
        else
          _ ← lift (
            let unknown := HTTPException 409 ["A terminal call event is required before upload"] in
            call ← of_option unknown (call_records calls !! rec_call (capture_of recording));
            if bool_decide (call_result call = "IN_PROGRESS") then Raise unknown
            else
              let captured := utc (request_captured b) in
              let started := utc (call_started call) in
              let ended := (started + seconds_us (duration_seconds call))%Z in
              if (captured <? Z.max started (utc (captured_at (capture_of recording))) - seconds_us 5)%Z
                 || (ended + seconds_us 5 <? captured)%Z
              then Raise (HTTPException 422 [segment_outside api])
              else
                _ ← timing recording;
                if (recording_upload_limit_bytes cfg <? request_expected b)%Z
                   || (44 + request_duration b * 192 + 4096 <? request_expected b)%Z
                then Raise (HTTPException 413 [segment_too_long api])
                else capacity s);
          name ← create_upload_directory (uuid_hex r);
          let row := new_segment b name (now r) in
          done ← commit (insert_segment k row policy);
          match done with
          | Committed => Return (Ok (segment_response_of k row))
          | Violated => _ ← rmdir name; Return (Raise (HTTPException 409 [segment_duplicate api]))
          | Failed => Return (Raise DatabaseError)
          end
    end.

(** The name its chunks are sealed under. *)
Definition segment_identity (id : string) (index : Z) : string := id +:+ ":" +:+ pretty index.
Definition upload_segment_content (r : request) (device id : string) (index : Z) (offset : option Z) (content_type : string)
    (declared : option string) (parts : list bytes) : program segment_response :=
  match offset with
  | None => Return (Raise (HTTPException 400 ["Upload-Offset is required"]))
  | Some offset =>
      if (offset <? 0)%Z then Return (Raise (HTTPException 400 ["Upload-Offset is required"]))
      else if bool_decide (fst (split_once ";" (to_bytes content_type)) ≠ to_bytes "application/offset+octet-stream")
      then Return (Raise (HTTPException 415 ["Use application/offset+octet-stream"]))
      else
        s ← look (λ m, Ok (committed m));
        _ ← lift (owned_recording api device id s);
        g ← lift (owned_segment api id index s);
        if kept_segment g then Return (Ok (segment_response_of (id, index) g))
        else if bool_decide (seg_status g ≠ SegmentUploading) then Return (Raise (HTTPException 409 [content_closed api]))
        else
          let u := segment_upload g in
          body ← lift (read_bounded_chunk (chunk_too_large api) (recording_chunk_limit_bytes cfg) declared parts);
          u' ← store_recording_chunk cfg c (now r) (nonce r 0) (segment_identity id index) u offset body;
          _ ← commit_or (Return (Ok ()))
                (λ s, Some (if (offset <? upload_offset u)%Z then s
                            else with_segments (alter (with_upload u') (id, index) (segments s)) s));
          Return (Ok (segment_response_of (id, index) (with_upload u' g)))
  end.

(** [tempfile.TemporaryDirectory] in the recording root *)
Definition temporary_directory {A} (name : string) (body : program A) : program A :=
  let cleanup := act (λ m, Ok ((), with_root (delete name (root (on_disk m))) (on_disk m))) in
  _ ← act (λ m, match root (on_disk m) !! name with
                | Some _ => Raise (OtherException "FileExistsError")
                | None => Ok ((), with_root (<[name := PrivateDirectory]> (root (on_disk m))) (on_disk m))
                end);
  a ← catch body (λ e, _ ← cleanup; Return (Raise e));
  _ ← cleanup;
  Return (Ok a).

(** The received segment, inspected in a directory of its own. *)
Definition inspect_segment (r : request) (id : string) (index : Z) (g : segment_row) : program WavDetails :=
  temporary_directory (".verify-segment-" +:+ uuid_hex r)
    (look (λ m, source ← write_uploaded_wav c id index (segment_upload g) (upload_directory (segment_upload g) (on_disk m));
                inspect_pcm_wav source (segment_duration_ms g))).
Definition mark_segment (k : string * Z) (f : segment_row → segment_row) (s : recordings_db) : option recordings_db :=
  Some (with_segments (alter f k (segments s)) s).

(** [complete_conversation_segment] and, with what it does when the content is rejected,
    [complete_session_segment] *)
Definition complete_segment (r : request) (device id : string) (index : Z) (rejected : segment_row → exn → program WavDetails)
    : program segment_response :=
  let k := (id, index) in
  s ← look (λ m, Ok (committed m));
  _ ← lift (owned_recording api device id s);
  g ← lift (owned_segment api id index s);
  if kept_segment g then Return (Ok (segment_response_of k g))
  else if bool_decide (seg_status g ≠ SegmentUploading) then Return (Raise (HTTPException 409 [completion_closed api]))
  else
    details ← catch (inspect_segment r id index g) (rejected g);
    let f := verified (wav_duration_ms details) (now r) in
    _ ← commit_or (Return (Ok ())) (mark_segment k f);
    Return (Ok (segment_response_of k (f g))).
End Handlers.

Section Requests.
Context `{Cryptography} `{KeyDerivation} (cfg : recording_settings) (c : recording_cipher).

Definition create_conversation_segment (r : request) (device id : string) (index revision : Z) (block : string) (b : segment_request)
    (calls : call_store) : program segment_response :=
  create_segment cfg conversation_api r device id index b calls
    (λ q, bool_decide (request_recording b = id) && bool_decide (request_call b = rec_call (capture_of q))
          && bool_decide (rec_revision (capture_of q) = Some revision) && bool_decide (rec_block (capture_of q) = Some block))
    (λ _, Ok ()) (require_capacity cfg (request_expected b)).
(** [body.policy_version == (recording.audit_metadata or {}).get(...)] *)
Definition metadata_member (k : string) (r : recording_row) : result json :=
  match audit_metadata (capture_of r) with
  | Some j => if py_truthy j then default JNull <$> get_member k j else Ok JNull
  | None => Ok JNull
  end.
Definition create_session_segment (r : request) (device id : string) (index policy free : Z) (b : segment_request)
    (calls : call_store) : program segment_response :=
  create_segment cfg session_audit_api r device id index b calls
    (λ q, bool_decide (request_recording b = id) && bool_decide (request_call b = rec_call (capture_of q))
          && match metadata_member "policy_version" q with Ok j => py_eq j (JInt policy) | Raise _ => false end)
    (λ q, if (100000 <? Z.abs (utc (request_captured b) - (utc (captured_at (capture_of q)) + seconds_us (request_index b * 15))))%Z
          then Raise (HTTPException 422 ["Audit segment timing is not contiguous"]) else Ok ())
    (require_audit_capacity cfg free (request_expected b)).

Definition upload_conversation_segment_content (r : request) (device id : string) (index : Z) (offset : option Z) (content_type : string)
    (declared : option string) (parts : list bytes) : program segment_response :=
  upload_segment_content cfg c conversation_api r device id index offset content_type declared parts.
Definition upload_session_segment_content (r : request) (device id : string) (index : Z) (offset : option Z) (content_type : string)
    (declared : option string) (parts : list bytes) : program segment_response :=
  upload_segment_content cfg c session_audit_api r device id index offset content_type declared parts.

Definition complete_conversation_segment (r : request) (device id : string) (index : Z) : program segment_response :=
  complete_segment c conversation_api r device id index (λ _ e, Return (Raise e)).
(** Rejected content is given up, so that the tablet sends it again. *)
Definition reject_segment (r : request) (k : string * Z) (g : segment_row) (e : exn) : program WavDetails :=
  match e with
  | HTTPException code _ =>
      if bool_decide (code ∈ [400; 422]%Z) then
        _ ← commit_or (Return (Ok ())) (mark_segment k (with_segment_status SegmentFailed (now r)));
        _ ← remove_upload_files (segment_upload g);
        Return (Raise e)
      else Return (Raise e)
  | _ => Return (Raise e)
  end.
Definition complete_session_segment (r : request) (device id : string) (index : Z) : program segment_response :=
  complete_segment c session_audit_api r device id index (reject_segment r (id, index)).
End Requests.

(** ** Assembly *)

(** ffmpeg on PCM audio: its status and the file it wrote, nothing if it cannot be run. *)
Class PcmEncoder := {
  encode_conversation : bytes → option (Z * option bytes); (* [assemble_conversation_recording] *)
  encode_continuous : bytes → option (Z * string * option bytes); (* [_process] of the worker, with what it reports *)
}.

(** [order_by(segment_index.asc())] *)
Definition index_le (a b : Z * segment_row) : Prop := (a.1 ≤ b.1)%Z.
#[global] Instance index_le_dec : RelDecision index_le.
Proof. intros a b. unfold index_le. apply _. Defined.
Definition recording_segments (id : string) (s : recordings_db) : list (Z * segment_row) :=
  merge_sort index_le (omap (λ '((i, index), g), if bool_decide (i = id) then Some (index, g) else None) (map_to_list (segments s))).

Definition contiguous (segs : list (Z * segment_row)) : bool := bool_decide (segs.*1 = seqZ 0 (Z.of_nat (length segs))).
Definition boundary (g : segment_row) : bool := bool_decide (segment_stop_reason g = "segment_boundary").

(** The checks with which [assemble_conversation_recording] starts. *)
Definition check_segments (confirmed_abandoned : bool) (segs : list (Z * segment_row)) : result unit :=
  match last segs with
  | None => Raise (RecordingError "Conversation recording has no segments." 409)
  | Some (_, final) =>
      if negb (contiguous segs) then Raise (RecordingError "Conversation segment indexes are not contiguous." 409)
      else if existsb (λ g, bool_decide (seg_status g.2 ≠ Verified)) segs
      then Raise (RecordingError "Conversation recording has unverified segments." 409)
      else if existsb (λ g, negb (boundary g.2)) (removelast segs)
      then Raise (RecordingError "Only the final conversation segment may have a terminal stop reason." 409)
      else if boundary final && negb confirmed_abandoned
      then Raise (RecordingError "Final conversation segment must have a terminal stop reason." 409)
      else Ok ()
  end.

Section Assembly.
Context `{Cryptography} `{KeyDerivation} `{PcmEncoder} (cfg : recording_settings) (c : recording_cipher).

(** One turn of the loop: the time of the segment before, the length and the audio so far. *)
Definition combine_segment (id : string) (d : disk) (acc : option Z * Z * bytes) (g : Z * segment_row) : result (option Z * Z * bytes) :=
  let '(previous, total, pcm) := acc in
  let captured := utc (segment_captured g.2) in
  if match previous with Some t => (captured <? t)%Z | None => false end
  then Raise (RecordingError "Conversation segment timestamps are out of order." 422)
  else
    source ← write_uploaded_wav c id g.1 (segment_upload g.2) (upload_directory (segment_upload g.2) d);
    details ← inspect_pcm_wav source (segment_duration_ms g.2);
    let riff := drop 8 source in
    p ← wave_open riff;
    let '(f, ch) := p in
    pcm ← read_frames (RecordingError "Conversation segment changed during assembly." 503) riff (S (length riff)) f ch (getnframes f ch) pcm;
    Ok (Some captured, (total + wav_duration_ms details)%Z, pcm).

Definition encoded_conversation (pcm : bytes) : result bytes :=
  process ← of_option (RecordingError "Conversation audio assembly is unavailable." 503) (encode_conversation pcm);
  match process with
  | (0%Z, Some media) =>
      if starts_with (to_bytes "ID3") media || starts_with [octet 255] media then Ok media
      else Raise (RecordingError "Conversation audio assembly produced invalid media." 422)
  | _ => Raise (RecordingError "Conversation audio assembly failed." 422)
  end.

(** The row of the assembled recording. *)
Definition assembled_row (confirmed_abandoned : bool) (segs : list (Z * segment_row)) (total : Z) (pcm : bytes) (mc : media_columns)
    (t : datetime) (r : recording_row) : recording_row :=
  {| capture_of := capture_of r;
     source_of := {| rec_duration_ms := total;
                     rec_stop_reason := if confirmed_abandoned then "recording_failure"
                                        else match last segs with Some (_, g) => segment_stop_reason g | None => "" end;
                     source_size_bytes := foldr Z.add 0%Z (map (λ g, expected_size_bytes (segment_upload g.2)) segs);
                     source_sha256 := sha256_hexdigest pcm;
                     partial := confirmed_abandoned || existsb (λ g, segment_partial g.2) segs;
                     segment_count := Z.of_nat (length segs) |};
     media_of := mc; rec_status := Ready; processing_error := processing_error r; listened_at := listened_at r;
     deleted_at := deleted_at r; deletion_reason := deletion_reason r; rec_updated := t |}.

(** [assemble_conversation_recording]: the name of the file it placed and the new row; [policy]
    is the retention policy that the transaction has added. *)
Definition assemble_conversation_recording (r : request) (id : string) (row : recording_row) (segs : list (Z * segment_row))
    (policy : option retention_row) (confirmed_abandoned : bool) : program (string * recording_row) :=
  _ ← lift (check_segments confirmed_abandoned segs);
  temporary_directory (".conversation-" +:+ uuid_hex r) (
    combined ← look (λ m, foldM (combine_segment id (on_disk m)) (None, 0%Z, []) segs);
    let '(_, total, pcm) := combined in
    encoded ← lift (encoded_conversation pcm);
    _ ← look (λ m, _ ← of_option (RecordingError "Recording retention state is unavailable." 503) (union policy (retention (committed m)));
                   if (recording_quota_bytes cfg <? recording_used_bytes None (Some id) (committed m)
                                                    + (Z.of_nat (length encoded) + Z.of_nat (length MEDIA_MAGIC) + 4 + 12 + 16))%Z
                   then Raise (RecordingError "Recording storage quota is full; the device must retain its spool." 507)
                   else Ok ());
    let name := uuid_hex r +:+ ".rec" in
    let temporary := ".media-" +:+ uuid_hex r in
    let write content := act (λ m, Ok ((), with_root (<[temporary := PrivateFile content]> (root (on_disk m))) (on_disk m))) in
    let finally := act (λ m, Ok ((), unlink temporary (on_disk m))) in
    _ ← write [];
    size ← catch (encrypted ← lift (encrypt_media (nonce r 0) c id encoded);
                  _ ← write encrypted;
                  _ ← act (λ m, d ← replace temporary name (on_disk m); Ok ((), d));
                  Return (Ok (Z.of_nat (length encrypted))))
             (λ e, _ ← finally; Return (Raise e));
    _ ← finally;
    Return (Ok (name, assembled_row confirmed_abandoned segs total pcm
                        {| media_key_version := Some (cipher_version c); media_storage_name := Some name;
                           media_size_bytes := Some size; media_sha256 := Some (sha256_hexdigest encoded) |} (now r) row))).

Definition assembled (id : string) (row : recording_row) (segs : list (Z * segment_row)) (t : datetime) (s : recordings_db)
    : option recordings_db :=
  if match media_storage_name (media_of row) with Some name => free_media_name id name s | None => true end
  then Some (with_segments (foldr (λ g rows, alter (with_segment_status Assembled t) (id, g.1) rows) (segments s) segs)
              (with_recordings (alter (λ _, row) id (recordings s)) s))
  else None.

(** What both APIs do with the last request of a recording: after the checks of [report] they
    assemble it, and [announce] looks up whom the notification names. *)
Definition complete_segmented (api : segment_api) (r : request) (device id : string) (count : Z)
    (policy : recordings_db → option retention_row)
    (report : recording_row → list (Z * segment_row) → recordings_db → result unit) (announce : recording_row → result (option bytes))
    : program segmented_response :=
  s ← look (λ m, Ok (committed m));
  row ← lift (owned_recording api device id s);
  if bool_decide (rec_status row = Ready) || bool_decide (rec_status row = Deleted) then Return (Ok (segmented_response_of id row))
  else if bool_decide (rec_status row ≠ Uploading) then Return (Raise (HTTPException 409 [recording_closed api]))
  else
    let segs := recording_segments id s in
    if bool_decide (Z.of_nat (length segs) ≠ count) then Return (Raise (HTTPException 409 [count_mismatch api]))
    else
      _ ← lift (report row segs s);
      done ← assemble_conversation_recording r id row segs (policy s) false;
      _ ← lift (announce row);
      _ ← commit_or (act (λ m, Ok ((), unlink done.1 (on_disk m))))
            (λ s', assembled id done.2 segs (now r) (match policy s with Some p => with_retention p s' | None => s' end));
      _ ← for_each (λ g, remove_upload_files (segment_upload g.2)) segs;
      Return (Ok (segmented_response_of id done.2)).

(** The notification that follows the answer is the event [conversation_ready]. *)
Definition complete_conversation_recording (key : bytes) (r : request) (device id : string) (count : Z) (calls : call_store)
    : program segmented_response :=
  complete_segmented conversation_api r device id count (λ _, None) (λ _ _ _, Ok ())
    (λ row, announced_caller key calls (rec_call (capture_of row))).

Definition segments_duration (segs : list (Z * segment_row)) : Z := foldr Z.add 0%Z (map (λ g, segment_duration_ms g.2) segs).
(** The report of the call that the assembled audio must match. *)
Definition check_audit_report (free : Z) (row : recording_row) (segs : list (Z * segment_row)) (s : recordings_db) : result unit :=
  duration ← metadata_member "duration_ms" row;
  duration ← (if py_eq duration JNull then Ok 0%Z else of_option (TypeError "unsupported operand") (number duration));
  if (30 <? Z.abs (segments_duration segs - duration))%Z
  then Raise (HTTPException 409 ["Audit duration disagrees with call report"])
  else if existsb (λ g, negb (bool_decide (segment_duration_ms g.2 = 15000)%Z)) (removelast segs)
  then Raise (HTTPException 409 ["Non-terminal audit segments must cover 15 seconds"])
  else
    _ ← match last segs with
        | None => Ok ()
        | Some (_, final) =>
            reason ← metadata_member "stop_reason" row;
            partial ← metadata_member "partial" row;
            if negb (py_eq reason (JStr (segment_stop_reason final))) || negb (py_eq partial (JBool (segment_partial final)))
            then Raise (HTTPException 409 ["Audit termination disagrees with call report"]) else Ok ()
        end;
    _ ← require_audit_capacity cfg free 0 s;
    if (free <? foldr Z.add 0 (map (λ g, expected_size_bytes (segment_upload g.2)) segs) + segments_duration segs * 12
               + 4 * 1024 * 1024 + audit_recording_reserve_bytes cfg)%Z
    then Raise (HTTPException 507 ["Audit assembly filesystem reserve reached; retain the tablet spool"]) else Ok ().
Definition complete_session_recording (r : request) (device id : string) (count free : Z) : program segmented_response :=
  complete_segmented session_audit_api r device id count
    (λ s, Some (initialize_retention_policy (now r) (development_admin_email cfg) s)) (check_audit_report free) (λ _, Ok None).

(** ** [recover_partial] of [recording_recovery.py] *)

Definition abandoned_row (t : datetime) (r : recording_row) : recording_row :=
  {| capture_of := capture_of r;
     source_of := {| rec_duration_ms := rec_duration_ms (source_of r); rec_stop_reason := rec_stop_reason (source_of r);
                     source_size_bytes := source_size_bytes (source_of r); source_sha256 := source_sha256 (source_of r);
                     partial := true; segment_count := segment_count (source_of r) |};
     media_of := media_of r; rec_status := RecordingFailed;
     processing_error := Some "Confirmed abandoned after device recovery; no verified audio survives";
     listened_at := listened_at r; deleted_at := deleted_at r; deletion_reason := deletion_reason r; rec_updated := t |}.

Record recovery_evidence := { source_confirmed_absent : bool; evidence : string; verified_segment_hashes : list string }.
Definition recover_partial (r : request) (id : string) (b : recovery_evidence) (calls : call_store) : program recording_row :=
  if negb (source_confirmed_absent b)
  then Return (Raise (HTTPException 409 ["Device recovery must establish that no active writer or pending source remains"]))
  else
    s ← look (λ m, Ok (committed m));
    row ← lift (of_option not_found (recordings s !! id));
    _ ← lift (let active := HTTPException 409 ["An active call or transfer cannot be recovered as abandoned"] in
              call ← of_option active (call_records calls !! rec_call (capture_of row));
              if bool_decide (call_result call = "IN_PROGRESS") then Raise active
              else if bool_decide (source_format (capture_of row) ≠ "legacy_wav") || bool_decide (kind (capture_of row) ≠ "conversation")
              then Raise (HTTPException 409 ["This recovery operation is only for legacy conversation prefixes"])
              else Ok ());
    if bool_decide (rec_status row = Ready) && partial (source_of row) then Return (Ok row)
    else if bool_decide (rec_status row ≠ Uploading) then Return (Raise (HTTPException 409 ["Recording is not awaiting recovery"]))
    else
      let segs := recording_segments id s in
      if existsb (λ g, bool_decide (seg_status g.2 ≠ Verified)) segs
      then Return (Raise (HTTPException 409 ["Unverified or active transfer data still exists; preserve it for device reconciliation"]))
      else if bool_decide (map (λ g, upload_sha256 (segment_upload g.2)) segs ≠ verified_segment_hashes b)
      then Return (Raise (HTTPException 409 ["The reviewed prefix differs from current server data"]))
      else if match last segs with Some (_, final) => negb (boundary final) || negb (contiguous segs) | None => false end
      then Return (Raise (HTTPException 409 ["The recording is not an incomplete contiguous prefix"]))
      else
        let policy := initialize_retention_policy (now r) (actor r) s in
        let audited row := with_audit (actor r) "recording.recovered_partial" id
          (JObj [("evidence", JStr (evidence b)); ("verified_segment_hashes", JList (map JStr (verified_segment_hashes b)));
                 ("duration_ms", JInt (rec_duration_ms (source_of row))); ("partial", JBool true)]) in
        match segs with
        | [] =>
            let row := abandoned_row (now r) row in
            _ ← commit_or (Return (Ok ()))
                  (λ s, Some (audited row (with_recordings (alter (λ _, row) id (recordings s)) (with_retention policy s))));
            Return (Ok row)
        | _ =>
            done ← assemble_conversation_recording r id row segs (Some policy) true;
            _ ← commit_or (act (λ m, Ok ((), unlink done.1 (on_disk m))))
                  (λ s, audited done.2 <$> assembled id done.2 segs (now r) (with_retention policy s));
            Return (Ok done.2)
        end.
End Assembly.
