(* ===== verification/Continuous.v ===== *)
(** * Continuous recordings ([continuous_recording_api.py], [continuous_recording_worker.py])

    A tablet sends the PCM audio of a call as one resumable upload; the last request only
    queues it.  A worker, one at a time, converts it, stores the result and only then accepts
    the recording, after which the tablet may delete its copy.

    The worker's job directory is private to the holder of its lock and emptied before every
    job; its files are the values that a job computes, and what the directory holds when a job
    looks is the argument [prior].  [free] is the space left on the disk
    when a request looks. *)
From Stdlib Require Import Ascii.
From stdpp Require Import base gmap sets strings numbers pretty list.
From S2P Require Import Prelude FlowTree Schemas LegacyGraph Json Crypto Documents Store Drafts Revisions V4Api Diff Devices Policies Calls Recordings Wave Script Storage Voicemail Segments.

(** ** Requests *)

(** [CaptureReceipt] *)
Record capture_receipt := {
  boot_id : string; started_elapsed_ms : Z; ended_elapsed_ms : Z; finalized_elapsed_ms : option Z }.
Definition receipt_fields (c : capture_receipt) : bool :=
  (0 <? started_elapsed_ms c)%Z && (0 <? ended_elapsed_ms c)%Z && option_all (λ n, (0 <? n)%Z) (finalized_elapsed_ms c)
  && negb ((ended_elapsed_ms c <? started_elapsed_ms c)%Z
           || match finalized_elapsed_ms c with Some n => (n <? ended_elapsed_ms c)%Z | None => false end).
Definition dump_receipt (c : capture_receipt) : json :=
  JObj [("version", JInt 2); ("boot_id", JStr (boot_id c)); ("started_elapsed_ms", JInt (started_elapsed_ms c));
        ("ended_elapsed_ms", JInt (ended_elapsed_ms c)); ("finalized_elapsed_ms", dump_option JInt (finalized_elapsed_ms c))].

(** [ContinuousRecordingCreate] *)
Record continuous_request := {
  format_version : Z; body_receipt : option capture_receipt; body_recording : string; body_call : string; body_kind : string;
  body_revision : option Z; body_block : option string; body_policy : option Z; body_captured : timestamp; body_frames : Z;
  body_duration : Z; body_expected : Z; body_sha256 : string; body_partial : bool; body_stop_reason : string }.
Definition pcm_format : string := "pcm_s16le_48000_stereo".
Definition COMPLETE_REASONS : list string :=
  ["session_complete"; "caller_hangup"; "operator_hangup"; "max_call_duration"; "completed"].
Definition STOP_REASONS : list string :=
  COMPLETE_REASONS ++ ["preempted"; "capture_failure"; "storage_full"; "interrupted"; "writer_failure"; "buffer_overrun"; "recording_failure"].

Definition validate_pcm (b : continuous_request) : bool :=
  bool_decide (format_version b = 2 ↔ is_Some (body_receipt b))%Z
  && bool_decide (body_expected b = body_frames b * 4)%Z && bool_decide (body_duration b = body_frames b * 1000 / 48000)%Z
  && bool_decide (is_Some (utc_offset (body_captured b)))
  && negb (bool_decide (body_kind b = "conversation")
           && (bool_decide (body_revision b = None) || bool_decide (body_block b = None) || bool_decide (body_policy b ≠ None)))
  && negb (bool_decide (body_kind b = "session_audit") && (bool_decide (body_policy b = None) || bool_decide (body_block b ≠ None)))
  && (bool_decide (body_stop_reason b ∈ COMPLETE_REASONS) || body_partial b).
Definition continuous_fields (b : continuous_request) : bool :=
  in_range 1 2 (format_version b) && option_all receipt_fields (body_receipt b)
  && bool_decide (body_kind b ∈ ["conversation"; "session_audit"]) && option_all (λ n, (1 <=? n)%Z) (body_revision b)
  && option_all (λ n, (1 <=? n)%Z) (body_policy b) && valid_timestamp (body_captured b)
  && in_range 1 (48000 * 86400) (body_frames b) && in_range 1 86400000 (body_duration b)
  && in_range 4 (192000 * 86400) (body_expected b) && is_hash (body_sha256 b) && bool_decide (body_stop_reason b ∈ STOP_REASONS)
  && validate_pcm b.

(** [body.model_dump(mode="json")], without an absent capture receipt *)
Definition dump_request (b : continuous_request) : json :=
  JObj ([("format_version", JInt (format_version b))]
        ++ match body_receipt b with Some c => [("capture_receipt", dump_receipt c)] | None => [] end
        ++ [("recording_id", JStr (body_recording b)); ("call_id", JStr (body_call b)); ("kind", JStr (body_kind b));
            ("revision_id", dump_option JInt (body_revision b)); ("block_id", dump_option JStr (body_block b));
            ("policy_version", dump_option JInt (body_policy b)); ("captured_at", JStr (dump_timestamp (body_captured b)));
            ("source_format", JStr pcm_format); ("frames", JInt (body_frames b)); ("duration_ms", JInt (body_duration b));
            ("expected_size_bytes", JInt (body_expected b)); ("source_sha256", JStr (body_sha256 b));
            ("partial", JBool (body_partial b)); ("stop_reason", JStr (body_stop_reason b))]).

(** ** Rows *)

(** [_owned] *)
Definition owned_continuous (device id : string) (s : recordings_db) : result (recording_row * continuous_row * option upload_row) :=
  match recordings s !! id, continuous s !! id with
  | Some r, Some receipt =>
      if bool_decide (rec_device (capture_of r) ≠ device) then Raise (HTTPException 403 ["Recording belongs to another device"])
      else Ok (r, receipt, upload_rows s !! id)
  | _, _ => Raise (HTTPException 404 ["Continuous recording not found"])
  end.

Record continuous_response := {
  continuous_id : string; continuous_format : Z; continuous_recording : recording_status; processing_state : continuous_status;
  continuous_offset : Z; continuous_expected : Z; continuous_sha256 : string; continuous_partial : bool; continuous_acknowledged : bool;
  continuous_error : option string; continuous_retry : option datetime }.
Definition continuous_response_of (id : string) (r : recording_row) (receipt : continuous_row) (u : option upload_row)
    : result continuous_response :=
  format ← get_member "format_version" (capture_manifest receipt);
  let accepted := bool_decide (is_Some (accepted_at receipt)) in
  Ok {| continuous_id := id; continuous_format := match default (JInt 1) format with JInt n => n | _ => 0 end;
        continuous_recording := rec_status r; processing_state := continuous_state receipt;
        continuous_offset := match u with
                             | Some u => upload_offset u
                             | None => if accepted then source_size_bytes (source_of r) else 0
                             end;
        continuous_expected := source_size_bytes (source_of r); continuous_sha256 := source_sha256 (source_of r);
        continuous_partial := partial (source_of r); continuous_acknowledged := accepted;
        continuous_error := processing_error r; continuous_retry := retry_at receipt |}.

(** A receipt in another state; the next retry, and the time of acceptance if it is new. *)
Definition with_state (st : continuous_status) (retry accepted : option datetime) (t : datetime) (x : continuous_row) : continuous_row :=
  {| row_validation_error := row_validation_error x; capture_manifest := capture_manifest x; continuous_state := st;
     run_attempts := run_attempts x; retry_at := retry; accepted_at := accepted; operation_duration_ms := operation_duration_ms x;
     continuous_updated := t |}.
Definition with_attempts (n : Z) (x : continuous_row) : continuous_row :=
  {| row_validation_error := row_validation_error x; capture_manifest := capture_manifest x; continuous_state := continuous_state x;
     run_attempts := n; retry_at := retry_at x; accepted_at := accepted_at x; operation_duration_ms := operation_duration_ms x;
     continuous_updated := continuous_updated x |}.
Definition measured (ms : Z) (t : datetime) (x : continuous_row) : continuous_row :=
  {| row_validation_error := row_validation_error x; capture_manifest := capture_manifest x; continuous_state := continuous_state x;
     run_attempts := run_attempts x; retry_at := retry_at x; accepted_at := accepted_at x; operation_duration_ms := Some ms;
     continuous_updated := t |}.
Definition with_error (e : option string) (r : recording_row) : recording_row :=
  {| capture_of := capture_of r; source_of := source_of r; media_of := media_of r; rec_status := rec_status r;
     processing_error := e; listened_at := listened_at r; deleted_at := deleted_at r; deletion_reason := deletion_reason r;
     rec_updated := rec_updated r |}.
(** [recording.status = st] without a new time *)
Definition set_status (st : recording_status) (r : recording_row) : recording_row := with_status st (rec_updated r) r.

Definition update (id : string) (f : recording_row → recording_row) (g : continuous_row → continuous_row) (s : recordings_db) : recordings_db :=
  with_continuous (alter g id (continuous s)) (with_recordings (alter f id (recordings s)) s).

(** ** The requests of a tablet *)

Definition audit_upload_bytes (s : recordings_db) : Z :=
  zsum expected_size_bytes (filter (λ '(id, _), is_audit s id = true) (upload_rows s)).
Definition continuous_capacity (cfg : recording_settings) (free : Z) (b : continuous_request) (s : recordings_db) : result unit :=
  let reserve := audit_recording_reserve_bytes cfg in
  if (recording_quota_bytes cfg <? recording_used_bytes None None s + body_expected b + reserve)%Z
  then Raise (HTTPException 507 ["Server recording capacity is full; keep the encrypted tablet copy"])
  else if (free <? body_expected b * 2 + reserve)%Z
  then Raise (HTTPException 507 ["Server lacks upload and processing workspace; keep the encrypted tablet copy"])
  else if bool_decide (body_kind b = "session_audit")
          && (audit_recording_quota_bytes cfg <? audit_ready_bytes s + audit_upload_bytes s + audit_segment_bytes s + body_expected b)%Z
  then Raise (HTTPException 507 ["Server audit quota is full; keep the encrypted tablet copy"])
  else Ok ().

Section Api.
Context `{Cryptography} `{KeyDerivation} (key : bytes) (cfg : recording_settings) (c : recording_cipher).

(** The call, what is odd about the times of the audio, and the operator's number. *)
Definition check_continuous (device : string) (b : continuous_request) (st : store) (p : policy_tables) (calls : call_store)
    : result (call_row * option string * option string) :=
  let unknown := HTTPException 409 ["A terminal call event must be acknowledged before audio upload"] in
  call ← of_option unknown (call_records calls !! body_call b);
  if bool_decide (call_result call = "IN_PROGRESS") then Raise unknown
  else if bool_decide (call_device call ≠ device) then Raise (HTTPException 403 ["Call belongs to another device"])
  else
    let captured := utc (body_captured b) in
    let started := utc (call_started call) in
    let ended := match ended_at call with Some t => utc t | None => (started + seconds_us (duration_seconds call))%Z end in
    let outside := (captured <? started - seconds_us 5)%Z || (ended + seconds_us 5 <? captured + body_duration b * 1000)%Z in
    let disagrees := match body_receipt b with
                     | Some t => (1 <? Z.abs (ended_elapsed_ms t - started_elapsed_ms t - body_duration b))%Z
                     | None => false
                     end in
    let issue := if disagrees then Some "Capture boundaries disagree with the PCM frame count; source retained for evidence review"
                 else if outside then Some "Recording coverage is outside its call; source retained for evidence review" else None in
    if bool_decide (body_kind b = "conversation") then
      let mismatch := HTTPException 422 ["Conversation revision does not match its call"] in
      revision ← of_option mismatch (i ← body_revision b; revisions st !! i);
      if bool_decide (revision_schema_version revision ≠ 4)%Z || bool_decide (call_revision call ≠ body_revision b) then Raise mismatch
      else
        let block := default "None" (body_block b) in
        manifest ← load_manifest key revision;
        found ← external_instruction manifest block;
        match found, conference_at call block with
        | Some instruction, Some conference =>
            if (captured <? conference - seconds_us 1)%Z
            then Raise (HTTPException 422 ["Conversation requires a verified operator connection in its signed flow"])
            else
              phone ← get_item "phone_number" instruction;
              match phone with JStr number => Ok (call, issue, Some number) | _ => Raise (AttributeError "encode") end
        | _, _ => Raise (HTTPException 422 ["Conversation requires a verified operator connection in its signed flow"])
        end
    else
      audit ← of_option (HTTPException 409 ["Call has no whole-call recording receipt"]) (call_audit call);
      report ← load_report audit;
      _ ← validate_call_report p (reported_version (Some report)) (call_result call) device;
      if bool_decide (recording_id report ≠ Some (body_recording b)) || negb (bool_decide (body_policy b = Some (report_policy report)))
         || negb (match Calls.captured_at report with Some t => same_time t (body_captured b) | None => false end)
         || bool_decide (report_duration report ≠ body_duration b) || negb (bool_decide (Calls.partial report = body_partial b))
         || bool_decide (stop_reason report ≠ body_stop_reason b) || bool_decide (report_state report ≠ "pending_upload")
      then Raise (HTTPException 409 ["Recording differs from the acknowledged whole-call receipt"])
      else Ok (call, issue, None).

Definition continuous_recording_row (r : request) (device : string) (b : continuous_request) (call : call_row) (operator : option string)
    (s : recordings_db) : recording_row :=
  let audit := bool_decide (body_kind b = "session_audit") in
  let highest := maximum_sequence (λ q, bool_decide (rec_call (capture_of q) = body_call b)) s in
  {| capture_of :=
       {| rec_device := device; rec_call := body_call b; rec_revision := if audit then call_revision call else body_revision b;
          rec_block := body_block b; rec_sequence := if audit then -1 else Z.max 0 (default 0%Z highest + 1)%Z;
          kind := body_kind b; audit_metadata := if audit then call_audit call else None;
          operator_encrypted := (λ n, encrypt key (nonce r 0) (to_bytes n)) <$> operator;
          operator_last4 := match operator with Some n => last4 n | None => "" end;
          captured_at := body_captured b; source_format := pcm_format |};
     source_of := {| rec_duration_ms := body_duration b; rec_stop_reason := body_stop_reason b; source_size_bytes := body_expected b;
                     source_sha256 := body_sha256 b; partial := body_partial b; segment_count := 0 |};
     media_of := no_media; rec_status := Uploading; processing_error := None; listened_at := None; deleted_at := None;
     deletion_reason := None; rec_updated := now r |}.
Definition new_receipt (b : continuous_request) (issue : option string) (t : datetime) : continuous_row :=
  {| row_validation_error := issue; capture_manifest := dump_request b; continuous_state := ContinuousUploading; run_attempts := 0;
     retry_at := None; accepted_at := None; operation_duration_ms := None; continuous_updated := t |}.
Definition new_continuous_upload (b : continuous_request) (name : string) (t : datetime) : upload_row :=
  {| expected_size_bytes := body_expected b; upload_sha256 := body_sha256 b; upload_offset := 0; upload_storage := name; upload_updated := t |}.
Definition insert_continuous (id : string) (row : recording_row) (receipt : continuous_row) (u : upload_row) (policy : retention_row)
    (s : recordings_db) : option recordings_db :=
  match recordings s !! id, upload_rows s !! id, continuous s !! id with
  | None, None, None =>
      if free_call_step row s && free_upload_name (upload_storage u) s
      then Some (with_continuous (<[id := receipt]> (continuous s)) (with_uploads (<[id := u]> (upload_rows s))
             (with_recordings (<[id := row]> (recordings s)) (with_retention policy s))))
      else None
  | _, _, _ => None
  end.

Definition create_continuous (r : request) (device : string) (free : Z) (b : continuous_request) (st : store) (p : policy_tables)
    (calls : call_store) : program continuous_response :=
  let id := body_recording b in
  s ← look (λ m, Ok (committed m));
  match recordings s !! id with
  | Some _ =>
      owned ← lift (owned_continuous device id s);
      let '(row, receipt, u) := owned in
      if negb (py_eq (capture_manifest receipt) (dump_request b))
      then Return (Raise (HTTPException 409 ["Recording identity was reused with different metadata"]))
      else lift (continuous_response_of id row receipt u)
  | None =>
      checked ← lift (check_continuous device b st p calls);
      let '(call, issue, operator) := checked in
      _ ← lift (continuous_capacity cfg free b s);
      let policy := initialize_retention_policy (now r) (development_admin_email cfg) s in
      let row := continuous_recording_row r device b call operator s in
      let receipt := new_receipt b issue (now r) in
      name ← create_upload_directory (uuid_hex r);
      let u := new_continuous_upload b name (now r) in
      done ← commit (insert_continuous id row receipt u policy);
      match done with
      | Committed => lift (continuous_response_of id row receipt (Some u))
      | Violated => Return (Raise (HTTPException 409 ["Concurrent recording creation; retry the identical request"]))
      | Failed => Return (Raise DatabaseError)
      end
  end.

Definition continuous_recording_status (device id : string) : program continuous_response :=
  look (λ m, owned ← owned_continuous device id (committed m); let '(row, receipt, u) := owned in continuous_response_of id row receipt u).

Definition stored_content (id : string) (u : upload_row) (t : datetime) (replay : bool) (s : recordings_db) : recordings_db :=
  update id (λ r, r) (λ x, with_state (continuous_state x) (retry_at x) (accepted_at x) t x) (advanced id u t replay s).
Definition continuous_content (r : request) (device id : string) (offset free : Z) (declared : option string) (parts : list bytes)
    : program continuous_response :=
  chunk ← lift (read_bounded_chunk "Recording chunk exceeds 1 MiB" (recording_chunk_limit_bytes cfg) declared parts);
  s ← look (λ m, Ok (committed m));
  owned ← lift (owned_continuous device id s);
  let '(row, receipt, found) := owned in
  let closed := HTTPException 409 ["Recording no longer accepts content; query its status"] in
  u ← lift (if bool_decide (continuous_state receipt ≠ ContinuousUploading) then Raise closed else of_option closed found);
  if (free <? Z.of_nat (length chunk) + audit_recording_reserve_bytes cfg)%Z
  then Return (Raise (HTTPException 507 ["Server disk reserve reached; keep the encrypted tablet copy"]))
  else
    u' ← store_recording_chunk cfg c (now r) (nonce r 0) id u offset chunk;
    let replay := (offset <? upload_offset u)%Z in
    _ ← commit_or (Return (Ok ())) (λ s, Some (stored_content id u' (now r) replay s));
    lift (continuous_response_of id (if replay then row else with_status (rec_status row) (now r) row)
            (with_state (continuous_state receipt) (retry_at receipt) (accepted_at receipt) (now r) receipt) (Some u')).

Definition queued (r : request) (x : continuous_row) : continuous_row := with_state Queued None (accepted_at x) (now r) x.
Definition continuous_complete (r : request) (device id : string) : program continuous_response :=
  s ← look (λ m, Ok (committed m));
  owned ← lift (owned_continuous device id s);
  let '(row, receipt, found) := owned in
  if bool_decide (is_Some (accepted_at receipt)) || bool_decide (continuous_state receipt ∈ [Queued; ContinuousProcessing; NeedsAttention])
  then lift (continuous_response_of id row receipt found)
  else
    let incomplete := HTTPException 409 ["Recording upload is incomplete"] in
    u ← lift (of_option incomplete found);
    if bool_decide (upload_offset u ≠ expected_size_bytes u) then Return (Raise incomplete)
    else if bool_decide (continuous_state receipt = Invalid)
    then Return (Raise (HTTPException 422 ["Uploaded audio failed validation; the original tablet copy is still required"]))
    else
      let f q := with_error None (set_status Processing q) in
      _ ← commit_or (Return (Ok ())) (λ s, Some (update id f (queued r) s));
      lift (continuous_response_of id (f row) (queued r receipt) (Some u)).

(** The upload starts again in a new directory. *)
Definition renewed (name : string) (t : datetime) (u : upload_row) : upload_row :=
  {| expected_size_bytes := expected_size_bytes u; upload_sha256 := upload_sha256 u; upload_offset := 0; upload_storage := name;
     upload_updated := t |}.
Definition reset_upload (id name : string) (t : datetime) (s : recordings_db) : option recordings_db :=
  if bool_decide (map_Forall (λ i u, i ≠ id → upload_storage u ≠ name) (upload_rows s))
  then Some (update id (λ q, with_error None (set_status Uploading q)) (λ x, with_state ContinuousUploading None (accepted_at x) t x)
               (with_uploads (alter (renewed name t) id (upload_rows s)) s))
  else None.
Definition continuous_reset (r : request) (device id : string) : program continuous_response :=
  s ← look (λ m, Ok (committed m));
  owned ← lift (owned_continuous device id s);
  let '(row, receipt, found) := owned in
  let refused := HTTPException 409 ["Only a rejected upload can be restarted"] in
  u ← lift (if bool_decide (continuous_state receipt ≠ Invalid) || bool_decide (is_Some (accepted_at receipt)) then Raise refused
            else of_option refused found);
  name ← create_upload_directory (uuid_hex r);
  _ ← commit_or (Return (Ok ())) (reset_upload id name (now r));
  _ ← remove_upload_files u;
  lift (continuous_response_of id (with_error None (set_status Uploading row)) (with_state ContinuousUploading None (accepted_at receipt) (now r) receipt)
          (Some (renewed name (now r) u))).
End Api.

(** ** The worker *)

(** The next receipt to work on: the least recently touched one whose retry is due. *)
Definition workable (t : datetime) (x : continuous_row) : bool :=
  bool_decide (continuous_state x ∈ [Queued; ContinuousProcessing; Retrying])
  && match retry_at x with Some due => (instant due <=? instant t)%Z | None => true end.
Definition touched_before (a b : string * continuous_row) : bool :=
  (instant (continuous_updated a.2) <? instant (continuous_updated b.2))%Z
  || (bool_decide (instant (continuous_updated a.2) = instant (continuous_updated b.2)) && bool_decide (str_le a.1 b.1)).
Definition next_receipt (t : datetime) (s : recordings_db) : option (string * continuous_row) :=
  foldr (λ x best, match best with Some y => Some (if touched_before x y then x else y) | None => Some x end) None
    (filter (λ x, workable t x.2 = true) (map_to_list (continuous s))).

Section Worker.
Context `{Cryptography} `{KeyDerivation} `{PcmEncoder} (cfg : recording_settings) (c : recording_cipher).

(** The loop of [_materialize]; every turn reads a byte at least. *)
Fixpoint materialize_chunks (fuel : nat) (id : string) (u : upload_row) (directory : chunk_directory) (offset : Z) (audio : bytes)
    : result bytes :=
  if (offset <? expected_size_bytes u)%Z then
    match fuel with
    | 0 => Raise OutOfFuel
    | S fuel =>
        payload ← of_option (RecordingError "Recording storage is unavailable." 503) (directory !! chunk_name offset);
        if (recording_chunk_limit_bytes cfg + 128 <? Z.of_nat (length payload))%Z
        then Raise (RecordingError "Encrypted upload record exceeds its bound" 422)
        else
          data ← decrypt_chunk c id offset payload;
          if bool_decide (data = []) || (expected_size_bytes u <? offset + Z.of_nat (length data))%Z
          then Raise (RecordingError "Continuous audio contains invalid byte ranges" 422)
          else materialize_chunks fuel id u directory (offset + Z.of_nat (length data)) (audio ++ data)
    end
  else Ok audio.
Definition materialize (id : string) (row : recording_row) (u : upload_row) (found : result chunk_directory) : result bytes :=
  directory ← found;
  audio ← materialize_chunks (Z.to_nat (expected_size_bytes u)) id u directory 0 [];
  if bool_decide (Z.of_nat (length audio) ≠ source_size_bytes (source_of row))
     || bool_decide (sha256_hexdigest audio ≠ source_sha256 (source_of row))
  then Raise (RecordingError "Continuous audio failed size or checksum verification" 422)
  else Ok audio.

Definition encoded_continuous (pcm : bytes) : result bytes :=
  process ← of_option (RecordingError "Audio conversion is unavailable; durable source retained" 503) (encode_continuous pcm);
  match process with
  | (0%Z, _, Some media) =>
      if starts_with (to_bytes "ID3") media || starts_with [octet 255] media then Ok media
      else Raise (RecordingError "Audio conversion produced invalid playback media" 503)
  | (code, detail, _) =>
      Raise (RecordingError ("Audio conversion failed (exit " +:+ pretty code +:+ "): " +:+ detail +:+ "; durable source retained") 503)
  end.

(** The sealed recording and the digest of what it holds, authenticated once more before use. *)
Definition sealed_media (r : request) (id : string) (media : bytes) : result (bytes * string) :=
  encrypted ← encrypt_media (nonce r 0) c id media;
  verified ← decrypt_media c id encrypted;
  if bool_decide (sha256_hexdigest verified ≠ sha256_hexdigest media)
  then Raise (RecordingError "Stored playback media failed verification" 503)
  else Ok (encrypted, sha256_hexdigest media).

Definition with_storage_name (name : string) (r : recording_row) : recording_row :=
  {| capture_of := capture_of r; source_of := source_of r;
     media_of := {| media_key_version := media_key_version (media_of r); media_storage_name := Some name;
                    media_size_bytes := media_size_bytes (media_of r); media_sha256 := media_sha256 (media_of r) |};
     rec_status := rec_status r; processing_error := processing_error r; listened_at := listened_at r;
     deleted_at := deleted_at r; deletion_reason := deletion_reason r; rec_updated := rec_updated r |}.
(** The name is reserved before the file has it. *)
Definition reserve_name (id name : string) (policy : retention_row) (s : recordings_db) : option recordings_db :=
  if free_media_name id name s then Some (with_recordings (alter (with_storage_name name) id (recordings s)) (with_retention policy s))
  else None.
Definition accepted_media (size : Z) (digest : string) (t : datetime) (r : recording_row) : recording_row :=
  with_error None
    (with_media Ready (rec_duration_ms (source_of r))
       {| media_key_version := Some (cipher_version c); media_storage_name := media_storage_name (media_of r);
          media_size_bytes := Some size; media_sha256 := Some digest |} t r).
Definition accept (id : string) (size : Z) (digest : string) (t : datetime) (s : recordings_db) : recordings_db :=
  update id (accepted_media size digest t) (λ x, with_state ContinuousReady None (Some t) (continuous_updated x) x)
    (with_uploads (delete id (upload_rows s)) s).

(** What may be found in the job workspace is the directory of an earlier job. *)
Definition strange_entry (e : string * bool) : bool := negb (e.2 && has_prefix "job-" e.1).
(** [_process]; [prior] is what the job workspace holds, with whether it is a directory and no link. *)
Definition run_job (r : request) (free : Z) (prior : list (string * bool)) (id : string) (row : recording_row) (receipt : continuous_row) (found : option upload_row)
    : program unit :=
  let missing := RecordingError "Durable upload source is missing or incomplete" 503 in
  u ← lift (of_option missing found);
  if bool_decide (upload_offset u ≠ source_size_bytes (source_of row)) then Return (Raise missing)
  else if (free <? source_size_bytes (source_of row) + rec_duration_ms (source_of row) * 36 + audit_recording_reserve_bytes cfg)%Z
  then Return (Raise (RecordingError "Server processing workspace is full; audio is preserved for retry" 507))
  else if existsb strange_entry prior
  then Return (Raise (RecordingError "Unexpected processing workspace entry" 503))
  else
    pcm ← look (λ m, materialize id row u (upload_directory u (on_disk m)));
    _ ← lift (match row_validation_error receipt with
              | Some issue => if bool_decide (issue = "") then Ok () else Raise (RecordingError issue 409)
              | None => Ok ()
              end);
    media ← lift (encoded_continuous pcm);
    policy ← look (λ m, Ok (initialize_retention_policy (now r) (development_admin_email cfg) (committed m)));
    _ ← look (λ m, if (recording_quota_bytes cfg <? recording_used_bytes (Some id) None (committed m)
                                                   + (Z.of_nat (length media) + Z.of_nat (length MEDIA_MAGIC) + 32))%Z
                   then Raise (RecordingError "Server recording quota is full; durable source retained" 507) else Ok ());
    sealed ← lift (sealed_media r id media);
    let name := uuid_hex r +:+ ".rec" in
    _ ← commit_or (Return (Ok ())) (reserve_name id name policy);
    _ ← act (λ m, Ok ((), with_root (<[name := PrivateFile sealed.1]> (root (on_disk m))) (on_disk m)));
    _ ← match media_storage_name (media_of row) with
        | Some old => if bool_decide (old = "") || bool_decide (old = name) then Return (Ok ())
                      else act (λ m, Ok ((), unlink old (on_disk m)))
        | None => Return (Ok ())
        end;
    _ ← commit_or (Return (Ok ())) (λ s, Some (accept id (Z.of_nat (length sealed.1)) sealed.2 (now r) s));
    remove_upload_files u.

(** [str(error)]; of an error of a library, its name. *)
Definition error_text (e : exn) : string :=
  match e with HTTPException _ [message] => message | RuntimeError message | ValueError message => message
             | OtherException name => name | _ => "" end.
Definition error_code (e : exn) : option Z := match e with HTTPException code _ => Some code | _ => None end.
(** Thirty seconds doubled for every attempt, an hour at most. *)
Definition backoff (attempts : Z) : Z := Z.min 3600 (30 * 2 ^ Z.min attempts 7).
Definition failed_receipt (e : exn) (t : datetime) (x : continuous_row) : continuous_row :=
  let permanent := bool_decide (error_code e = Some 422%Z) in
  let attention := bool_decide (error_code e = Some 409%Z) in
  with_state (if attention then NeedsAttention else if permanent then Invalid else Retrying)
    (if permanent || attention then None else Some (datetime_of_instant (instant t + seconds_us (backoff (run_attempts x)))))
    (accepted_at x) (continuous_updated x) x.
Definition failed_recording (e : exn) (r : recording_row) : recording_row :=
  let given_up := bool_decide (error_code e = Some 422%Z) || bool_decide (error_code e = Some 409%Z) in
  with_error (Some (py_slice 500 (error_text e))) (set_status (if given_up then RecordingFailed else Processing) r).
(** The end of a job: [None] if it raised nothing. *)
Definition finish_job (id : string) (outcome : option exn) (elapsed : Z) (t : datetime) (s : recordings_db) : recordings_db :=
  let s := match outcome, continuous s !! id with
           | Some e, Some x => if bool_decide (accepted_at x = None) then update id (failed_recording e) (failed_receipt e t) s else s
           | _, _ => s
           end in
  update id (λ r, r) (measured elapsed t) s.

Definition start_job (id : string) (t : datetime) (s : recordings_db) : recordings_db :=
  update id (set_status Processing)
    (λ x, with_attempts (run_attempts x + 1) (with_state ContinuousProcessing (retry_at x) (accepted_at x) t x)) s.
(** [process_next] with the lock; the notification that a conversation is ready follows. *)
Definition process_next (r : request) (free : Z) (prior : list (string * bool)) (elapsed : Z) : program bool :=
  s ← look (λ m, Ok (committed m));
  match next_receipt (now r) s with
  | None => Return (Ok false)
  | Some (id, receipt) =>
      row ← lift (of_option (AttributeError "status") (recordings s !! id));
      if bool_decide (rec_status row = Deleted) then
        _ ← commit_or (Return (Ok ()))
              (λ s, Some (update id (λ r, r) (λ x, with_state ContinuousDeleted (retry_at x) (accepted_at x) (continuous_updated x) x) s));
        Return (Ok true)
      else
        _ ← commit_or (Return (Ok ())) (λ s, Some (start_job id (now r) s));
        found ← look (λ m, Ok (upload_rows (committed m) !! id));
        outcome ← catch (_ ← run_job r free prior id row receipt found; Return (Ok None)) (λ e, Return (Ok (Some e)));
        _ ← commit_or (Return (Ok ())) (λ s, Some (finish_job id outcome elapsed (now r) s));
        Return (Ok true)
  end.
End Worker.
