(* ===== verification/VoicemailInvariant.v ===== *)
(** * The invariant through the requests of [recording_api.py] *)
From Stdlib Require Import Ascii.
From stdpp Require Import base gmap sets strings numbers pretty list.
From S2P Require Import Prelude FlowTree Schemas Json Crypto Documents Store Drafts Revisions V4Api Diff Devices Calls Recordings RecordingsFacts Wave Script Storage StorageFacts StorageInvariant StorageCorrect Voicemail.

Section Requests.
Context `{CryptographyLaws} `{KeyDerivation} `{Transcoder} (key : bytes) (cfg : recording_settings) (c : recording_cipher) (spools : string → spool).
Abbreviation quota := (recording_quota_bytes cfg).
Abbreviation consistent := (consistent c quota spools).
Abbreviation sound_rows := (sound_rows quota).
Abbreviation invariant := (invariant c quota spools).
Abbreviation at_rows := (at_rows c quota spools).

(** ** Reservation *)

(** A new upload whose directory nobody holds. *)
Lemma consistent_reserve d s s' id u :
  consistent d s → upload_rows s' = <[id := u]> (upload_rows s) → upload_rows s !! id = None → segments s' = segments s →
  continuous s' = continuous s → continuous s !! id = None → (∀ i, i ≠ id → recordings s' !! i = recordings s !! i) →
  (∀ i r', recordings s' !! i = Some r' → rec_status r' = Ready ∨ media_storage_name (media_of r') ≠ None →
     ∃ r, recordings s !! i = Some r ∧ media_of r = media_of r' ∧ (rec_status r' = Ready → rec_status r = Ready)) →
  (zsum ready_bytes (recordings s') ≤ zsum ready_bytes (recordings s))%Z →
  valid_upload_name (upload_storage u) = true → upload_directories d !! upload_storage u = Some ∅ →
  (∀ k, ¬ holds s k (upload_storage u)) → (0 ≤ expected_size_bytes u)%Z →
  (recording_used_bytes None None s + expected_size_bytes u ≤ quota)%Z → consistent d s'.
Proof using Type.
  intros Hc Hup Hnone Hseg Hcont Hid Hsame Hrec Hsum Hv Hdir Hfree Hpos Hquota.
  assert (∀ k name, holds s' k name → k = inl id ∧ name = upload_storage u ∨ holds s k name) as Hheld.
  { intros [i|k] name; unfold holds; rewrite ?Hup, ?Hseg; [|by right].
    intros (v & [[<- <-]|[_ ?]]%lookup_insert_Some & <-); [by left|right; by exists v]. }
  split; [split| | | | | |].
  - intros i j q r name Hi Hj Hq Hr. destruct (Hrec i q Hi) as (q' & ? & Hmq & _); [right; congruence|].
    destruct (Hrec j r Hj) as (r' & ? & Hmr & _); [right; congruence|].
    eapply (unique_media _ _ (rows_sound _ _ _ _ _ Hc)); [done|done|by rewrite Hmq|by rewrite Hmr].
  - intros i q name Hi Hq. destruct (Hrec i q Hi) as (q' & ? & Hmq & _); [right; congruence|].
    eapply (media_valid _ _ (rows_sound _ _ _ _ _ Hc)); [done|by rewrite Hmq].
  - intros k l name [[-> ->]|Hk]%Hheld [[-> Hl]|Hl]%Hheld; [done|by destruct (Hfree l)| |].
    + subst name. by destruct (Hfree k).
    + by eapply (unique_holder _ _ (rows_sound _ _ _ _ _ Hc)).
  - intros k name [[-> ->]|Hk]%Hheld; [done|]. by eapply (valid_holder _ _ (rows_sound _ _ _ _ _ Hc)).
  - rewrite Hup. intros i v [[<- <-]|[_ Hi]]%lookup_insert_Some; [done|]. by eapply (upload_size _ _ (rows_sound _ _ _ _ _ Hc)).
  - rewrite Hseg. apply Hc.
  - unfold recording_used_bytes in *. rewrite Hup, Hseg, zsum_insert by done. lia.
  - apply (sound_receipts_change s); [apply Hc|done|]. intros i x r Hx Hr. assert (i ≠ id) by congruence.
    rewrite Hup, lookup_insert_ne, Hsame by done. split; [done|]. exists r. auto.
  - apply Hc.
  - apply Hc.
  - intros i r' Hi Hst. destruct (Hrec i r' Hi) as (r & Hr & Hm & Hst'); [by left|].
    destruct (ready_stored _ _ _ _ _ Hc i r Hr (Hst' Hst)) as (name & payload & Hn & Hvn & Hd & Hp).
    exists name, payload. unfold playable in *. rewrite <- Hm. done.
  - intros k name [[-> ->]|Hk]%Hheld; [by eexists|]. by eapply held_directory.
  - intros i v Hw. eapply source_kept; [done|]. revert Hw. apply waiting_same; [done|]. intros x Hx.
    rewrite Hup, lookup_insert_ne by congruence. done.
  - rewrite Hcont. apply Hc.
Qed.

Lemma capacity_ok required s : require_recording_capacity cfg required s = Ok () → (recording_used_bytes None None s + required ≤ quota)%Z.
Proof using Type. unfold require_recording_capacity. by destruct (Z.ltb_spec quota (recording_used_bytes None None s + required)). Qed.
Lemma request_size b : request_fields b = true → (0 ≤ create_expected_size b)%Z.
Proof using Type.
  unfold request_fields. rewrite !andb_true_iff. intros [[_ Hr] _]. unfold in_range in Hr. apply bool_decide_eq_true in Hr. lia.
Qed.

Lemma consistent_reserve_again d s s' r id b policy :
  consistent d s → recordings s !! id ≠ None → continuous s !! id = None → reserve_again r id b policy s = Some s' →
  (∀ q, recordings s !! id = Some q → rec_status q = RecordingFailed) →
  valid_upload_name (uuid_hex r) = true → upload_directories d !! uuid_hex r = Some ∅ → (∀ k, ¬ holds s k (uuid_hex r)) →
  request_fields b = true → (recording_used_bytes None None s + create_expected_size b ≤ quota)%Z → consistent d s'.
Proof using Type.
  intros Hc Hex Hcont Hres Hfailed Hv Hdir Hfree Hb Hq. unfold reserve_again in Hres.
  destruct (upload_rows s !! id) eqn:Hu; [done|]. destruct (free_upload_name _ _); [|done]. injection Hres as <-.
  apply (consistent_reserve d s _ id (new_upload b (uuid_hex r) (now r))); cbn; try done.
  - intros i Hne. by rewrite lookup_alter_ne.
  - intros i r' Hi Hcase. destruct (decide (id = i)) as [<-|Hne].
    + rewrite lookup_alter_eq in Hi. destruct (recordings s !! id) as [q|] eqn:Hid; [|done]. injection Hi as <-.
      exists q. split_and!; [done..|]. by intros ?.
    + rewrite lookup_alter_ne in Hi by done. by exists r'.
  - apply zsum_alter_le. intros q Hid. unfold ready_bytes. cbn. rewrite (Hfailed q Hid). done.
  - by apply request_size.
Qed.
Lemma consistent_reserve_new d s s' r device b policy :
  consistent d s → reserve r device b policy s = Some s' →
  valid_upload_name (uuid_hex r) = true → upload_directories d !! uuid_hex r = Some ∅ → (∀ k, ¬ holds s k (uuid_hex r)) →
  request_fields b = true → (recording_used_bytes None None s + create_expected_size b ≤ quota)%Z → consistent d s'.
Proof using Type.
  intros Hc Hres Hv Hdir Hfree Hb Hq. unfold reserve in Hres.
  destruct (recordings s !! create_recording_id b) eqn:Hid; [done|]. destruct (upload_rows s !! create_recording_id b) eqn:Hu; [done|].
  destruct (_ && _); [|done]. injection Hres as <-.
  apply (consistent_reserve d s _ (create_recording_id b) (new_upload b (uuid_hex r) (now r))); cbn; try done.
  - by eapply absent_not_continuous.
  - intros i Hne. by rewrite lookup_insert_ne.
  - intros i r' [[<- <-]|[_ Hi]]%lookup_insert_Some Hcase; [by destruct Hcase|by exists r'].
  - rewrite zsum_insert by done. done.
  - by apply request_size.
Qed.

(** ** Handlers *)

Abbreviation keeps := (λ (_ : result _) (m : host), invariant m).
Abbreviation safely p := (∀ m, invariant m → safe invariant (λ _, invariant) p m).

Lemma create_recording_safe r device b st calls :
  request_fields b = true → valid_upload_name (uuid_hex r) = true → safely (create_recording key cfg r device b st calls).
Proof using Type.
  intros Hb Hv m Hm. unfold create_recording. apply safe_look_bind; [done|by intros|]. intros s [= <-]. cbn zeta.
  assert (at_rows (committed m) m) as Hrows by done.
  destruct (recordings (committed m) !! create_recording_id b) as [existing|] eqn:Hid.
  - case_bool_decide as Hlegacy; [by apply safe_return|]. case_bool_decide; [by apply safe_return|]. destruct (same_metadata b existing); cbn [negb]; [|by apply safe_return].
    destruct (bool_decide (rec_status existing = RecordingFailed)) eqn:Hst; cbn [andb]; [|by apply safe_return].
    apply bool_decide_eq_true in Hst. case_bool_decide; [|by apply safe_return].
    apply safe_lift; [done|by intros|]. intros [] Hcap%capacity_ok.
    apply safe_bind, (safe_create_directory _ _ _ (committed m)); [done|done|by intros e m' [? _]|]. intros m1 Hm1 Hdir Hfree.
    apply safe_bind, (safe_commit_only _ _ _ (committed m)); [done|by intros; apply Hm1|].
    intros s' m2 Hs' Hc Hd. split; [|by intros; apply safe_return].
    eapply consistent_reserve_again; [|by rewrite Hid|by eapply legacy_not_continuous|done|congruence|done..].
    destruct Hm1 as [Hm1 <-]. done.
  - apply safe_lift; [done|by intros|]. intros [] _. apply safe_lift; [done|by intros|]. intros [] Hcap%capacity_ok.
    apply safe_bind, (safe_create_directory _ _ _ (committed m)); [done|done|by intros e m' [? _]|]. intros m1 [Hm1 Hs1] Hdir Hfree.
    apply safe_bind, safe_commit; [done| | |by apply safe_return].
    + intros s' Hs'. rewrite Hs1 in Hs'.
      assert (invariant (with_committed s' m1)); [|split; [done|by apply safe_return]].
      eapply consistent_reserve_new; [|done..]. cbn. rewrite <- Hs1. done.
    + intros _. apply safe_bind, (safe_rmdir _ _ _ (committed m)); [done|done|]. intros [[]|e] m' [Hm' _]; [by apply safe_return|done].
Qed.

Lemma store_chunk_row t n identity u found offset body u' chunks :
  store_chunk (recording_chunk_limit_bytes cfg) c t n identity u found offset body = Ok (u', chunks) →
  (∃ ch, found = Ok ch) ∧ upload_storage u' = upload_storage u ∧ expected_size_bytes u' = expected_size_bytes u.
Proof using Type.
  unfold store_chunk. case_bool_decide; [done|]. destruct (_ <? _)%Z; [done|]. destruct (_ <? _)%Z; [done|].
  intros Hs. destruct found as [ch|]; [|done]. split; [by exists ch|]. cbn [mbind result_bind] in Hs. revert Hs.
  destruct (_ <? _)%Z.
  - intros Hs. apply result_bind_ok in Hs as (payload & _ & Hs). apply result_bind_ok in Hs as (existing & _ & Hs).
    destruct (_ || _); [done|]. by injection Hs as <- <-.
  - case_bool_decide; [done|]. intros Hs. apply result_bind_ok in Hs as (sealed & _ & Hs).
    apply result_bind_ok in Hs as (d & _ & Hs). by injection Hs as <- <-.
Qed.

Lemma consistent_advanced d s id u u' t replay :
  consistent d s → continuous s !! id = None → upload_rows s !! id = Some u → upload_storage u' = upload_storage u →
  expected_size_bytes u' = expected_size_bytes u → consistent d (advanced id u' t replay s).
Proof using Type.
  intros Hc Hcont Hu Hst Hex. unfold advanced. destruct replay; [done|].
  set (s1 := with_recordings (alter (λ r, with_status (rec_status r) t r) id (recordings s)) s).
  assert (consistent d s1) as Hc1 by (apply consistent_alter; [done|by left|by left]).
  assert (∀ i v', alter (λ _, u') id (upload_rows s) !! i = Some v' →
    ∃ v, upload_rows s !! i = Some v ∧ upload_storage v' = upload_storage v ∧ expected_size_bytes v' = expected_size_bytes v) as Hlook.
  { intros i v' Hi. destruct (decide (id = i)) as [<-|Hne].
    - rewrite lookup_alter_eq, Hu in Hi. injection Hi as <-. by exists u.
    - rewrite lookup_alter_ne in Hi by done. by exists v'. }
  assert (∀ k name, holds (with_uploads (alter (λ _, u') id (upload_rows s)) s1) k name → holds s1 k name) as Hheld.
  { intros [i|k] name; unfold holds; cbn [upload_rows segments with_uploads with_recordings]; [|done].
    intros (v' & (v & ? & ? & _)%Hlook & <-). exists v. done. }
  assert (∀ i x, continuous s !! i = Some x → upload_rows (with_uploads (alter (λ _, u') id (upload_rows s)) s1) !! i = upload_rows s !! i) as Hrows.
  { intros i x Hx. cbn. by rewrite lookup_alter_ne by congruence. }
  apply (consistent_rows _ _ _ d s1); [done| |by eauto|done| |done].
  2:{ intros i v. apply (waiting_same s1); [done|]. intros x Hx. by apply (Hrows i x). }
  apply (sound_rows_change quota s1); [apply Hc1|by eauto|done| |apply Hc1| |].
  - intros i v' (v & Hv & _ & ->)%Hlook. by eapply (upload_size _ _ (rows_sound _ _ _ _ _ Hc)).
  - unfold recording_used_bytes. cbn [recordings upload_rows segments with_uploads with_recordings].
    rewrite (zsum_alter _ _ _ u) by done. cbn [recordings upload_rows segments s1 with_recordings]. lia.
  - apply (sound_receipts_change s1); [apply Hc1|done|]. intros i x r Hx Hr. split; [by apply (Hrows i x)|]. exists r. auto.
Qed.

Lemma owned_legacy device id s row : get_owned_recording device id s = Ok row →
  recordings s !! id = Some row ∧ source_format (capture_of row) = "legacy_wav".
Proof using Type.
  unfold get_owned_recording. destruct (recordings s !! id) as [q|]; [|done]. cbn.
  case_bool_decide; [done|]. case_bool_decide as Hf; [done|]. intros [= ->]. done.
Qed.

Lemma upload_recording_content_safe r device id offset content_type declared parts :
  safely (upload_recording_content cfg c r device id offset content_type declared parts).
Proof using Type.
  intros m Hm. unfold upload_recording_content. destruct offset as [offset|]; [|by apply safe_return].
  destruct (_ <? _)%Z; [by apply safe_return|]. case_bool_decide; [by apply safe_return|].
  apply safe_look_bind; [done|by intros|]. intros s [= <-]. apply safe_lift; [done|by intros|]. intros row Hrow.
  apply owned_legacy in Hrow as (Hid & Hlegacy). apply (legacy_not_continuous _ _ _ _ _ _ _ Hm Hid) in Hlegacy.
  destruct (_ || _); [by apply safe_return|]. case_bool_decide; [by apply safe_return|].
  apply safe_lift; [done|by intros|]. intros u Hu%of_option_ok. apply safe_lift; [done|by intros|]. intros body _.
  apply safe_bind, safe_act; [done| |by intros].
  intros u' d Hd. cbn zeta. apply result_bind_ok in Hd as ([v chunks] & Hst & Hd). injection Hd as -> <-.
  apply store_chunk_row in Hst as ([ch Hch] & Hname & Hsize).
  set (m1 := {| on_disk := with_directories (<[upload_storage u := chunks]> (upload_directories (on_disk m))) (on_disk m); committed := committed m |}).
  assert (invariant m1) as Hm1.
  { apply consistent_directory_insert; [done| |].
    - unfold upload_directory in Hch. by destruct (valid_upload_name _).
    - intros i v Hw. eapply (waiting_other _ _ _ _ _ (inl id)); [done|by exists u| |done].
      intros [= ->]. by eapply not_waiting. }
  split; [done|]. apply safe_bind, (safe_commit_only _ _ _ (committed m)); [done|done|].
  intros s' m2 [= <-] _ _. split; [|by intros; apply safe_return]. by eapply consistent_advanced.
Qed.

(** ** Completion *)

(** The identifier drawn for a file is new. *)
Definition fresh_media (u : string) (m : host) : Prop :=
  root (on_disk m) !! (u +:+ ".rec") = None ∧ root (on_disk m) !! quarantine_name (u +:+ ".rec") = None ∧
  ∀ id r, recordings (committed m) !! id = Some r → media_storage_name (media_of r) ≠ Some (u +:+ ".rec").

(** A file in its place, of a recording whose space is beyond what is [used]. *)
Definition placed (id name : string) (mc : media_columns) (used : Z) (m : host) : Prop :=
  ∃ payload, root (on_disk m) !! name = Some (PrivateFile payload) ∧ root (on_disk m) !! quarantine_name name = None ∧
    media_storage_name mc = Some name ∧ media_size_bytes mc = Some (Z.of_nat (length payload)) ∧
    (∀ r, media_of r = mc → playable c id r payload) ∧ (used + Z.of_nat (length payload) ≤ quota)%Z.

Lemma unowned_fresh u s : valid_upload_name u = true →
  (∀ id r, recordings s !! id = Some r → media_storage_name (media_of r) ≠ Some (u +:+ ".rec")) → unowned (u +:+ ".rec") s.
Proof using Type. intros Hv Hfree. apply unowned_media; [by apply valid_new_media_name|]. intros id r Hid _. by eapply Hfree. Qed.

Definition on_root (f : gmap string root_entry → gmap string root_entry) (m : host) : host :=
  {| on_disk := with_root (f (root (on_disk m))) (on_disk m); committed := committed m |}.
Lemma temporary_unowned u s : unowned (".media-" +:+ u) s.
Proof using Type. apply unowned_dotted; [done|apply dotted_app]. Qed.
Lemma temporary_written s u content m : at_rows s m → at_rows s (on_root (<[".media-" +:+ u := PrivateFile content]>) m).
Proof using Type.
  intros [Hm Hs]. split; [|done]. apply consistent_write; [exact Hm|apply temporary_unowned|]. right. left. apply has_prefix_app.
Qed.
Lemma temporary_removed s u m : at_rows s m → at_rows s (on_root (delete (".media-" +:+ u)) m).
Proof using Type. intros [Hm Hs]. split; [|done]. apply consistent_unlink; [exact Hm|apply temporary_unowned]. Qed.
Lemma media_written s u content m : valid_upload_name u = true →
  (∀ id r, recordings s !! id = Some r → media_storage_name (media_of r) ≠ Some (u +:+ ".rec")) → at_rows s m →
  at_rows s (on_root (<[u +:+ ".rec" := PrivateFile content]>) m).
Proof using Type.
  intros Hv Hfree [Hm Hs]. split; [|done]. apply consistent_write; [exact Hm| |left; by apply valid_new_media_name].
  cbn in *. rewrite Hs. by apply unowned_fresh.
Qed.
Lemma temporary_moved s u content m : valid_upload_name u = true →
  (∀ id r, recordings s !! id = Some r → media_storage_name (media_of r) ≠ Some (u +:+ ".rec")) → at_rows s m →
  at_rows s (on_root (λ files, <[u +:+ ".rec" := PrivateFile content]> (delete (".media-" +:+ u) files)) m).
Proof using Type. intros Hv Hfree Hm%(temporary_removed _ u). exact (media_written s u content _ Hv Hfree Hm). Qed.

(** The file is moved to its name and the temporary one removed, whatever happens. *)
Lemma safe_move s u content (Q : result unit → host → Prop) m : valid_upload_name u = true →
  (∀ id r, recordings s !! id = Some r → media_storage_name (media_of r) ≠ Some (u +:+ ".rec")) → at_rows s m →
  root (on_disk m) !! (".media-" +:+ u) = Some (PrivateFile content) → (∀ e, Q (Raise e) m) →
  (at_rows s (on_root (λ files, <[u +:+ ".rec" := PrivateFile content]> (delete (".media-" +:+ u) files)) m) →
     Q (Ok ()) (on_root (λ files, <[u +:+ ".rec" := PrivateFile content]> (delete (".media-" +:+ u) files)) m)) →
  safe invariant Q (act (λ m, d ← replace (".media-" +:+ u) (u +:+ ".rec") (on_disk m); Ok ((), d))) m.
Proof using Type.
  intros Hv Hfree Hm Hf Hraise Hok. apply safe_act; [apply Hm| |intros; apply Hraise].
  intros [] d Hd. destruct (replace _ _ (on_disk m)) as [d'|] eqn:Hr; [|done]. injection Hd as <-.
  apply replace_ok in Hr as (e & He & ->). assert (e = PrivateFile content) as -> by congruence.
  pose proof (temporary_moved s u content m Hv Hfree Hm) as Hm'. split; [apply Hm'|by apply Hok].
Qed.
Lemma safe_remove_temporary s u (Q : result unit → host → Prop) m :
  at_rows s m → (at_rows s (on_root (delete (".media-" +:+ u)) m) → Q (Ok ()) (on_root (delete (".media-" +:+ u)) m)) →
  safe invariant Q (act (λ m, Ok ((), unlink (".media-" +:+ u) (on_disk m)))) m.
Proof using Type.
  intros Hm HQ. apply safe_act; [apply Hm| |done]. intros [] d [= <-]. pose proof (temporary_removed s u m Hm) as Hm'.
  split; [apply Hm'|by apply HQ].
Qed.
Lemma placed_sealed id u used nonce media encrypted d rows mc :
  valid_upload_name u = true → length nonce = 12 → encrypt_media nonce c id media = Ok encrypted →
  root d !! quarantine_name (u +:+ ".rec") = None → (used + Z.of_nat (length encrypted) ≤ quota)%Z →
  mc = {| media_key_version := Some (cipher_version c); media_storage_name := Some (u +:+ ".rec");
          media_size_bytes := Some (Z.of_nat (length encrypted)); media_sha256 := Some (sha256_hexdigest media) |} →
  placed id (u +:+ ".rec") mc used
    (on_root (delete (".media-" +:+ u)) (on_root (λ files, <[u +:+ ".rec" := PrivateFile encrypted]> (delete (".media-" +:+ u) files))
       {| on_disk := d; committed := rows |})).
Proof using Type*.
  intros Hv Hn Henc Hq Hquota ->. pose proof (valid_new_media_name u Hv) as Hvn.
  assert (".media-" +:+ u ≠ u +:+ ".rec") as Htn.
  { intros Heq. eapply valid_not_dotted; [exact Hvn|]. rewrite <- Heq. apply dotted_app. }
  exists encrypted. cbn. split_and!; try done.
  - by rewrite lookup_delete_ne, lookup_insert_eq by done.
  - rewrite lookup_delete_ne by done. rewrite lookup_insert_ne by (by apply quarantine_not_valid). by rewrite lookup_delete_ne by done.
  - intros q Hq'. exists media, (cipher_version c). rewrite Hq'. cbn. split_and!; try done.
    + by eapply media_version_seal.
    + by eapply open_seal.
Qed.

Lemma safe_finalize s r id row u (Q : result (string * (Z * media_columns)) → host → Prop) m :
  at_rows s m → valid_upload_name (uuid_hex r) = true → length (nonce r 0) = 12 → fresh_media (uuid_hex r) m →
  (∀ e m', at_rows s m' → Q (Raise e) m') →
  (∀ duration mc m', at_rows s m' → placed id (uuid_hex r +:+ ".rec") mc (recording_used_bytes (Some id) None s) m' →
     Q (Ok (uuid_hex r +:+ ".rec", (duration, mc))) m') →
  safe invariant Q (finalize_recording cfg c r id row u) m.
Proof using Type*.
  intros Hm Hv Hn (Hname & Hquar & Hfree) Hraise Hok. pose proof Hm as [Hinv Hs]. rewrite Hs in Hfree.
  unfold finalize_recording.
  apply safe_look_bind; [done|by intros; apply Hraise|]. intros source _.
  apply safe_lift; [done|by intros; apply Hraise|]. intros details _.
  apply safe_lift; [done|by intros; apply Hraise|]. intros encoded _.
  apply safe_lift; [done|by intros; apply Hraise|]. intros encrypted Henc.
  apply safe_look_bind; [done|by intros; apply Hraise|]. intros [] Hquota.
  assert (recording_used_bytes (Some id) None s + Z.of_nat (length encrypted) ≤ quota)%Z as Hq.
  { rewrite Hs in Hquota. destruct (retention s); [|done]. cbn [of_option mbind result_bind] in Hquota. revert Hquota.
    by destruct (Z.ltb_spec quota (recording_used_bytes (Some id) None s + Z.of_nat (length encrypted))). }
  clear Hquota. apply safe_bind, safe_act; [done| |by intros; apply Hraise]. intros [] d [= <-]. cbn zeta.
  pose proof (temporary_written s (uuid_hex r) encrypted m Hm) as Hm1. split; [apply Hm1|].
  apply safe_bind, safe_catch, (safe_move s _ encrypted); [done|done|exact Hm1|by cbn; rewrite lookup_insert_eq| |].
  - intros e. apply safe_bind, (safe_remove_temporary s); [exact Hm1|]. intros Hm2. split; [apply Hm2|by apply Hraise].
  - intros Hm2. apply safe_bind, (safe_remove_temporary s); [exact Hm2|]. intros Hm3. split; [apply Hm3|].
    apply Hok; [exact Hm3|]. apply (placed_sealed id (uuid_hex r) _ (nonce r 0) encoded encrypted); [done..| |done|done].
    cbn. by rewrite lookup_insert_ne by done.
Qed.

Lemma consistent_completed r id name duration mc s s' m row :
  at_rows s m → placed id name mc (recording_used_bytes (Some id) None s) m → valid_media_name name = true →
  recordings s !! id = Some row → rec_status row ≠ Ready → continuous s !! id = None → completed r id (duration, mc) s = Some s' → consistent (on_disk m) s'.
Proof using Type.
  intros [Hm Hs] (payload & Hf & Hq & Hn & Hsize & Hplay & Hquota) Hv Hid Hst Hcont Hc. unfold invariant, StorageInvariant.invariant in Hm.
  rewrite Hs in Hm. unfold completed in Hc. cbn [fst snd] in Hc. rewrite Hn in Hc.
  destruct (free_media_name id name s) eqn:Hfree; [|done]. injection Hc as <-. apply bool_decide_eq_true in Hfree.
  set (g := with_media Ready duration mc (now r)).
  apply (consistent_ready _ _ _ _ s _ id row g name payload); [done|done|done| |done| |done| | |done|done|by left|by apply Hplay|].
  - cbn. intros i u [_ Hi]%lookup_delete_Some. done.
  - intros i v. apply waiting_same; [done|]. intros x Hx. cbn. by rewrite lookup_delete_ne by congruence.
  - apply (sound_receipts_change s); [apply Hm|done|]. intros i x q Hx Hi. assert (id ≠ i) by congruence.
    cbn. rewrite lookup_delete_ne, lookup_alter_ne by done. split; [done|]. exists q. auto.
  - intros i q Hne Hi. by apply (map_Forall_lookup_1 _ _ _ _ Hfree Hi).
  - unfold recording_used_bytes in *. cbn [recordings upload_rows segments with_uploads with_recordings].
    rewrite (zsum_alter _ _ _ row) by done.
    assert (ready_bytes row = 0%Z) as -> by (unfold ready_bytes; by rewrite decide_False by done).
    assert (ready_bytes (g row) = Z.of_nat (length payload)) as -> by (unfold ready_bytes; cbn; by rewrite Hsize). lia.
Qed.

Lemma complete_recording_safe r device id calls m :
  valid_upload_name (uuid_hex r) = true → length (nonce r 0) = 12 → fresh_media (uuid_hex r) m → invariant m →
  safe invariant (λ _, invariant) (complete_recording cfg c key r device id calls) m.
Proof using Type*.
  intros Hv Hn Hfresh Hm. unfold complete_recording. apply safe_look_bind; [done|by intros|]. intros s [= <-].
  apply safe_lift; [done|by intros|]. intros row Hrow.
  apply owned_legacy in Hrow as (Hid & Hlegacy). apply (legacy_not_continuous _ _ _ _ _ _ _ Hm Hid) in Hlegacy.
  destruct (_ || _); [by apply safe_return|]. case_bool_decide as Hst; [by apply safe_return|].
  apply safe_lift; [done|by intros|]. intros u Hu%of_option_ok.
  assert (at_rows (committed m) m) as Hrows by done.
  apply safe_bind, (safe_finalize (committed m)); [done..| |].
  { by intros e m' [? _]. }
  intros duration mc m1 Hm1 Hplaced. cbn [fst snd]. set (name := uuid_hex r +:+ ".rec") in *.
  assert (valid_media_name name = true) as Hvn by by apply valid_new_media_name.
  apply safe_lift; [apply Hm1|intros; apply Hm1|]. intros _ _.
  apply safe_bind, (safe_commit_or _ _ _ (committed m)); [done| |].
  - intros s' m2 Hs' Hc Hd. assert (invariant m2) as Hm2.
    { unfold invariant, StorageInvariant.invariant. rewrite Hc, Hd. eapply consistent_completed; [done..|congruence|done|done]. }
    split; [done|]. apply safe_bind, (safe_remove_upload _ _ _ s'); [|by split|].
    + pose proof Hplaced as (_ & _ & _ & Hname & _). unfold completed in Hs'. cbn [fst snd] in Hs'. rewrite Hname in Hs'.
      destruct (free_media_name id name _); [|done]. injection Hs' as <-. intros k Hk.
      assert (holds (committed m) (inl id) (upload_storage u)) as Hh by by exists u.
      assert (holds (committed m) k (upload_storage u)) as Hh'.
      { destruct k as [i|k]; [|exact Hk]. destruct Hk as (v & Hk & ?). cbn in Hk. apply lookup_delete_Some in Hk as [_ ?]. by exists v. }
      rewrite (unique_holder _ _ (rows_sound _ _ _ _ _ Hm) _ _ _ Hh' Hh) in Hk.
      destruct Hk as (v & Hk & _). cbn in Hk. by rewrite lookup_delete_eq in Hk.
    + intros [[]|e] m3 [Hm3 _]; [by apply safe_return|done].
  - intros e. destruct Hm1 as [Hm1 Hs1]. apply safe_act; [done| |by intros].
    intros [] d [= <-]. assert (invariant {| on_disk := unlink name (on_disk m1); committed := committed m1 |}); [|done].
    apply consistent_unlink; [done|]. rewrite Hs1. apply unowned_fresh; [done|]. apply Hfresh.
Qed.

(** ** Deletion, marks and retention *)

Lemma delete_recording_safe r id : safely (delete_recording r id).
Proof using Type.
  intros m Hm. unfold delete_recording. apply safe_look_bind; [done|by intros|]. intros s [= <-].
  apply safe_lift; [done|by intros|]. intros row Hid%of_option_ok.
  case_bool_decide; [by apply safe_return|]. case_bool_decide as Hst; [by apply safe_return|].
  assert (at_rows (committed m) m) as Hrows by done.
  apply safe_bind, (safe_quarantine _ _ _ (committed m)); [done|done|]. intros name m1 Hn Hv Hm1.
  assert (∀ d s, consistent d s → consistent d (with_audit (actor r) "recording.deleted" ("recording:" +:+ id) (JObj []) s)) as Haudit.
  { intros d s Hs. by apply (consistent_same _ _ _ d s). }
  apply safe_bind, (safe_commit_or _ _ _ (committed m)); [done| |].
  - intros s' m2 [= <-] Hc Hd. set (s1 := with_recordings (alter (tombstone_recording "manual" (now r)) id (recordings (committed m))) (committed m)) in *.
    assert (consistent (on_disk m2) (committed m2)) as Hm2.
    { rewrite Hc, Hd. apply Haudit, consistent_alter; [destruct Hm1 as [Hm1 <-]; exact Hm1|by right|]. right. intros q Hq. cbn.
      assert (q = row) as -> by congruence. split_and!; [done..|]. right. split; [|done]. done. }
    split; [done|]. apply (safe_discard _ _ _ (committed m2)); [|by split|by intros r' m' [? _]].
    rewrite Hc. apply unowned_quarantine. intros i q Hi Hready Hqn. cbn in Hi. destruct (decide (id = i)) as [<-|Hne].
    + rewrite lookup_alter_eq, Hid in Hi. by injection Hi as <-.
    + rewrite lookup_alter_ne in Hi by done. apply Hne. by eapply (unique_media _ _ (rows_sound _ _ _ _ _ Hm)).
  - intros e. apply (safe_restore _ _ _ (committed m)); [done|done|]. by intros [[]|e'] m' [? _].
Qed.

Lemma set_recording_listened_safe r id listened : safely (set_recording_listened r id listened).
Proof using Type.
  intros m Hm. unfold set_recording_listened. apply safe_look_bind; [done|by intros|]. intros s [= <-].
  apply safe_lift; [done|by intros|]. intros row Hid%of_option_ok.
  case_bool_decide; [by apply safe_return|]. case_bool_decide; [by apply safe_return|].
  apply safe_bind, (safe_commit_only _ _ _ (committed m)); [done|done|]. intros s' m' [= <-] _ _. split; [|by intros; apply safe_return].
  set (mark := with_listened (if listened then Some (now r) else None) (now r)).
  apply (consistent_same _ _ _ (on_disk m) (with_recordings (alter mark id (recordings (committed m))) (committed m))); [|done..].
  apply consistent_alter; [done|by left|]. right. auto.
Qed.

Lemma apply_retention_safe t actor change policy :
  (∀ s, recordings (change s) = recordings s ∧ upload_rows (change s) = upload_rows s ∧ segments (change s) = segments s ∧ continuous (change s) = continuous s) →
  safely (apply_retention t actor change policy).
Proof using Type.
  intros Hchange m Hm. assert (at_rows (committed m) m) as Hrows by done. unfold apply_retention.
  apply safe_bind, (safe_purge _ _ _ (committed m)); [done|by intros e m' [? _]|]. intros items m1 [Hm1 Hs1] Hitems.
  set (s := committed m) in *. set (s' := change (purged items t (with_retention policy s))).
  assert (∀ s, sound_rows s → sound_rows (with_retention policy s)) as Hsound.
  { intros s0 Hs0. by apply (sound_rows_change quota s0); [done|eauto|done|apply Hs0|apply Hs0|apply Z.le_refl|apply Hs0]. }
  assert (∀ d, consistent d s → consistent d s') as Hcons.
  { intros d Hd. destruct (Hchange (purged items t (with_retention policy s))) as (? & ? & ? & ?).
    apply (consistent_same _ _ _ d (purged items t (with_retention policy s))); [|done..].
    apply consistent_purged; [by apply (consistent_same _ _ _ d s)|exact Hitems]. }
  apply safe_bind, (safe_commit_or _ _ _ s); [done| |].
  - intros s2 m2 [= <-] Hc Hd. assert (invariant m2) as Hm2.
    { unfold invariant, StorageInvariant.invariant. rewrite Hc, Hd. apply Hcons. rewrite <- Hs1. exact Hm1. }
    split; [done|]. apply (safe_discard_all _ _ _ s'); [done| |by intros r m' [? _]].
    intros id name Hin. apply (unowned_same (quarantine_name name) (purged items t (with_retention policy s))); [apply Hchange|].
    eapply unowned_purged; [by apply Hsound, Hm|done|done].
  - intros e. apply (safe_restore_all _ _ _ s); [done|done|]. by intros [[]|e'] m' [? _].
Qed.

Lemma list_retention_safe r : safely (list_retention cfg r).
Proof using Type.
  intros m Hm. apply safe_look_bind; [done|by intros|]. intros policy _. by apply apply_retention_safe.
Qed.
Lemma get_recording_settings_safe r : safely (get_recording_settings cfg r).
Proof using Type.
  intros m Hm. apply safe_look_bind; [done|by intros|]. intros policy _. apply safe_bind, safe_retention_pass; [done|].
  intros [[]|e] m' Hm'; [by apply safe_return|done].
Qed.
Lemma put_recording_settings_safe r automatic days : safely (put_recording_settings r automatic days).
Proof using Type.
  intros m Hm. apply safe_bind. eapply (safe_mono invariant invariant); [done| |by apply apply_retention_safe].
  intros [[]|e] m' _ Hm'; [by apply safe_return|done].
Qed.

(** ** The requests *)

(** What one request leaves behind, whether it ends, fails or is cut off anywhere.  A request
    draws new identifiers. *)
Inductive voicemail_step : host → host → Prop :=
| step_create r device b st calls m m' :
    request_fields b = true → valid_upload_name (uuid_hex r) = true →
    leaves (create_recording key cfg r device b st calls) m m' → voicemail_step m m'
| step_content r device id offset content_type declared parts m m' :
    leaves (upload_recording_content cfg c r device id offset content_type declared parts) m m' → voicemail_step m m'
| step_complete r device id calls m m' :
    valid_upload_name (uuid_hex r) = true → length (nonce r 0) = 12 → fresh_media (uuid_hex r) m →
    leaves (complete_recording cfg c key r device id calls) m m' → voicemail_step m m'
| step_delete r id m m' : leaves (delete_recording r id) m m' → voicemail_step m m'
| step_listened r id b m m' : leaves (set_recording_listened r id b) m m' → voicemail_step m m'
| step_list r m m' : leaves (list_retention cfg r) m m' → voicemail_step m m'
| step_settings r m m' : leaves (get_recording_settings cfg r) m m' → voicemail_step m m'
| step_put r automatic days m m' : leaves (put_recording_settings r automatic days) m m' → voicemail_step m m'
| step_maintenance t m m' : leaves (maintain_recordings cfg t) m m' → voicemail_step m m'.

Lemma voicemail_step_invariant m m' : voicemail_step m m' → invariant m → invariant m'.
Proof using Type*.
  intros Hstep Hm. destruct Hstep; (eapply safe_leaves; [|done]).
  - by apply create_recording_safe.
  - by apply upload_recording_content_safe.
  - by apply complete_recording_safe.
  - by apply delete_recording_safe.
  - by apply set_recording_listened_safe.
  - by apply list_retention_safe.
  - by apply get_recording_settings_safe.
  - by apply put_recording_settings_safe.
  - by apply (safe_maintenance _ _ _ _ _ (λ _, invariant)).
Qed.

(** An empty store. *)
Definition no_recordings : host :=
  {| on_disk := {| root := ∅; upload_directories := ∅ |};
     committed := {| recordings := ∅; upload_rows := ∅; segments := ∅; continuous := ∅; retention := None; recording_audits := [] |} |}.
Lemma empty_invariant : (0 ≤ quota)%Z → (∀ id, told (spools id) = 0) → invariant no_recordings.
Proof using Type.
  intros Hq Hack. assert (∀ k name, ¬ holds (committed no_recordings) k name) as Hh.
  { intros [i|k] name (x & Hx & _); cbn in Hx; by rewrite lookup_empty in Hx. }
  split; [split| | | | | |]; cbn; try (intros *; rewrite lookup_empty; done).
  - intros k l name Hk. by destruct (Hh k name).
  - intros k name Hk. by destruct (Hh k name).
  - done.
  - intros i x Hx. cbn in Hx. by rewrite lookup_empty in Hx.
  - intros k name Hk. by destruct (Hh k name).
  - intros i u (x & Hx & _). cbn in Hx. by rewrite lookup_empty in Hx.
  - intros i Hi. rewrite Hack in Hi. lia.
Qed.
End Requests.
