(* ===== verification/SegmentsInvariant.v ===== *)
(** * The invariant through the requests of segmented recordings *)
From Stdlib Require Import Ascii.
From stdpp Require Import base gmap sets strings numbers pretty sorting list.
From S2P Require Import Prelude FlowTree Schemas Json Crypto Documents Store Drafts Revisions V4Api Diff Devices Policies Calls Recordings RecordingsFacts RecordingsCorrect Wave Script Storage StorageFacts StorageInvariant StorageCorrect Voicemail VoicemailInvariant Segments.

Section Rows.
Context `{Cryptography} `{KeyDerivation} (c : recording_cipher) (quota : Z) (spools : string → spool).
Abbreviation consistent := (consistent c quota spools).
Abbreviation sound_rows := (sound_rows quota).

(** ** Changes of the rows *)

(** A new recording without audio. *)
Lemma consistent_insert d s id row :
  consistent d s → recordings s !! id = None → rec_status row ≠ Ready → media_of row = no_media →
  consistent d (with_recordings (<[id := row]> (recordings s)) s).
Proof using Type.
  intros Hc Hid Hst Hmedia. pose proof (absent_not_continuous _ _ _ _ _ _ Hc Hid) as Hcont.
  apply (consistent_rows _ _ _ d s); [done| |cbn|done|done|done].
  - apply (sound_rows_change quota s); [apply Hc|cbn|done|apply Hc|apply Hc| |].
    + intros i r name [[<- <-]|[_ Hi]]%lookup_insert_Some Hn; [by rewrite Hmedia in Hn|by exists r].
    + unfold recording_used_bytes. cbn [recordings upload_rows segments with_recordings]. rewrite zsum_insert by done.
      unfold ready_bytes at 1. rewrite decide_False by done. lia.
    + apply (sound_receipts_change s); [apply Hc|done|]. intros i x r Hx Hr. split; [done|].
      exists r. cbn. rewrite lookup_insert_ne by congruence. auto.
  - intros i r [[<- <-]|[_ Hi]]%lookup_insert_Some Hready; [done|by exists r].
Qed.

(** A segment changes, and takes no more space. *)
Lemma consistent_segment d s k f :
  consistent d s →
  (∀ g, segments s !! k = Some g → upload_storage (segment_upload (f g)) = upload_storage (segment_upload g) ∧
     expected_size_bytes (segment_upload (f g)) = expected_size_bytes (segment_upload g) ∧ (reserved (f g) = true → reserved g = true)) →
  consistent d (with_segments (alter f k (segments s)) s).
Proof using Type.
  intros Hc Hf.
  assert (∀ i g', alter f k (segments s) !! i = Some g' → ∃ g, segments s !! i = Some g ∧
    upload_storage (segment_upload g') = upload_storage (segment_upload g) ∧
    expected_size_bytes (segment_upload g') = expected_size_bytes (segment_upload g) ∧ (reserved g' = true → reserved g = true)) as Hlook.
  { intros i g' Hi. destruct (decide (k = i)) as [<-|Hne].
    - rewrite lookup_alter_eq in Hi. destruct (segments s !! k) as [g|]; [|done]. injection Hi as <-. exists g. auto.
    - rewrite lookup_alter_ne in Hi by done. by exists g'. }
  assert (∀ i name, holds (with_segments (alter f k (segments s)) s) i name → holds s i name) as Hheld.
  { intros [i|i] name; unfold holds; cbn [upload_rows segments with_segments]; [done|].
    intros (g' & (g & Hg & Hst & _ & Hres)%Hlook & Hr & <-). exists g. auto. }
  apply (consistent_rows _ _ _ d s); [done| |by eauto|done|done|done].
  apply (sound_rows_change quota s); [apply Hc|by eauto|done|apply Hc| | |apply Hc].
  - intros i g' (g & Hg & _ & -> & _)%Hlook. by eapply (segment_size _ _ (rows_sound _ _ _ _ _ Hc)).
  - unfold recording_used_bytes. cbn [recordings upload_rows segments with_segments].
    assert (zsum segment_bytes (alter f k (segments s)) ≤ zsum segment_bytes (segments s))%Z; [|lia].
    apply zsum_alter_le. intros g Hg. destruct (Hf g Hg) as (_ & He & Hr). unfold segment_bytes.
    pose proof (segment_size _ _ (rows_sound _ _ _ _ _ Hc) k g Hg).
    destruct (reserved (f g)); [by rewrite Hr, He by done|]. by destruct (reserved g).
Qed.

Lemma zsum_put {K A} `{Countable K} (f : A → Z) k x (m : gmap K A) :
  (zsum f (<[k := x]> m) = f x + zsum f (delete k m))%Z.
Proof using Type. rewrite <- insert_delete_eq. apply zsum_insert, lookup_delete_eq. Qed.

(** A segment whose directory is new. *)
Lemma consistent_segment_reserve d s k g policy :
  consistent d s → upload_directories d !! upload_storage (segment_upload g) = Some ∅ →
  (∀ l, ¬ holds s l (upload_storage (segment_upload g))) → valid_upload_name (upload_storage (segment_upload g)) = true →
  (0 ≤ expected_size_bytes (segment_upload g))%Z →
  (recording_used_bytes None None s + expected_size_bytes (segment_upload g) ≤ quota)%Z →
  consistent d (with_segments (<[k := g]> (segments s)) (with_retention policy s)).
Proof using Type.
  intros Hc Hdir Hfree Hv Hpos Hquota. set (s' := with_segments _ _).
  assert (∀ l name, holds s' l name → l = inr k ∧ name = upload_storage (segment_upload g) ∨ holds s l name) as Hheld.
  { intros [i|i] name; unfold holds; cbn [upload_rows segments s' with_segments with_retention]; [by right|].
    intros (g' & [[<- <-]|[_ ?]]%lookup_insert_Some & ? & <-); [by left|right; by exists g']. }
  split; [split|apply Hc|apply Hc|apply Hc| |apply Hc|apply Hc].
  - apply Hc.
  - apply Hc.
  - intros l l' name [[-> ->]|Hl]%Hheld [[-> Hl']|Hl']%Hheld; [done|by destruct (Hfree l')| |].
    + subst name. by destruct (Hfree l).
    + by eapply (unique_holder _ _ (rows_sound _ _ _ _ _ Hc)).
  - intros l name [[-> ->]|Hl]%Hheld; [done|]. by eapply (valid_holder _ _ (rows_sound _ _ _ _ _ Hc)).
  - apply Hc.
  - cbn. intros i g' [[<- <-]|[_ ?]]%lookup_insert_Some; [done|]. by eapply (segment_size _ _ (rows_sound _ _ _ _ _ Hc)).
  - unfold recording_used_bytes in *. cbn [recordings upload_rows segments s' with_segments with_retention]. rewrite zsum_put.
    assert (zsum segment_bytes (delete k (segments s)) ≤ zsum segment_bytes (segments s))%Z.
    { apply zsum_delete_le. intros i g' Hg'. unfold segment_bytes. destruct (reserved g'); [|done].
      by eapply (segment_size _ _ (rows_sound _ _ _ _ _ Hc)). }
    assert (segment_bytes g ≤ expected_size_bytes (segment_upload g))%Z by (unfold segment_bytes; destruct (reserved g); lia). lia.
  - apply Hc.
  - intros l name [[-> ->]|Hl]%Hheld; [by eexists|]. by eapply held_directory.
Qed.

Lemma consistent_retention d s policy : consistent d s → consistent d (with_retention policy s).
Proof using Type. intros Hc. by apply (consistent_same _ _ _ d s). Qed.
End Rows.

(** ** Creation *)

Section Requests.
Context `{CryptographyLaws} `{KeyDerivation} `{PcmEncoder} (key : bytes) (cfg : recording_settings) (c : recording_cipher) (spools : string → spool).
Abbreviation quota := (recording_quota_bytes cfg).
Abbreviation consistent := (consistent c quota spools).
Abbreviation invariant := (invariant c quota spools).
Abbreviation at_rows := (at_rows c quota spools).
Abbreviation safely p := (∀ m, invariant m → safe invariant (λ _, invariant) p m).

Lemma safe_insert_recording {A} id row (f : commit_result → program A) (Q : result A → host → Prop) m :
  recordings (committed m) !! id = None → rec_status row ≠ Ready → media_of row = no_media → invariant m →
  (∀ r m', invariant m' → safe invariant Q (f r) m') → safe invariant Q (done ← commit (insert_recording id row); f done) m.
Proof using Type.
  intros Hid Hst Hmedia Hm Hf. apply safe_bind, safe_commit; [done| |by intros _; apply Hf|by apply Hf].
  intros s Hs. unfold insert_recording in Hs. rewrite Hid in Hs. destruct (free_call_step _ _); [|done]. injection Hs as <-.
  assert (invariant (with_committed (with_recordings (<[id := row]> (recordings (committed m))) (committed m)) m)) as Hm'
    by by apply consistent_insert.
  split; [done|]. by apply Hf.
Qed.

Lemma create_conversation_recording_safe r device b st calls : safely (create_conversation_recording key r device b st calls).
Proof using Type.
  intros m Hm. unfold create_conversation_recording. apply safe_look_bind; [done|by intros|]. intros s [= <-]. cbn zeta.
  destruct (recordings (committed m) !! conversation_recording b) as [existing|] eqn:Hid.
  - repeat (case_bool_decide; [by apply safe_return|]). destruct (same_conversation _ _); by apply safe_return.
  - apply safe_lift; [done|by intros|]. intros number _. apply safe_insert_recording; [done..|].
    intros [] m' Hm'; by apply safe_return.
Qed.

Lemma create_session_recording_safe r device b p calls : safely (create_session_recording r device b p calls).
Proof using Type.
  intros m Hm. unfold create_session_recording. apply safe_lift; [done|by intros|]. intros checked _.
  apply safe_look_bind; [done|by intros|]. intros s [= <-]. cbn zeta.
  destruct (recordings (committed m) !! audit_recording b) as [existing|] eqn:Hid.
  - case_bool_decide; [by apply safe_return|]. destruct (_ || _); by apply safe_return.
  - apply safe_insert_recording; [done..|]. intros [] m' Hm'; by apply safe_return.
Qed.

(** ** Segments *)

Section Handlers.
Context (api : segment_api).

Lemma owned_recording_ok device id s row : owned_recording api device id s = Ok row →
  recordings s !! id = Some row ∧ source_format (capture_of row) = "legacy_wav".
Proof using Type.
  unfold owned_recording. destruct (recordings s !! id) as [q|]; [|done]. cbn.
  case_bool_decide; [done|]. case_bool_decide; [done|]. case_bool_decide; [done|]. intros [= ->]. done.
Qed.

Lemma create_segment_safe r device id index b calls matches timing capacity :
  (0 ≤ request_expected b)%Z → valid_upload_name (uuid_hex r) = true →
  (∀ s, capacity s = Ok () → (recording_used_bytes None None s + request_expected b ≤ quota)%Z) →
  safely (create_segment cfg api r device id index b calls matches timing capacity).
Proof using Type.
  intros Hb Hv Hcap m Hm. unfold create_segment. apply safe_look_bind; [done|by intros|]. intros s [= <-].
  assert (at_rows (committed m) m) as Hrows by done.
  apply safe_lift; [done|by intros|]. intros row _. case_bool_decide; [by apply safe_return|].
  destruct (matches row); cbn [negb]; [|by apply safe_return]. cbn zeta.
  set (policy := initialize_retention_policy _ _ _). set (k := (id, request_index b)).
  destruct (segments (committed m) !! k) as [existing|] eqn:Hk.
  - destruct (same_segment b existing) eqn:Hsame; cbn [negb]; [|by apply safe_return]. case_bool_decide as Hst; [|by apply safe_return].
    apply safe_lift; [done|by intros|]. intros [] Hquota%Hcap.
    apply safe_bind, (safe_create_directory _ _ _ (committed m)); [done|done|by intros e m' [? _]|].
    intros m1 Hm1 Hdir Hfree. apply safe_bind, (safe_commit_only _ _ _ (committed m)); [done|by intros; apply Hm1|].
    intros s' m2 Hs' Hc Hd. split; [|by intros; apply safe_return]. unfold restart_segment in Hs'.
    destruct (free_segment_name _ _ _); [|done]. injection Hs' as <-. destruct Hm1 as [Hm1 Hs1].
    replace (alter (restarted (uuid_hex r) (now r)) k (segments (committed m)))
      with (<[k := restarted (uuid_hex r) (now r) existing]> (segments (committed m))).
    2:{ apply map_eq. intros i. destruct (decide (k = i)) as [<-|Hne]; [by rewrite lookup_insert_eq, lookup_alter_eq, Hk|].
        by rewrite lookup_insert_ne, lookup_alter_ne. }
    unfold same_segment in Hsame. rewrite !andb_true_iff, !bool_decide_eq_true in Hsame. destruct Hsame as [[_ Hexp] _].
    apply consistent_segment_reserve; cbn; [rewrite <- Hs1; exact Hm1|done|done|done|by rewrite Hexp|by rewrite Hexp].
  - case_bool_decide; cbn [orb]; [by apply safe_return|]. case_bool_decide; [by apply safe_return|].
    case_bool_decide; [by apply safe_return|]. apply safe_lift; [done|by intros|]. intros [] Hchecks.
    assert (recording_used_bytes None None (committed m) + request_expected b ≤ quota)%Z as Hquota.
    { apply Hcap. destruct (call_records calls !! _); [|done]. cbn [of_option mbind result_bind] in Hchecks.
      case_bool_decide; [done|]. destruct (_ || _); [done|]. destruct (timing row) as [[]|]; [|done].
      cbn [mbind result_bind] in Hchecks. by destruct (_ || _). }
    apply safe_bind, (safe_create_directory _ _ _ (committed m)); [done|done|by intros e m' [? _]|].
    intros m1 Hm1 Hdir Hfree. pose proof Hm1 as [Hinv1 Hs1].
    apply safe_bind, safe_commit; [done| | |by apply safe_return].
    + intros s' Hs'. unfold insert_segment in Hs'. rewrite Hs1, Hk in Hs'. destruct (free_segment_name _ _ _); [|done]. injection Hs' as <-.
      set (s' := with_segments _ _). assert (invariant (with_committed s' m1)) as Hm2.
      { apply consistent_segment_reserve; cbn; [rewrite <- Hs1; exact Hinv1|done..]. }
      split; [done|]. by apply safe_return.
    + intros _. apply safe_bind, (safe_rmdir _ _ _ (committed m)); [done|done|]. intros [[]|e] m' [Hm' _]; [by apply safe_return|done].
Qed.

Lemma upload_segment_content_safe r device id index offset content_type declared parts :
  safely (upload_segment_content cfg c api r device id index offset content_type declared parts).
Proof using Type.
  intros m Hm. unfold upload_segment_content. destruct offset as [offset|]; [|by apply safe_return].
  destruct (_ <? _)%Z; [by apply safe_return|]. case_bool_decide; [by apply safe_return|].
  apply safe_look_bind; [done|by intros|]. intros s [= <-]. apply safe_lift; [done|by intros|]. intros row _.
  apply safe_lift; [done|by intros|]. intros g Hg. unfold owned_segment in Hg.
  destruct (segments (committed m) !! (id, index)) as [g'|] eqn:Hk; [|done]. injection Hg as ->.
  destruct (kept_segment g); [by apply safe_return|]. case_bool_decide as Hst; [by apply safe_return|]. cbn zeta.
  apply safe_lift; [done|by intros|]. intros body _.
  apply safe_bind, safe_act; [done| |by intros].
  intros u' d Hd. cbn zeta. apply result_bind_ok in Hd as ([v chunks] & Hst' & Hd). injection Hd as -> <-.
  apply (store_chunk_row cfg c) in Hst' as ([ch Hch] & Hname & Hsize).
  set (m1 := {| on_disk := with_directories (<[upload_storage (segment_upload g) := chunks]> (upload_directories (on_disk m))) (on_disk m);
                committed := committed m |}).
  assert (invariant m1) as Hm1.
  { apply consistent_directory_insert; [done| |].
    - unfold upload_directory in Hch. by destruct (valid_upload_name _).
    - intros i v Hw. eapply (waiting_other _ _ _ _ _ (inr (id, index))); [done| |done|exact Hw].
      exists g. split_and!; [done| |done]. unfold reserved. by rewrite bool_decide_true. }
  split; [done|]. apply safe_bind, (safe_commit_only _ _ _ (committed m)); [done|done|].
  intros s' m2 [= <-] _ _. split; [|by intros; apply safe_return]. destruct (_ <? _)%Z; [done|].
  apply consistent_segment; [done|]. intros g0 Hg0. assert (g0 = g) as -> by congruence. cbn. by rewrite Hname, Hsize.
Qed.

(** ** Directories of their own *)

Lemma safe_temporary_directory {A} s name (body : program A) (P : A → host → Prop) (Q : result A → host → Prop) m :
  (∀ n, name ≠ quarantine_name n) → dotted name → known_entry name PrivateDirectory → at_rows s m →
  (∀ m', at_rows s m' → root (on_disk m') = <[name := PrivateDirectory]> (root (on_disk m)) →
     safe invariant (λ r m'', at_rows s m'' ∧ match r with Ok a => P a (on_root (delete name) m'') | Raise _ => True end) body m') →
  (∀ e m', at_rows s m' → Q (Raise e) m') → (∀ a m', at_rows s m' → P a m' → Q (Ok a) m') →
  safe invariant Q (temporary_directory name body) m.
Proof using Type.
  intros Hq Hd Hk Hm Hbody Hraise Hok. unfold temporary_directory.
  assert (∀ s, unowned name s) as Hun by (intros; by apply unowned_dotted).
  assert (∀ (R : result unit → host → Prop) m', at_rows s m' → (at_rows s (on_root (delete name) m') → R (Ok ()) (on_root (delete name) m')) →
    safe invariant R (act (λ m, Ok ((), with_root (delete name (root (on_disk m))) (on_disk m)))) m') as Hclean.
  { intros R m' [Hm' Hs'] HR. apply safe_act; [done| |done]. intros [] d [= <-].
    assert (at_rows s (on_root (delete name) m')) as H' by (split; [by apply consistent_unlink|done]). split; [apply H'|by apply HR]. }
  apply safe_bind, safe_act; [apply Hm| |by intros; apply Hraise].
  intros [] d Hd'. cbn beta zeta in Hd'. destruct (root (on_disk m) !! name) eqn:Hn; [done|]. injection Hd' as <-. cbn zeta.
  assert (at_rows s (on_root (<[name := PrivateDirectory]>) m)) as Hm1.
  { destruct Hm as [Hm Hs]. split; [by apply consistent_write|done]. }
  split; [apply Hm1|]. apply safe_bind, safe_catch. eapply (safe_mono invariant invariant); [done| |apply (Hbody _ Hm1); done].
  intros [a|e] m' Hm' [Hat HP].
  - apply safe_bind, Hclean; [done|]. intros Hat'. apply safe_return; [apply Hat'|by apply Hok].
  - apply safe_bind, Hclean; [done|]. intros Hat'. apply safe_return; [apply Hat'|by apply Hraise].
Qed.

Lemma safe_inspect s r id index g (Q : result WavDetails → host → Prop) m :
  at_rows s m → (∀ x m', at_rows s m' → Q x m') → safe invariant Q (inspect_segment c r id index g) m.
Proof using Type.
  intros Hm HQ. unfold inspect_segment. apply (safe_temporary_directory s _ _ (λ _ _, True)); [done|apply dotted_app| |done| |intros; by apply HQ..].
  - right. right. apply has_prefix_app.
  - intros m' Hm' _. apply safe_look; [apply Hm'|]. split; [done|]. by destruct (mbind _ _).
Qed.

Lemma complete_segment_safe r device id index rejected :
  (∀ s g e m, segments s !! (id, index) = Some g → reserved g = true → at_rows s m →
     safe invariant (λ x m', invariant m' ∧ is_ok x = false) (rejected g e) m) →
  safely (complete_segment c api r device id index rejected).
Proof using Type.
  intros Hrej m Hm. unfold complete_segment. apply safe_look_bind; [done|by intros|]. intros s [= <-]. cbn zeta.
  assert (at_rows (committed m) m) as Hrows by done.
  apply safe_lift; [done|by intros|]. intros row _. apply safe_lift; [done|by intros|]. intros g Hg. unfold owned_segment in Hg.
  destruct (segments (committed m) !! (id, index)) as [g'|] eqn:Hk; [|done]. injection Hg as ->.
  destruct (kept_segment g); [by apply safe_return|]. case_bool_decide as Hst; [by apply safe_return|].
  assert (reserved g = true) as Hres by (unfold reserved; by rewrite bool_decide_true).
  apply safe_bind, safe_catch, (safe_inspect (committed m)); [done|]. intros [details|e] m1 Hm1.
  - apply safe_bind, (safe_commit_only _ _ _ (committed m)); [done|by intros; apply Hm1|].
    intros s' m2 [= <-] _ _. split; [|by intros; apply safe_return]. destruct Hm1 as [Hm1 Hs1].
    apply consistent_segment; [rewrite <- Hs1; exact Hm1|]. intros g0 Hg0. assert (g0 = g) as -> by congruence. done.
  - eapply (safe_mono invariant invariant); [done| |by eapply Hrej]. intros [a|e'] m2 Hm2 [_ Hx]; [done|exact Hm2].
Qed.
End Handlers.

Lemma complete_conversation_segment_safe r device id index : safely (complete_conversation_segment c r device id index).
Proof using Type. apply complete_segment_safe. intros s g e m _ _ [Hm _]. by apply safe_return. Qed.

Lemma complete_session_segment_safe r device id index : safely (complete_session_segment c r device id index).
Proof using Type.
  apply complete_segment_safe. intros s g e m Hk Hres Hm. pose proof Hm as [Hinv Hs].
  unfold reject_segment. destruct e; try by apply safe_return. case_bool_decide; [|by apply safe_return].
  apply safe_bind, (safe_commit_only _ _ _ s); [done|done|]. intros s' m' [= <-] Hc Hd.
  split.
  - apply consistent_segment; [rewrite <- Hs; exact Hinv|]. intros g0 Hg0. assert (g0 = g) as -> by congruence. done.
  - intros Hm'. apply safe_bind, (safe_remove_upload _ _ _ (committed m')); [rewrite Hc|done|].
    + intros k Hh. assert (holds s (inr (id, index)) (upload_storage (segment_upload g))) as Hg by by exists g.
      assert (holds s k (upload_storage (segment_upload g)) ∧ k ≠ inr (id, index)) as [Hk' Hne].
      { destruct k as [i|k]; [done|]. destruct Hh as (g' & Hg' & Hr' & Hn). cbn in Hg'.
        destruct (decide ((id, index) = k)) as [<-|Hne]; [rewrite lookup_alter_eq, Hk in Hg'; by injection Hg' as <-|].
        rewrite lookup_alter_ne in Hg' by done. split; [by exists g'|congruence]. }
      apply Hne. rewrite <- Hs in Hk', Hg. by apply (unique_holder _ _ (rows_sound _ _ _ _ _ Hinv) _ _ _ Hk' Hg).
    + intros [[]|e'] m'' [Hm'' _]; [by apply safe_return|done].
Qed.

(** ** Assembly *)

Lemma elem_of_recording_segments id s index g : (index, g) ∈ recording_segments id s ↔ segments s !! (id, index) = Some g.
Proof using Type.
  unfold recording_segments. rewrite merge_sort_Permutation, list_elem_of_omap. split.
  - intros ([[i j] g'] & Hin%elem_of_map_to_list & Ho). case_bool_decide; [|done]. injection Ho as <- <-. by subst i.
  - intros Hk. exists ((id, index), g). split; [by apply elem_of_map_to_list|]. by rewrite bool_decide_true.
Qed.

Lemma zsum_filter_le {K A} `{Countable K} (f : A → Z) (P : K * A → Prop) `{∀ x, Decision (P x)} (m : gmap K A) :
  (∀ k x, m !! k = Some x → ¬ P (k, x) → (f x ≤ 0)%Z) → (zsum f m ≤ zsum f (filter P m))%Z.
Proof using Type.
  induction m as [|k x m Hk IH] using map_ind; intros Hm; [by rewrite map_filter_empty|].
  assert (zsum f m ≤ zsum f (filter P m))%Z.
  { apply IH. intros i y Hi. apply Hm. by rewrite lookup_insert_ne by congruence. }
  rewrite zsum_insert by done. destruct (decide (P (k, x))) as [HP|HP].
  - rewrite map_filter_insert_True by done. rewrite zsum_insert; [lia|]. apply map_lookup_filter_None. by left.
  - rewrite map_filter_insert_False by done. rewrite delete_id by done.
    pose proof (Hm k x (lookup_insert_eq _ _ _) HP). lia.
Qed.

Definition keyed (id : string) (segs : list (Z * segment_row)) : list ((string * Z) * segment_row) := (λ g, ((id, g.1), g.2)) <$> segs.
Definition assembled_segments (id : string) (segs : list (Z * segment_row)) (t : datetime) (m : gmap (string * Z) segment_row) :=
  foldr (λ g rows, alter (with_segment_status Assembled t) (id, g.1) rows) m segs.
Lemma assembled_segments_all id segs t m :
  assembled_segments id segs t m = alter_all (with_segment_status Assembled t) m (keyed id segs).
Proof using Type. unfold assembled_segments, alter_all, keyed. induction segs as [|g segs IH]; [done|]. cbn [foldr fmap list_fmap fst]. by rewrite IH. Qed.
Lemma in_assembled id segs k : k ∈ (keyed id segs).*1 ↔ k.1 = id ∧ k.2 ∈ segs.*1.
Proof using Type.
  unfold keyed. rewrite <- list_fmap_compose. destruct k as [i index]. rewrite !list_elem_of_fmap. cbn. split.
  - intros (g & [= -> ->] & Hin). split; [done|]. by exists g.
  - intros (-> & g & -> & Hin). by exists g.
Qed.

Lemma consistent_assembled_segments d s id segs t :
  consistent d s → consistent d (with_segments (assembled_segments id segs t (segments s)) s).
Proof using Type.
  intros Hc. induction segs as [|g segs IH]; [by apply (consistent_same _ _ _ d s)|].
  exact (consistent_segment _ _ _ d _ (id, g.1) (with_segment_status Assembled t) IH ltac:(done)).
Qed.
Lemma assembled_used s id segs t :
  segs = recording_segments id s →
  (recording_used_bytes None None (with_segments (assembled_segments id segs t (segments s)) s) ≤ recording_used_bytes None (Some id) s)%Z.
Proof using Type.
  intros Hsegs. unfold recording_used_bytes. cbn [recordings upload_rows segments with_segments].
  set (m := assembled_segments id segs t (segments s)).
  assert (filter (λ '((i, _), _), i ≠ id) m = filter (λ '((i, _), _), i ≠ id) (segments s)) as Hfilter.
  { apply map_filter_strong_ext_1. intros [i index] g. subst m. rewrite assembled_segments_all.
    assert (i ≠ id → (i, index) ∉ (keyed id segs).*1) as Hnot by (intros Hne; rewrite in_assembled; by intros [? _]).
    split; intros [Hne Hk]; (split; [done|]); specialize (Hnot Hne).
    - apply alter_all_some in Hk as (g' & Hg' & [[_ ->]|[? _]]); done.
    - destruct (alter_all (with_segment_status Assembled t) (segments s) (keyed id segs) !! (i, index)) as [g'|] eqn:Hg';
        [|by rewrite alter_all_none, Hk in Hg'].
      apply alter_all_some in Hg' as (g'' & Hg'' & [[_ ->]|[? _]]); [|done]. congruence. }
  pose proof (zsum_filter_le segment_bytes (λ '((i, _), _), i ≠ id) m) as Hle. rewrite Hfilter in Hle.
  assert (zsum segment_bytes m ≤ zsum segment_bytes (filter (λ '((i, _), _), i ≠ id) (segments s)))%Z; [|lia].
  apply Hle. intros [i index] g Hk Hn. apply dec_stable in Hn as ->. subst m. rewrite assembled_segments_all in Hk.
  apply alter_all_some in Hk as (g' & Hg' & [[Hnot ->]|[_ [y ->]]]); [|done]. exfalso. apply Hnot, in_assembled. split; [done|].
  apply list_elem_of_fmap. exists (index, g'). split; [done|]. subst segs. by apply elem_of_recording_segments.
Qed.

Lemma placed_other id name mc used n m :
  placed cfg c id name mc used m → n ≠ name → n ≠ quarantine_name name → placed cfg c id name mc used (on_root (delete n) m).
Proof using Type.
  intros (payload & Hf & Hq & Hrest) Hn Hn'. exists payload. cbn. rewrite !lookup_delete_ne by done. done.
Qed.

Lemma encrypted_length n id media encrypted : length n = 12 → encrypt_media n c id media = Ok encrypted →
  (Z.of_nat (length encrypted) ≤ Z.of_nat (length media) + Z.of_nat (length MEDIA_MAGIC) + 4 + 12 + 16)%Z.
Proof using Type*.
  intros Hn (k & version & _ & Hv & _ & ->)%seal_with_ok. rewrite !length_app, aes_gcm_length, Hv, Hn. lia.
Qed.
Lemma safe_finally_raise {A} s u e (Q : result A → host → Prop) m :
  at_rows s m → (∀ m', at_rows s m' → Q (Raise e) m') →
  safe invariant Q (_ ← act (λ m, Ok ((), unlink (".media-" +:+ u) (on_disk m))); Return (Raise e)) m.
Proof using Type.
  intros Hm HQ. apply safe_bind, (safe_remove_temporary cfg c spools s); [done|]. intros Hm'. split; [apply Hm'|by apply HQ].
Qed.

Lemma safe_assemble s r id row segs policy abandoned (Q : result (string * recording_row) → host → Prop) m :
  at_rows s m → valid_upload_name (uuid_hex r) = true → length (nonce r 0) = 12 → fresh_media (uuid_hex r) m →
  (∀ e m', at_rows s m' → Q (Raise e) m') →
  (∀ row' m', check_segments abandoned segs = Ok () → at_rows s m' →
     placed cfg c id (uuid_hex r +:+ ".rec") (media_of row') (recording_used_bytes None (Some id) s) m' →
     rec_status row' = Ready → Q (Ok (uuid_hex r +:+ ".rec", row')) m') →
  safe invariant Q (assemble_conversation_recording cfg c r id row segs policy abandoned) m.
Proof using Type*.
  intros Hm Hv Hn (_ & Hquar & Hfree) Hraise Hok. pose proof Hm as [Hinv Hs]. rewrite Hs in Hfree.
  pose proof (valid_new_media_name _ Hv) as Hvn.
  unfold assemble_conversation_recording. apply safe_lift; [done|intros; by apply Hraise|]. intros [] Hcheck.
  set (name := uuid_hex r +:+ ".rec") in *.
  apply (safe_temporary_directory s _ _ (λ p m', p.1 = name ∧
    placed cfg c id name (media_of p.2) (recording_used_bytes None (Some id) s) m' ∧ rec_status p.2 = Ready));
    [done|apply dotted_app| |done| |done|].
  2:{ intros m1 Hm1 Hroot. assert (root (on_disk m1) !! quarantine_name name = None) as Hquar1 by (rewrite Hroot; by rewrite lookup_insert_ne).
    assert (at_rows s m1 ∧ True) as Hfail by done.
    apply safe_look_bind; [apply Hm1|done|]. intros [[previous total] pcm] _.
    apply safe_lift; [apply Hm1|done|]. intros encoded _.
    apply safe_look_bind; [apply Hm1|done|]. intros [] Hquota.
    assert (recording_used_bytes None (Some id) s + (Z.of_nat (length encoded) + Z.of_nat (length MEDIA_MAGIC) + 4 + 12 + 16) ≤ quota)%Z as Hq.
    { destruct Hm1 as [_ Hs1]. rewrite Hs1 in Hquota. destruct (union policy _); [|done]. cbn [of_option mbind result_bind] in Hquota.
      revert Hquota. by destruct (Z.ltb_spec quota (recording_used_bytes None (Some id) s +
        (Z.of_nat (length encoded) + Z.of_nat (length MEDIA_MAGIC) + 4 + 12 + 16))). }
    cbn zeta. apply safe_bind, safe_act; [apply Hm1| |done]. intros [] d [= <-]. cbn zeta.
    pose proof (temporary_written cfg c spools s (uuid_hex r) [] m1 Hm1) as Hm2. split; [apply Hm2|].
    apply safe_bind, safe_catch.
    apply safe_lift; [apply Hm2|intros e _; by apply (safe_finally_raise s)|]. intros encrypted Henc.
    assert (Z.of_nat (length encrypted) ≤ Z.of_nat (length encoded) + Z.of_nat (length MEDIA_MAGIC) + 4 + 12 + 16)%Z as Hsize
      by by eapply encrypted_length.
    apply safe_bind, safe_act; [apply Hm2| |done]. intros [] d [= <-]. cbn zeta.
    pose proof (temporary_written cfg c spools s (uuid_hex r) encrypted _ Hm2) as Hm3. split; [apply Hm3|].
    apply safe_bind, (safe_move cfg c spools s _ encrypted); [done|done|exact Hm3|by cbn; rewrite lookup_insert_eq| |].
    { intros e. by apply (safe_finally_raise s). }
    intros Hm4. apply safe_return; [apply Hm4|]. apply safe_bind, (safe_remove_temporary cfg c spools s); [exact Hm4|]. intros Hm5.
    split; [apply Hm5|]. split; [exact Hm5|]. split; [done|]. split; [|done].
    apply placed_other; [|by intros Heq; rewrite <- Heq in Hvn; apply valid_not_dotted in Hvn; apply Hvn, dotted_app|done].
    apply (placed_sealed cfg c id (uuid_hex r) _ (nonce r 0) encoded encrypted); [done..| |lia|done].
    cbn. by rewrite !lookup_insert_ne by done. }
  - right. left. apply has_prefix_app.
  - intros [n row'] m' Hm' (Heq & Hp & Hst); cbn in Heq; subst n. by apply Hok.
Qed.

Lemma consistent_assembled m s s' id row row' segs t :
  at_rows s m → placed cfg c id (default "" (media_storage_name (media_of row'))) (media_of row') (recording_used_bytes None (Some id) s) m →
  segs = recording_segments id s → recordings s !! id = Some row → rec_status row ≠ Ready → continuous s !! id = None →
  rec_status row' = Ready → valid_media_name (default "" (media_storage_name (media_of row'))) = true →
  assembled id row' segs t s = Some s' → consistent (on_disk m) s'.
Proof using Type.
  intros [Hm Hs] (payload & Hf & Hq & Hn & Hsize & Hplay & Hquota) Hsegs Hid Hst Hcont Hst' Hv Ha.
  unfold invariant, StorageInvariant.invariant in Hm. rewrite Hs in Hm. unfold assembled in Ha. rewrite Hn in Ha. rewrite Hn in Hf, Hq, Hv. cbn in *.
  destruct (media_storage_name (media_of row')) as [name|] eqn:Hname; [|done]. cbn in *.
  destruct (free_media_name id name s) eqn:Hfree; [|done]. injection Ha as <-. apply bool_decide_eq_true in Hfree.
  pose proof (consistent_assembled_segments (on_disk m) s id segs t Hm) as Hm1. pose proof (assembled_used s id segs t Hsegs) as Hused.
  set (s1 := with_segments (assembled_segments id segs t (segments s)) s) in *.
  apply (consistent_ready _ _ _ _ s1 _ id row (λ _, row') name payload); [exact Hm1|done|done|auto|done|auto|auto| | |done|done|by left|by apply Hplay|].
  - apply (sound_receipts_change s1); [apply Hm1|done|]. intros i x q Hx Hi. assert (id ≠ i) by (cbn in Hx; congruence).
    cbn. rewrite lookup_alter_ne by done. split; [done|]. exists q. auto.
  - intros i q Hne Hi. by apply (map_Forall_lookup_1 _ _ _ _ Hfree Hi).
  - unfold recording_used_bytes in *. cbn [recordings upload_rows segments with_segments with_recordings s1] in *.
    rewrite (zsum_alter _ _ _ row) by done.
    assert (ready_bytes row = 0%Z) as -> by (unfold ready_bytes; by rewrite decide_False by done).
    assert (ready_bytes row' = Z.of_nat (length payload)) as -> by (unfold ready_bytes; by rewrite decide_True, Hsize by done).
    unfold assembled_segments in *. lia.
Qed.

(** Nobody holds the directory of a segment that was assembled. *)
Lemma assembled_free s s' id row' segs t index g k :
  sound_rows quota s → segs = recording_segments id s → assembled id row' segs t s = Some s' →
  (index, g) ∈ segs → reserved g = true → ¬ holds s' k (upload_storage (segment_upload g)).
Proof using Type.
  intros Hs Hsegs Ha Hin Hres Hk. unfold assembled in Ha. case_match; [|done]. injection Ha as <-.
  assert (segments s !! (id, index) = Some g) as Hg by (apply elem_of_recording_segments; by subst segs).
  assert (holds s (inr (id, index)) (upload_storage (segment_upload g))) as Hh by by exists g.
  assert (holds s k (upload_storage (segment_upload g)) ∧ k ≠ inr (id, index)) as [Hk' Hne].
  { destruct k as [i|k]; [done|]. destruct Hk as (g' & Hg' & Hr' & Hn). cbn in Hg'.
    fold (assembled_segments id segs t (segments s)) in Hg'. rewrite assembled_segments_all in Hg'.
    apply alter_all_some in Hg' as (g'' & Hg'' & [[Hnot ->]|[_ [y ->]]]); [|done]. split; [by exists g''|].
    intros [= ->]. apply Hnot, in_assembled. split; [done|]. apply list_elem_of_fmap. by exists (index, g). }
  apply Hne. by apply (unique_holder _ _ Hs _ _ _ Hk' Hh).
Qed.
Lemma check_segments_verified abandoned segs index g :
  check_segments abandoned segs = Ok () → (index, g) ∈ segs → reserved g = true.
Proof using Type.
  unfold check_segments. destruct (last segs) as [[i final]|]; [|done]. destruct (negb (contiguous segs)); [done|].
  destruct (existsb _ segs) eqn:He; [done|]. intros _ Hin. unfold reserved.
  destruct (decide (seg_status g = Verified)) as [->|Hne]; [by rewrite orb_true_r|]. exfalso.
  assert (existsb (λ g : Z * segment_row, bool_decide (seg_status g.2 ≠ Verified)) segs = true); [|congruence].
  apply existsb_exists. exists (index, g). split; [by apply list_elem_of_In|by apply bool_decide_true].
Qed.

Section Completion.
Context (api : segment_api) (r : request).

Lemma safe_forget s (Q : result unit → host → Prop) m :
  at_rows s m → valid_upload_name (uuid_hex r) = true →
  (∀ id r', recordings s !! id = Some r' → media_storage_name (media_of r') ≠ Some (uuid_hex r +:+ ".rec")) →
  (∀ m', invariant m' → Q (Ok ()) m') → safe invariant Q (act (λ m, Ok ((), unlink (uuid_hex r +:+ ".rec") (on_disk m)))) m.
Proof using Type.
  intros [Hm Hs] Hv Hfree HQ. apply safe_act; [done| |done]. intros [] d [= <-].
  assert (invariant {| on_disk := unlink (uuid_hex r +:+ ".rec") (on_disk m); committed := committed m |}) as Hm'; [|by split; [|apply HQ]].
  apply consistent_unlink; [done|]. rewrite Hs. by apply unowned_fresh.
Qed.

Lemma complete_segmented_safe device id count policy report announce m :
  valid_upload_name (uuid_hex r) = true → length (nonce r 0) = 12 → fresh_media (uuid_hex r) m → invariant m →
  safe invariant (λ _, invariant) (complete_segmented cfg c api r device id count policy report announce) m.
Proof using Type*.
  intros Hv Hn Hfresh Hm. unfold complete_segmented. apply safe_look_bind; [done|by intros|]. intros s [= <-].
  assert (at_rows (committed m) m) as Hrows by done.
  apply safe_lift; [done|by intros|]. intros row Hrow. apply owned_recording_ok in Hrow as (Hid & Hlegacy).
  apply (legacy_not_continuous _ _ _ _ _ _ _ Hm Hid) in Hlegacy.
  case_bool_decide as Hready; cbn [orb]; [by apply safe_return|]. case_bool_decide; [by apply safe_return|].
  case_bool_decide; [by apply safe_return|]. cbn zeta. set (segs := recording_segments id (committed m)).
  case_bool_decide; [by apply safe_return|]. apply safe_lift; [done|by intros|]. intros [] _.
  apply safe_bind, (safe_assemble (committed m)); [done..|by intros e m' [? _]|].
  intros row' m1 Hcheck Hm1 Hplaced Hst'. cbn [fst snd]. set (name := uuid_hex r +:+ ".rec") in *.
  assert (media_storage_name (media_of row') = Some name) as Hname by by destruct Hplaced as (? & _ & _ & ? & _).
  apply safe_lift; [apply Hm1|intros; apply Hm1|]. intros _ _.
  apply safe_bind, (safe_commit_or _ _ _ (committed m)); [done| |].
  - intros s' m2 Hs' Hc Hd. set (s1 := match policy (committed m) with Some p => with_retention p (committed m) | None => committed m end) in *.
    assert (at_rows (committed m) m1 → consistent (on_disk m1) s1) as Hcons.
    { intros [Hi Heq]. unfold invariant, StorageInvariant.invariant in Hi. rewrite Heq in Hi. subst s1.
      destruct (policy (committed m)); [by apply consistent_retention|done]. }
    assert (recordings s1 = recordings (committed m) ∧ continuous s1 = continuous (committed m) ∧
      recording_segments id s1 = segs ∧ recording_used_bytes None (Some id) s1 = recording_used_bytes None (Some id) (committed m))
      as (Hr1 & Hc1 & Hseg1 & Hused1) by (subst s1; by destruct (policy (committed m))).
    assert (consistent (on_disk m1) s') as Hm2.
    { apply (consistent_assembled {| on_disk := on_disk m1; committed := s1 |} s1 s' id row row' segs (now r)); [by split; [apply Hcons|]| |done|congruence|done|congruence|done| |done].
      - by rewrite Hname, Hused1.
      - rewrite Hname. by apply valid_new_media_name. }
    assert (at_rows s' m2) as Hm2' by (split; [unfold invariant, StorageInvariant.invariant; by rewrite Hc, Hd|done]).
    split; [apply Hm2'|]. apply safe_bind, (safe_loop _ _ _ s'); [done| |].
    + intros [[]|e] m3 [Hm3 _]; [by apply safe_return|done].
    + intros [index g] m3 R Hin Hm3 HR. apply (safe_remove_upload _ _ _ s'); [|done|done]. intros k.
      apply (assembled_free s1 s' id row' segs (now r) index g k);
        [apply (rows_sound _ _ _ _ _ (Hcons Hm1))|done|done|done|by eapply check_segments_verified].
  - intros e. apply (safe_forget (committed m)); [done|done|apply Hfresh|done].
Qed.
End Completion.

Lemma create_conversation_segment_safe r device id index revision block b calls :
  conversation_segment_fields revision block index b = true → valid_upload_name (uuid_hex r) = true →
  safely (create_conversation_segment cfg r device id index revision block b calls).
Proof using Type.
  intros Hb Hv. apply create_segment_safe; [|done|].
  - unfold conversation_segment_fields in Hb. rewrite !andb_true_iff in Hb. unfold in_range in Hb. rewrite !bool_decide_eq_true in Hb. lia.
  - intros s. unfold require_capacity. by destruct (Z.ltb_spec quota (recording_used_bytes None None s + request_expected b)).
Qed.
Lemma create_session_segment_safe r device id index policy free b calls :
  (0 ≤ audit_recording_reserve_bytes cfg)%Z → audit_segment_fields policy b = true → valid_upload_name (uuid_hex r) = true →
  safely (create_session_segment cfg r device id index policy free b calls).
Proof using Type.
  intros Hreserve Hb Hv. apply create_segment_safe; [|done|].
  - unfold audit_segment_fields in Hb. rewrite !andb_true_iff in Hb. unfold in_range in Hb. rewrite !bool_decide_eq_true in Hb. lia.
  - intros s. unfold require_audit_capacity.
    destruct (Z.ltb_spec quota (recording_used_bytes None None s + request_expected b + audit_recording_reserve_bytes cfg));
      [by rewrite orb_true_r|lia].
Qed.

(** ** Recovery *)

Lemma recover_partial_safe r id b calls m :
  valid_upload_name (uuid_hex r) = true → length (nonce r 0) = 12 → fresh_media (uuid_hex r) m → invariant m →
  safe invariant (λ _, invariant) (recover_partial cfg c r id b calls) m.
Proof using Type*.
  intros Hv Hn Hfresh Hm. unfold recover_partial. destruct (source_confirmed_absent b); cbn [negb]; [|by apply safe_return].
  apply safe_look_bind; [done|by intros|]. intros s [= <-]. assert (at_rows (committed m) m) as Hrows by done.
  apply safe_lift; [done|by intros|]. intros row Hid%of_option_ok. apply safe_lift; [done|by intros|]. intros [] Hlegacy.
  assert (source_format (capture_of row) = "legacy_wav") as Hformat.
  { destruct (call_records calls !! _); [|done]. cbn [of_option mbind result_bind] in Hlegacy. case_bool_decide; [done|].
    by case_bool_decide. }
  apply (legacy_not_continuous _ _ _ _ _ _ _ Hm Hid) in Hformat. clear Hlegacy.
  destruct (_ && _); [by apply safe_return|]. case_bool_decide as Hst; [by apply safe_return|]. cbn zeta.
  set (segs := recording_segments id (committed m)). set (policy := initialize_retention_policy _ _ _).
  destruct (existsb _ segs); [by apply safe_return|]. case_bool_decide; [by apply safe_return|].
  destruct (match last segs with Some (_, final) => _ | None => false end); [by apply safe_return|].
  destruct segs as [|g l] eqn:Hsegs.
  - apply safe_bind, (safe_commit_only _ _ _ (committed m)); [done|done|]. intros s' m' [= <-] _ _.
    split; [|by intros; apply safe_return].
    apply (consistent_same _ _ _ (on_disk m) (with_recordings (alter (λ _, abandoned_row (now r) row) id (recordings (committed m))) (committed m)));
      [|done..].
    apply consistent_alter; [done| |by left]. intros q Hq. assert (q = row) as -> by congruence. left. split; [done|].
    cbn. rewrite Hst. done.
  - rewrite <- Hsegs. apply safe_bind, (safe_assemble (committed m)); [done..|by intros e m' [? _]|].
    intros row' m1 _ Hm1 Hplaced Hst'. cbn [fst snd]. set (name := uuid_hex r +:+ ".rec") in *.
    assert (media_storage_name (media_of row') = Some name) as Hname by by destruct Hplaced as (? & _ & _ & ? & _).
    apply safe_bind, (safe_commit_or _ _ _ (committed m)); [done| |].
    + intros s' m2 Hs' Hc Hd. cbn beta in Hs'. rewrite fmap_Some in Hs'. destruct Hs' as (s2 & Ha & ->).
      assert (consistent (on_disk m1) s2) as Hm2.
      { apply (consistent_assembled {| on_disk := on_disk m1; committed := with_retention policy (committed m) |}
          (with_retention policy (committed m)) s2 id row row' segs (now r)); [split; [|done]|by rewrite Hname|done|done|by rewrite Hst|done|done| |done].
        - apply consistent_retention. destruct Hm1 as [Hm1 <-]. exact Hm1.
        - rewrite Hname. by apply valid_new_media_name. }
      assert (invariant m2) as Hm2' by (unfold invariant, StorageInvariant.invariant; rewrite Hc, Hd; by apply (consistent_same _ _ _ _ s2)).
      split; [done|by apply safe_return].
    + intros e. apply (safe_forget r (committed m)); [done|done|apply Hfresh|done].
Qed.

(** ** The requests *)

(** What one request of a segmented recording leaves behind. *)
Inductive segments_step : host → host → Prop :=
| step_conversation r device b st calls m m' :
    leaves (create_conversation_recording key r device b st calls) m m' → segments_step m m'
| step_session r device b p calls m m' : leaves (create_session_recording r device b p calls) m m' → segments_step m m'
| step_conversation_segment r device id index revision block b calls m m' :
    conversation_segment_fields revision block index b = true → valid_upload_name (uuid_hex r) = true →
    leaves (create_conversation_segment cfg r device id index revision block b calls) m m' → segments_step m m'
| step_session_segment r device id index policy free b calls m m' :
    audit_segment_fields policy b = true → valid_upload_name (uuid_hex r) = true →
    leaves (create_session_segment cfg r device id index policy free b calls) m m' → segments_step m m'
| step_segment_content r device id index offset content_type declared parts m m' :
    leaves (upload_conversation_segment_content cfg c r device id index offset content_type declared parts) m m' → segments_step m m'
| step_session_content r device id index offset content_type declared parts m m' :
    leaves (upload_session_segment_content cfg c r device id index offset content_type declared parts) m m' → segments_step m m'
| step_segment_complete r device id index m m' :
    leaves (complete_conversation_segment c r device id index) m m' → segments_step m m'
| step_session_segment_complete r device id index m m' :
    leaves (complete_session_segment c r device id index) m m' → segments_step m m'
| step_conversation_complete r device id count calls m m' :
    valid_upload_name (uuid_hex r) = true → length (nonce r 0) = 12 → fresh_media (uuid_hex r) m →
    leaves (complete_conversation_recording cfg c key r device id count calls) m m' → segments_step m m'
| step_session_complete r device id count free m m' :
    valid_upload_name (uuid_hex r) = true → length (nonce r 0) = 12 → fresh_media (uuid_hex r) m →
    leaves (complete_session_recording cfg c r device id count free) m m' → segments_step m m'
| step_recover r id b calls m m' :
    valid_upload_name (uuid_hex r) = true → length (nonce r 0) = 12 → fresh_media (uuid_hex r) m →
    leaves (recover_partial cfg c r id b calls) m m' → segments_step m m'.

Lemma segments_step_invariant m m' :
  (0 ≤ audit_recording_reserve_bytes cfg)%Z → segments_step m m' → invariant m → invariant m'.
Proof using Type*.
  intros Hreserve Hstep Hm. destruct Hstep; (eapply safe_leaves; [|done]).
  - by apply create_conversation_recording_safe.
  - by apply create_session_recording_safe.
  - by apply create_conversation_segment_safe.
  - by apply create_session_segment_safe.
  - by apply upload_segment_content_safe.
  - by apply upload_segment_content_safe.
  - by apply complete_conversation_segment_safe.
  - by apply complete_session_segment_safe.
  - by apply complete_segmented_safe.
  - by apply complete_segmented_safe.
  - by apply recover_partial_safe.
Qed.
End Requests.
