(* ===== verification/ContinuousInvariant.v ===== *)
(** * The invariant through continuous recordings and their worker *)
From Stdlib Require Import Ascii.
From stdpp Require Import base gmap sets strings numbers pretty list.
From S2P Require Import Prelude FlowTree Schemas Json Crypto Documents Store Drafts Revisions V4Api Diff Devices Policies Calls Recordings RecordingsFacts RecordingsCorrect Wave Script Storage StorageFacts StorageInvariant StorageCorrect Voicemail VoicemailInvariant Segments SegmentsInvariant Continuous.

(** ** What a tablet knows *)

Definition with_told (n : nat) (p : spool) : spool := {| audio := audio p; chunk_bytes := chunk_bytes p; told := n |}.
(** A tablet is told that the server holds [n] bytes, *)
Definition tell (id : string) (n : Z) (spools : string → spool) (i : string) : spool :=
  if decide (i = id) then with_told (Nat.max (Z.to_nat n) (told (spools i))) (spools i) else spools i.
(** or asks it to start again. *)
Definition forget (id : string) (spools : string → spool) (i : string) : spool :=
  if decide (i = id) then with_told 0 (spools i) else spools i.

Section Rows.
Context `{Cryptography} `{KeyDerivation} (c : recording_cipher) (quota : Z).

Section Spools.
Context (spools : string → spool).

Lemma received_offset id u chunks content : received c spools id u chunks content → upload_offset u = Z.of_nat (length content).
Proof using Type. intros Hr. by rewrite (inv_row _ _ _ _ _ _ _ _ _ Hr). Qed.

Lemma tiled_audio id d expected whole n l :
  (0 ≤ n)%Z → (∀ m payload, (0 ≤ m)%Z → d !! chunk_name m = Some payload → chunk_invariant c id (piece spools id) expected whole m payload) →
  tiled c id d n l → l `prefix_of` drop (Z.to_nat n) (audio (spools id)).
Proof using Type.
  intros Hn Hchunks Ht. induction Ht as [n|n p l payload Hp Hlook Hdec Ht IH]; [apply prefix_nil|].
  destruct (Hchunks n payload Hn Hlook) as (q & Hq & _ & Hpiece & _). rewrite Hdec in Hq. injection Hq as <-.
  specialize (IH ltac:(lia)). rewrite Z2Nat.inj_add, Nat2Z.id in IH by lia. destruct Hpiece as [[rest Hrest] _]. rewrite Hrest. apply prefix_app.
  by rewrite <- drop_drop, Hrest, drop_app_length in IH.
Qed.
(** The directory of an upload holds the beginning of the tablet's audio. *)
Lemma received_prefix id u chunks content : received c spools id u chunks content → content `prefix_of` audio (spools id).
Proof using Type. intros [_ _ Ht Hchunks]. by apply (tiled_audio id chunks (expected_size_bytes u) content 0). Qed.

Lemma consistent_less spools' d s :
  (∀ id, audio (spools' id) = audio (spools id) ∧ chunk_bytes (spools' id) = chunk_bytes (spools id) ∧ told (spools' id) ≤ told (spools id)) →
  consistent c quota spools d s → consistent c quota spools' d s.
Proof using Type.
  intros Hless [Hs Hk Hd Hr Hh Hw Ht]. split; try done.
  - intros id u Hu. destruct (Hw id u Hu) as (chunks & content & Hch & Hc & Hle). exists chunks, content.
    destruct (Hless id) as (Ha & Hb & Hle'). unfold received, piece in *. rewrite Ha, Hb. split_and!; [done..|lia].
  - intros id Hid. apply Ht. destruct (Hless id) as (_ & _ & ?). lia.
Qed.
Lemma consistent_tell d s id n :
  consistent c quota spools d s → is_Some (continuous s !! id) → (∀ u, waiting s id u → n ≤ upload_offset u)%Z →
  consistent c quota (tell id n spools) d s.
Proof using Type.
  intros [Hs Hk Hd Hr Hh Hw Ht] Hid Hn.
  assert (∀ i, audio (tell id n spools i) = audio (spools i)) as Ha by (intros i; unfold tell; by case_decide).
  assert (∀ i, chunk_bytes (tell id n spools i) = chunk_bytes (spools i)) as Hb by (intros i; unfold tell; by case_decide).
  split; try done.
  - intros i u Hu. destruct (Hw i u Hu) as (chunks & content & Hch & Hc & Hle). exists chunks, content.
    unfold received, piece in *. rewrite Ha, Hb. split_and!; [done..|]. unfold tell. case_decide; [|done]. subst i. cbn.
    apply received_offset in Hc. specialize (Hn u Hu). lia.
  - intros i Hi. unfold tell in Hi. case_decide; [by subst i|by apply Ht].
Qed.
Lemma forget_less id d s : consistent c quota spools d s → consistent c quota (forget id spools) d s.
Proof using Type.
  apply consistent_less. intros i. unfold forget. case_decide; [|done]. cbn. split_and!; [done..|lia].
Qed.

(** ** Changes of a receipt *)

Abbreviation consistent := (consistent c quota spools).

Lemma consistent_update d s id f g :
  consistent d s → is_Some (continuous s !! id) →
  (∀ r x, recordings s !! id = Some r → continuous s !! id = Some x →
     media_of (f r) = media_of r ∧ capture_of (f r) = capture_of r ∧ source_size_bytes (source_of (f r)) = source_size_bytes (source_of r) ∧
     accepted_at (g x) = accepted_at x ∧
     (rec_status (f r) = rec_status r ∨ accepted_at x = None ∧ rec_status (f r) ≠ Ready ∧ rec_status (f r) ≠ Deleted) ∧
     (at_work (g x) → at_work x ∨ accepted_at x = None ∧ ∀ u, upload_rows s !! id = Some u → upload_offset u = expected_size_bytes u)) →
  consistent d (update id f g s).
Proof using Type.
  intros Hc [x Hx] Hfg. pose proof (receipts_sound _ _ (rows_sound _ _ _ _ _ Hc)) as Hs.
  destruct (Hs id x Hx) as (r & Hr & Hformat & Hst).
  destruct (Hfg r x Hr Hx) as (Hm & Hcap & Hsize & Hacc & Hstatus & Hwork).
  assert (rec_status (f r) = Ready ↔ rec_status r = Ready) as Hready.
  { destruct Hstatus as [->|(Ha & ? & ?)]; [done|]. rewrite Ha in Hst. destruct Hst as (? & ? & _). done. }
  assert (∀ i q, recordings (update id f g s) !! i = Some q → recordings s !! i = Some q ∨ i = id ∧ q = f r) as Hlook.
  { cbn. intros i q Hi. destruct (decide (id = i)) as [<-|Hne].
    - rewrite lookup_alter_eq, Hr in Hi. injection Hi as <-. by right.
    - rewrite lookup_alter_ne in Hi by done. by left. }
  assert (∀ i y', continuous (update id f g s) !! i = Some y' → ∃ y, continuous s !! i = Some y ∧ (i ≠ id ∧ y' = y ∨ i = id ∧ y = x ∧ y' = g x)) as Hreceipt.
  { cbn. intros i y Hi. destruct (decide (id = i)) as [<-|Hne].
    - rewrite lookup_alter_eq, Hx in Hi. injection Hi as <-. exists x. auto.
    - rewrite lookup_alter_ne in Hi by done. exists y. auto. }
  apply (consistent_rows _ _ _ d s); [done| | |done| |].
  - apply (sound_rows_change quota s); [apply Hc| |done|apply Hc|apply Hc| |].
    + intros i q name [Hi|[-> ->]]%Hlook Hn; [by exists q|]. exists r. by rewrite <- Hm.
    + unfold recording_used_bytes. cbn [recordings upload_rows segments update with_continuous with_recordings].
      rewrite (zsum_alter _ _ _ r) by done.
      assert (ready_bytes (f r) = ready_bytes r) as ->; [|lia]. unfold ready_bytes. rewrite Hm. by repeat case_decide; naive_solver.
    + intros i y' (y & Hy & [[Hne ->]|(-> & -> & ->)])%Hreceipt.
      * destruct (Hs i y Hy) as (q & Hq & Hrest). exists q. cbn. rewrite lookup_alter_ne by done. done.
      * exists (f r). cbn. rewrite lookup_alter_eq, Hr, Hcap, Hacc, Hsize. split_and!; [done..|].
        destruct (accepted_at x) eqn:Ha.
        { destruct Hst as (? & ? & ?). split_and!; [by destruct Hstatus as [->|[? _]]|done|]. by intros [?|[? _]]%Hwork. }
        destruct Hst as (? & ? & u & Hu & Hexp & Hcomplete). split_and!; [destruct Hstatus as [->|(? & ? & ?)]; done..|].
        exists u. split_and!; [done..|]. intros [?|[_ ?]]%Hwork; auto.
  - intros i q [Hi|[-> ->]]%Hlook Hq; [by exists q|]. exists r. naive_solver.
  - intros i u (y' & (y & Hy & [[_ ->]|(-> & -> & ->)])%Hreceipt & Ha & Hu); [by exists y|]. exists x. by rewrite <- Hacc.
  - intros i Hi. cbn. apply lookup_alter_is_Some. done.
Qed.

(** A new receipt, of an upload that has just been reserved. *)
Lemma consistent_receipt d s id r x u :
  consistent d s → continuous s !! id = None → recordings s !! id = Some r → source_format (capture_of r) ≠ "legacy_wav" →
  rec_status r = Uploading → upload_rows s !! id = Some u → upload_offset u = 0%Z → expected_size_bytes u = source_size_bytes (source_of r) →
  upload_directories d !! upload_storage u = Some ∅ → accepted_at x = None → ¬ at_work x →
  consistent d (with_continuous (<[id := x]> (continuous s)) s).
Proof using Type.
  intros Hc Hnone Hr Hformat Hst Hu Hoff Hexp Hdir Hacc Hwork.
  assert (told (spools id) = 0) as Htold.
  { destruct (told (spools id)) eqn:Ht; [done|]. destruct (told_known _ _ _ _ _ Hc id) as [y Hy]; [lia|congruence]. }
  split; try apply Hc.
  - split; try apply Hc. intros i y Hy. cbn in Hy. apply lookup_insert_Some in Hy as [[<- <-]|[Hne Hy]]; [|by apply (receipts_sound _ _ (rows_sound _ _ _ _ _ Hc) i y Hy)].
    exists r. rewrite Hacc, Hst. split_and!; [done..|]. exists u. done.
  - intros i v (y & Hy & Ha & Hv). cbn in Hy, Hv. apply lookup_insert_Some in Hy as [[<- <-]|[Hne Hy]].
    + assert (v = u) as -> by congruence. exists ∅, []. split; [done|]. split; [|lia].
      pose proof (upload_size _ _ (rows_sound _ _ _ _ _ Hc) id u Hu) as Hpos. unfold received.
      destruct u as [e h o n t]. cbn in *. subst o. by apply upload_invariant_new.
    + apply (source_kept _ _ _ _ _ Hc). by exists y.
  - intros i Hi%(told_known _ _ _ _ _ Hc). cbn. apply lookup_insert_is_Some. destruct (decide (id = i)); auto.
Qed.

(** ** Changes of an upload *)

Lemma waiting_upload s id u v : waiting s id u → waiting s id v → u = v.
Proof using Type. intros (_ & _ & _ & Hu) (_ & _ & _ & Hv). congruence. Qed.

(** A chunk reaches the directory. *)
Lemma consistent_chunks d s id u chunks content :
  consistent d s → waiting s id u → received c spools id u chunks content → told (spools id) ≤ length content →
  consistent (with_directories (<[upload_storage u := chunks]> (upload_directories d)) d) s.
Proof using Type.
  intros Hc Hw Hrec Htold. pose proof (waiting_holds _ _ _ Hw) as Hh.
  split; try apply Hc.
  - cbn. intros name ch [[<- _]|[_ Hn]]%lookup_insert_Some; [|by eapply known_directory].
    by apply (valid_holder _ _ (rows_sound _ _ _ _ _ Hc) _ _ Hh).
  - intros k name Hk. cbn. apply lookup_insert_is_Some. destruct (decide (upload_storage u = name)); [by left|]. right. split; [done|].
    by eapply held_directory.
  - intros i v Hv. cbn. destruct (decide (i = id)) as [->|Hne].
    + rewrite (waiting_upload _ _ _ _ Hv Hw), lookup_insert_eq. by exists chunks, content.
    + rewrite lookup_insert_ne; [by apply (source_kept _ _ _ _ _ Hc)|]. intros Heq. apply Hne.
      apply waiting_holds in Hv. rewrite <- Heq in Hv. pose proof (unique_holder _ _ (rows_sound _ _ _ _ _ Hc) _ _ _ Hh Hv). congruence.
Qed.

(** The row of an upload changes, and possibly its directory to a new one. *)
Lemma consistent_upload d s id u f chunks content :
  consistent d s → waiting s id u → expected_size_bytes (f u) = expected_size_bytes u →
  upload_storage (f u) = upload_storage u ∨ (∀ k, ¬ holds s k (upload_storage (f u))) ∧ valid_upload_name (upload_storage (f u)) = true →
  upload_directories d !! upload_storage (f u) = Some chunks → received c spools id (f u) chunks content → told (spools id) ≤ length content →
  (∀ x, continuous s !! id = Some x → ¬ at_work x) →
  consistent d (with_uploads (alter f id (upload_rows s)) s).
Proof using Type.
  intros Hc Hw Hexp Hname Hdir Hrec Htold Hwork. pose proof Hw as (x & Hx & Hacc & Hu). specialize (Hwork x Hx).
  set (s' := with_uploads _ s).
  assert (∀ i v, upload_rows s' !! i = Some v → i ≠ id ∧ upload_rows s !! i = Some v ∨ i = id ∧ v = f u) as Hlook.
  { cbn. intros i v Hi. destruct (decide (id = i)) as [<-|Hne].
    - rewrite lookup_alter_eq, Hu in Hi. injection Hi as <-. by right.
    - rewrite lookup_alter_ne in Hi by done. by left. }
  assert (∀ k name, holds s' k name → k = inl id ∧ name = upload_storage (f u) ∨ k ≠ inl id ∧ holds s k name) as Hheld.
  { intros [i|k] name; unfold holds; [|by right]. intros (v & [[Hne Hv]|[-> ->]]%Hlook & <-); [|by left]. right. split; [congruence|by exists v]. }
  assert (∀ k, k ≠ inl id → ¬ holds s k (upload_storage (f u))) as Hfree.
  { intros k Hk Hh. destruct Hname as [Heq|[Hfree _]]; [|by eapply Hfree]. rewrite Heq in Hh. apply Hk.
    apply (unique_holder _ _ (rows_sound _ _ _ _ _ Hc) _ _ _ Hh (waiting_holds _ _ _ Hw)). }
  split; try apply Hc.
  - split; try apply Hc.
    + intros k l name [[-> ->]|[Hk Hk']]%Hheld [[-> Hl]|[Hl Hl']]%Hheld; [done|by destruct (Hfree l)| |].
      * subst name. by destruct (Hfree k).
      * by eapply (unique_holder _ _ (rows_sound _ _ _ _ _ Hc)).
    + intros k name [[-> ->]|[_ Hk]]%Hheld; [|by eapply (valid_holder _ _ (rows_sound _ _ _ _ _ Hc))].
      destruct Hname as [->|[_ ?]]; [|done]. apply (valid_holder _ _ (rows_sound _ _ _ _ _ Hc) _ _ (waiting_holds _ _ _ Hw)).
    + intros i v [[_ Hv]|[-> ->]]%Hlook; [|rewrite Hexp]; by eapply (upload_size _ _ (rows_sound _ _ _ _ _ Hc)).
    + unfold recording_used_bytes. cbn [recordings upload_rows segments s' with_uploads]. rewrite (zsum_alter _ _ _ u) by done.
      rewrite Hexp. pose proof (within_quota _ _ (rows_sound _ _ _ _ _ Hc)) as Hq. unfold recording_used_bytes in Hq. lia.
    + intros i y Hy. destruct (receipts_sound _ _ (rows_sound _ _ _ _ _ Hc) i y Hy) as (r & Hr & Hformat & Hst). exists r. split_and!; [done..|].
      destruct (accepted_at y) eqn:Hy'.
      { split_and!; [apply Hst| |apply Hst]. cbn. rewrite lookup_alter_ne; [apply Hst|]. intros <-. cbn in Hy. congruence. } destruct Hst as (? & ? & v & Hv & Hsize & Hdone). split_and!; [done..|]. cbn.
      destruct (decide (id = i)) as [<-|Hne]; [|exists v; rewrite lookup_alter_ne; done].
      exists (f u). rewrite lookup_alter_eq, Hu, Hexp. assert (v = u) as -> by congruence. split_and!; [done..|].
      intros Hwy. assert (y = x) as -> by (cbn in Hy; congruence). done.
  - intros k name [[-> ->]|[_ Hk]]%Hheld; [by eexists|by eapply held_directory].
  - intros i v (y & Hy & Ha & [[Hne Hv]|[-> ->]]%Hlook); [|by exists chunks, content].
    apply (source_kept _ _ _ _ _ Hc). by exists y.
Qed.
End Spools.
End Rows.

(** ** The requests of a tablet *)

Section Requests.
Context `{CryptographyLaws} `{KeyDerivation} (key : bytes) (cfg : recording_settings) (c : recording_cipher) (spools : string → spool).
Abbreviation quota := (recording_quota_bytes cfg).
Abbreviation consistent := (consistent c quota spools).
Abbreviation invariant := (invariant c quota spools).
Abbreviation at_rows := (at_rows c quota spools).

(** The offset of an answer is one that the rows have reached. *)
Definition reached (s : recordings_db) (id : string) (n : Z) : Prop :=
  is_Some (continuous s !! id) ∧ ∀ u, waiting s id u → (n ≤ upload_offset u)%Z.
Definition answers (id : string) (x : result continuous_response) (m : host) : Prop :=
  invariant m ∧ match x with Ok a => reached (committed m) id (continuous_offset a) | Raise _ => True end.

Lemma response_offset id row x u a : continuous_response_of id row x u = Ok a →
  match u with Some v => continuous_offset a = upload_offset v | None => True end.
Proof using Type. intros (format & _ & Ha)%result_bind_ok. injection Ha as <-. by destruct u. Qed.
Lemma safe_answer id row x u (Q : result continuous_response → host → Prop) m :
  invariant m → is_Some (continuous (committed m) !! id) →
  (∀ v, waiting (committed m) id v → ∃ w, u = Some w ∧ (upload_offset w ≤ upload_offset v)%Z) →
  (∀ a, answers id a m → Q a m) → safe invariant Q (lift (continuous_response_of id row x u)) m.
Proof using Type.
  intros Hm Hx Hu HQ. split; [done|]. apply HQ. split; [done|]. destruct (continuous_response_of id row x u) as [a|] eqn:Ha; [|done].
  apply response_offset in Ha. split; [done|]. intros v Hv. destruct (Hu v Hv) as (w & -> & Hle). by rewrite Ha.
Qed.
Lemma answers_raise id e m : invariant m → answers id (Raise e) m.
Proof using Type. by split. Qed.

Lemma owned_continuous_ok device id s r x u : owned_continuous device id s = Ok (r, x, u) →
  recordings s !! id = Some r ∧ continuous s !! id = Some x ∧ upload_rows s !! id = u.
Proof using Type.
  unfold owned_continuous. destruct (recordings s !! id); [|done]. destruct (continuous s !! id); [|done]. case_bool_decide; [done|].
  by intros [= <- <- <-].
Qed.
Lemma owned_waiting s id u v : waiting s id v → upload_rows s !! id = u → ∃ w, u = Some w ∧ (upload_offset w ≤ upload_offset v)%Z.
Proof using Type. intros (_ & _ & _ & ->) <-. by exists v. Qed.

Lemma create_continuous_safe r device free b st p calls m :
  (0 ≤ audit_recording_reserve_bytes cfg)%Z → continuous_fields b = true → valid_upload_name (uuid_hex r) = true → invariant m →
  safe invariant (answers (body_recording b)) (create_continuous key cfg r device free b st p calls) m.
Proof using Type*.
  intros Hreserve Hb Hv Hm. unfold create_continuous. apply safe_look_bind; [done|by intros|]. intros s [= <-]. cbn zeta.
  set (id := body_recording b). assert (at_rows (committed m) m) as Hrows by done.
  assert (∀ e m', invariant m' → answers id (Raise e) m') as Hraise by (intros; by apply answers_raise).
  destruct (recordings (committed m) !! id) as [q|] eqn:Hid.
  - apply safe_lift; [done|auto|]. intros [[row x] u] Hown. apply owned_continuous_ok in Hown as (_ & Hx & Hu).
    destruct (negb _); [apply safe_return; auto|]. apply safe_answer; [done|by eexists|intros v Hw; by eapply owned_waiting|done].
  - apply safe_lift; [done|auto|]. intros [[call issue] operator] _. apply safe_lift; [done|auto|]. intros [] Hcap.
    assert (recording_used_bytes None None (committed m) + body_expected b ≤ quota)%Z as Hquota.
    { unfold continuous_capacity in Hcap. revert Hcap.
      destruct (Z.ltb_spec quota (recording_used_bytes None None (committed m) + body_expected b + audit_recording_reserve_bytes cfg)); [done|lia]. }
    assert (0 ≤ body_expected b)%Z as Hpos.
    { unfold continuous_fields in Hb. rewrite !andb_true_iff in Hb. unfold in_range in Hb. rewrite !bool_decide_eq_true in Hb. lia. }
    set (policy := initialize_retention_policy _ _ _). set (row := continuous_recording_row _ _ _ _ _ _ _). set (x := new_receipt _ _ _).
    apply safe_bind, (safe_create_directory _ _ _ (committed m)); [done|done|intros e m' [? _]; auto|].
    intros m1 Hm1 Hdir Hfree. set (u := new_continuous_upload b (uuid_hex r) (now r)). pose proof Hm1 as [Hinv1 Hs1].
    apply safe_bind, safe_commit; [done| |intros _; apply safe_return; auto|apply safe_return; auto].
    intros s' Hs'. rewrite Hs1 in Hs'. unfold insert_continuous in Hs'. rewrite Hid in Hs'.
    destruct (upload_rows (committed m) !! id) eqn:Hu; [done|]. destruct (continuous (committed m) !! id) eqn:Hx; [done|].
    destruct (_ && _); [|done]. injection Hs' as <-.
    assert (consistent (on_disk m1) (with_recordings (<[id := row]> (recordings (committed m))) (with_retention policy (committed m)))) as Hc1.
    { apply (consistent_insert c quota spools (on_disk m1) (with_retention policy (committed m))); [|done..].
      apply consistent_retention. rewrite <- Hs1. exact Hinv1. }
    set (s1 := with_recordings _ _) in Hc1.
    assert (consistent (on_disk m1) (with_uploads (<[id := u]> (upload_rows s1)) s1)) as Hc2.
    { apply (consistent_reserve cfg c spools (on_disk m1) s1 _ id u); try done; [intros i q Hi Hcase; by exists q|].
      unfold recording_used_bytes in *. subst s1. cbn [recordings upload_rows segments with_recordings with_retention].
      rewrite zsum_insert by done. exact Hquota. }
    assert (invariant (with_committed (with_continuous (<[id := x]> (continuous s1)) (with_uploads (<[id := u]> (upload_rows s1)) s1)) m1)) as Hm2.
    { apply (consistent_receipt c quota spools (on_disk m1) (with_uploads (<[id := u]> (upload_rows s1)) s1) id row x u); try done.
      - cbn. apply lookup_insert_eq.
      - cbn. apply lookup_insert_eq.
      - unfold at_work. cbn. set_solver. }
    split; [exact Hm2|]. apply safe_answer; [exact Hm2|cbn; rewrite lookup_insert_eq; by eexists| |done].
    intros v Hw. eapply owned_waiting; [exact Hw|cbn; apply lookup_insert_eq].
Qed.

Lemma continuous_status_safe device id m : invariant m → safe invariant (answers id) (continuous_recording_status device id) m.
Proof using Type.
  intros Hm. apply safe_look; [done|]. destruct (owned_continuous device id (committed m)) as [[[row x] u]|e] eqn:Hown; [|by apply answers_raise].
  apply owned_continuous_ok in Hown as (_ & Hx & Hu). cbn [mbind result_bind].
  apply (safe_answer id row x u (answers id) m); [done|by eexists|intros v Hw; by eapply owned_waiting|done].
Qed.

Lemma received_intro id e h n u d l : upload_invariant c id (piece spools id) e h n u d l → received c spools id u d l.
Proof using Type.
  intros Hi. pose proof (inv_row _ _ _ _ _ _ _ _ _ Hi) as Hrow. unfold received.
  assert (expected_size_bytes u = e ∧ upload_sha256 u = h ∧ upload_storage u = n) as (-> & -> & ->) by by rewrite Hrow. done.
Qed.
Lemma upload_waiting d s id x u :
  consistent d s → continuous s !! id = Some x → upload_rows s !! id = Some u → waiting s id u.
Proof using Type.
  intros Hc Hx Hu. destruct (receipts_sound _ _ (rows_sound _ _ _ _ _ Hc) id x Hx) as (r & _ & _ & Hst).
  exists x. destruct (accepted_at x) eqn:Ha; [|done]. destruct Hst as (_ & Hnone & _). congruence.
Qed.
Lemma read_parts_ok message limit body parts chunk : read_parts message limit body parts = Ok chunk → chunk = body ++ concat parts.
Proof using Type.
  revert body. induction parts as [|p parts IH]; intros body; cbn; [intros [= <-]; by rewrite app_nil_r|].
  destruct (_ <? _)%Z; [done|]. intros ->%IH. by rewrite app_assoc.
Qed.

(** What a content request does to the row and to the directory. *)
Lemma stored_chunk_ok d s id u t n offset chunk u' chunks' :
  consistent d s → waiting s id u → piece spools id offset chunk → length n = 12 →
  store_chunk (recording_chunk_limit_bytes cfg) c t n id u (upload_directory u d) offset chunk = Ok (u', chunks') →
  ∃ content content', received c spools id u chunks' content ∧ received c spools id u' chunks' content' ∧
    told (spools id) ≤ length content ≤ length content' ∧ upload_storage u' = upload_storage u ∧
    expected_size_bytes u' = expected_size_bytes u ∧ ((offset < upload_offset u)%Z → u' = u).
Proof using Type*.
  intros Hc Hw Hp Hn Hst. destruct (source_kept _ _ _ _ _ Hc id u Hw) as (chunks & content & Hch & Hrec & Htold).
  pose proof (store_chunk_row cfg c t n id u _ offset chunk u' chunks' Hst) as ([ch Hfound] & Hname & Hexp).
  assert (ch = chunks) as ->.
  { unfold upload_directory in Hfound. destruct (negb _); [done|]. rewrite Hch in Hfound. by injection Hfound. }
  rewrite Hfound in Hst. pose proof (store_chunk_keeps _ c id (piece spools id) _ _ _ u chunks content t n offset chunk u' chunks' Hrec Hp Hn Hst) as [Hold Hnew].
  eexists content, _. split; [exact Hold|]. split; [by eapply received_intro|]. split_and!; [done| |done|done|].
  - case_decide; rewrite ?length_app; lia.
  - intros Hlt. apply store_chunk_ok in Hst as (_ & _ & _ & [(_ & -> & _)|(-> & _)]); [done|lia|done].
Qed.

Lemma continuous_content_safe r device id offset free declared parts m :
  piece spools id offset (concat parts) → length (nonce r 0) = 12 → invariant m →
  safe invariant (answers id) (continuous_content cfg c r device id offset free declared parts) m.
Proof using Type*.
  intros Hpiece Hn Hm. unfold continuous_content.
  assert (∀ e m', invariant m' → answers id (Raise e) m') as Hraise by (intros; by apply answers_raise).
  apply safe_lift; [done|auto|]. intros chunk Hchunk. apply safe_look_bind; [done|by intros|]. intros s [= <-].
  assert (at_rows (committed m) m) as Hrows by done.
  apply safe_lift; [done|auto|]. intros [[row x] found] Hown. apply owned_continuous_ok in Hown as (_ & Hx & Hfound). cbn zeta.
  apply safe_lift; [done|auto|]. intros u Hu. case_bool_decide as Hst; [done|]. apply of_option_ok in Hu. subst found.
  destruct (_ <? _)%Z; [apply safe_return; auto|].
  assert (chunk = concat parts) as ->.
  { unfold read_bounded_chunk in Hchunk. by apply result_bind_ok in Hchunk as (_ & _ & ?%read_parts_ok). }
  pose proof (upload_waiting _ _ _ _ _ Hm Hx Hu) as Hw.
  apply safe_bind, safe_act; [done| |intros; auto]. intros u' d Hd. cbn zeta.
  apply result_bind_ok in Hd as ([v chunks] & Hstore & Hd). injection Hd as -> <-.
  destruct (stored_chunk_ok _ _ _ _ _ _ _ _ _ _ Hm Hw Hpiece Hn Hstore) as (content & content' & Hrec & Hrec' & [Hle Hle'] & Hname & Hexp & Hreplay).
  set (m1 := {| on_disk := with_directories (<[upload_storage u := chunks]> (upload_directories (on_disk m))) (on_disk m); committed := committed m |}).
  assert (invariant m1) as Hm1 by by eapply consistent_chunks.
  split; [done|]. apply safe_bind, (safe_commit_only _ _ _ (committed m)); [done|intros; auto|].
  intros s' m2 [= <-] Hc _.
  set (replay := (offset <? upload_offset u)%Z) in *.
  assert (consistent (on_disk m1) (advanced id u' (now r) replay (committed m))) as Hadv.
  { unfold advanced. destruct replay; [done|].
    set (s1 := with_recordings (alter (λ q, with_status (rec_status q) (now r) q) id (recordings (committed m))) (committed m)).
    assert (consistent (on_disk m1) s1) as Hs1 by (apply consistent_alter; [done|by left|right; auto]).
    apply (consistent_upload c quota spools (on_disk m1) s1 id u (λ _, u') chunks content'); [done|exact Hw|done|by left| |done|lia|].
    - rewrite Hname. apply lookup_insert_eq.
    - intros y Hy. cbn in Hy. assert (y = x) as -> by congruence. unfold at_work. rewrite Hst. set_solver. }
  assert (continuous (advanced id u' (now r) replay (committed m)) = continuous (committed m)) as Hsame
    by (unfold advanced; by destruct replay).
  assert (upload_rows (advanced id u' (now r) replay (committed m)) !! id = Some u') as Hrow'.
  { unfold advanced. destruct replay eqn:Hr; [|cbn; by rewrite lookup_alter_eq, Hu].
    rewrite Hreplay; [done|]. by apply Z.ltb_lt. }
  split.
  - apply consistent_update; [done|rewrite Hsame; by eexists|]. intros q y Hq Hy. cbn. split_and!; try done; auto.
  - intros Hm2. apply safe_answer; [done| | |done].
    + rewrite Hc. cbn. rewrite lookup_alter_eq, Hsame, Hx. by eexists.
    + intros v Hv. eapply owned_waiting; [exact Hv|]. rewrite Hc. exact Hrow'.
Qed.

Lemma continuous_complete_safe r device id m : invariant m → safe invariant (answers id) (continuous_complete r device id) m.
Proof using Type.
  intros Hm. unfold continuous_complete.
  assert (∀ e m', invariant m' → answers id (Raise e) m') as Hraise by (intros; by apply answers_raise).
  apply safe_look_bind; [done|by intros|]. intros s [= <-]. assert (at_rows (committed m) m) as Hrows by done.
  apply safe_lift; [done|auto|]. intros [[row x] found] Hown. apply owned_continuous_ok in Hown as (Hrow & Hx & Hu).
  case_bool_decide as Hacc; cbn [orb].
  { apply safe_answer; [done|by eexists|intros v Hw; by eapply owned_waiting|done]. }
  case_bool_decide. { apply safe_answer; [done|by eexists|intros v Hw; by eapply owned_waiting|done]. }
  apply safe_lift; [done|auto|]. intros u ->%of_option_ok. case_bool_decide as Hcomplete; [apply safe_return; auto|].
  case_bool_decide; [apply safe_return; auto|].
  apply safe_bind, (safe_commit_only _ _ _ (committed m)); [done|intros; auto|]. intros s' m2 [= <-] Hc _.
  assert (accepted_at x = None) as Hnone by (destruct (accepted_at x); [by destruct Hacc|done]).
  split.
  - apply consistent_update; [done|by eexists|]. intros q y Hq Hy. assert (y = x) as -> by congruence. cbn. split_and!; try done.
    + right. done.
    + intros _. right. split; [done|]. intros v Hv. assert (v = u) as -> by congruence. done.
  - intros Hm2. apply safe_answer; [done| | |done].
    + rewrite Hc. cbn. rewrite lookup_alter_eq, Hx. by eexists.
    + intros v Hv. eapply owned_waiting; [exact Hv|]. rewrite Hc. exact Hu.
Qed.

Lemma continuous_reset_safe r device id m :
  told (spools id) = 0 → valid_upload_name (uuid_hex r) = true → invariant m → safe invariant (answers id) (continuous_reset r device id) m.
Proof using Type*.
  intros Htold Hv Hm. unfold continuous_reset.
  assert (∀ e m', invariant m' → answers id (Raise e) m') as Hraise by (intros; by apply answers_raise).
  apply safe_look_bind; [done|by intros|]. intros s [= <-]. assert (at_rows (committed m) m) as Hrows by done.
  apply safe_lift; [done|auto|]. intros [[row x] found] Hown. apply owned_continuous_ok in Hown as (Hrow & Hx & Hu). cbn zeta.
  apply safe_lift; [done|auto|]. intros u Hu'. case_bool_decide as Hst; [done|]. case_bool_decide as Hacc; [done|]. cbn [orb] in Hu'.
  apply of_option_ok in Hu' as ->.
  pose proof (upload_waiting _ _ _ _ _ Hm Hx Hu) as Hw. pose proof (waiting_holds _ _ _ Hw) as Hh.
  apply safe_bind, (safe_create_directory _ _ _ (committed m)); [done|done|intros e m' [? _]; auto|].
  intros m1 [Hm1 Hs1] Hdir Hfree. set (name := uuid_hex r) in *. assert (at_rows (committed m) m1) as Hrows1 by done.
  apply safe_bind, (safe_commit_only _ _ _ (committed m)); [done|intros; auto|].
  intros s' m2 Hs' Hc _. unfold reset_upload in Hs'. case_bool_decide; [|done]. injection Hs' as <-.
  set (s1 := with_uploads (alter (renewed name (now r)) id (upload_rows (committed m))) (committed m)) in *.
  assert (consistent (on_disk m1) s1) as Hc1.
  { apply (consistent_upload c quota spools (on_disk m1) (committed m) id u _ ∅ []); [|done|done|by right|done| |cbn; lia|].
    - rewrite <- Hs1. exact Hm1.
    - pose proof (upload_size _ _ (rows_sound _ _ _ _ _ Hm) id u Hu) as Hpos. by apply upload_invariant_new.
    - intros y Hy. assert (y = x) as -> by congruence. unfold at_work. rewrite Hst. set_solver. }
  assert (accepted_at x = None) as Hnone by (destruct (accepted_at x); [by destruct Hacc|done]).
  split.
  - apply consistent_update; [done|by eexists|]. intros q y Hq Hy. cbn in Hy. assert (y = x) as -> by congruence. cbn. split_and!; try done.
    + right. done.
    + unfold at_work. cbn. set_solver.
  - intros Hm2. apply safe_bind, (safe_remove_upload _ _ _ (committed m2)); [|done|].
    + rewrite Hc. intros k Hk. assert (k ≠ inl id ∧ holds (committed m) k (upload_storage u)) as [Hne Hk'].
      { destruct k as [i|k]; [|done]. destruct Hk as (v & Hi & Hn). cbn in Hi. destruct (decide (id = i)) as [<-|Hne].
        - rewrite lookup_alter_eq, Hu in Hi. injection Hi as <-. cbn in Hn. subst name. destruct (Hfree (inl id)). by rewrite Hn.
        - rewrite lookup_alter_ne in Hi by done. split; [congruence|by exists v]. }
      apply Hne. apply (unique_holder _ _ (rows_sound _ _ _ _ _ Hm) _ _ _ Hk' Hh).
    + intros [[]|e] m3 [Hm3 Hs3]; [|auto]. apply safe_answer; [done| | |done].
      * rewrite Hs3, Hc. cbn. rewrite lookup_alter_eq, Hx. by eexists.
      * intros v Hv'. eapply owned_waiting; [exact Hv'|]. rewrite Hs3, Hc. cbn. by rewrite lookup_alter_eq, Hu.
Qed.
End Requests.

(** ** The worker *)

Lemma next_receipt_ok t s id x : next_receipt t s = Some (id, x) → continuous s !! id = Some x ∧ workable t x = true.
Proof.
  unfold next_receipt. intros Hn.
  assert (∀ l : list (string * continuous_row), (∀ y, y ∈ l → continuous s !! y.1 = Some y.2 ∧ workable t y.2 = true) →
    ∀ y, foldr (λ x best, match best with Some y => Some (if touched_before x y then x else y) | None => Some x end) None l = Some y →
    continuous s !! y.1 = Some y.2 ∧ workable t y.2 = true) as Hfold.
  { induction l as [|z l IH]; intros Hl y; [done|]. cbn [foldr].
    destruct (foldr _ None l) as [w|] eqn:Hw; [|intros [= <-]; apply Hl; by left].
    intros [= <-]. destruct (touched_before z w); [apply Hl; by left|]. apply IH; [|done]. intros y Hy. apply Hl. by right. }
  apply (Hfold _) in Hn; [done|]. intros [i y] [Hwork Hin]%list_elem_of_filter. split; [by apply elem_of_map_to_list in Hin|done].
Qed.

Section Worker.
Context `{CryptographyLaws} `{KeyDerivation} `{PcmEncoder} (cfg : recording_settings) (c : recording_cipher) (spools : string → spool).
Abbreviation quota := (recording_quota_bytes cfg).
Abbreviation consistent := (consistent c quota spools).
Abbreviation invariant := (invariant c quota spools).
Abbreviation at_rows := (at_rows c quota spools).

Lemma workable_at_work t x : workable t x = true → at_work x.
Proof using Type. unfold workable. rewrite andb_true_iff, bool_decide_eq_true. by intros [? _]. Qed.
Lemma not_accepted d s id x : consistent d s → continuous s !! id = Some x → at_work x → accepted_at x = None.
Proof using Type.
  intros Hc Hx Hw. destruct (receipts_sound _ _ (rows_sound _ _ _ _ _ Hc) id x Hx) as (r & _ & _ & Hst).
  destruct (accepted_at x); [|done]. by destruct Hst as (_ & _ & ?).
Qed.

Lemma consistent_reserve_name d s s' id row name policy :
  consistent d s → recordings s !! id = Some row → rec_status row ≠ Ready → valid_media_name name = true →
  reserve_name id name policy s = Some s' → consistent d s'.
Proof using Type.
  intros Hc Hid Hst Hv Hs'. unfold reserve_name in Hs'. destruct (free_media_name id name s) eqn:Hfree; [|done]. injection Hs' as <-.
  apply bool_decide_eq_true in Hfree. set (s' := with_recordings _ _).
  assert (∀ i q, recordings s' !! i = Some q → i = id ∧ q = with_storage_name name row ∨ i ≠ id ∧ recordings s !! i = Some q) as Hlook.
  { cbn. intros i q Hi. destruct (decide (id = i)) as [<-|Hne].
    - rewrite lookup_alter_eq, Hid in Hi. injection Hi as <-. by left.
    - rewrite lookup_alter_ne in Hi by done. by right. }
  split; try apply Hc.
  - split; try apply Hc.
    + intros i j q q' n Hi Hj Hqn Hqn'.
      destruct (Hlook i q Hi) as [[-> ->]|[Hi1 Hi2]], (Hlook j q' Hj) as [[-> ->]|[Hj1 Hj2]]; [done| | |].
      * cbn in Hqn. injection Hqn as <-. by destruct (map_Forall_lookup_1 _ _ _ _ Hfree Hj2 Hj1).
      * cbn in Hqn'. injection Hqn' as <-. by destruct (map_Forall_lookup_1 _ _ _ _ Hfree Hi2 Hi1).
      * by eapply (unique_media _ _ (rows_sound _ _ _ _ _ Hc)).
    + intros i q n Hi Hqn. destruct (Hlook i q Hi) as [[-> ->]|[_ Hi2]]; [by injection Hqn as <-|].
      by eapply (media_valid _ _ (rows_sound _ _ _ _ _ Hc)).
    + unfold recording_used_bytes. cbn [recordings upload_rows segments s' with_recordings with_retention].
      rewrite (zsum_alter _ _ _ row) by done. pose proof (within_quota _ _ (rows_sound _ _ _ _ _ Hc)) as Hq.
      unfold recording_used_bytes in Hq. assert (ready_bytes (with_storage_name name row) = ready_bytes row) as ->; [|lia].
      unfold ready_bytes. cbn. by rewrite !decide_False by done.
    + apply (sound_receipts_change s); [apply Hc|done|]. intros i x q Hx Hq. split; [done|]. cbn.
      destruct (decide (id = i)) as [<-|Hne]; [rewrite lookup_alter_eq, Hq; eexists; split; [done|]; auto|].
      rewrite lookup_alter_ne by done. exists q. auto.
  - intros i q Hi Hq. destruct (Hlook i q Hi) as [[-> ->]|[_ Hi2]]; [done|]. by apply (ready_stored _ _ _ _ _ Hc).
Qed.

Lemma sealed_media_playable r id media sealed :
  length (nonce r 0) = 12 → sealed_media c r id media = Ok sealed →
  (Z.of_nat (length sealed.1) ≤ Z.of_nat (length media) + Z.of_nat (length MEDIA_MAGIC) + 32)%Z ∧
  ∀ t q, playable c id (accepted_media c (Z.of_nat (length sealed.1)) sealed.2 t q) sealed.1.
Proof using Type*.
  intros Hn Hs. unfold sealed_media in Hs. apply result_bind_ok in Hs as (encrypted & Henc & Hs).
  apply result_bind_ok in Hs as (verified & Hdec & Hs). case_bool_decide as Heq; [done|]. injection Hs as <-.
  cbn [fst snd]. split.
  - pose proof (encrypted_length c (nonce r 0) id media encrypted Hn Henc). lia.
  - intros t q. exists verified, (cipher_version c). cbn. split_and!; [done|done|by eapply media_version_seal|done|].
    f_equal. symmetry. exact Heq.
Qed.

Lemma consistent_accept d s id q x name size digest t payload :
  consistent d s → recordings s !! id = Some q → continuous s !! id = Some x → accepted_at x = None →
  media_storage_name (media_of q) = Some name → valid_media_name name = true →
  root d !! name = Some (PrivateFile payload) → root d !! quarantine_name name = None → size = Z.of_nat (length payload) →
  playable c id (accepted_media c size digest t q) payload →
  (recording_used_bytes (Some id) None s + Z.of_nat (length payload) ≤ quota)%Z → consistent d (accept c id size digest t s).
Proof using Type*.
  intros Hc Hid Hx Hacc Hname Hv Hf Hq Hsize Hplay Hquota. set (s' := accept c id size digest t s).
  destruct (receipts_sound _ _ (rows_sound _ _ _ _ _ Hc) id x Hx) as (q' & Hq' & Hformat & Hst). assert (q' = q) as -> by congruence.
  rewrite Hacc in Hst. destruct Hst as (Hready & _ & _).
  assert (∀ i y', continuous s' !! i = Some y' → i = id ∧ is_Some (accepted_at y') ∧ ¬ at_work y' ∨ i ≠ id ∧ continuous s !! i = Some y') as Hreceipt.
  { cbn. intros i y Hi. destruct (decide (id = i)) as [<-|Hne].
    - rewrite lookup_alter_eq, Hx in Hi. injection Hi as <-. left. split_and!; [done|by eexists|]. unfold at_work. cbn. set_solver.
    - rewrite lookup_alter_ne in Hi by done. by right. }
  apply (consistent_ready _ _ _ d s s' id q (accepted_media c size digest t) name payload); try done.
  - cbn. intros i u [_ Hi]%lookup_delete_Some. done.
  - intros i u (y' & [(_ & [a Ha] & _)|[Hne Hy]]%Hreceipt & Hacc' & Hu); [congruence|]. exists y'. cbn in Hu.
    by rewrite lookup_delete_ne in Hu by done.
  - intros i Hi. cbn. by apply lookup_alter_is_Some.
  - intros i y' [(-> & [a Ha] & Hw)|[Hne Hy]]%Hreceipt.
    + exists (accepted_media c size digest t q). cbn. rewrite lookup_alter_eq, Hid, Ha, lookup_delete_eq. split_and!; [done..|by left|done|done].
    + destruct (receipts_sound _ _ (rows_sound _ _ _ _ _ Hc) i y' Hy) as (r & Hr & Hrest). exists r. cbn.
      by rewrite lookup_alter_ne, lookup_delete_ne by done.
  - intros i r Hne Hr Hn. by apply Hne, (unique_media _ _ (rows_sound _ _ _ _ _ Hc) i id r q name).
  - by left.
  - unfold recording_used_bytes in *. cbn [recordings upload_rows segments s' accept update with_continuous with_recordings with_uploads].
    rewrite (zsum_alter _ _ _ q) by done.
    assert (ready_bytes q = 0%Z) as -> by (unfold ready_bytes; by rewrite decide_False by done).
    assert (ready_bytes (accepted_media c size digest t q) = size) as -> by done. lia.
Qed.

(** The job is not finished, or the recording was accepted. *)
Definition working (id : string) (m : host) : Prop :=
  invariant m ∧ ∃ x, continuous (committed m) !! id = Some x ∧ (at_work x ∨ is_Some (accepted_at x)).
(** The rows of a job that runs. *)
Definition running (id : string) (row : recording_row) (s : recordings_db) : Prop :=
  ∃ q x, recordings s !! id = Some q ∧ continuous s !! id = Some x ∧ at_work x ∧ media_of q = media_of row.
Lemma running_working id row m : invariant m → running id row (committed m) → working id m.
Proof using Type. intros Hm (q & x & _ & Hx & Hw & _). split; [done|]. exists x. auto. Qed.

(** The name the file had before is no longer used. *)
Lemma old_media_unowned d s s' id row name old :
  consistent d s → running id row s → media_storage_name (media_of row) = Some old →
  (∀ i, i ≠ id → recordings s' !! i = recordings s !! i) →
  (∀ q, recordings s' !! id = Some q → media_storage_name (media_of q) = Some name) → old ≠ name →
  valid_media_name old = true ∧ unowned old s'.
Proof using Type.
  intros Hc (q & x & Hq & Hx & Hw & Hm) Hold Hsame Hid Hne.
  assert (media_storage_name (media_of q) = Some old) as Hqold by congruence.
  pose proof (media_valid _ _ (rows_sound _ _ _ _ _ Hc) id q old Hq Hqold) as Hv. split; [done|].
  apply unowned_media; [done|]. intros i r Hr Hready Hn. destruct (decide (i = id)) as [->|Hi].
  - apply Hid in Hr. congruence.
  - rewrite Hsame in Hr by done. apply Hi. by apply (unique_media _ _ (rows_sound _ _ _ _ _ Hc) i id r q old).
Qed.

Lemma run_job_safe r free prior id row receipt u m :
  valid_upload_name (uuid_hex r) = true → length (nonce r 0) = 12 → root (on_disk m) !! quarantine_name (uuid_hex r +:+ ".rec") = None →
  upload_rows (committed m) !! id = u → running id row (committed m) → invariant m →
  safe invariant (λ _, working id) (run_job cfg c r free prior id row receipt u) m.
Proof using Type*.
  intros Hv Hn Hquar Hu Hrun Hm. unfold run_job. cbn zeta. pose proof (running_working _ _ _ Hm Hrun) as Hfail.
  apply safe_lift; [done|by intros|]. intros v ->%of_option_ok. case_bool_decide; [by apply safe_return|].
  destruct (_ <? _)%Z; [by apply safe_return|]. destruct (existsb _ _); [by apply safe_return|].
  apply safe_look_bind; [done|by intros|]. intros pcm _. apply safe_lift; [done|by intros|]. intros [] _.
  apply safe_lift; [done|by intros|]. intros media _. apply safe_look_bind; [done|by intros|]. intros policy [= <-].
  set (policy := initialize_retention_policy _ _ _). apply safe_look_bind; [done|by intros|]. intros [] Hquota.
  apply safe_lift; [done|by intros|]. intros [encrypted digest] Hsealed. cbn [fst snd].
  destruct (sealed_media_playable _ _ _ _ Hn Hsealed) as [Hsize Hplay]. cbn [fst snd] in Hsize, Hplay.
  assert (recording_used_bytes (Some id) None (committed m) + Z.of_nat (length encrypted) ≤ quota)%Z as Hq.
  { revert Hquota. destruct (Z.ltb_spec quota (recording_used_bytes (Some id) None (committed m) +
      (Z.of_nat (length media) + Z.of_nat (length MEDIA_MAGIC) + 32))); [done|]. intros _. lia. }
  clear Hquota. set (name := uuid_hex r +:+ ".rec") in *.
  assert (valid_media_name name = true) as Hvn by by apply valid_new_media_name.
  assert (at_rows (committed m) m) as Hrows by done. pose proof Hrun as (q & x & Hid & Hx & Hwork & Hmedia).
  pose proof (not_accepted _ _ _ _ Hm Hx Hwork) as Hacc.
  assert (rec_status q ≠ Ready) as Hst.
  { destruct (receipts_sound _ _ (rows_sound _ _ _ _ _ Hm) id x Hx) as (q' & Hq' & _ & Hst'). rewrite Hacc in Hst'. naive_solver. }
  apply safe_bind, (safe_commit_only _ _ _ (committed m)); [done|by intros|].
  intros s' m1 Hs' Hc1 Hd1. split; [by eapply consistent_reserve_name|]. intros Hm1.
  assert (recordings s' = alter (with_storage_name name) id (recordings (committed m)) ∧ upload_rows s' = upload_rows (committed m) ∧
    segments s' = segments (committed m) ∧ continuous s' = continuous (committed m)) as (Hr1 & Hu1 & Hg1 & Hx1).
  { unfold reserve_name in Hs'. destruct (free_media_name id name (committed m)) eqn:Hfree; [|done]. by injection Hs' as <-. }
  assert (recordings s' !! id = Some (with_storage_name name q)) as Hid1 by by rewrite Hr1, lookup_alter_eq, Hid.
  assert (∀ m', invariant m' → committed m' = s' → working id m') as Hfail1.
  { intros m' Hm' Hc'. split; [done|]. exists x. rewrite Hc', Hx1. auto. }
  assert (unowned name s') as Hun.
  { apply unowned_media; [done|]. intros i p Hp Hready Hpn. destruct (decide (i = id)) as [->|Hne]; [by rewrite Hid1 in Hp; injection Hp as <-|].
    apply Hne. rewrite <- Hc1 in Hp, Hid1. by apply (unique_media _ _ (rows_sound _ _ _ _ _ Hm1) i id p (with_storage_name name q) name). }
  apply safe_bind, safe_act; [done| |done]. intros [] d [= <-]. cbn zeta.
  set (m2 := {| on_disk := with_root (<[name := PrivateFile encrypted]> (root (on_disk m1))) (on_disk m1); committed := committed m1 |}).
  assert (at_rows s' m2) as Hm2.
  { split; [|done]. apply consistent_write; [done|cbn; by rewrite Hc1|by left]. }
  split; [apply Hm2|].
  assert (∀ m', at_rows s' m' → root (on_disk m') !! name = Some (PrivateFile encrypted) → root (on_disk m') !! quarantine_name name = None →
    safe invariant (λ _, working id)
      (_ ← commit_or (Return (Ok ())) (λ s, Some (accept c id (Z.of_nat (length encrypted)) digest (now r) s)); remove_upload_files v) m') as Hrest.
  { intros m' Hm' Hf' Hq'. apply safe_bind, (safe_commit_only _ _ _ s'); [done|intros; by apply Hfail1; apply Hm'|].
    intros s2 m3 [= <-] Hc3 Hd3. split.
    - apply (consistent_accept _ _ _ (with_storage_name name q) x name _ _ _ encrypted); try done.
      + destruct Hm' as [Hm' <-]. exact Hm'.
      + by rewrite Hx1.
      + unfold recording_used_bytes in *. rewrite Hr1, Hu1, Hg1, (zsum_alter _ _ _ q) by done.
        assert (ready_bytes (with_storage_name name q) = ready_bytes q) as ->; [|lia].
        unfold ready_bytes. cbn. by rewrite !decide_False by done.
    - intros Hm3. assert (∀ m', at_rows (committed m3) m' → working id m') as Hdone.
      { intros m4 [Hm4 Hs4]. split; [done|]. eexists. rewrite Hs4, Hc3. cbn. rewrite lookup_alter_eq, Hx1, Hx. split; [done|]. right. by eexists. }
      apply (safe_remove_upload _ _ _ (committed m3)); [|done|intros; by apply Hdone].
      rewrite Hc3. intros k Hk.
      assert (k ≠ inl id ∧ holds (committed m) k (upload_storage v)) as [Hne Hk'].
      { destruct k as [i|k]; unfold holds in *; cbn in Hk; [|by rewrite Hg1 in Hk].
        destruct Hk as (w & [Hne Hi]%lookup_delete_Some & Hw). rewrite Hu1 in Hi. split; [congruence|by exists w]. }
      apply Hne. apply (unique_holder _ _ (rows_sound _ _ _ _ _ Hm) _ _ _ Hk'). by exists v. }
  assert (root (on_disk m2) !! name = Some (PrivateFile encrypted)) as Hf2 by (cbn; apply lookup_insert_eq).
  assert (root (on_disk m2) !! quarantine_name name = None) as Hq2.
  { cbn. rewrite lookup_insert_ne by (by apply quarantine_not_valid). by rewrite Hd1. }
  apply safe_bind. destruct (media_storage_name (media_of row)) as [old|] eqn:Hold; [|split; [apply Hm2|by apply Hrest]].
  case_bool_decide as He; cbn [orb]; [split; [apply Hm2|by apply Hrest]|].
  case_bool_decide as He'; [split; [apply Hm2|by apply Hrest]|].
  destruct (old_media_unowned _ _ s' id row name old Hm Hrun Hold) as [Hvo Huo]; [|by rewrite Hid1; intros ? [= <-]|done|].
  { intros i Hne. by rewrite Hr1, lookup_alter_ne. }
  apply safe_act; [apply Hm2| |done]. intros [] d [= <-]. cbn zeta.
  assert (at_rows s' {| on_disk := unlink old (on_disk m2); committed := committed m2 |}) as Hm3.
  { split; [|apply Hm2]. apply consistent_unlink; [apply Hm2|]. by destruct Hm2 as [_ ->]. }
  split; [apply Hm3|]. apply Hrest; [done| |].
  - cbn. by rewrite lookup_delete_ne, lookup_insert_eq by done.
  - cbn. rewrite lookup_delete_ne by (by apply quarantine_not_valid). rewrite lookup_insert_ne by (by apply quarantine_not_valid).
    by rewrite Hd1.
Qed.

Lemma upload_complete d s id x u : consistent d s → continuous s !! id = Some x → at_work x → upload_rows s !! id = Some u →
  upload_offset u = expected_size_bytes u.
Proof using Type.
  intros Hc Hx Hw Hu. pose proof (not_accepted _ _ _ _ Hc Hx Hw) as Hacc.
  destruct (receipts_sound _ _ (rows_sound _ _ _ _ _ Hc) id x Hx) as (r & _ & _ & Hst). rewrite Hacc in Hst.
  destruct Hst as (_ & _ & v & Hv & _ & Hdone). assert (v = u) as -> by congruence. by apply Hdone.
Qed.

(** The first transaction of a job, and its last. *)
Lemma consistent_start_job d s id x t : consistent d s → continuous s !! id = Some x → at_work x → consistent d (start_job id t s).
Proof using Type.
  intros Hc Hx Hw. pose proof (not_accepted _ _ _ _ Hc Hx Hw) as Hacc. apply consistent_update; [done|by eexists|].
  intros r y Hr Hy. assert (y = x) as -> by congruence. cbn. split_and!; try done; [right|left]; done.
Qed.
Lemma consistent_finish_job d s id outcome elapsed t x :
  consistent d s → continuous s !! id = Some x → at_work x ∨ is_Some (accepted_at x) → consistent d (finish_job id outcome elapsed t s).
Proof using Type.
  intros Hc Hx Hw. unfold finish_job. rewrite Hx.
  assert (∀ s', consistent d s' → is_Some (continuous s' !! id) → consistent d (update id (λ r, r) (measured elapsed t) s')) as Hmeasured.
  { intros s' Hs' Hx'. apply consistent_update; [done|done|]. intros r y Hr Hy. cbn. split_and!; try done; auto. }
  destruct outcome as [e|]; [|apply Hmeasured; [done|by eexists]].
  case_bool_decide as Hacc; [|apply Hmeasured; [done|by eexists]].
  assert (at_work x) as Hwork by (destruct Hw as [?|[a Ha]]; [done|congruence]).
  apply Hmeasured; [|cbn; rewrite lookup_alter_eq, Hx; by eexists].
  apply consistent_update; [done|by eexists|]. intros r y Hr Hy. assert (y = x) as -> by congruence.
  cbn. split_and!; try done; [|by left]. right. by destruct (_ || _).
Qed.

Lemma process_next_safe r free prior elapsed m :
  valid_upload_name (uuid_hex r) = true → length (nonce r 0) = 12 → root (on_disk m) !! quarantine_name (uuid_hex r +:+ ".rec") = None →
  invariant m → safe invariant (λ _, invariant) (process_next cfg c r free prior elapsed) m.
Proof using Type*.
  intros Hv Hn Hquar Hm. unfold process_next. apply safe_look_bind; [done|by intros|]. intros s [= <-].
  assert (at_rows (committed m) m) as Hrows by done.
  destruct (next_receipt (now r) (committed m)) as [[id x]|] eqn:Hnext; [|by apply safe_return].
  apply next_receipt_ok in Hnext as [Hx Hwork%workable_at_work].
  apply safe_lift; [done|by intros|]. intros row Hid%of_option_ok. case_bool_decide.
  - apply safe_bind, (safe_commit_only _ _ _ (committed m)); [done|done|]. intros s' m' [= <-] _ _. split; [|by intros; apply safe_return].
    apply consistent_update; [done|by eexists|]. intros q y Hq Hy. cbn. split_and!; try done; [by left|]. unfold at_work. cbn. set_solver.
  - apply safe_bind, (safe_commit_only _ _ _ (committed m)); [done|done|]. intros s' m1 [= <-] Hc1 Hd1.
    split; [by eapply consistent_start_job|]. intros Hm1.
    apply safe_look_bind; [done|by intros|]. intros found [= <-].
    apply safe_bind, safe_catch, safe_bind.
    eapply (safe_mono invariant invariant); [done| |apply run_job_safe; [done|done|by rewrite Hd1|done| |done]].
    + assert (∀ outcome m2, working id m2 → safe invariant (λ _, invariant)
        (_ ← commit_or (Return (Ok ())) (λ s, Some (finish_job id outcome elapsed (now r) s)); Return (Ok true)) m2) as Hfinish.
      { intros outcome m2 [Hm2 (y & Hy & Hw)]. assert (at_rows (committed m2) m2) as Hrows2 by done.
        apply safe_bind, (safe_commit_only _ _ _ (committed m2)); [done|done|]. intros s2 m3 [= <-] _ _.
        split; [by eapply consistent_finish_job|by intros; apply safe_return]. }
      intros [[]|e] m2 _ Hw; (split; [apply Hw|]); by apply Hfinish.
    + exists (set_status Processing row). rewrite Hc1. cbn. rewrite !lookup_alter_eq, Hid, Hx. eexists. split_and!; [done|done| |done].
      unfold at_work. cbn. set_solver.
Qed.
End Worker.
