(* ===== verification/ContinuousCorrect.v ===== *)
(** * The worker: what it reads, accepts and takes up again *)
From Stdlib Require Import Ascii.
From stdpp Require Import base gmap sets strings numbers pretty list.
From S2P Require Import Prelude FlowTree Schemas Json Crypto Documents Store Drafts Revisions V4Api Diff Devices Policies Calls Recordings RecordingsFacts RecordingsCorrect Wave Script Storage StorageFacts StorageInvariant StorageCorrect Voicemail VoicemailInvariant Segments SegmentsInvariant Continuous ContinuousInvariant.

(** ** Reading the source *)

Section Source.
Context `{CryptographyLaws} `{KeyDerivation} (cfg : recording_settings) (c : recording_cipher).

Lemma decrypt_chunk_length id n payload p : decrypt_chunk c id n payload = Ok p → length payload = length p + 39.
Proof using Type*.
  unfold decrypt_chunk, open_with. destruct (_ || _) eqn:Hcheck; [done|]. apply orb_false_iff in Hcheck as [Hlen _].
  apply Nat.ltb_ge in Hlen. intros Hopen. apply result_bind_ok in Hopen as (key & _ & Hopen).
  apply of_option_ok, aes_gcm_decrypt_length in Hopen; rewrite !length_drop in *; change (length UPLOAD_MAGIC) with 7 in *; lia.
Qed.

Lemma materialize_chunks_tiled id u d fuel n l acc :
  tiled c id d n l → (0 ≤ n)%Z → (n + Z.of_nat (length l) = expected_size_bytes u)%Z → length l ≤ fuel →
  (∀ m payload, (0 ≤ m)%Z → d !! chunk_name m = Some payload → (Z.of_nat (length payload) ≤ recording_chunk_limit_bytes cfg + 128)%Z) →
  materialize_chunks cfg c fuel id u d n acc = Ok (acc ++ l).
Proof using Type.
  intros Ht. revert fuel acc. induction Ht as [n|n p l payload Hp Hd Hdec Ht IH]; intros fuel acc Hn Hend Hfuel Hsmall.
  - simpl in Hend. destruct fuel; cbn [materialize_chunks]; rewrite (proj2 (Z.ltb_ge _ _)) by lia; by rewrite app_nil_r.
  - rewrite length_app in Hend, Hfuel. assert (0 < length p) by (destruct p; [done|simpl; lia]).
    destruct fuel as [|fuel]; [lia|]. cbn [materialize_chunks]. rewrite (proj2 (Z.ltb_lt _ _)) by lia.
    rewrite Hd. cbn [of_option mbind result_bind]. specialize (Hsmall n payload Hn Hd) as Hle. rewrite (proj2 (Z.ltb_ge _ _)) by lia.
    rewrite Hdec. cbn [mbind result_bind]. rewrite bool_decide_false by done. rewrite (proj2 (Z.ltb_ge _ _)) by lia. cbn [orb].
    rewrite IH by (try lia; done). by rewrite <- app_assoc.
Qed.

(** A complete upload of what the tablet announced is read back as the tablet has it. *)
Lemma materialize_complete spools id row u d chunks content :
  received c spools id u chunks content → upload_directory u d = Ok chunks →
  upload_offset u = expected_size_bytes u → expected_size_bytes u = source_size_bytes (source_of row) →
  Z.of_nat (length (audio (spools id))) = source_size_bytes (source_of row) →
  sha256_hexdigest (audio (spools id)) = source_sha256 (source_of row) →
  (Z.of_nat (chunk_bytes (spools id)) ≤ recording_chunk_limit_bytes cfg)%Z →
  materialize cfg c id row u (upload_directory u d) = Ok (audio (spools id)).
Proof using Type*.
  intros Hrec -> Hoff Hexp Hlen Hsha Hsmall. pose proof (received_offset _ _ _ _ _ _ Hrec) as Hcontent.
  assert (content = audio (spools id)) as ->.
  { destruct (received_prefix _ _ _ _ _ _ Hrec) as [rest Hrest]. rewrite Hrest, length_app in Hlen.
    destruct rest; [by rewrite app_nil_r in Hrest|]. cbn in Hlen. lia. }
  destruct Hrec as [_ _ Ht Hchunks]. unfold materialize. cbn [mbind result_bind].
  rewrite (materialize_chunks_tiled id u chunks _ 0 (audio (spools id)) []); [|done|done|lia|lia|].
  - cbn [mbind result_bind app]. rewrite !bool_decide_false by auto. done.
  - intros m payload Hm Hd. destruct (Hchunks m payload Hm Hd) as (p & Hp & _ & [_ Hle] & _).
    apply decrypt_chunk_length in Hp. lia.
Qed.
End Source.

(** ** A job *)

Section Job.
Context `{CryptographyLaws} `{KeyDerivation} `{PcmEncoder} (cfg : recording_settings) (c : recording_cipher).

Lemma perform_commit_or {A} undo change s (k : unit → program A) m :
  change (committed m) = Some s → perform (x ← commit_or undo change; k x) m = perform (k ()) (with_committed s m).
Proof using Type. intros Hs. unfold commit_or. cbn. by rewrite Hs. Qed.
Lemma perform_catch {A} (p : program A) handler m :
  perform (catch p handler) m = match perform p m with (Ok a, m') => (Ok a, m') | (Raise e, m') => perform (handler e) m' end.
Proof using Type.
  revert m. induction p as [[a|e]|effect next IH|change next IH]; intros m; [done|cbn; by destruct (perform _ _)| |].
  - cbn. apply IH.
  - cbn. destruct (change (committed m)); apply IH.
Qed.
(** The rows are the same where a program commits nothing. *)
Lemma perform_remove_upload u m : committed (perform (remove_upload_files u) m).2 = committed m.
Proof using Type.
  set (I := λ m' : host, committed m' = committed m).
  assert (∀ name m', I m' → safe I (λ _, I) (rmdir name) m') as Hrmdir.
  { intros name m' Hm'. apply safe_act; [done| |done]. by intros. }
  apply (safe_perform I (λ _, I)). apply safe_bind, safe_look; [done|]. destruct (is_ok _); [|done].
  apply safe_bind, safe_look; [done|]. apply safe_bind, (safe_for_each I I); [done|done| |by intros; apply Hrmdir].
  intros x m' _ Hm'. apply safe_act; [done|by intros|by intros].
Qed.

(** What acceptance looks like in the rows. *)
Definition is_accepted (id : string) (t : datetime) (media : bytes) (s : recordings_db) : Prop :=
  ∃ q x, recordings s !! id = Some q ∧ continuous s !! id = Some x ∧ rec_status q = Ready ∧ accepted_at x = Some t ∧
    media_sha256 (media_of q) = Some (sha256_hexdigest media).

Lemma run_job_accepts r free prior id row receipt u pcm detail media m :
  is_Some (recordings (committed m) !! id) → is_Some (continuous (committed m) !! id) →
  upload_offset u = source_size_bytes (source_of row) →
  (source_size_bytes (source_of row) + rec_duration_ms (source_of row) * 36 + audit_recording_reserve_bytes cfg ≤ free)%Z → existsb strange_entry prior = false →
  materialize cfg c id row u (upload_directory u (on_disk m)) = Ok pcm → row_validation_error receipt = None →
  encode_continuous pcm = Some (0%Z, detail, Some media) → starts_with (to_bytes "ID3") media || starts_with [octet 255] media = true →
  (recording_used_bytes (Some id) None (committed m) + (Z.of_nat (length media) + Z.of_nat (length MEDIA_MAGIC) + 32) ≤ recording_quota_bytes cfg)%Z →
  length (nonce r 0) = 12 → is_Some (master_keys c !! cipher_version c) → (0 ≤ cipher_version c < 2 ^ 32)%Z →
  (∀ i q, recordings (committed m) !! i = Some q → media_storage_name (media_of q) ≠ Some (uuid_hex r +:+ ".rec")) →
  is_accepted id (now r) media (committed (perform (run_job cfg c r free prior id row receipt (Some u)) m).2).
Proof using Type*.
  intros [q Hq] [x Hx] Hoff Hfree Hprior Hmat Hissue Henc Hid3 Hquota Hn Hkey Hver Hname.
  destruct (seal_with_total MEDIA_MAGIC (media_aad id) (nonce r 0) c id media Hkey Hver) as [sealed Hsealed].
  pose proof (open_seal MEDIA_MAGIC (media_aad id) "Encrypted recording is malformed." "Encrypted recording failed authentication."
    (nonce r 0) c c id media sealed Hn eq_refl Hsealed) as Hopen.
  assert (sealed_media c r id media = Ok (sealed, sha256_hexdigest media)) as Hmedia.
  { unfold sealed_media. unfold encrypt_media. rewrite Hsealed. cbn [mbind result_bind]. unfold decrypt_media. rewrite Hopen.
    cbn [mbind result_bind]. by rewrite bool_decide_false by auto. }
  unfold run_job. cbn zeta. unfold lift. cbn [of_option mbind script_bind].
  rewrite bool_decide_false by auto. rewrite (proj2 (Z.ltb_ge _ _)) by lia. rewrite Hprior.
  rewrite perform_look, Hmat, Hissue. cbn [mbind script_bind]. unfold encoded_continuous. rewrite Henc. cbn [of_option mbind result_bind].
  rewrite Hid3. cbn [mbind script_bind]. rewrite perform_look. rewrite perform_look, (proj2 (Z.ltb_ge _ _)) by lia.
  rewrite Hmedia. cbn [mbind script_bind fst snd].
  set (name := uuid_hex r +:+ ".rec") in *. set (policy := initialize_retention_policy _ _ _).
  assert (free_media_name id name (committed m) = true) as Hfreename.
  { unfold free_media_name. apply bool_decide_true. intros i q' Hq' _. by eapply Hname. }
  erewrite perform_commit_or by (unfold reserve_name; by rewrite Hfreename).
  set (s1 := with_recordings _ _). rewrite perform_bind, perform_act. cbn beta iota.
  set (m1 := {| on_disk := _; committed := _ |}).
  assert (∃ m2, perform match media_storage_name (media_of row) with
    | Some old => if bool_decide (old = "") || bool_decide (old = name) then Return (Ok ()) else act (λ m, Ok ((), unlink old (on_disk m)))
    | None => Return (Ok ()) end m1 = (Ok (), m2) ∧ committed m2 = s1) as (m2 & Hp2 & Hc2).
  { destruct (media_storage_name (media_of row)) as [old|]; [|by exists m1].
    destruct (bool_decide (old = "") || bool_decide (old = name)); [by exists m1|].
    eexists. split; [by rewrite perform_act|done]. }
  rewrite perform_bind, Hp2. erewrite perform_commit_or by done.
  rewrite perform_remove_upload. cbn [committed with_committed]. rewrite Hc2.
  exists (accepted_media c (Z.of_nat (length sealed)) (sha256_hexdigest media) (now r) (with_storage_name name q)).
  exists (with_state ContinuousReady None (Some (now r)) (continuous_updated x) x).
  unfold accept, update. cbn. rewrite !lookup_alter_eq, Hq, Hx. done.
Qed.

Lemma finish_keeps_accepted id t media outcome elapsed t' s : is_accepted id t media s → is_accepted id t media (finish_job id outcome elapsed t' s).
Proof using Type.
  intros (q & x & Hq & Hx & Hst & Hacc & Hsha). exists q, (measured elapsed t' x). unfold finish_job. rewrite Hx.
  assert (match outcome with
          | Some e => if bool_decide (accepted_at x = None) then update id (failed_recording e) (failed_receipt e t') s else s
          | None => s end = s) as -> by (destruct outcome; [by rewrite bool_decide_false by congruence|done]).
  unfold update. cbn. by rewrite !lookup_alter_eq, Hq, Hx.
Qed.

(** ** Interrupted jobs *)

(** What may have become of a receipt that was taken up at [t], its state at the end of a job,
    and at any moment of it. *)
Definition taken_up (id : string) (t : datetime) (attempts : Z) (s : recordings_db) : Prop :=
  is_Some (recordings s !! id) ∧
  ∃ x, continuous s !! id = Some x ∧ run_attempts x = attempts ∧ (workable t x = true ∨ is_Some (accepted_at x)).
Definition retried (t : datetime) (attempts : Z) (x : continuous_row) : Prop :=
  continuous_state x = Retrying ∧ ∃ w, retry_at x = Some (datetime_of_instant (instant t + seconds_us w)) ∧ w = backoff attempts ∧ (w ≤ 3600)%Z.
Definition refused_job (id : string) (x : continuous_row) (s : recordings_db) : Prop :=
  (continuous_state x = Invalid ∨ continuous_state x = NeedsAttention) ∧
  ∃ q, recordings s !! id = Some q ∧ rec_status q = RecordingFailed ∧ is_Some (processing_error q).
Definition job_end (id : string) (t : datetime) (attempts : Z) (s : recordings_db) : Prop :=
  ∃ x, continuous s !! id = Some x ∧
    (workable t x = true ∨ is_Some (accepted_at x) ∨ retried t attempts x ∨ refused_job id x s).

Section Interrupted.
Context (id : string) (t : datetime) (attempts : Z).
Abbreviation kept := (λ m : host, taken_up id t attempts (committed m)).

Lemma kept_act {A} (f : host → result (A * disk)) (Q : result A → host → Prop) m :
  kept m → (∀ x m', committed m' = committed m → Q x m') → safe kept Q (act f) m.
Proof using Type. intros Hm HQ. apply safe_act; [done| |]; intros; [split; [done|]|]; by apply HQ. Qed.
Lemma kept_commit change (Q : result unit → host → Prop) m :
  kept m → (∀ s, change (committed m) = Some s → taken_up id t attempts s) → (∀ x m', kept m' → Q x m') →
  safe kept Q (commit_or (Return (Ok ())) change) m.
Proof using Type.
  intros Hm Hc HQ. apply safe_bind, safe_commit; [done| | |]; [intros s Hs|intros _|].
  - assert (kept (with_committed s m)) as Hm' by by apply Hc. split; [done|]. split; [done|by apply HQ].
  - split; [done|by apply HQ].
  - split; [done|by apply HQ].
Qed.
Lemma kept_remove_upload u (Q : result unit → host → Prop) m :
  kept m → (∀ x m', kept m' → Q x m') → safe kept Q (remove_upload_files u) m.
Proof using Type.
  intros Hm HQ. assert (∀ name (R : result unit → host → Prop) m', kept m' → (∀ x m'', kept m'' → R x m'') → safe kept R (rmdir name) m') as Hrmdir.
  { intros name R m' Hm' HR. apply kept_act; [done|]. intros x m'' Heq. apply HR. by rewrite Heq. }
  apply safe_bind, safe_look; [done|]. destruct (is_ok _); [|split; [done|by apply HQ]].
  apply safe_bind, safe_look; [done|]. apply safe_bind, (safe_for_each kept kept); [done|done| |].
  - intros x m' _ Hm'. apply kept_act; [done|]. intros [[]|e] m'' Heq; [by rewrite Heq|]. apply HQ. by rewrite Heq.
  - intros m' Hm'. by apply Hrmdir.
Qed.

Lemma run_job_kept r free prior row receipt found m :
  kept m → safe kept (λ _, kept) (run_job cfg c r free prior id row receipt found) m.
Proof using Type.
  intros Hm. unfold run_job. cbn zeta.
  apply safe_bind. split; [done|]. destruct found as [u|]; [|done]. cbn [of_option].
  case_bool_decide; [done|]. destruct (_ <? _)%Z; [done|]. destruct (existsb _ _); [done|].
  apply safe_bind, safe_look; [done|]. destruct (materialize _ _ _ _ _ _) as [pcm|]; [|done].
  apply safe_bind. split; [done|]. destruct (match row_validation_error receipt with Some _ => _ | None => _ end) as [[]|]; [|done].
  apply safe_bind. split; [done|]. destruct (encoded_continuous pcm) as [media|]; [|done].
  apply safe_bind, safe_look; [done|]. apply safe_bind, safe_look; [done|]. destruct (_ <? _)%Z; [done|].
  apply safe_bind. split; [done|]. destruct (sealed_media c r id media) as [[sealed digest]|]; [|done].
  apply safe_bind, kept_commit; [done| |].
  { intros s Hs. unfold reserve_name in Hs. destruct (free_media_name _ _ _); [|done]. injection Hs as <-.
    destruct Hm as [Hr Hx]. split; [|exact Hx]. cbn. by apply lookup_alter_is_Some. }
  intros [[]|e] m1 Hm1; [|done]. apply safe_bind, kept_act; [done|]. intros [[]|e] m2 Heq2; [|by rewrite Heq2].
  assert (kept m2) as Hm2 by by rewrite Heq2.
  assert (∀ m3, kept m3 → safe kept (λ _, kept)
    (_ ← commit_or (Return (Ok ())) (λ s, Some (accept c id (Z.of_nat (length (sealed, digest).1)) (sealed, digest).2 (now r) s)); remove_upload_files u) m3) as Hrest.
  { intros m3 Hm3. apply safe_bind, kept_commit; [done| |intros [[]|e] m4 Hm4; [by apply kept_remove_upload|done]].
    intros s [= <-]. destruct Hm3 as [Hr (x & Hx & Hn & _)]. split; [cbn; by apply lookup_alter_is_Some|].
    eexists. cbn. rewrite lookup_alter_eq, Hx. split_and!; [done|exact Hn|]. right. by eexists. }
  apply safe_bind. destruct (media_storage_name (media_of row)) as [old|]; [|split; [done|by apply Hrest]].
  destruct (bool_decide (old = "") || bool_decide (old = _)); [split; [done|by apply Hrest]|].
  apply kept_act; [done|]. intros [[]|e] m3 Heq3; [|by rewrite Heq3]. apply Hrest. by rewrite Heq3.
Qed.

Lemma finish_job_end e elapsed m : kept m → job_end id t attempts (finish_job id e elapsed t (committed m)).
Proof using Type.
  intros [[q Hq] (x & Hx & Hn & Hw)]. unfold finish_job. rewrite Hx.
  assert (job_end id t attempts (update id (λ r, r) (measured elapsed t) (committed m))) as Hsame.
  { exists (measured elapsed t x). cbn. rewrite lookup_alter_eq, Hx. split; [done|]. destruct Hw as [Hw|Hw]; [left|right; left]; exact Hw. }
  destruct e as [e|]; [|exact Hsame]. case_bool_decide as Hacc; [|exact Hsame].
  exists (measured elapsed t (failed_receipt e t x)). cbn. rewrite !lookup_alter_eq, Hx. split; [done|]. right. right.
  unfold retried, refused_job, failed_receipt, failed_recording. cbn.
  rewrite !lookup_alter_eq, Hq. cbn. rewrite Hn.
  destruct (bool_decide (error_code e = Some 409%Z)); cbn [orb]; [right|].
  { split; [by right|]. eexists. split_and!; [done| |by eexists]. cbn. by rewrite orb_true_r. }
  destruct (bool_decide (error_code e = Some 422%Z)); cbn [orb]; [right|left].
  { split; [by left|]. eexists. split_and!; [done|done|by eexists]. }
  split; [done|]. eexists. split_and!; [done|done|]. unfold backoff. lia.
Qed.
End Interrupted.

Lemma process_next_ends r free prior elapsed id x row m m' :
  next_receipt (now r) (committed m) = Some (id, x) → recordings (committed m) !! id = Some row → rec_status row ≠ Deleted →
  leaves (process_next cfg c r free prior elapsed) m m' → job_end id (now r) (run_attempts x + 1) (committed m').
Proof using Type*.
  intros Hnext Hrow Hst Hl. set (I := λ m : host, job_end id (now r) (run_attempts x + 1) (committed m)).
  pose proof (next_receipt_ok _ _ _ _ Hnext) as [Hx Hwork].
  assert (I m) as Hm by (exists x; auto).
  enough (safe I (λ _, I) (process_next cfg c r free prior elapsed) m) as Hs by exact (safe_leaves _ _ _ _ _ Hs Hl).
  assert (∀ m', taken_up id (now r) (run_attempts x + 1) (committed m') → I m') as Hkept.
  { intros m1 [_ (y & Hy & _ & Hw)]. exists y. split; [done|]. destruct Hw; auto. }
  unfold process_next. apply safe_bind, safe_look; [done|]. rewrite Hnext. apply safe_bind. split; [done|]. rewrite Hrow. cbn [of_option].
  rewrite bool_decide_false by done.
  apply safe_bind, safe_bind, safe_commit; [done| | |].
  2,3: intros; by repeat split.
  intros s1 [= <-]. set (m1 := with_committed _ m).
  assert (taken_up id (now r) (run_attempts x + 1) (committed m1)) as Hm1.
  { split; cbn; [by rewrite lookup_alter_eq, Hrow; eexists|]. rewrite lookup_alter_eq, Hx. eexists. split_and!; [done|done|]. left.
    revert Hwork. unfold workable. cbn. rewrite !andb_true_iff. intros [_ ?]. split; [|done]. apply bool_decide_true. set_solver. }
  split; [by apply Hkept|]. split; [by apply Hkept|]. apply safe_bind, safe_look; [by apply Hkept|].
  apply safe_bind, safe_catch, safe_bind. eapply (safe_mono (λ m, taken_up id (now r) (run_attempts x + 1) (committed m)));
    [exact Hkept| |by apply (run_job_kept id (now r) (run_attempts x + 1))].
  assert (∀ outcome m2, taken_up id (now r) (run_attempts x + 1) (committed m2) → safe I (λ _, I)
    (_ ← commit_or (Return (Ok ())) (λ s, Some (finish_job id outcome elapsed (now r) s)); Return (Ok true)) m2) as Hfinish.
  { intros outcome m2 Hm2. apply safe_bind, safe_bind, safe_commit; [by apply Hkept| | |].
    2,3: intros; (split; [by apply Hkept|]); by apply Hkept.
    intros s2 [= <-]. assert (I (with_committed (finish_job id outcome elapsed (now r) (committed m2)) m2)) as Hend by by apply finish_job_end.
    by repeat split. }
  intros [[]|e] m2 Hm2 _; (split; [by apply Hkept|]); by apply Hfinish.
Qed.
End Job.
