(* ===== verification/VoicemailCorrect.v ===== *)
(** * What is played of a recording, and the recordings of a call from their reservation to their end *)
From Stdlib Require Import Ascii.
From stdpp Require Import base gmap sets strings numbers pretty relations list.
From S2P Require Import Prelude FlowTree Schemas Json Crypto Documents Store Drafts Revisions V4Api Diff Devices DevicesFacts Policies Calls Recordings RecordingsFacts RecordingsCorrect Wave Script Storage StorageFacts StorageInvariant StorageCorrect StorageRepair Voicemail Segments Continuous VoicemailInvariant.

(** ** What is played *)

Section Correct.
Context `{CryptographyLaws} `{KeyDerivation} `{Transcoder} (key : bytes) (cfg : recording_settings) (c : recording_cipher).

Lemma truthy_valid name : valid_media_name name = true → truthy (Some name) = true.
Proof using Type.
  intros (Hlen & _)%valid_media_name_spec. unfold truthy. rewrite bool_decide_false; [done|]. by intros ->.
Qed.

Lemma load_media_plays id r name payload p d :
  rec_status r = Ready → media_storage_name (media_of r) = Some name → valid_media_name name = true → playable c id r payload →
  decrypt_media c id payload = Ok p → root d !! name = Some (PrivateFile payload) →
  load_media c id r d = Ok p ∧ media_sha256 (media_of r) = Some (sha256_hexdigest p).
Proof using Type.
  intros Hst Hn Hv (q & v & Hsize & Hver & Hpv & Hq & Hsha) Hp Hf. assert (q = p) as -> by congruence. split; [|done].
  unfold load_media. rewrite bool_decide_false by auto. rewrite Hn, truthy_valid by done. cbn [negb orb].
  unfold media_path, require_safe_file. rewrite Hn, Hv, Hf. cbn [mbind result_bind]. rewrite ?Hf.
  cbn [mbind result_bind]. rewrite bool_decide_false by auto. rewrite Hver, Hpv. cbn [mbind result_bind]. rewrite bool_decide_false by auto.
  rewrite Hp. cbn [mbind result_bind]. rewrite Hsha, bool_decide_false by auto. by rewrite andb_false_r.
Qed.
Lemma load_media_ok id r name payload d :
  rec_status r = Ready → media_storage_name (media_of r) = Some name → valid_media_name name = true → playable c id r payload →
  root d !! name = Some (PrivateFile payload) →
  ∃ p, load_media c id r d = Ok p ∧ media_sha256 (media_of r) = Some (sha256_hexdigest p).
Proof using Type.
  intros Hst Hn Hv Hplay Hf. pose proof Hplay as (p & _ & _ & _ & _ & Hp & _). exists p. by eapply load_media_plays.
Qed.

End Correct.

(** ** Byte ranges *)

Lemma split_once_none sep l : (split_once sep l).2 = None ↔ sep ∉ l.
Proof.
  induction l as [|c l IH]; [by split; [intros _; apply not_elem_of_nil|]|]. cbn [split_once].
  destruct (Ascii.eqb_spec c sep) as [->|Hne]; [split; [done|by rewrite not_elem_of_cons; intros []]|].
  destruct (split_once sep l) as [a b]. cbn in *. rewrite IH, not_elem_of_cons. naive_solver.
Qed.

Lemma served_bounds (bounds : Z * Z) size r :
  (if (bounds.1 <? 0)%Z || (size <=? bounds.1)%Z || (bounds.2 <? bounds.1)%Z
   then Raise (range_error "Byte range is outside the recording")
   else Ok (Some (bounds.1, Z.min bounds.2 (size - 1)))) = r →
  match r with
  | Ok o => ∃ a b, o = Some (a, b) ∧ (0 ≤ a ≤ b ∧ b < size)%Z
  | Raise e => ∃ message, e = range_error message
  end.
Proof.
  destruct (Z.ltb_spec bounds.1 0), (Z.leb_spec size bounds.1), (Z.ltb_spec bounds.2 bounds.1); intros <-; cbn; eauto.
  eexists _, _. split; [done|]. lia.
Qed.

(** A text of decimal digits, and the number it is *)
Definition decimal (text : string) : Prop := text ≠ "" ∧ forallb (char_in 48 57) (to_bytes text) = true.

Lemma digit_code lo hi c : char_in lo hi c = true ↔ lo ≤ nat_of_ascii c ≤ hi.
Proof. unfold char_in. by rewrite andb_true_iff, !Nat.leb_le. Qed.
Lemma digit_apart c : char_in 48 57 c = true → ascii_space c = false ∧ char_in 45 45 c = false ∧ char_in 43 43 c = false ∧
  c ≠ "-"%char ∧ c ≠ ","%char.
Proof.
  rewrite digit_code. intros Hc. unfold ascii_space. split_and!; [|..];
    try (apply not_true_iff_false; rewrite ?orb_true_iff, ?digit_code; lia); intros ->; vm_compute in Hc; lia.
Qed.
Lemma lstrip_digits l : forallb (char_in 48 57) l = true → lstrip ascii_space l = l.
Proof. destruct l as [|c l]; [done|]. cbn [forallb lstrip]. by intros [(-> & _)%digit_apart _]%andb_true_iff. Qed.
Lemma digits_apart x l : forallb (char_in 48 57) l = true → x ∈ l → x ≠ "-"%char ∧ x ≠ ","%char.
Proof. intros Hl Hx. apply list_elem_of_In in Hx. by apply (proj1 (forallb_forall _ _) Hl), digit_apart in Hx as (_ & _ & _ & ?). Qed.
Lemma int_digits_decimal l acc : (0 ≤ acc)%Z → forallb (char_in 48 57) l = true → ∃ n, int_digits l acc true = Some n ∧ (0 ≤ n)%Z.
Proof.
  revert acc. induction l as [|c l IH]; intros acc Hacc; [by exists acc|]. cbn [forallb int_digits]. intros [-> Hl]%andb_true_iff.
  apply IH; [lia|done].
Qed.
Lemma python_int_decimal text : decimal text → ∃ n, python_int text = Some n ∧ (0 ≤ n)%Z.
Proof.
  intros [Hne Hd]. unfold python_int, py_strip. change (String.list_ascii_of_string text) with (to_bytes text).
  assert (forallb (char_in 48 57) (reverse (to_bytes text)) = true) as Hrev.
  { rewrite forallb_forall in Hd |- *. intros c Hc. by apply Hd, list_elem_of_In, elem_of_reverse, list_elem_of_In. }
  rewrite (lstrip_digits (to_bytes text)), (lstrip_digits (reverse _)), reverse_involutive by done.
  destruct (to_bytes text) as [|c l] eqn:E.
  { by destruct text. }
  cbn [forallb] in Hd. apply andb_true_iff in Hd as [Hc Hl]. destruct (digit_apart _ Hc) as (_ & -> & -> & _).
  cbn [int_digits]. rewrite Hc. apply int_digits_decimal; [lia|done].
Qed.

Lemma split_once_at sep a b : sep ∉ a → split_once sep (a ++ sep :: b) = (a, Some b).
Proof.
  induction a as [|c a IH]; cbn [app split_once]; [by rewrite Ascii.eqb_refl|].
  rewrite not_elem_of_cons. intros [Hne Ha]. rewrite (proj2 (Ascii.eqb_neq _ _)) by done. by rewrite IH.
Qed.

(** The text of a range is parted at its dash. *)
Lemma range_parts a b : forallb (char_in 48 57) (to_bytes a) = true → forallb (char_in 48 57) (to_bytes b) = true →
  has_prefix "bytes=" ("bytes=" +:+ a +:+ "-" +:+ b) = true ∧ (","%char ∉ to_bytes ("bytes=" +:+ a +:+ "-" +:+ b)) ∧
  split_once "-" (drop 6 (to_bytes ("bytes=" +:+ a +:+ "-" +:+ b))) = (to_bytes a, Some (to_bytes b)).
Proof.
  intros Ha Hb. assert (to_bytes ("bytes=" +:+ a +:+ "-" +:+ b) = to_bytes "bytes=" ++ to_bytes a ++ "-"%char :: to_bytes b) as Heq.
  { unfold to_bytes. by rewrite !list_ascii_app. }
  split; [unfold has_prefix; cbn; by rewrite ?Heq|]. rewrite Heq. split.
  - rewrite !not_elem_of_app, not_elem_of_cons. split; [|split; [|split; [done|]]].
    + cbn. repeat (rewrite not_elem_of_cons; split; [done|]). apply not_elem_of_nil.
    + intros Hin. by destruct (digits_apart _ _ Ha Hin).
    + intros Hin. by destruct (digits_apart _ _ Hb Hin).
  - change (drop 6 (to_bytes "bytes=" ++ ?l)) with l. apply split_once_at. intros Hin. by destruct (digits_apart _ _ Ha Hin).
Qed.

(** What is answered lies within the recording, and the errors *)
Definition within (value : option string) (size : Z) (answer : result (option (Z * Z))) : Prop :=
  match answer with
  | Ok None => value = None
  | Ok (Some (a, b)) => (0 ≤ a ≤ b ∧ b < size)%Z
  | Raise e => (∃ message, e = range_error message)
               ∨ e = IndexError ∧ ∃ text, value = Some text ∧ has_prefix "bytes=" text = true
                                         ∧ "-"%char ∉ drop 6 (to_bytes text)
  end.
Lemma parse_range_within value size : within value size (parse_range value size).
Proof.
  unfold within. destruct value as [text|]; [|done]. unfold parse_range.
  destruct (has_prefix "bytes=" text) eqn:Hp; cbn [negb orb]; [|eauto].
  case_bool_decide; [eauto|]. pose proof (split_once_none "-" (drop 6 (to_bytes text))) as Hdash.
  destruct (split_once "-" (drop 6 (to_bytes text))) as [first second]. cbn [snd] in Hdash.
  assert (second = None → ∃ text0, Some text = Some text0 ∧ has_prefix "bytes=" text0 = true ∧ "-"%char ∉ drop 6 (to_bytes text0))
    as Hindex by (intros ->; exists text; naive_solver).
  match goal with |- match mbind ?f ?x with _ => _ end => set (bounds := x); set (k := f) end.
  assert (match bounds with Ok _ => True
          | Raise e => (∃ message, e = range_error message) ∨ e = IndexError ∧ second = None end) as Hb.
  { subst bounds. case_bool_decide.
    - destruct second as [last|]; [|by right]. cbn [of_option mbind result_bind].
      destruct (python_int _) as [n|]; cbn [of_option mbind result_bind]; [|eauto]. destruct (_ <=? _)%Z; eauto.
    - destruct (python_int _) as [start|]; cbn [of_option mbind result_bind]; [|eauto].
      destruct second as [last|]; [|by right]. cbn [of_option mbind result_bind]. case_bool_decide; [done|].
      destruct (python_int _) as [n|]; cbn [of_option mbind result_bind]; eauto. }
  destruct bounds as [bounds|e]; cbn [mbind result_bind]; [|destruct Hb as [?|[-> ?]]; eauto].
  pose proof (served_bounds bounds size (k bounds) eq_refl) as Hs. destruct (k bounds) as [o|e].
  - destruct Hs as (a & b & -> & ?). done.
  - by left.
Qed.

Definition outside : exn := range_error "Byte range is outside the recording".
Lemma bounded_range i j size : (0 ≤ i)%Z →
  (if (i <? 0)%Z || (size <=? i)%Z || (j <? i)%Z then Raise outside else Ok (Some (i, Z.min j (size - 1))))
  = if (i <? size)%Z && (i <=? j)%Z then Ok (Some (i, Z.min j (size - 1))) else Raise outside.
Proof. intros Hi. destruct (Z.ltb_spec i 0), (Z.leb_spec size i), (Z.ltb_spec j i), (Z.ltb_spec i size), (Z.leb_spec i j); done || lia. Qed.

(** C30 the byte range of an answer.  Without the header the whole recording is sent.  A range that
    is answered lies within the recording; every other text is refused with status 416, but for a
    text without a dash, whose error nothing catches.  The three forms of a range of decimal
    numbers are answered as they should be: from the first to the last byte or the end of the
    recording, from the first byte to the end, and the last bytes. *)
Theorem parse_range_exact size :
  (∀ value, within value size (parse_range value size)) ∧
  ∀ a b, decimal a → decimal b → ∃ i j, python_int a = Some i ∧ python_int b = Some j ∧ (0 ≤ i)%Z ∧ (0 ≤ j)%Z ∧
    parse_range (Some ("bytes=" +:+ a +:+ "-" +:+ b)) size =
      (if (i <? size)%Z && (i <=? j)%Z then Ok (Some (i, Z.min j (size - 1))) else Raise outside) ∧
    parse_range (Some ("bytes=" +:+ a +:+ "-")) size = (if (i <? size)%Z then Ok (Some (i, size - 1)%Z) else Raise outside) ∧
    parse_range (Some ("bytes=-" +:+ b)) size =
      if (j <=? 0)%Z then Raise (range_error "Invalid byte range")
      else if (0 <? size)%Z then Ok (Some (Z.max 0 (size - j), size - 1)%Z) else Raise outside.
Proof.
  split; [intros value; apply parse_range_within|]. intros a b Ha Hb.
  destruct (python_int_decimal a Ha) as (i & Hi & Hi0), (python_int_decimal b Hb) as (j & Hj & Hj0). exists i, j.
  assert (∀ t, of_bytes (to_bytes t) = t) as Hof by (intros t; apply String.string_of_list_ascii_of_string).
  assert (∀ t, decimal t → bool_decide (to_bytes t = []) = false) as Hne.
  { intros t [Ht _]. apply bool_decide_eq_false. by destruct t. }
  do 4 (split; [done|]). split; [|split].
  - destruct (range_parts a b) as (Hp & Hc & Hs); [apply Ha|apply Hb|]. unfold parse_range.
    rewrite Hp, bool_decide_false, Hs by done. cbn [negb orb of_option mbind result_bind fst snd]. rewrite !Hof, !Hne, Hi, Hj by done. cbn [negb orb of_option mbind result_bind fst snd].
    by apply bounded_range.
  - destruct (range_parts a "") as (Hp & Hc & Hs); [apply Ha|done|]. change ("bytes=" +:+ a +:+ "-") with ("bytes=" +:+ a +:+ "-" +:+ "").
    unfold parse_range. rewrite Hp, bool_decide_false, Hs by done. cbn [negb orb of_option mbind result_bind fst snd]. rewrite !Hof, Hi, !Hne by done.
    cbn [negb orb of_option mbind result_bind fst snd to_bytes String.list_ascii_of_string]. rewrite bool_decide_true by done. cbn [mbind result_bind fst snd].
    etransitivity; [by apply bounded_range|]. rewrite Z.min_id. destruct (Z.ltb_spec i size), (Z.leb_spec i (size - 1)); done || lia.
  - destruct (range_parts "" b) as (Hp & Hc & Hs); [done|apply Hb|]. change ("bytes=-" +:+ b) with ("bytes=" +:+ "" +:+ "-" +:+ b).
    unfold parse_range. rewrite Hp, bool_decide_false, Hs by done. cbn [negb orb of_option mbind result_bind fst snd]. rewrite !Hof, Hj by done.
    cbn [negb orb of_option mbind result_bind fst snd to_bytes String.list_ascii_of_string]. rewrite bool_decide_true by done.
    destruct (Z.leb_spec j 0); [done|]. cbn [mbind result_bind fst snd]. etransitivity; [apply bounded_range; lia|]. rewrite Z.min_id.
    destruct (Z.ltb_spec 0 size), (Z.ltb_spec (Z.max 0 (size - j)) size), (Z.leb_spec (Z.max 0 (size - j)) (size - 1)); done || lia.
Qed.

Theorem parse_range_exact_witness : parse_range (Some "bytes=1-7") 5 = Ok (Some (1, 4)%Z).
Proof.
  destruct (proj2 (parse_range_exact 5) "1" "7") as (i & j & Hi & Hj & _ & _ & E & _); [split; [discriminate|reflexivity]..|].
  assert (python_int "1" = Some 1%Z) as Hone by reflexivity. assert (python_int "7" = Some 7%Z) as Hseven by reflexivity.
  rewrite Hone in Hi. rewrite Hseven in Hj. injection Hi as <-. injection Hj as <-. exact E.
Defined.

(** The error that nothing catches *)
Example range_without_dash : parse_range (Some "bytes=5") 10 = Raise IndexError.
Proof. reflexivity. Qed.

(** ** A recording from its reservation to its end *)

Module Demo.
Definition derivation : KeyDerivation := {| hkdf master_key _ := master_key |}.
Definition transcoder : Transcoder := {| ffmpeg _ _ := Some (0%Z, to_bytes "ID3-demo") |}.
#[local] Existing Instances plain_suite derivation transcoder.

Definition key : bytes := replicate 32 (octet 5).
Definition cipher : recording_cipher := {| master_keys := {[1%Z := replicate 32 (octet 7)]}; cipher_version := 1 |}.
Definition config : recording_settings :=
  {| recording_quota_bytes := 1000000; recording_chunk_limit_bytes := 1048576; recording_upload_limit_bytes := 41943040;
     recording_abandoned_upload_hours := 24;
     audit_recording_quota_bytes := 500000; audit_recording_reserve_bytes := 1000; development_admin_email := "owner@localhost" |}.
Definition moment : datetime := datetime_of_instant 1760000000000000.
Definition at_moment : timestamp := {| local := moment; utc_offset := Some 0%Z |}.
Definition hex_digit_name (c : ascii) : string := of_bytes (replicate 32 c).
Definition request_of (uuid : ascii) : request :=
  {| now := moment; nonce := λ _, replicate 12 (octet 9); uuid_hex := hex_digit_name uuid; actor := "owner@localhost" |}.

(** 48 frames of silence *)
Definition little (k : nat) (n : N) : bytes := reverse (Sha256.big_endian k n).
Definition wav : bytes :=
  to_bytes "RIFF" ++ little 4 228 ++ to_bytes "WAVEfmt " ++ little 4 16 ++ little 2 1 ++ little 2 2 ++ little 4 48000
  ++ little 4 192000 ++ little 2 4 ++ little 2 16 ++ to_bytes "data" ++ little 4 192 ++ replicate 192 zero.

Definition block_id : string := "0b1e8f1e-9d3b-4f2a-8c1d-111111111111".
Definition manifest : json :=
  JObj [("program", JObj [("instructions", JList [JObj [("op", JStr "record_message"); ("block_id", JStr block_id)]])]);
        ("recording_behavior", JObj [("finish_key", JStr "#"); ("maximum_duration_seconds", JInt 60)])].
Definition revision : revision_row :=
  {| revision_schema_version := 4; manifest_encrypted := seal key (replicate 12 (octet 3)) manifest; manifest_sha256 := "";
     signature_b64 := []; source_revision_id := None; published_at := moment; published_by := "owner@localhost" |}.
Definition library : store :=
  {| drafts := ∅; archive := []; prompts := ∅; revisions := {[1%Z := revision]}; next_revision := 2; devices := ∅; audit_log := [] |}.
Definition call : call_row :=
  {| call_device := "tablet"; call_started := at_moment; caller_encrypted := None; caller_last4 := ""; policy_decision := "ALLOWED";
     call_revision := Some 1%Z; menu_path := []; call_result := "COMPLETED"; duration_seconds := 30; ended_at := None;
     cleanup_status := None; terminal_notification_scheduled := false; events := []; call_audit := None; received_at := moment |}.
Definition history : call_store := {| call_records := {["call" := call]}; receipts := ∅ |}.
Definition body : recording_request :=
  {| create_recording_id := "rec"; create_call_id := "call"; create_revision_id := 1; create_block_id := block_id; create_sequence := 0;
     create_captured_at := at_moment; create_duration_ms := 1; create_stop_reason := "finish_key"; create_expected_size := 236;
     create_sha256 := sha256_hexdigest wav |}.

Definition start : host := no_recordings.
Definition create : program upload_response := create_recording key config (request_of "a") "tablet" body library history.
Definition send : program upload_response :=
  upload_recording_content config cipher (request_of "b") "tablet" "rec" (Some 0%Z) "application/offset+octet-stream" None [wav].
Definition finish : program upload_response := complete_recording config cipher key (request_of "c") "tablet" "rec" {| call_records := ∅; receipts := ∅ |}.
Definition reserved_state : host := (perform create start).2.
Definition sent_state : host := (perform send reserved_state).2.
Definition finished_state : host := (perform finish sent_state).2.

Lemma create_succeeds : is_ok (perform create start).1 = true.
Proof. by vm_compute. Qed.
Lemma send_succeeds : is_ok (perform send reserved_state).1 = true.
Proof. by vm_compute. Qed.
Lemma finish_succeeds : is_ok (perform finish sent_state).1 = true.
Proof. by vm_compute. Qed.

Definition raced_state : host := (perform_with 6 reconcile_recording_storage finish sent_state).2.
(** [reconcile_recording_storage] of the hourly maintenance reads the rows without a lock.  It
    may run after [finalize_recording] has placed the file and before its transaction: the
    file belongs to no row yet and is removed, and the recording is then ready without one. *)
Lemma maintenance_removes_new_media :
  is_ok (perform_with 6 reconcile_recording_storage finish sent_state).1 = true ∧
  ∃ r, recordings (committed raced_state) !! "rec" = Some r ∧ rec_status r = Ready ∧
    load_media cipher "rec" r (on_disk raced_state) = Raise (RecordingError "Recording storage is unavailable." 503).
Proof. split; [by vm_compute|]. eexists. split; [by vm_compute|]. split; by vm_compute. Qed.
End Demo.

(** A call whose operator was reached: its recording as one upload, and the same in segments *)
Module CallDemo.
Import Demo.
Definition encoder : PcmEncoder :=
  {| encode_conversation _ := Some (0%Z, Some (to_bytes "ID3-demo")); encode_continuous _ := Some (0%Z, "", Some (to_bytes "ID3-demo")) |}.
#[local] Existing Instances plain_suite plain_suite_laws derivation transcoder encoder.

Definition conversation_manifest : json :=
  JObj [("program", JObj [("instructions", JList [JObj [("op", JStr "external_call"); ("block_id", JStr block_id);
                                                       ("phone_number", JStr "+15551234567")]])])].
Definition conversation_revision_row : revision_row :=
  {| revision_schema_version := 4; manifest_encrypted := seal key (replicate 12 (octet 3)) conversation_manifest; manifest_sha256 := "";
     signature_b64 := []; source_revision_id := None; published_at := moment; published_by := "owner@localhost" |}.
Definition shelf : store :=
  {| drafts := ∅; archive := []; prompts := ∅; revisions := {[1%Z := conversation_revision_row]}; next_revision := 2; devices := ∅; audit_log := [] |}.
Definition connected : document :=
  [("event", JStr "external_call"); ("occurred_at", JStr (dump_timestamp at_moment)); ("status", JStr "CONFERENCED");
   ("block_id", JStr block_id); ("reason", JStr "ANSWERED")].
Definition operator_call : call_row :=
  {| call_device := "tablet"; call_started := at_moment; caller_encrypted := None; caller_last4 := ""; policy_decision := "ALLOWED";
     call_revision := Some 1%Z; menu_path := []; call_result := "COMPLETED"; duration_seconds := 30; ended_at := None;
     cleanup_status := None; terminal_notification_scheduled := false; events := [connected]; call_audit := None; received_at := moment |}.
Definition calls : call_store := {| call_records := {["call" := operator_call]}; receipts := ∅ |}.

(** One upload *)
Definition pcm : bytes := replicate 192 zero.
Definition announced : continuous_request :=
  {| format_version := 1; body_receipt := None; body_recording := "talk"; body_call := "call"; body_kind := "conversation";
     body_revision := Some 1%Z; body_block := Some block_id; body_policy := None; body_captured := at_moment; body_frames := 48;
     body_duration := 1; body_expected := 192; body_sha256 := sha256_hexdigest pcm; body_partial := false;
     body_stop_reason := "operator_hangup" |}.
Definition spools (id : string) : spool := {| audio := pcm; chunk_bytes := 192; told := 0 |}.
Definition no_policies : policy_tables := 
  {| audit_policies := ∅; audit_acknowledgements := ∅; safety_policies := ∅; safety_acknowledgements := ∅ |}.
Definition announce := create_continuous key config (request_of "a") "tablet" 1000000 announced shelf no_policies calls.
Definition announced_state : host := (perform announce no_recordings).2.
Definition upload := continuous_content config cipher (request_of "b") "tablet" "talk" 0 1000000 None [pcm].
Definition uploaded_state : host := (perform upload announced_state).2.
Definition finish_upload := continuous_complete (request_of "c") "tablet" "talk".
Definition queued_state : host := (perform finish_upload uploaded_state).2.

Definition work : program bool := process_next config cipher (request_of "d") 1000000 [("job-1", true)] 7.
Definition answer_of (p : program continuous_response) (m : host) : Z :=
  match (perform p m).1 with Ok a => continuous_offset a | Raise _ => 0 end.

(** In segments *)
Definition conversation : conversation_request :=
  {| conversation_recording := "parts"; conversation_call := "call"; conversation_revision := 1; conversation_block := block_id;
     conversation_captured := at_moment |}.
Definition segment : segment_request :=
  {| request_recording := "parts"; request_call := "call"; request_index := 0; request_captured := at_moment; request_duration := 1;
     request_stop_reason := "operator_hangup"; request_expected := 236; request_sha256 := sha256_hexdigest wav; request_partial := false |}.
Definition open_conversation := create_conversation_recording key (request_of "a") "tablet" conversation shelf calls.
Definition open_state : host := (perform open_conversation no_recordings).2.
Definition open_segment := create_conversation_segment config (request_of "b") "tablet" "parts" 0 1 block_id segment calls.
Definition segment_state : host := (perform open_segment open_state).2.
Definition send_segment :=
  upload_conversation_segment_content config cipher (request_of "b") "tablet" "parts" 0 (Some 0%Z) "application/offset+octet-stream" None [wav].
Definition segment_sent_state : host := (perform send_segment segment_state).2.
Definition check_segment := complete_conversation_segment cipher (request_of "c") "tablet" "parts" 0.
Definition checked_state : host := (perform check_segment segment_sent_state).2.
Definition assemble := complete_conversation_recording config cipher key (request_of "d") "tablet" "parts" 1 calls.
Definition assembled_state : host := (perform assemble checked_state).2.
(** And in two segments *)
Definition piece_request (index : Z) (reason : string) : segment_request :=
  {| request_recording := "parts"; request_call := "call"; request_index := index; request_captured := at_moment; request_duration := 1;
     request_stop_reason := reason; request_expected := 236; request_sha256 := sha256_hexdigest wav; request_partial := false |}.
Definition send_piece (a b : ascii) (index : Z) (reason : string) (m : host) : host :=
  let m := (perform (create_conversation_segment config (request_of a) "tablet" "parts" index 1 block_id (piece_request index reason) calls) m).2 in
  let m := (perform (upload_conversation_segment_content config cipher (request_of a) "tablet" "parts" index (Some 0%Z)
                       "application/offset+octet-stream" None [wav]) m).2 in
  (perform (complete_conversation_segment cipher (request_of b) "tablet" "parts" index) m).2.
Definition pieces_state : host := send_piece "e" "f" 1 "operator_hangup" (send_piece "b" "c" 0 "segment_boundary" open_state).
Definition assemble_pieces := complete_conversation_recording config cipher key (request_of "d") "tablet" "parts" 2 calls.

(** The server dies while it inspects the segment. *)
Definition interrupted_state : host := cut_off 2 check_segment segment_sent_state.
Lemma demo_version : (0 ≤ cipher_version cipher < 2 ^ 32)%Z.
Proof. by vm_compute. Qed.
End CallDemo.
