(* ===== verification/AssemblyCorrect.v ===== *)
(** * What an assembled recording plays

    The audio of a segmented recording is that of its segments, one after the other. *)
From Stdlib Require Import Ascii.
From stdpp Require Import base gmap sets strings numbers pretty relations sorting list.
From S2P Require Import Prelude FlowTree Schemas Json Crypto Documents Store Drafts Revisions V4Api Diff Devices Policies Calls Recordings RecordingsFacts RecordingsCorrect Wave WaveFacts Script Storage StorageFacts StorageInvariant StorageCorrect Voicemail Segments Continuous VoicemailInvariant SegmentsInvariant ContinuousInvariant ContinuousCorrect VoicemailCorrect.

Section Assembly.
Context `{CryptographyLaws} `{KeyDerivation} `{PcmEncoder} (cfg : recording_settings) (c : recording_cipher).

(** ** The loop over the segments *)

(** A segment as it was received, with what inspection says of it. *)
Definition received_part (id : string) (d : disk) (g : Z * segment_row) (p : bytes * WavDetails) : Prop :=
  write_uploaded_wav c id g.1 (segment_upload g.2) (upload_directory (segment_upload g.2) d) = Ok p.1 ∧
  inspect_pcm_wav p.1 (segment_duration_ms g.2) = Ok p.2.
Definition captured_instant (g : Z * segment_row) : Z := utc (segment_captured g.2).
Definition total_duration (parts : list (bytes * WavDetails)) : Z := foldr Z.add 0%Z (map (λ p, wav_duration_ms p.2) parts).
Definition joined_samples (parts : list (bytes * WavDetails)) : bytes := concat (map (λ p, samples p.1) parts).

Lemma combine_segments id d segs parts : ∀ previous total pcm,
  Forall2 (received_part id d) segs parts → Sorted Z.le (map captured_instant segs) →
  match previous with Some t => HdRel Z.le t (map captured_instant segs) | None => True end →
  ∃ previous', foldM (combine_segment c id d) (previous, total, pcm) segs
               = Ok (previous', (total + total_duration parts)%Z, pcm ++ joined_samples parts).
Proof using Type.
  revert parts. induction segs as [|g segs IH]; intros parts previous total pcm Hparts Hsorted Hprevious; inversion Hparts as [|? p ? parts' [Hw Hi] Hrest]; subst.
  { exists previous. cbn. unfold joined_samples. cbn. by rewrite app_nil_r, Z.add_0_r. }
  inversion Hsorted as [|? ? Hs Hhd]; subst. cbn [foldM].
  destruct (inspect_pcm_wav_ok _ _ _ Hi) as (_ & _ & _ & f & ch & Hopen & Hframes & Hread).
  assert (combine_segment c id d (previous, total, pcm) g
          = Ok (Some (captured_instant g), (total + wav_duration_ms p.2)%Z, pcm ++ samples p.1)) as ->.
  { unfold combine_segment. cbn zeta.
    assert (match previous with Some t => (utc (segment_captured g.2) <? t)%Z | None => false end = false) as ->.
    { destruct previous as [t|]; [|done]. inversion Hprevious; subst. by apply Z.ltb_ge. }
    rewrite Hw. cbn [mbind result_bind]. rewrite Hi. cbn [mbind result_bind]. rewrite Hopen. cbn [mbind result_bind].
    by rewrite Hframes, Hread. }
  cbn [mbind result_bind]. destruct (IH parts' (Some (captured_instant g)) (total + wav_duration_ms p.2)%Z (pcm ++ samples p.1) Hrest Hs Hhd)
    as [previous' ->].
  exists previous'. unfold total_duration, joined_samples. cbn [map foldr concat]. by rewrite <- app_assoc, Z.add_assoc.
Qed.

(** ** Assembly *)

Lemma perform_temporary_directory {A} name (body : program A) m a m1 :
  root (on_disk m) !! name = None → perform body (on_root <[name := PrivateDirectory]> m) = (Ok a, m1) →
  perform (temporary_directory name body) m = (Ok a, on_root (delete name) m1).
Proof using Type.
  intros Hname Hbody. unfold temporary_directory. cbn zeta. rewrite perform_bind, perform_act, Hname.
  fold (on_root <[name := PrivateDirectory]> m). rewrite perform_bind, perform_catch, Hbody. by rewrite perform_bind, perform_act.
Qed.

Lemma perform_assemble r id row segs policy abandoned parts media m :
  check_segments abandoned segs = Ok () → Sorted Z.le (map captured_instant segs) → Forall2 (received_part id (on_disk m)) segs parts →
  encode_conversation (joined_samples parts) = Some (0%Z, Some media) →
  starts_with (to_bytes "ID3") media || starts_with [octet 255] media = true →
  is_Some (union policy (retention (committed m))) →
  (recording_used_bytes None (Some id) (committed m) + (Z.of_nat (length media) + Z.of_nat (length MEDIA_MAGIC) + 4 + 12 + 16)
     ≤ recording_quota_bytes cfg)%Z →
  valid_upload_name (uuid_hex r) = true → length (nonce r 0) = 12 →
  is_Some (master_keys c !! cipher_version c) → (0 ≤ cipher_version c < 2 ^ 32)%Z →
  root (on_disk m) !! (".conversation-" +:+ uuid_hex r) = None → root (on_disk m) !! (uuid_hex r +:+ ".rec") = None →
  ∃ sealed mc m1, perform (assemble_conversation_recording cfg c r id row segs policy abandoned) m
    = (Ok (uuid_hex r +:+ ".rec", assembled_row abandoned segs (total_duration parts) (joined_samples parts) mc (now r) row), m1) ∧
    committed m1 = committed m ∧ root (on_disk m1) !! (uuid_hex r +:+ ".rec") = Some (PrivateFile sealed) ∧
    media_storage_name mc = Some (uuid_hex r +:+ ".rec") ∧ media_sha256 mc = Some (sha256_hexdigest media) ∧
    decrypt_media c id sealed = Ok media ∧ ∀ q, media_of q = mc → playable c id q sealed.
Proof using Type*.
  intros Hcheck Hsorted Hparts Henc Hid3 [p Hpolicy] Hquota Hv Hn Hkey Hver Htmp Hname.
  pose proof (valid_new_media_name _ Hv) as Hvn. set (name := uuid_hex r +:+ ".rec") in *.
  destruct (seal_with_total MEDIA_MAGIC (media_aad id) (nonce r 0) c id media Hkey Hver) as [sealed Hsealed].
  pose proof (open_seal MEDIA_MAGIC (media_aad id) "Encrypted recording is malformed." "Encrypted recording failed authentication."
    (nonce r 0) c c id media sealed Hn eq_refl Hsealed) as Hopen.
  set (mc := {| media_key_version := Some (cipher_version c); media_storage_name := Some name;
                media_size_bytes := Some (Z.of_nat (length sealed)); media_sha256 := Some (sha256_hexdigest media) |}).
  set (m0 := on_root <[".conversation-" +:+ uuid_hex r := PrivateDirectory]> m).
  destruct (combine_segments id (on_disk m0) segs parts None 0 [] Hparts Hsorted I) as [previous Hcombined].
  assert (".media-" +:+ uuid_hex r ≠ name) as Htn.
  { intros Heq. eapply valid_not_dotted; [exact Hvn|]. rewrite <- Heq. apply dotted_app. }
  assert (".conversation-" +:+ uuid_hex r ≠ name) as Hcn.
  { intros Heq. eapply valid_not_dotted; [exact Hvn|]. rewrite <- Heq. apply dotted_app. }
  set (mz := on_root (λ files, delete (".media-" +:+ uuid_hex r) (<[name := PrivateFile sealed]> (delete (".media-" +:+ uuid_hex r)
               (<[".media-" +:+ uuid_hex r := PrivateFile sealed]> (<[".media-" +:+ uuid_hex r := PrivateFile []]> files))))) m0).
  exists sealed, mc, (on_root (delete (".conversation-" +:+ uuid_hex r)) mz). split.
  - unfold assemble_conversation_recording. unfold lift at 1. rewrite Hcheck. cbn [mbind script_bind].
    apply perform_temporary_directory; [exact Htmp|]. rewrite perform_look. fold m0.
    rewrite Hcombined. cbn [app Z.add]. unfold encoded_conversation. rewrite Henc. cbn [of_option mbind result_bind]. rewrite Hid3.
    unfold lift at 1. cbn [mbind script_bind]. rewrite perform_look. change (committed m0) with (committed m). rewrite Hpolicy. cbn [of_option mbind result_bind].
    rewrite (proj2 (Z.ltb_ge _ _)) by lia. cbn zeta. rewrite perform_bind, perform_act. cbn beta iota.
    rewrite perform_bind, perform_catch. unfold encrypt_media. rewrite Hsealed. unfold lift. cbn [mbind script_bind].
    rewrite perform_bind, perform_act. cbn beta iota. rewrite perform_bind, perform_act. unfold replace. cbn [on_disk with_root root].
    rewrite lookup_insert_eq. rewrite !lookup_insert_ne by done. change (root (on_disk m0)) with (<[".conversation-" +:+ uuid_hex r := PrivateDirectory]> (root (on_disk m))).
    rewrite lookup_insert_ne by done. fold name. rewrite Hname. cbn [mbind result_bind].
    cbn [perform]. rewrite perform_bind, perform_act. reflexivity.
  - split_and!; [done| |done|done|exact Hopen|].
    + cbn. rewrite lookup_delete_ne by done. rewrite lookup_delete_ne by done. by rewrite lookup_insert_eq.
    + intros q Hq. exists media, (cipher_version c). rewrite Hq. cbn. split_and!; [done|done| |exact Hopen|done].
      by eapply media_version_seal.
Qed.
(** ** The last request of a recording *)

Definition same_files (m m' : host) : Prop := committed m' = committed m ∧ root (on_disk m') = root (on_disk m).
Lemma remove_uploads_files us m : same_files m (perform (for_each remove_upload_files us) m).2.
Proof using Type.
  apply (safe_perform (same_files m) (λ _, same_files m)). apply (safe_for_each (same_files m) (same_files m)); [done|done| |done].
  intros u m1 _ Hm1. apply safe_bind, safe_look; [done|]. destruct (is_ok _); [|done].
  assert (∀ name m2, same_files m m2 → safe (same_files m) (λ _, same_files m) (rmdir name) m2) as Hrmdir.
  { intros name m2 Hm2. apply safe_act; [done| |done]. intros [] d Hd.
    assert (root d = root (on_disk m2)) as Hroot by (revert Hd; repeat case_match; try done; by intros [= <-]).
    destruct Hm2 as [? ?]. by repeat split; cbn; congruence. }
  apply safe_bind, safe_look; [done|]. apply safe_bind, (safe_for_each (same_files m) (same_files m)); [done|done| |].
  - intros x m2 _ Hm2. apply safe_act; [done| |done]. intros [] d [= <-]. by split.
  - intros m2 Hm2. eapply (safe_mono (same_files m)); [done| |by apply Hrmdir]. by intros [[]|] m3.
Qed.

Lemma for_each_uploads (segs : list (Z * segment_row)) :
  for_each remove_upload_files (map (λ g, segment_upload g.2) segs) = for_each (λ g, remove_upload_files (segment_upload g.2)) segs.
Proof using Type. induction segs as [|g segs IH]; [done|]. cbn [map for_each]. by rewrite IH. Qed.

(** C28 what a tablet recorded of a conversation in segments is what the administrator plays: when
    the last request of a recording finds every segment verified, in order and none of them
    after the one that follows, the recording becomes ready with the samples of its segments,
    one after the other, their total duration, and the digest of the samples. *)
Theorem conversation_is_assembled key r device id count calls who m row parts media :
  let segs := recording_segments id (committed m) in
  owned_recording conversation_api device id (committed m) = Ok row → rec_status row = Uploading →
  Z.of_nat (length segs) = count → check_segments false segs = Ok () → Sorted Z.le (map captured_instant segs) →
  Forall2 (received_part id (on_disk m)) segs parts →
  encode_conversation (joined_samples parts) = Some (0%Z, Some media) →
  starts_with (to_bytes "ID3") media || starts_with [octet 255] media = true →
  is_Some (retention (committed m)) → announced_caller key calls (rec_call (capture_of row)) = Ok who →
  (recording_used_bytes None (Some id) (committed m) + (Z.of_nat (length media) + Z.of_nat (length MEDIA_MAGIC) + 4 + 12 + 16)
     ≤ recording_quota_bytes cfg)%Z →
  valid_upload_name (uuid_hex r) = true → length (nonce r 0) = 12 →
  is_Some (master_keys c !! cipher_version c) → (0 ≤ cipher_version c < 2 ^ 32)%Z →
  root (on_disk m) !! (".conversation-" +:+ uuid_hex r) = None → root (on_disk m) !! (uuid_hex r +:+ ".rec") = None →
  (∀ i q, recordings (committed m) !! i = Some q → media_storage_name (media_of q) ≠ Some (uuid_hex r +:+ ".rec")) →
  ∃ m' row', m' = (perform (complete_conversation_recording cfg c key r device id count calls) m).2 ∧
    recordings (committed m') !! id = Some row' ∧ rec_status row' = Ready ∧ load_media c id row' (on_disk m') = Ok media ∧
    rec_duration_ms (source_of row') = total_duration parts ∧ source_sha256 (source_of row') = sha256_hexdigest (joined_samples parts) ∧
    segment_count (source_of row') = count.
Proof using Type*.
  intros segs Hown Hst Hcount Hcheck Hsorted Hparts Henc Hid3 Hret Hwho Hquota Hv Hn Hkey Hver Htmp Hname Hfree.
  pose proof Hown as [Hid _]%owned_recording_ok.
  destruct (perform_assemble r id row segs None false parts media m) as (sealed & mc & m1 & Hrun & Hs1 & Hf & Hmn & Hsha & Hopen & Hplay); try done.
  { destruct Hret as [p ->]. by exists p. }
  set (row' := assembled_row false segs (total_duration parts) (joined_samples parts) mc (now r) row) in *.
  unfold complete_conversation_recording, complete_segmented. rewrite perform_look. unfold lift. rewrite Hown. cbn [mbind script_bind].
  rewrite (bool_decide_false (rec_status row = Ready)), (bool_decide_false (rec_status row = Deleted)) by congruence. cbn [orb].
  rewrite bool_decide_false by auto. cbn zeta. fold segs. rewrite bool_decide_false by auto. cbn [mbind script_bind].
  rewrite perform_bind, Hrun. cbn [fst snd].
  rewrite Hwho. cbn [mbind script_bind].
  assert (∃ s', assembled id row' segs (now r) (committed m1) = Some s' ∧ recordings s' !! id = Some row') as (s' & Hs' & Hrow').
  { unfold assembled. replace (media_storage_name (media_of row')) with (Some (uuid_hex r +:+ ".rec")). rewrite Hs1.
    assert (free_media_name id (uuid_hex r +:+ ".rec") (committed m) = true) as ->.
    { apply bool_decide_true. intros i q Hi _. by eapply Hfree. }
    eexists. split; [done|]. cbn. by rewrite lookup_alter_eq, Hid. }
  erewrite perform_commit_or by exact Hs'.
  set (m2 := with_committed s' m1). eexists _, row'. split; [reflexivity|].
  assert (same_files m2 (perform (for_each (λ g, remove_upload_files (segment_upload g.2)) segs) m2).2) as [Hc Hroot].
  { rewrite <- for_each_uploads. apply remove_uploads_files. }
  rewrite perform_bind. destruct (perform (for_each _ segs) m2) as [[[]|e] m3]; cbn [snd perform] in *.
  all: rewrite Hc; split_and!; [exact Hrow'|done| |done|done|cbn; lia].
  all: eapply load_media_plays; [done|exact Hmn|by apply valid_new_media_name|by apply Hplay|exact Hopen|by rewrite Hroot].
Qed.
End Assembly.

Section Witnesses.
#[local] Existing Instances plain_suite plain_suite_laws Demo.derivation Demo.transcoder CallDemo.encoder.
Import Demo CallDemo.

Definition pieces : list (bytes * WavDetails) := replicate 2 (wav, {| wav_duration_ms := 1; wav_frames := 48 |}).

Lemma conversation_is_assembled_witness :
  ∃ m' row', m' = (perform assemble_pieces pieces_state).2 ∧ recordings (committed m') !! "parts" = Some row' ∧
    rec_status row' = Ready ∧ load_media cipher "parts" row' (on_disk m') = Ok (to_bytes "ID3-demo") ∧
    rec_duration_ms (source_of row') = 2%Z ∧ source_sha256 (source_of row') = sha256_hexdigest (pcm ++ pcm) ∧
    segment_count (source_of row') = 2%Z.
Proof.
  assert (∃ row, owned_recording conversation_api "tablet" "parts" (committed pieces_state) = Ok row ∧ rec_status row = Uploading ∧
    announced_caller key calls (rec_call (capture_of row)) = Ok None) as (row & Hown & Hst & Hwho) by (eexists; split_and!; by vm_compute).
  set (segs := recording_segments "parts" (committed pieces_state)).
  assert (∃ a b, segs = [a; b] ∧ captured_instant a = captured_instant b ∧ check_segments false [a; b] = Ok () ∧
    received_part cipher "parts" (on_disk pieces_state) a (wav, {| wav_duration_ms := 1; wav_frames := 48 |}) ∧
    received_part cipher "parts" (on_disk pieces_state) b (wav, {| wav_duration_ms := 1; wav_frames := 48 |})) as (a & b & Hsegs & Hsame & Hcheck & Ha & Hb)
    by (eexists _, _; split_and!; [by vm_compute..|split; by vm_compute|split; by vm_compute]).
  assert (Z.of_nat (length segs) = 2%Z) as Hcount by by rewrite Hsegs.
  rewrite <- Hsegs in Hcheck.
  assert (Sorted Z.le (map captured_instant segs)) as Hsorted.
  { rewrite Hsegs. cbn. repeat constructor. rewrite Hsame. reflexivity. }
  assert (Forall2 (received_part cipher "parts" (on_disk pieces_state)) segs pieces) as Hparts by (rewrite Hsegs; constructor; [exact Ha|constructor; [exact Hb|constructor]]).
  assert (joined_samples pieces = pcm ++ pcm) as Hjoined by by vm_compute.
  assert (encode_conversation (joined_samples pieces) = Some (0%Z, Some (to_bytes "ID3-demo"))) as Henc by reflexivity.
  assert (is_Some (retention (committed pieces_state))) as Hret by (eexists; by vm_compute).
  assert (recording_used_bytes None (Some "parts") (committed pieces_state) + (Z.of_nat (length (to_bytes "ID3-demo")) + Z.of_nat (length MEDIA_MAGIC) + 4 + 12 + 16)
    ≤ recording_quota_bytes config)%Z as Hquota by by vm_compute.
  assert (map_Forall (λ _ r, media_storage_name (media_of r) ≠ Some (uuid_hex (request_of "d") +:+ ".rec")) (recordings (committed pieces_state)))
    as Hall by (apply (bool_decide_unpack _); by vm_compute).
  assert (is_Some (master_keys cipher !! cipher_version cipher)) as Hkey by by eexists.
  assert (root (on_disk pieces_state) !! (".conversation-" +:+ uuid_hex (request_of "d")) = None) as Htmp by (vm_compute; reflexivity).
  assert (root (on_disk pieces_state) !! (uuid_hex (request_of "d") +:+ ".rec") = None) as Hname by (vm_compute; reflexivity).
  destruct (conversation_is_assembled config cipher key (request_of "d") "tablet" "parts" 2 calls None pieces_state row pieces (to_bytes "ID3-demo")
    Hown Hst Hcount Hcheck Hsorted Hparts Henc eq_refl Hret Hwho Hquota eq_refl eq_refl Hkey demo_version Htmp Hname (λ i q Hq, Hall i q Hq))
    as (m' & row' & Hm' & Hrow' & Hst' & Hload & Hdur & Hsha & Hcnt).
  rewrite Hjoined in Hsha. exists m', row'. exact (conj Hm' (conj Hrow' (conj Hst' (conj Hload (conj Hdur (conj Hsha Hcnt)))))).
Defined.
End Witnesses.
