(* ===== verification/RecordingSystem.v ===== *)
(** * The recording system: voicemail, segmented and continuous recordings, worker and maintenance

    What requests, jobs of the worker and maintenance do to the store in any order, cut off
    anywhere, and what holds of every state they leave behind. *)
From Stdlib Require Import Ascii.
From stdpp Require Import base gmap sets strings numbers pretty relations list.
From S2P Require Import Prelude FlowTree Schemas Json Crypto Documents Store Drafts Revisions V4Api Diff Devices Policies Calls Recordings RecordingsFacts RecordingsCorrect Wave Script Storage StorageFacts StorageInvariant StorageCorrect StorageRepair Voicemail Segments Continuous VoicemailInvariant SegmentsInvariant ContinuousInvariant ContinuousCorrect VoicemailCorrect.

Section System.
Context `{CryptographyLaws} `{KeyDerivation} `{Transcoder} `{PcmEncoder} (key : bytes) (cfg : recording_settings) (c : recording_cipher).

(** The requests of a tablet about a continuous recording.  It sends pieces of its own audio, and
    asks to start again only when it has forgotten what it was told. *)
Inductive tablet_request (spools : string → spool) : string → program continuous_response → Prop :=
| asks_create r device free b st p calls :
    continuous_fields b = true → valid_upload_name (uuid_hex r) = true →
    tablet_request spools (body_recording b) (create_continuous key cfg r device free b st p calls)
| asks_status device id : tablet_request spools id (continuous_recording_status device id)
| asks_content r device id offset free declared parts :
    piece spools id offset (concat parts) → length (nonce r 0) = 12 →
    tablet_request spools id (continuous_content cfg c r device id offset free declared parts)
| asks_complete r device id : tablet_request spools id (continuous_complete r device id)
| asks_reset r device id :
    told (spools id) = 0 → valid_upload_name (uuid_hex r) = true → tablet_request spools id (continuous_reset r device id).

(** A step of the system: what the tablets know, and the server's disk and rows. *)
Inductive step : (string → spool) * host → (string → spool) * host → Prop :=
| step_voicemail spools m m' : voicemail_step key cfg c m m' → step (spools, m) (spools, m')
| step_segments spools m m' : segments_step key cfg c m m' → step (spools, m) (spools, m')
| step_lost spools id p m m' : tablet_request spools id p → leaves p m m' → step (spools, m) (spools, m')
| step_answered spools id p m a m' :
    tablet_request spools id p → perform p m = (Ok a, m') → step (spools, m) (tell id (continuous_offset a) spools, m')
| step_forgets spools id m : step (spools, m) (forget id spools, m)
| step_worker spools r free prior elapsed m m' :
    valid_upload_name (uuid_hex r) = true → length (nonce r 0) = 12 → root (on_disk m) !! quarantine_name (uuid_hex r +:+ ".rec") = None →
    leaves (process_next cfg c r free prior elapsed) m m' → step (spools, m) (spools, m').

Definition reachable (spools : string → spool) (m : host) : Prop :=
  ∃ spools0, (∀ id, told (spools0 id) = 0) ∧ rtc step (spools0, no_recordings) (spools, m).

(** The bounds of the configuration. *)
Definition valid_settings : Prop := (0 ≤ recording_quota_bytes cfg)%Z ∧ (0 ≤ audit_recording_reserve_bytes cfg)%Z.

Abbreviation invariant q := (invariant c (recording_quota_bytes cfg) q.1 q.2).

Lemma tablet_request_safe spools id p m :
  valid_settings → tablet_request spools id p → invariant (spools, m) →
  safe (StorageInvariant.invariant c (recording_quota_bytes cfg) spools) (answers cfg c spools id) p m.
Proof using Type*.
  intros [_ Hreserve] Hp Hm. destruct Hp.
  - by apply create_continuous_safe.
  - by apply continuous_status_safe.
  - by apply continuous_content_safe.
  - by apply continuous_complete_safe.
  - by apply continuous_reset_safe.
Qed.

Lemma step_invariant q q' : valid_settings → step q q' → invariant q → invariant q'.
Proof using Type*.
  intros Hset Hstep Hm. destruct Hstep; cbn [fst snd] in *.
  - by eapply voicemail_step_invariant.
  - eapply segments_step_invariant; [apply Hset|done|done].
  - by eapply safe_leaves; [apply (tablet_request_safe spools id p)|].
  - pose proof (safe_perform _ _ _ _ (tablet_request_safe spools id p m Hset ltac:(done) Hm)) as Ha.
    match goal with Hp : perform p m = _ |- _ => rewrite Hp in Ha end. cbn [fst snd] in Ha. destruct Ha as [Hm' [Hx Hu]]. by apply consistent_tell.
  - by apply forget_less.
  - eapply safe_leaves; [by apply process_next_safe|done].
Qed.
Lemma reachable_invariant spools m : valid_settings → reachable spools m → StorageInvariant.invariant c (recording_quota_bytes cfg) spools m.
Proof using Type*.
  intros Hset (spools0 & Htold & Hsteps). change (invariant (spools, m)).
  assert (invariant (spools0, no_recordings)) as Hstart by (apply empty_invariant; [apply Hset|done]).
  clear Htold. induction Hsteps as [q|q1 q2 q3 Hstep _ IH]; [done|]. apply IH. by eapply step_invariant.
Qed.

(** ** What is kept *)

(** C22 while requests, jobs and maintenance take turns, a finished recording is never lost: in every
    state they can leave behind, cut off anywhere, each ready recording plays the bytes of its
    digest, at once or, when its deletion was cut off, after its file is restored from quarantine.
    (Maintenance within a completion can lose one, [maintenance_removes_new_media].) *)
Theorem finished_recordings_survive spools m id r :
  valid_settings → reachable spools m → recordings (committed m) !! id = Some r → rec_status r = Ready →
  ∃ name p, media_storage_name (media_of r) = Some name ∧ media_sha256 (media_of r) = Some (sha256_hexdigest p) ∧
    (load_media c id r (on_disk m) = Ok p ∨
     ∃ d, perform (restore_quarantined_media name) m = (Ok (), {| on_disk := d; committed := committed m |}) ∧
       load_media c id r d = Ok p).
Proof using Type*.
  intros Hset Hm%reachable_invariant Hid Hst; [|done].
  destruct (ready_stored _ _ _ _ _ Hm id r Hid Hst) as (name & payload & Hn & Hv & Hstored & Hp).
  exists name. destruct Hstored as [[Hf _]|[Hf Hnone]].
  - destruct (load_media_ok c id r name payload (on_disk m)) as (p & Hload & Hsha); [done..|]. exists p. auto.
  - set (d := with_root (<[name := PrivateFile payload]> (delete (quarantine_name name) (root (on_disk m)))) (on_disk m)).
    destruct (load_media_ok c id r name payload d) as (p & Hload & Hsha); [done..|by apply lookup_insert_eq|].
    exists p. split_and!; [done..|]. right. exists d. split; [|done].
    unfold restore_quarantined_media. rewrite perform_act, Hf, Hnone. unfold require_safe_file, replace. by rewrite Hf, Hnone.
Qed.

(** What the upload of a recording holds, up to the offset of its row. *)
Definition held (id : string) (u : upload_row) (d : disk) : result bytes :=
  directory ← upload_directory u d;
  read_chunks c (RecordingError "" 422) (Z.to_nat (upload_offset u)) id
    {| expected_size_bytes := upload_offset u; upload_sha256 := upload_sha256 u; upload_offset := upload_offset u;
       upload_storage := upload_storage u; upload_updated := upload_updated u |} directory 0 [].

Lemma upload_directory_ok spools d s id u chunks :
  consistent c (recording_quota_bytes cfg) spools d s → upload_rows s !! id = Some u →
  upload_directories d !! upload_storage u = Some chunks → upload_directory u d = Ok chunks.
Proof using Type.
  intros Hc Hu Hch. unfold upload_directory.
  rewrite (valid_holder _ _ (rows_sound _ _ _ _ _ Hc) (inl id)) by by exists u. by rewrite Hch.
Qed.

(** C25 what a tablet was told is true until it is no longer needed: if the server has answered a
    request about a continuous recording with an offset, then in every later state the
    beginning of the tablet's audio up to it can be read back, until the recording is accepted;
    and an accepted recording is ready, or was deleted later. *)
Theorem told_audio_is_kept spools m id :
  valid_settings → reachable spools m → 0 < told (spools id) →
  ∃ r x, recordings (committed m) !! id = Some r ∧ continuous (committed m) !! id = Some x ∧
    match accepted_at x with
    | None => ∃ u content, upload_rows (committed m) !! id = Some u ∧ held id u (on_disk m) = Ok content ∧
                content `prefix_of` audio (spools id) ∧ told (spools id) ≤ length content
    | Some _ => rec_status r = Ready ∨ rec_status r = Deleted
    end.
Proof using Type*.
  intros Hset Hm%reachable_invariant Htold; [|done].
  destruct (told_known _ _ _ _ _ Hm id Htold) as [x Hx].
  destruct (receipts_sound _ _ (rows_sound _ _ _ _ _ Hm) id x Hx) as (r & Hr & _ & Hst).
  exists r, x. split_and!; [done..|]. destruct (accepted_at x) eqn:Ha; [apply Hst|].
  destruct Hst as (_ & _ & u & Hu & _ & _).
  destruct (source_kept _ _ _ _ _ Hm id u) as (chunks & content & Hch & Hrec & Hle); [by exists x|].
  exists u, content. split_and!; [done| |by eapply received_prefix|done].
  unfold held. rewrite (upload_directory_ok _ _ _ _ _ _ Hm Hu Hch). cbn [mbind result_bind].
  pose proof (received_offset _ _ _ _ _ _ Hrec) as Hoff. destruct Hrec as [_ _ Ht _].
  apply (read_chunks_tiled c id _ _ _ _ 0 content []); [exact Ht|cbn; lia|rewrite Hoff; lia].
Qed.

(** C23 reservations and finished recordings together never exceed the quota, whatever
    uploads are abandoned, failed, resumed, restarted or finished. *)
Theorem quota_respected spools m :
  valid_settings → reachable spools m → (recording_used_bytes None None (committed m) ≤ recording_quota_bytes cfg)%Z.
Proof using Type*. intros Hset Hm%reachable_invariant; [|done]. apply Hm. Qed.

(** ** Start *)

(** What the server does first. *)
Definition start_up : program unit := _ ← reconcile_quarantined_media; reconcile_recording_storage.

(** C24 if no assembly or inspection of segments was cut off, so that there is no directory among the
    files, the reconciliation with which the server starts repairs every other interruption of
    requests, jobs and maintenance that take turns: it ends without an error and changes no row,
    every ready recording can then be played, every file belongs to a recording, and the
    directories are those of the reserved uploads. *)
Theorem restart_repairs spools m :
  valid_settings → reachable spools m → tidy m →
  ∃ m', perform start_up m = (Ok (), m') ∧ committed m' = committed m ∧
    (∀ id r, recordings (committed m) !! id = Some r → rec_status r = Ready →
       ∃ p, load_media c id r (on_disk m') = Ok p ∧ media_sha256 (media_of r) = Some (sha256_hexdigest p)) ∧
    (∀ name e, root (on_disk m') !! name = Some e → settled (committed m) name e) ∧
    (∀ name, is_Some (upload_directories (on_disk m') !! name) ↔ name ∈ active_names (committed m)).
Proof using Type*.
  intros Hset Hm%reachable_invariant Htidy; [|done].
  destruct (reconcile_media_ends c (recording_quota_bytes cfg) spools (committed m) m) as (m1 & Hp1 & Hm1 & Hdirs & Hq1); [done|].
  destruct (reconcile_storage_ends c (recording_quota_bytes cfg) spools (committed m) m1) as (m2 & Hp2 & [Hm2 Hs2] & Hq2 & Hroot & Hdir);
    [done|intros name Hn; by apply Htidy, Hdirs|done|].
  exists m2. split_and!; [unfold start_up; by rewrite perform_bind, Hp1|done| |done|done].
  intros id r Hid Hst. rewrite <- Hs2 in Hid. destruct (ready_stored _ _ _ _ _ Hm2 id r Hid Hst) as (name & payload & Hn & Hv & Hstored & Hp).
  destruct Hstored as [[Hf _]|[Hf _]]; [by eapply load_media_ok|]. by rewrite (Hq2 name Hv) in Hf.
Qed.

(** C29 but an assembly or inspection of segments that is cut off leaves its temporary directory
    among the files, and reconciliation does not know it: the server then refuses to start. *)
Theorem interrupted_assembly_blocks_start spools m :
  valid_settings → reachable spools m → ¬ tidy m → ∃ message, (perform start_up m).1 = Raise (RecordingError message 503).
Proof using Type*.
  intros Hset Hm%reachable_invariant Htidy; [|done].
  destruct (reconcile_media_ends c (recording_quota_bytes cfg) spools (committed m) m) as (m1 & Hp1 & Hm1 & Hdirs & _); [done|].
  set (P := λ (name : string) (e : root_entry), match e with PrivateDirectory => name = ".processing" | PrivateFile _ => True end).
  assert (∀ name e, Decision (P name e)) as Hdec by (intros ? [|]; unfold P; apply _).
  destruct (decide (map_Forall P (root (on_disk m)))) as [Hall|Hnot].
  { destruct Htidy. intros name Hn. apply (map_Forall_lookup_1 _ _ _ _ Hall Hn). }
  apply map_not_Forall in Hnot as (name & e & He & Hne); [|apply _]. destruct e; [by destruct Hne|]. cbn in Hne.
  unfold start_up. rewrite perform_bind, Hp1.
  apply (reconcile_storage_refused c (recording_quota_bytes cfg) spools (committed m) name); [done|done|by apply Hdirs].
Qed.

(** ** The worker *)

(** C26 a recording whose upload is complete is accepted by the next job, whatever earlier jobs were
    cut off or failed, unless the program refuses it: [process_next] makes the recording ready and
    acknowledges it if its times fit its call, the tablet's audio is what it announced and was sent
    in chunks within the limit, [ffmpeg] encodes it as MP3, the disk and the quota have space for
    it, the key of the current version is there, the name of the new file is new, and the job
    workspace holds nothing but jobs. *)
Theorem queued_recording_is_accepted spools m r free prior elapsed id x row detail media :
  valid_settings → reachable spools m → next_receipt (now r) (committed m) = Some (id, x) →
  recordings (committed m) !! id = Some row →
  Z.of_nat (length (audio (spools id))) = source_size_bytes (source_of row) →
  sha256_hexdigest (audio (spools id)) = source_sha256 (source_of row) →
  (Z.of_nat (chunk_bytes (spools id)) ≤ recording_chunk_limit_bytes cfg)%Z → row_validation_error x = None →
  encode_continuous (audio (spools id)) = Some (0%Z, detail, Some media) →
  starts_with (to_bytes "ID3") media || starts_with [octet 255] media = true →
  (source_size_bytes (source_of row) + rec_duration_ms (source_of row) * 36 + audit_recording_reserve_bytes cfg ≤ free)%Z → existsb strange_entry prior = false →
  (recording_used_bytes (Some id) None (committed m) + (Z.of_nat (length media) + Z.of_nat (length MEDIA_MAGIC) + 32)
     ≤ recording_quota_bytes cfg)%Z →
  length (nonce r 0) = 12 → fresh_media (uuid_hex r) m →
  is_Some (master_keys c !! cipher_version c) → (0 ≤ cipher_version c < 2 ^ 32)%Z →
  ∃ m', perform (process_next cfg c r free prior elapsed) m = (Ok true, m') ∧ is_accepted id (now r) media (committed m').
Proof using Type*.
  intros Hset Hm%reachable_invariant Hnext Hrow Hlen Hsha Hsmall Hissue Henc Hid3 Hfree Hprior Hquota Hn (_ & _ & Hname) Hkey Hver; [|done].
  pose proof (next_receipt_ok _ _ _ _ Hnext) as [Hx Hwork%workable_at_work].
  pose proof (not_accepted _ _ _ _ _ _ _ Hm Hx Hwork) as Hacc.
  destruct (receipts_sound _ _ (rows_sound _ _ _ _ _ Hm) id x Hx) as (row' & Hrow' & _ & Hst). assert (row' = row) as -> by congruence.
  rewrite Hacc in Hst. destruct Hst as (Hready & Hdeleted & u & Hu & Hexp & Hdone). specialize (Hdone Hwork).
  destruct (source_kept _ _ _ _ _ Hm id u) as (chunks & content & Hch & Hrec & _); [by exists x|].
  pose proof (upload_directory_ok _ _ _ _ _ _ Hm Hu Hch) as Hdir.
  pose proof (materialize_complete cfg c spools id row u (on_disk m) chunks content Hrec Hdir Hdone Hexp Hlen Hsha Hsmall) as Hmat.
  unfold process_next. rewrite perform_look, Hnext. unfold lift. rewrite Hrow. cbn [of_option mbind script_bind].
  rewrite bool_decide_false by done. erewrite perform_commit_or by done.
  set (s1 := start_job id (now r) (committed m)). rewrite perform_look. cbn [committed with_committed].
  assert (upload_rows s1 !! id = Some u) as -> by exact Hu. rewrite perform_bind, perform_catch, perform_bind.
  pose proof (run_job_accepts cfg c r free prior id row x u (audio (spools id)) detail media (with_committed s1 m)) as Hjob.
  destruct (perform (run_job cfg c r free prior id row x (Some u)) (with_committed s1 m)) as [res m2]. cbn [snd] in Hjob.
  assert (is_accepted id (now r) media (committed m2)) as Hm2.
  { apply Hjob; clear Hjob; try done.
    - cbn. rewrite lookup_alter_eq, Hrow. by eexists.
    - cbn. rewrite lookup_alter_eq, Hx. by eexists.
    - congruence.
    - cbn [committed with_committed]. assert (recording_used_bytes (Some id) None s1 = recording_used_bytes (Some id) None (committed m)) as ->; [|done].
      unfold recording_used_bytes. cbn [recordings upload_rows segments s1 start_job update with_continuous with_recordings].
      rewrite (zsum_alter _ _ _ row) by done. unfold ready_bytes. cbn. rewrite !decide_False by done. lia.
    - cbn. intros i p Hp. destruct (decide (id = i)) as [<-|Hne].
      + rewrite lookup_alter_eq, Hrow in Hp. injection Hp as <-. cbn. by eapply Hname.
      + rewrite lookup_alter_ne in Hp by done. by eapply Hname. }
  destruct res as [[]|e]; cbn [perform]; (erewrite perform_commit_or by done); eexists; (split; [done|]); by apply finish_keeps_accepted.
Qed.

(** C27 no job is forgotten: however a job ends, or where it is cut off, its recording is still to
    be worked on, or it is accepted, or the next attempt is set within an hour, or it is marked
    as failed with the reason. *)
Theorem interrupted_job_resumes spools m r free prior elapsed id x m' :
  valid_settings → reachable spools m → next_receipt (now r) (committed m) = Some (id, x) →
  leaves (process_next cfg c r free prior elapsed) m m' → job_end id (now r) (run_attempts x + 1) (committed m').
Proof using Type*.
  intros Hset Hm%reachable_invariant Hnext Hl; [|done].
  pose proof (next_receipt_ok _ _ _ _ Hnext) as [Hx Hwork%workable_at_work].
  pose proof (not_accepted _ _ _ _ _ _ _ Hm Hx Hwork) as Hacc.
  destruct (receipts_sound _ _ (rows_sound _ _ _ _ _ Hm) id x Hx) as (row & Hrow & _ & Hst). rewrite Hacc in Hst.
  by eapply process_next_ends; [|exact Hrow|apply Hst|].
Qed.
End System.

Section Witnesses.
#[local] Existing Instances plain_suite plain_suite_laws Demo.derivation Demo.transcoder CallDemo.encoder.
Import Demo CallDemo.
Abbreviation reachable := (reachable key config cipher).

Lemma demo_settings : valid_settings config.
Proof. by vm_compute. Qed.
Lemma demo_start sp : (∀ id, told (sp id) = 0) → reachable sp no_recordings.
Proof. intros Hsp. exists sp. split; [done|apply rtc_refl]. Qed.
Lemma demo_step sp m sp' m' : reachable sp m → step key config cipher (sp, m) (sp', m') → reachable sp' m'.
Proof. intros (sp0 & Hsp0 & Hsteps) Hstep. exists sp0. split; [done|]. by eapply rtc_r. Qed.
Lemma demo_voicemail {A} sp (p : program A) m :
  reachable sp m → (∀ m', leaves p m m' → voicemail_step key config cipher m m') → reachable sp (perform p m).2.
Proof. intros Hr Hp. eapply demo_step; [exact Hr|]. apply step_voicemail, Hp, perform_leaves. Qed.
Lemma demo_segments {A} sp (p : program A) m :
  reachable sp m → (∀ m', leaves p m m' → segments_step key config cipher m m') → reachable sp (perform p m).2.
Proof. intros Hr Hp. eapply demo_step; [exact Hr|]. apply step_segments, Hp, perform_leaves. Qed.
Lemma demo_answered sp id p m :
  reachable sp m → tablet_request key config cipher sp id p → is_ok (perform p m).1 = true →
  reachable (tell id (answer_of p m) sp) (perform p m).2.
Proof.
  intros Hr Hp Hok. eapply demo_step; [exact Hr|]. unfold answer_of. destruct (perform p m) as [[a|e] m'] eqn:Hrun; [|done].
  by eapply step_answered.
Qed.

(** *** A voicemail *)

Definition quiet (id : string) : spool := {| audio := []; chunk_bytes := 0; told := 0 |}.
Lemma sent_reachable : reachable quiet sent_state.
Proof.
  apply demo_voicemail; [apply demo_voicemail; [by apply demo_start|]|].
  - intros m'. by apply step_create; vm_compute.
  - intros m'. by apply step_content.
Qed.
Lemma sent_fresh : fresh_media (uuid_hex (request_of "c")) sent_state.
Proof.
  split_and!; [by vm_compute..|].
  assert (map_Forall (λ _ r, media_storage_name (media_of r) ≠ Some (uuid_hex (request_of "c") +:+ ".rec")) (recordings (committed sent_state)))
    as Hall by (apply (bool_decide_unpack _); by vm_compute).
  intros id r Hr. exact (Hall id r Hr).
Qed.
Lemma finished_reachable : reachable quiet finished_state.
Proof.
  apply demo_voicemail; [apply sent_reachable|]. intros m'. apply step_complete; [by vm_compute..|apply sent_fresh].
Qed.

Lemma finished_tidy : tidy finished_state.
Proof.
  set (directory := λ e, match e with PrivateDirectory => true | PrivateFile _ => false end).
  assert (map_Forall (λ _ e, directory e = false) (root (on_disk finished_state))) as Hall by (apply (bool_decide_unpack _); by vm_compute).
  intros name Hn. pose proof (map_Forall_lookup_1 _ _ _ _ Hall Hn) as Hd. discriminate Hd.
Qed.

(** *** A call as one upload *)

Definition queued_spools : string → spool :=
  tell "talk" (answer_of finish_upload uploaded_state) (tell "talk" (answer_of upload announced_state)
    (tell "talk" (answer_of announce no_recordings) spools)).
Lemma queued_reachable : reachable queued_spools queued_state.
Proof.
  apply demo_answered; [|apply asks_complete|by vm_compute]. apply demo_answered; [| |by vm_compute].
  - apply (demo_answered spools "talk" announce); [by apply demo_start| |by vm_compute].
    apply (asks_create _ _ _ _ _ _ _ announced); by vm_compute.
  - apply asks_content; [|done]. split; [by apply (bool_decide_unpack _); vm_compute|]. apply Nat.leb_le. by vm_compute.
Qed.

(** *** A call in segments *)

Lemma segment_sent_reachable : reachable quiet segment_sent_state.
Proof.
  apply demo_segments; [apply demo_segments; [apply demo_segments; [by apply demo_start|]|]|].
  - intros m'. apply step_conversation.
  - intros m'. apply step_conversation_segment; by vm_compute.
  - intros m'. apply step_segment_content.
Qed.
Lemma interrupted_reachable : reachable quiet interrupted_state.
Proof.
  eapply demo_step; [apply segment_sent_reachable|]. apply step_segments. eapply step_segment_complete. apply cut_off_leaves.
Qed.

Lemma finished_recordings_survive_witness :
  ∃ r, recordings (committed finished_state) !! "rec" = Some r ∧ rec_status r = Ready ∧
  ∃ name p, media_storage_name (media_of r) = Some name ∧ media_sha256 (media_of r) = Some (sha256_hexdigest p) ∧
    (load_media cipher "rec" r (on_disk finished_state) = Ok p ∨
     ∃ d, perform (restore_quarantined_media name) finished_state = (Ok (), {| on_disk := d; committed := committed finished_state |}) ∧
       load_media cipher "rec" r d = Ok p).
Proof.
  assert (∃ r, recordings (committed finished_state) !! "rec" = Some r ∧ rec_status r = Ready) as (r & Hr & Hst)
    by (eexists; split; by vm_compute).
  exists r. split; [exact Hr|]. split; [exact Hst|].
  exact (finished_recordings_survive key config cipher quiet finished_state "rec" r demo_settings finished_reachable Hr Hst).
Defined.

Lemma told_audio_is_kept_witness :
  ∃ r x, recordings (committed queued_state) !! "talk" = Some r ∧ continuous (committed queued_state) !! "talk" = Some x ∧
    match accepted_at x with
    | None => ∃ u content, upload_rows (committed queued_state) !! "talk" = Some u ∧ held cipher "talk" u (on_disk queued_state) = Ok content ∧
                content `prefix_of` pcm ∧ 192 ≤ length content
    | Some _ => rec_status r = Ready ∨ rec_status r = Deleted
    end.
Proof.
  refine (told_audio_is_kept key config cipher queued_spools queued_state "talk" demo_settings queued_reachable _).
  apply Nat.ltb_lt. by vm_compute.
Defined.

Lemma quota_respected_witness : (recording_used_bytes None None (committed queued_state) ≤ recording_quota_bytes config)%Z.
Proof. exact (quota_respected key config cipher queued_spools queued_state demo_settings queued_reachable). Defined.

Lemma restart_repairs_witness :
  ∃ m', perform start_up finished_state = (Ok (), m') ∧ committed m' = committed finished_state.
Proof.
  destruct (restart_repairs key config cipher quiet finished_state demo_settings finished_reachable finished_tidy) as (m' & Hp & Hs & _).
  exists m'. split; [exact Hp|exact Hs].
Defined.

Lemma interrupted_assembly_blocks_start_witness : ∃ message, (perform start_up interrupted_state).1 = Raise (RecordingError message 503).
Proof.
  apply (interrupted_assembly_blocks_start key config cipher quiet interrupted_state demo_settings interrupted_reachable).
  intros Htidy. by pose proof (Htidy (".verify-segment-" +:+ uuid_hex (request_of "c")) ltac:(by vm_compute)).
Defined.

Lemma queued_recording_is_accepted_witness :
  ∃ m', perform work queued_state = (Ok true, m') ∧ is_accepted "talk" moment (to_bytes "ID3-demo") (committed m').
Proof.
  assert (audio (queued_spools "talk") = pcm) as Haudio by by vm_compute.
  assert (Z.of_nat (chunk_bytes (queued_spools "talk")) ≤ recording_chunk_limit_bytes config)%Z as Hchunk by by vm_compute.
  assert (Z.of_nat (length pcm) = 192%Z) as Hlength by by vm_compute.
  assert (∃ x row, next_receipt moment (committed queued_state) = Some ("talk", x) ∧ recordings (committed queued_state) !! "talk" = Some row ∧
    row_validation_error x = None ∧ source_size_bytes (source_of row) = 192%Z ∧ rec_duration_ms (source_of row) = 1%Z ∧
    source_sha256 (source_of row) = sha256_hexdigest pcm) as (x & row & Hnext & Hrow & Hissue & Hsize & Hduration & Hsha)
    by (eexists _, _; split_and!; by vm_compute).
  assert (map_Forall (λ _ r, media_storage_name (media_of r) ≠ Some (uuid_hex (request_of "d") +:+ ".rec")) (recordings (committed queued_state)))
    as Hall by (apply (bool_decide_unpack _); by vm_compute).
  assert (recording_used_bytes (Some "talk") None (committed queued_state) +
    (Z.of_nat (length (to_bytes "ID3-demo")) + Z.of_nat (length MEDIA_MAGIC) + 32) ≤ recording_quota_bytes config)%Z as Hquota by by vm_compute.
  assert (fresh_media (uuid_hex (request_of "d")) queued_state) as Hfresh.
  { split_and!; [by vm_compute..|]. intros id r Hr. exact (Hall id r Hr). }
  assert (is_Some (master_keys cipher !! cipher_version cipher)) as Hkey by by eexists.
  assert (Z.of_nat (length (audio (queued_spools "talk"))) = source_size_bytes (source_of row)) as Hlen by (rewrite Haudio, Hsize; exact Hlength).
  assert (sha256_hexdigest (audio (queued_spools "talk")) = source_sha256 (source_of row)) as Hdigest by (rewrite Haudio, Hsha; reflexivity).
  assert (source_size_bytes (source_of row) + rec_duration_ms (source_of row) * 36 + audit_recording_reserve_bytes config ≤ 1000000)%Z as Hfree
    by (rewrite Hsize, Hduration; by vm_compute).
  assert (encode_continuous (audio (queued_spools "talk")) = Some (0%Z, "", Some (to_bytes "ID3-demo"))) as Hencode by (rewrite Haudio; reflexivity).
  exact (queued_recording_is_accepted key config cipher queued_spools queued_state (request_of "d") 1000000 [("job-1", true)] 7 "talk" x row "" (to_bytes "ID3-demo")
    demo_settings queued_reachable Hnext Hrow Hlen Hdigest Hchunk Hissue Hencode eq_refl Hfree eq_refl Hquota eq_refl Hfresh Hkey demo_version).
Defined.

Lemma interrupted_job_resumes_witness :
  ∃ x, next_receipt moment (committed queued_state) = Some ("talk", x) ∧
    job_end "talk" moment (run_attempts x + 1) (committed (cut_off 6 work queued_state)).
Proof.
  assert (∃ x, next_receipt moment (committed queued_state) = Some ("talk", x)) as [x Hx] by (eexists; by vm_compute).
  exists x. split; [exact Hx|].
  exact (interrupted_job_resumes key config cipher queued_spools queued_state (request_of "d") 1000000 [("job-1", true)] 7 "talk" x _
    demo_settings queued_reachable Hx (cut_off_leaves 6 work queued_state)).
Defined.
End Witnesses.
