(* ===== verification/Text.v ===== *)
(** * Text as Python sees it

    Strings are UTF-8 bytes; Python's are sequences of characters.  Slices, whitespace and
    control characters are those of characters. *)
From Stdlib Require Import Ascii.
From stdpp Require Import base gmap sets strings numbers pretty list.
From S2P Require Import Prelude FlowTree Schemas Json Crypto.

Definition continuation (c : ascii) : bool := char_in 128 191 c.
Definition ascii_char (c : ascii) : bool := nat_of_ascii c <? 128.
(** The characters of a text, each with its bytes; in UTF-8 none follow the one byte of an ASCII character. *)
Fixpoint split_text (l : bytes) : bytes * list bytes :=
  match l with
  | [] => ([], [])
  | c :: k =>
      let '(pending, cs) := split_text k in
      if continuation c then (c :: pending, cs)
      else if ascii_char c then ([], [c] :: cs)
      else ([], (c :: pending) :: cs)
  end.
Definition chars (s : string) : list bytes := (split_text (to_bytes s)).2.
Definition of_chars (l : list bytes) : string := of_bytes (concat l).

(** [s[:n]] and [s[-n:]] *)
Definition text_take (n : nat) (s : string) : string := of_chars (take n (chars s)).
Definition text_last (n : nat) (s : string) : string := of_chars (drop (length (chars s) - n) (chars s)).

(** [c.isspace()] *)
Definition unicode_spaces : list bytes :=
  map (λ n, [octet n]) [9; 10; 11; 12; 13; 28; 29; 30; 31; 32]%N
  ++ map (map octet) [[194; 133]; [194; 160]; [225; 154; 128]; [226; 128; 128]; [226; 128; 129]; [226; 128; 130]; [226; 128; 131];
                      [226; 128; 132]; [226; 128; 133]; [226; 128; 134]; [226; 128; 135]; [226; 128; 136]; [226; 128; 137];
                      [226; 128; 138]; [226; 128; 168]; [226; 128; 169]; [226; 128; 175]; [226; 129; 159]; [227; 128; 128]]%N.
Definition space_char (c : bytes) : bool := bool_decide (c ∈ unicode_spaces).
(** [s.strip()] *)
Fixpoint drop_spaces (l : list bytes) : list bytes :=
  match l with c :: k => if space_char c then drop_spaces k else l | [] => [] end.
Definition strip_chars (l : list bytes) : list bytes := reverse (drop_spaces (reverse (drop_spaces l))).
Definition text_strip (s : string) : string := of_chars (strip_chars (chars s)).
(** [s.split()] *)
Fixpoint split_chars (word : list bytes) (l : list bytes) : list (list bytes) :=
  let closed := match word with [] => [] | _ => [word] end in
  match l with
  | [] => closed
  | c :: k => if space_char c then closed ++ split_chars [] k else split_chars (word ++ [c]) k
  end.
Definition text_split (s : string) : list string := map of_chars (split_chars [] (chars s)).
Fixpoint join_text (separator : string) (l : list string) : string :=
  match l with [] => "" | [s] => s | s :: k => s +:+ separator +:+ join_text separator k end.

(** [ord(c) < 32 or 127 <= ord(c) < 160], and the two separators *)
Definition is_control (c : bytes) : bool :=
  match c with
  | [a] => (nat_of_ascii a <? 32) || bool_decide (nat_of_ascii a = 127)
  | [a; b] => bool_decide (nat_of_ascii a = 194) && char_in 128 159 b
  | _ => bool_decide (c = map octet [226; 128; 168]%N) || bool_decide (c = map octet [226; 128; 169]%N)
  end.
Definition has_control_characters (s : string) : bool := existsb is_control (chars s).
Definition is_ascii_text (s : string) : bool := forallb ascii_char (to_bytes s).

(** [s.rstrip("/")] and [s.lstrip("/")] *)
Fixpoint lstrip_slash (s : string) : string :=
  match s with String c k => if bool_decide (c = "/"%char) then lstrip_slash k else s | EmptyString => "" end.
Definition rstrip_slash (s : string) : string :=
  of_bytes (reverse (to_bytes (lstrip_slash (of_bytes (reverse (to_bytes s)))))).

(** The rounding of Python: to the nearest integer, halves to the even one. *)
Definition round_div (n d : Z) : Z :=
  let q := (n / d)%Z in
  let r := (2 * (n mod d))%Z in
  if (r <? d)%Z then q else if (d <? r)%Z then (q + 1)%Z else if Z.even q then q else (q + 1)%Z.
(** The double nearest to [n / d], as a mantissa and the power of two it is divided by. *)
Definition double_div (n d : Z) : Z * Z :=
  let k := (53 - (Z.log2 n - Z.log2 d))%Z in
  let k := (if (2 ^ 53 <=? n * 2 ^ k / d)%Z then k - 1 else k)%Z in
  (round_div (n * 2 ^ k) d, k).
