(* ===== verification/Email.v ===== *)
(** * Notification emails ([email_content.py], [email_notify.py], [email_api.py], [display_settings.py])

    The wording of an email, the settings of the mail server, and the payload that is handed to
    it.  The exchange with the server is left out.  [zoneinfo] gives the minutes of a timezone's
    offset at an instant, and [addr_spec] says which addresses the parser of message headers
    accepts. *)
From Stdlib Require Import Ascii.
From stdpp Require Import base gmap sets strings numbers pretty list.
From S2P Require Import Prelude FlowTree Schemas LegacyGraph Json Crypto Documents Store Drafts Revisions V4Api Diff Devices Policies Calls Recordings Storage Text.

(** ** Wording *)

Record RecordingFacts := {
  fact_kind : string; fact_captured : timestamp; fact_duration : Z; fact_operator : string; fact_stop_reason : string;
  fact_partial : bool; fact_size : option Z }.
Definition facts_of (r : recording_row) : RecordingFacts :=
  {| fact_kind := kind (capture_of r); fact_captured := captured_at (capture_of r); fact_duration := rec_duration_ms (source_of r);
     fact_operator := operator_last4 (capture_of r); fact_stop_reason := rec_stop_reason (source_of r);
     fact_partial := Storage.partial (source_of r); fact_size := media_size_bytes (media_of r) |}.

Definition EVENT_LABELS : list (string * string) :=
  [("voicemail_ready", "Voicemail ready"); ("conversation_ready", "Conversation ready"); ("ivr_session_failed", "IVR session failed");
   ("external_call_failed", "External call failed"); ("revision_activation_failed", "Revision activation failed");
   ("storage_full", "Storage full"); ("tablet_offline", "Tablet offline"); ("ivr_session_completed", "IVR session completed");
   ("stock_dialer_routing", "Stock-dialer routing")].
Definition REASON_TEXTS : list (string * string) :=
  [("session_complete", "Session complete"); ("preempted", "Preempted"); ("capture_failure", "Capture failure");
   ("storage_full", "Storage full"); ("interrupted", "Interrupted"); ("writer_failure", "Recording failure");
   ("finish_key", "Finish key"); ("maximum_duration", "Time limit"); ("caller_hangup", "Caller hung up");
   ("operator_hangup", "Operator disconnected"); ("recording_failure", "Recording failure");
   ("buffer_overrun", "Audio buffer overrun"); ("max_call_duration", "Maximum call duration"); ("completed", "Conversation complete")].
Definition PERSIAN_MONTHS : list string :=
  ["Farvardin"; "Ordibehesht"; "Khordad"; "Tir"; "Mordad"; "Shahrivar"; "Mehr"; "Aban"; "Azar"; "Dey"; "Bahman"; "Esfand"].
Definition GREGORIAN_MONTHS : list string :=
  ["Jan"; "Feb"; "Mar"; "Apr"; "May"; "Jun"; "Jul"; "Aug"; "Sep"; "Oct"; "Nov"; "Dec"].
Definition LISTEN_HINT : string := "To listen, open the IVRdroid dashboard and choose Recordings.".

Definition month_offsets : list Z := [0; 31; 59; 90; 120; 151; 181; 212; 243; 273; 304; 334]%Z.
(** The day number with which [jalali_date] starts, and the date it has in the Persian calendar. *)
Definition jalali_days (d : Z * Z * Z) : Z :=
  let '(y, m, day) := d in
  let year := (if 2 <? m then y + 1 else y)%Z in
  (355666 + 365 * y + (year + 3) / 4 - (year + 99) / 100 + (year + 399) / 400 + day + nth (Z.to_nat (m - 1)) month_offsets 0)%Z.
Definition jalali_of_days (days : Z) : Z * Z * Z :=
  let year := (-1595 + 33 * (days / 12053))%Z in
  let days := (days mod 12053)%Z in
  let year := (year + 4 * (days / 1461))%Z in
  let days := (days mod 1461)%Z in
  let '(year, days) := (if 365 <? days then (year + (days - 1) / 365, (days - 1) mod 365) else (year, days))%Z in
  if (days <? 186)%Z then (year, 1 + days / 31, 1 + days mod 31)%Z
  else (year, 7 + (days - 186) / 30, 1 + (days - 186) mod 30)%Z.
Definition jalali_date (d : Z * Z * Z) : Z * Z * Z := jalali_of_days (jalali_days d).

Section Wording.
Context (zoneinfo : string → Z → result Z).

Definition month_name (months : list string) (m : Z) : string := nth (Z.to_nat (m - 1)) months "".
Definition format_when (moment : timestamp) (timezone_name calendar : string) : result string :=
  let u := (instant (local moment) - default 0 (utc_offset moment) * 60000000)%Z in
  minutes ← zoneinfo timezone_name u;
  let here := datetime_of_instant (u + minutes * 60000000) in
  let '(year, name, day) :=
    if bool_decide (calendar = "persian") then
      let '(year, month, day) := jalali_date (date here) in (year, month_name PERSIAN_MONTHS month, day)
    else let '(year, month, day) := date here in (year, month_name GREGORIAN_MONTHS month, day) in
  Ok (name +:+ " " +:+ pretty day +:+ ", " +:+ pretty year +:+ ", " +:+ two_digits (hour here) +:+ ":" +:+ two_digits (minute here)
      +:+ " (" +:+ timezone_name +:+ ")").

Definition format_duration (duration_ms : Z) : string :=
  let seconds := Z.max 0 (round_div duration_ms 1000) in
  let hours := (seconds / 3600)%Z in
  let minutes := (seconds mod 3600 / 60)%Z in
  let rest := (seconds mod 3600 mod 60)%Z in
  if negb (hours =? 0)%Z then pretty hours +:+ " h " +:+ pretty minutes +:+ " min"
  else if negb (minutes =? 0)%Z then pretty minutes +:+ " min " +:+ pretty rest +:+ " s"
  else pretty rest +:+ " s".
(** Megabytes with the digit after the point that the nearest double has. *)
Definition format_size (size_bytes : Z) : string :=
  if (size_bytes <? 1000000)%Z then pretty (Z.max 1 (round_div size_bytes 1000)) +:+ " KB"
  else
    let '(mantissa, k) := double_div size_bytes 1000000 in
    let tenths := round_div (mantissa * 10) (2 ^ k) in
    pretty (tenths / 10)%Z +:+ "." +:+ pretty (tenths mod 10)%Z +:+ " MB".

(** The digits that an email shows of a masked number; masks are ASCII. *)
Definition caller_ending (caller_masked : option string) : option string :=
  match caller_masked with
  | None => None
  | Some masked =>
      if bool_decide (masked = "") then None
      else
        let digits := text_last 4 masked in
        if negb (bool_decide (digits = "")) && forallb (char_in 48 57) (to_bytes digits) then Some digits else None
  end.
Definition caller_line (caller_masked : string) : string :=
  match caller_ending (Some caller_masked) with
  | Some digits => "Caller: number ending " +:+ digits
  | None => "Caller: short or hidden number"
  end.
(** A caller that is neither absent nor empty. *)
Definition known_caller (caller : option string) : option string :=
  match caller with Some c => if bool_decide (c = "") then None else Some c | None => None end.

(** [s.replace("_", " ").capitalize()] of ASCII text *)
Definition upper_first (c : ascii) : ascii := if char_in 97 122 c then ascii_of_nat (nat_of_ascii c - 32) else c.
Definition capitalize (s : string) : string :=
  match map (λ c, if bool_decide (c = "_"%char) then " "%char else lower c) (to_bytes s) with
  | [] => ""
  | c :: l => of_bytes (upper_first c :: l)
  end.
Definition newline : string := of_bytes [ascii_of_nat 10].

Definition recording_email (facts : RecordingFacts) (caller_masked : option string) (timezone_name calendar : string)
    : result (string * string) :=
  let conversation := bool_decide (fact_kind facts = "conversation") in
  let digits := caller_ending caller_masked in
  let duration := format_duration (fact_duration facts) in
  let noun := if conversation then "Call" else "Voicemail" in
  let subject := match digits with
                 | Some d => noun +:+ " from number ending " +:+ d +:+ ", " +:+ duration
                 | None => if conversation then "Recorded call, " +:+ duration else "Voicemail, " +:+ duration
                 end in
  moment ← format_when (fact_captured facts) timezone_name calendar;
  let status := if fact_partial facts then "Partial audio" else "Ready" in
  let lines :=
    ["When: " +:+ moment]
    ++ match known_caller caller_masked with Some c => [caller_line c] | None => [] end
    ++ ["Duration: " +:+ duration]
    ++ (if conversation && negb (bool_decide (fact_operator facts = ""))
        then ["Answered by: operator line ending " +:+ fact_operator facts] else [])
    ++ ["Ended: " +:+ default (capitalize (fact_stop_reason facts)) (assoc (fact_stop_reason facts) REASON_TEXTS)]
    ++ [match fact_size facts with
        | Some size => if (size =? 0)%Z then "Recording: " +:+ status else "Recording: " +:+ status +:+ ", " +:+ format_size size
        | None => "Recording: " +:+ status
        end] in
  let intro := if conversation then "A forwarded call was recorded and saved in IVRdroid." else "A caller left a voicemail in IVRdroid." in
  Ok (subject, join_text (newline +:+ newline) [intro; join_text newline lines; LISTEN_HINT]).

Definition event_email (message : string) (caller_masked : option string) : string :=
  match known_caller caller_masked with Some c => message +:+ newline +:+ caller_line c | None => message end
  +:+ newline +:+ newline +:+ "Open the IVRdroid dashboard for details.".
Definition with_footer (body note : string) : string := body +:+ newline +:+ newline +:+ note +:+ newline.
Definition quote_mark : string := of_bytes [ascii_of_nat 34].
Definition event_note (event_key : string) : string :=
  "Sent because " +:+ quote_mark +:+ default event_key (assoc event_key EVENT_LABELS) +:+ quote_mark +:+ " email is on in IVRdroid settings.".
End Wording.

(** ** Settings *)

(** [EmailSettings] *)
Record email_settings := {
  email_enabled : bool; smtp_host : string; smtp_port : Z; smtp_security : string; smtp_username : string;
  smtp_password_encrypted : option bytes; from_address : string; from_name : string; recipients : list string;
  email_updated : datetime; email_updated_by : string }.
(** [DisplaySettings] *)
Record display_settings := { display_timezone : string; display_calendar : string; display_updated : datetime; display_by : string }.

(** [initialize_email_settings] *)
Definition initialize_email_settings (t : datetime) (actor : string) (row : option email_settings) : email_settings :=
  default {| email_enabled := false; smtp_host := "smtp.mail.me.com"; smtp_port := 587; smtp_security := "starttls"; smtp_username := "";
             smtp_password_encrypted := None; from_address := ""; from_name := "IVRdroid"; recipients := []; email_updated := t;
             email_updated_by := actor |} row.
Definition email_ready (row : option email_settings) : bool :=
  match row with
  | Some e => email_enabled e && negb (bool_decide (smtp_host e = "")) && negb (bool_decide (from_address e = ""))
              && negb (bool_decide (recipients e = []))
  | None => false
  end.

(** [normalize_email_address] *)
Definition EMAIL_FORBIDDEN_CHARACTERS : bytes := to_bytes "<>,;" ++ [ascii_of_nat 34] ++ to_bytes "()".
Fixpoint split_at_sign (l : bytes) : list bytes :=
  match l with
  | [] => [[]]
  | c :: k => if bool_decide (c = "@"%char) then [] :: split_at_sign k
              else match split_at_sign k with w :: ws => (c :: w) :: ws | [] => [[c]] end
  end.
(** [EMAIL_DOMAIN_PATTERN]: labels of letters, digits and hyphens, two at least. *)
Definition domain_character (c : ascii) : bool := letter c || char_in 48 57 c || bool_decide (c = "-"%char).
Fixpoint domain_labels (started : bool) (points : nat) (l : bytes) : bool :=
  match l with
  | [] => started && (0 <? points)
  | c :: k => if bool_decide (c = "."%char) then started && domain_labels false (S points) k
              else domain_character c && domain_labels true points k
  end.
Definition EMAIL_DOMAIN_PATTERN (s : bytes) : bool := domain_labels false 0 s.

Section Addresses.
Context (addr_spec : string → bool).

Definition normalize_email_address (value : string) : result string :=
  let address := text_strip value in
  if bool_decide (address = "") then Raise (ValueError "email address is required")
  else if existsb space_char (chars address) || has_control_characters address
  then Raise (ValueError "email address cannot contain spaces or line breaks")
  else if existsb (λ c, bool_decide (c ∈ EMAIL_FORBIDDEN_CHARACTERS)) (to_bytes address)
  then Raise (ValueError "email address cannot contain forbidden characters")
  else if negb (is_ascii_text address) then Raise (ValueError "email address must use ASCII characters")
  else
    match split_at_sign (to_bytes address) with
    | [user; domain] =>
        if bool_decide (user = []) then Raise (ValueError "email address needs a name before the @")
        else if (64 <? length user) || (254 <? String.length address) then Raise (ValueError "email address is too long")
        else if negb (EMAIL_DOMAIN_PATTERN domain) then Raise (ValueError "email address must end in a domain such as example.com")
        else if negb (addr_spec address) then Raise (ValueError "email address is not valid")
        else Ok (of_bytes (map lower (to_bytes address)))
    | _ => Raise (ValueError "email address must contain exactly one @")
    end.

(** [EmailSettingsRequest], as it arrives; its validators replace the fields they clean. *)
Record email_request := {
  request_enabled : bool; request_host : string; request_port : Z; request_security : string; request_username : string;
  request_password : option string; request_from : string; request_from_name : string; request_recipients : list string }.
(** [host.lower()]: the Kelvin sign is the only other character whose lower case is ASCII. *)
Definition lower_char (c : bytes) : bytes :=
  if bool_decide (c = map octet [226; 132; 170]%N) then to_bytes "k" else map lower c.
Definition as_validation_error {A} (m : result A) : result A := match m with Ok a => Ok a | Raise _ => Raise validation_error end.
Definition validate_email_request (b : email_request) : result email_request :=
  if negb ((py_len (request_host b) <=? 253) && in_range 1 65535 (request_port b)
           && bool_decide (request_security b ∈ ["starttls"; "ssl"]) && (py_len (request_username b) <=? 254)
           && match request_password b with Some p => py_len p <=? 256 | None => true end
           && (py_len (request_from b) <=? 254) && (py_len (request_from_name b) <=? 80) && (length (request_recipients b) <=? 5))
  then Raise validation_error
  else
    let host := of_chars (map lower_char (chars (text_strip (request_host b)))) in
    let username := text_strip (request_username b) in
    let password := text_strip <$> request_password b in
    let name := text_strip (request_from_name b) in
    _ ← require (bool_decide (host = "") || EMAIL_DOMAIN_PATTERN (to_bytes host));
    _ ← require (negb (existsb space_char (chars username) || has_control_characters username));
    _ ← require (match password with Some p => negb (has_control_characters p) | None => true end);
    sender ← (if bool_decide (text_strip (request_from b) = "") then Ok "" else as_validation_error (normalize_email_address (request_from b)));
    _ ← require (negb (has_control_characters name));
    addresses ← as_validation_error (mapM normalize_email_address (request_recipients b));
    let addresses := dict_fromkeys addresses in
    _ ← require (negb (request_enabled b && (bool_decide (host = "") || bool_decide (sender = "") || bool_decide (addresses = []))));
    Ok {| request_enabled := request_enabled b; request_host := host; request_port := request_port b; request_security := request_security b;
          request_username := username; request_password := match password with Some p => known_caller (Some p) | None => None end;
          request_from := sender; request_from_name := name; request_recipients := addresses |}.
End Addresses.

(** *** Payloads *)

Record EmailPayload := {
  mail_host : string; mail_port : Z; mail_security : string; mail_username : string; mail_password : option bytes;
  mail_from : string; mail_from_name : string; mail_recipients : list string; mail_subject : string; mail_body : string;
  local_hostname : option string }.
Definition build_email_payload (row : email_settings) (password : option bytes) (hostname : option string) (subject_title body : string)
    : EmailPayload :=
  {| mail_host := smtp_host row; mail_port := smtp_port row; mail_security := smtp_security row; mail_username := smtp_username row;
     mail_password := password; mail_from := from_address row; mail_from_name := from_name row; mail_recipients := recipients row;
     mail_subject := "[IVRdroid] " +:+ text_take 120 (join_text " " (text_split subject_title)); mail_body := body;
     local_hostname := hostname |}.

Section Handlers.
Context `{Cryptography} (key : bytes).

(** An encrypted secret of the settings, if there is one. *)
Definition decrypt_secret (secret : option bytes) : result (option bytes) :=
  match secret with
  | Some e => if bool_decide (e = []) then Ok None else Some <$> decrypt key e
  | None => Ok None
  end.
Definition decrypt_password (row : email_settings) : result (option bytes) := decrypt_secret (smtp_password_encrypted row).

(** [_response], with the row it shows *)
Record email_response := { shown_row : email_settings; password_configured : bool }.
Definition email_response_of (row : email_settings) : email_response :=
  {| shown_row := row; password_configured := match smtp_password_encrypted row with Some e => negb (bool_decide (e = [])) | None => false end |}.
(** [get_email_settings]: the answer, and the row that is then stored. *)
Definition get_email_settings (t : datetime) (admin : string) (row : option email_settings) : email_response * email_settings :=
  let row := initialize_email_settings t admin row in (email_response_of row, row).

(** The password after a change of the settings, and whether it changed. *)
Definition changed_password (r : request) (b : email_request) (row : email_settings) : result (option bytes * bool) :=
  if bool_decide (request_username b = "") then Ok (None, bool_decide (is_Some (smtp_password_encrypted row)))
  else
    match request_password b with
    | Some p => Ok (Some (encrypt key (nonce r 0) (to_bytes p)), true)
    | None => match smtp_password_encrypted row with
              | Some e => if bool_decide (e = []) then Raise (HTTPException 400 ["Enter the SMTP password for this username"])
                          else Ok (Some e, false)
              | None => Raise (HTTPException 400 ["Enter the SMTP password for this username"])
              end
    end.
(** [put_email_settings]: the row and the audit entry *)
Definition put_email_settings (r : request) (b : email_request) (row : option email_settings) : result (email_settings * audit_row) :=
  let row := initialize_email_settings (now r) (actor r) row in
  p ← changed_password r b row;
  let '(password, changed) := p in
  Ok ({| email_enabled := request_enabled b; smtp_host := request_host b; smtp_port := request_port b; smtp_security := request_security b;
         smtp_username := request_username b; smtp_password_encrypted := password; from_address := request_from b;
         from_name := request_from_name b; recipients := request_recipients b; email_updated := now r; email_updated_by := actor r |},
      {| audit_actor := actor r; action := "email.settings_updated"; target := "email-settings";
         details := JObj [("enabled", JBool (request_enabled b)); ("smtp_host", JStr (request_host b)); ("smtp_port", JInt (request_port b));
                          ("smtp_security", JStr (request_security b)); ("from_address", JStr (request_from b));
                          ("recipient_count", JInt (Z.of_nat (length (request_recipients b)))); ("password_changed", JBool changed)] |}).
End Handlers.

(** ** Display *)

Definition DEFAULTS : string * string := ("Asia/Tehran", "persian").
(** [DisplaySettingsValue] *)
Definition display_value (valid_zone : string → bool) (timezone calendar : string) : bool :=
  str_length 1 80 timezone && bool_decide (calendar ∈ ["gregorian"; "persian"]) && valid_zone timezone.
Definition get_display (row : option display_settings) : string * string :=
  match row with Some d => (display_timezone d, display_calendar d) | None => DEFAULTS end.
Definition save_display (r : request) (timezone calendar : string) : display_settings * audit_row :=
  ({| display_timezone := timezone; display_calendar := calendar; display_updated := now r; display_by := actor r |},
   {| audit_actor := actor r; action := "display.settings_updated"; target := "display-settings";
      details := JObj [("timezone", JStr timezone); ("date_calendar", JStr calendar)] |}).
