(* ===== verification/EmailCorrect.v ===== *)
(** * Notification emails, proved

    The calendar of the dates in an email against a reference definition, and the one line that
    every header of an email is. *)
From Stdlib Require Import Ascii.
From stdpp Require Import base gmap sets strings numbers pretty list.
From S2P Require Import Prelude FlowTree Schemas LegacyGraph Json Crypto Documents Store Drafts Revisions V4Api Diff Devices Policies Calls Recordings RecordingsFacts Storage Text Email.

(** ** The Persian calendar *)

(** The arithmetic Persian calendar: eight leap years in 33, six months of 31 days, five of 30,
    and a last one of 29 or, in a leap year, 30. *)
Definition persian_leap (y : Z) : bool := bool_decide (y mod 33 ∈ [1; 5; 9; 13; 17; 22; 26; 30])%Z.
Definition persian_month_days (y m : Z) : Z :=
  (if m <=? 6 then 31 else if m <=? 11 then 30 else if persian_leap y then 30 else 29)%Z.
Definition persian_tomorrow (d : Z * Z * Z) : Z * Z * Z :=
  let '(y, m, day) := d in
  if (day <? persian_month_days y m)%Z then (y, m, day + 1)%Z
  else if (m <? 12)%Z then (y, m + 1, 1)%Z
  else (y + 1, 1, 1)%Z.

Definition add_years (k : Z) (d : Z * Z * Z) : Z * Z * Z := let '(y, m, day) := d in (y + k, m, day)%Z.

Lemma persian_tomorrow_period d k : persian_tomorrow (add_years (33 * k) d) = add_years (33 * k) (persian_tomorrow d).
Proof.
  destruct d as [[y m] day]. cbn. unfold persian_month_days, persian_leap.
  replace ((y + 33 * k) mod 33)%Z with (y mod 33)%Z by (Z.div_mod_to_equations; lia).
  repeat destruct (_ <? _)%Z; cbn; f_equal; try f_equal; lia.
Qed.

Lemma jalali_period d k : jalali_of_days (d + 12053 * k) = add_years (33 * k) (jalali_of_days d).
Proof.
  unfold jalali_of_days.
  replace ((d + 12053 * k) / 12053)%Z with (d / 12053 + k)%Z by (rewrite Z.mul_comm, Z.div_add; lia).
  replace ((d + 12053 * k) mod 12053)%Z with (d mod 12053)%Z by (rewrite Z.mul_comm, Z.mod_add; lia).
  destruct (365 <? _)%Z; cbn [add_years]; destruct (_ <? 186)%Z; cbn; f_equal; f_equal; lia.
Qed.

(** A test of the [2 ^ k] days from [a] on. *)
Fixpoint all_days (p : Z → bool) (k : nat) (a : Z) : bool :=
  match k with O => p a | S k => all_days p k a && all_days p k (a + 2 ^ Z.of_nat k)%Z end.
Lemma all_days_spec p k a d : all_days p k a = true → (a <= d < a + 2 ^ Z.of_nat k)%Z → p d = true.
Proof.
  revert a. induction k as [|k IH]; intros a.
  - intros H Hd. by replace d with a by (cbn in Hd; lia).
  - cbn [all_days]. intros [Ha Hb]%andb_prop Hd. rewrite Nat2Z.inj_succ, Z.pow_succ_r in Hd by lia.
    destruct (decide (d < a + 2 ^ Z.of_nat k)%Z); [apply (IH a)|apply (IH (a + 2 ^ Z.of_nat k)%Z)]; (done || lia).
Qed.

Lemma jalali_next d : jalali_of_days (d + 1) = persian_tomorrow (jalali_of_days d).
Proof.
  assert (Hall : all_days (λ d, bool_decide (jalali_of_days (d + 1) = persian_tomorrow (jalali_of_days d))) 14 0 = true)
    by (vm_compute; reflexivity).
  rewrite (Z.div_mod d 12053) by lia. rewrite (Z.add_comm (12053 * _)), <- Z.add_assoc, (Z.add_comm _ 1), Z.add_assoc, !jalali_period.
  rewrite persian_tomorrow_period. f_equal.
  refine (bool_decide_eq_true_1 _ (all_days_spec _ _ _ (d mod 12053) Hall _)). pose proof (Z.mod_pos_bound d 12053). lia.
Qed.

(** *** Gregorian dates and days *)

(** The number of days of an era before its year [y], which starts in March. *)
Definition year_start (y : Z) : Z := (365 * y + y / 4 - y / 100)%Z.
(** 365 times the year of a day of an era, and a rest below 365. *)
Definition year_days (d : Z) : Z := (d - d / 1460 + d / 36524 - d / 146096)%Z.

Lemma year_days_step d : (year_days d <= year_days (d + 1))%Z.
Proof. unfold year_days. Z.div_mod_to_equations. lia. Qed.
Lemma year_days_mono d e : (d <= e)%Z → (year_days d <= year_days e)%Z.
Proof.
  intros H. replace e with (d + Z.of_nat (Z.to_nat (e - d)))%Z by lia. generalize (Z.to_nat (e - d)). clear.
  induction n as [|n IH]; [rewrite Z.add_0_r; lia|].
  rewrite Nat2Z.inj_succ. pose proof (year_days_step (d + Z.of_nat n)). replace (d + Z.succ (Z.of_nat n))%Z with (d + Z.of_nat n + 1)%Z; lia.
Qed.

Definition last_day (y : Z) : Z := if (y =? 399)%Z then 146096%Z else (year_start (y + 1) - 1)%Z.
Lemma year_of_day y d : (0 <= y < 400)%Z → (year_start y <= d <= last_day y)%Z → (year_days d / 365)%Z = y.
Proof.
  intros Hy Hd.
  assert (Hall : all_days (λ y, (399 <? y)%Z || ((365 * y <=? year_days (year_start y)) && (year_days (last_day y) <? 365 * y + 365))%Z) 9 0 = true)
    by (vm_compute; reflexivity).
  assert (H := all_days_spec _ _ _ y Hall). apply orb_prop in H as [H|H]; [| |change (2 ^ Z.of_nat 9)%Z with 512%Z; lia].
  { apply Z.ltb_lt in H. lia. }
  apply andb_prop in H as [H1%Z.leb_le H2%Z.ltb_lt].
  pose proof (year_days_mono (year_start y) d). pose proof (year_days_mono d (last_day y)).
  symmetry. apply (Z.div_unique_pos _ _ _ (year_days d - 365 * y)); lia.
Qed.

Lemma day_has_year d : (0 <= d < 146097)%Z → ∃ y, (0 <= y < 400)%Z ∧ (year_start y <= d <= last_day y)%Z.
Proof.
  intros Hd.
  assert (Hind : ∀ n : nat, (d < year_start (Z.of_nat n))%Z → ∃ y, (0 <= y < Z.of_nat n)%Z ∧ (year_start y <= d < year_start (y + 1))%Z).
  { induction n as [|n IH]; intros H; [change (d < 0)%Z in H; lia|].
    destruct (decide (d < year_start (Z.of_nat n))%Z) as [Hn|Hn].
    - destruct (IH Hn) as (y & ? & ?). exists y. lia.
    - exists (Z.of_nat n). replace (Z.of_nat n + 1)%Z with (Z.of_nat (S n)) by lia. lia. }
  destruct (decide (d = 146096%Z)) as [->|Hne].
  { exists 399%Z. unfold last_day. vm_compute. intuition congruence. }
  destruct (Hind 400) as (y & Hy & H); [change (year_start (Z.of_nat 400)) with 146096%Z; lia|].
  exists y. split; [lia|]. unfold last_day. destruct (Z.eqb_spec y 399) as [->|]; [|lia].
  change (year_start (399 + 1)) with 146096%Z in H. lia.
Qed.

(** The days that [jalali_date] counts of a date of a year that starts in March. *)
Lemma jalali_days_march y doy : (0 <= doy < 366)%Z →
  let mp := ((5 * doy + 2) / 153)%Z in
  let m := (if mp <? 10 then mp + 3 else mp - 9)%Z in
  jalali_days ((if m <=? 2 then y + 1 else y)%Z, m, (doy - (153 * mp + 2) / 5 + 1)%Z)
  = (355727 + doy + 365 * y + y / 4 - y / 100 + y / 400)%Z.
Proof.
  intros Hdoy mp m.
  assert (Hall : all_days (λ doy, (366 <=? doy)%Z ||
    (let mp := ((5 * doy + 2) / 153)%Z in let m := (if mp <? 10 then mp + 3 else mp - 9)%Z in
     (nth (Z.to_nat (m - 1)) month_offsets 0 + (if m <=? 2 then 365 else 0) + (doy - (153 * mp + 2) / 5 + 1) =? doy + 60)
     && Bool.eqb (m <=? 2) (negb (2 <? m)))%Z) 9 0 = true) by (vm_compute; reflexivity).
  assert (H := all_days_spec _ _ _ doy Hall). apply orb_prop in H as [H|H]; [apply Z.leb_le in H; lia| |change (2 ^ Z.of_nat 9)%Z with 512%Z; lia].
  cbv zeta in H. fold mp in H. fold m in H. apply andb_prop in H as [H%Z.eqb_eq _].
  unfold jalali_days. destruct (Z.leb_spec m 2), (Z.ltb_spec 2 m); try lia; Z.div_mod_to_equations; lia.
Qed.

Lemma jalali_days_of_days n : jalali_days (date_of_days n) = (n + 1075195)%Z.
Proof.
  unfold date_of_days. set (z := (n + 719468)%Z). set (era := (z / 146097)%Z). set (d := (z - era * 146097)%Z).
  assert (Hd : (0 <= d < 146097)%Z) by (subst d era; Z.div_mod_to_equations; lia).
  destruct (day_has_year d Hd) as (y & Hy & Hyd). cbv zeta.
  replace ((d - d / 1460 + d / 36524 - d / 146096) / 365)%Z with y by (symmetry; by apply (year_of_day y d)).
  fold (year_start y). set (doy := (d - year_start y)%Z).
  assert (Hdoy : (0 <= doy < 366)%Z).
  { subst doy. unfold last_day in Hyd. destruct (Z.eqb_spec y 399) as [->|]; [change (year_start 399) with 145731%Z in *; lia|].
    unfold year_start in *. Z.div_mod_to_equations. lia. }
  rewrite (jalali_days_march (y + era * 400) doy Hdoy).
  subst doy. unfold year_start. subst d era z. Z.div_mod_to_equations. lia.
Qed.

(** C36 The date that an email shows in the Persian calendar is the one of the arithmetic calendar:
    1970-01-01 is Dey 11, 1348, and the date of every day follows the date of the day before it. *)
Theorem persian_dates_exact :
  jalali_date (date_of_days 0) = (1348, 10, 11)%Z
  ∧ ∀ n, jalali_date (date_of_days (n + 1)) = persian_tomorrow (jalali_date (date_of_days n)).
Proof.
  split; [vm_compute; reflexivity|]. intros n. unfold jalali_date. rewrite !jalali_days_of_days, <- jalali_next. f_equal. lia.
Qed.

(** ** Headers *)

(** The bytes that would end the line of a header. *)
Definition line_break (c : ascii) : bool := bool_decide (c ∈ [ascii_of_nat 10; ascii_of_nat 13]).
Definition one_line (s : string) : bool := negb (existsb line_break (to_bytes s)).

Lemma one_line_spec s : one_line s = true ↔ ∀ c, c ∈ to_bytes s → line_break c = false.
Proof.
  unfold one_line. rewrite negb_true_iff. split.
  - intros H c Hc. destruct (line_break c) eqn:E; [|done]. rewrite <- H. symmetry. apply existsb_exists. exists c.
    by rewrite <- list_elem_of_In.
  - intros H. apply not_true_iff_false. rewrite existsb_exists. intros (c & Hc%list_elem_of_In & E). by rewrite H in E.
Qed.
Lemma line_break_ascii c : line_break c = true → c = ascii_of_nat 10 ∨ c = ascii_of_nat 13.
Proof. unfold line_break. rewrite bool_decide_eq_true. set_solver. Qed.

(** A character of a text is one ASCII byte, or has no ASCII byte. *)
Definition text_char (x : bytes) : Prop := (∃ c, x = [c] ∧ ascii_char c = true) ∨ Forall (λ c, ascii_char c = false) x.
Lemma continuation_not_ascii c : continuation c = true → ascii_char c = false.
Proof.
  unfold continuation, char_in, ascii_char. rewrite andb_true_iff, Nat.leb_le. intros [H _]. by apply Nat.ltb_ge.
Qed.
Lemma split_text_chars l : Forall (λ c, ascii_char c = false) (split_text l).1 ∧ Forall text_char (split_text l).2.
Proof.
  induction l as [|c k IH]; [by split; constructor|]. cbn [split_text]. destruct (split_text k) as [pending cs]. cbn [fst snd] in *.
  destruct IH as [Hp Hcs]. destruct (continuation c) eqn:Ec.
  - split; [constructor; [by apply continuation_not_ascii|done]|done].
  - destruct (ascii_char c) eqn:Ea; (split; [constructor|constructor; [|done]]).
    + left. by exists c.
    + right. by constructor.
Qed.
Lemma chars_text s : Forall text_char (chars s).
Proof. apply split_text_chars. Qed.
Lemma ascii_byte_char c l : ascii_char c = true → c ∈ l → [c] ∈ (split_text l).2.
Proof.
  intros Hc. induction l as [|d k IH]; [by intros ?%elem_of_nil|]. cbn [split_text]. destruct (split_text k) as [pending cs].
  cbn [snd] in *. rewrite elem_of_cons. intros [<-|Hk].
  - destruct (continuation c) eqn:E; [by rewrite (continuation_not_ascii _ E) in Hc|]. rewrite Hc. apply list_elem_of_here.
  - specialize (IH Hk). destruct (continuation d); [done|]. destruct (ascii_char d); by apply list_elem_of_further.
Qed.

Lemma line_break_char s c : line_break c = true → c ∈ to_bytes s → [c] ∈ chars s.
Proof. intros H. apply ascii_byte_char. by destruct (line_break_ascii c H) as [->| ->]. Qed.
Lemma line_break_is_space c : line_break c = true → space_char [c] = true ∧ is_control [c] = true.
Proof. by intros [->| ->]%line_break_ascii. Qed.

(** Text of which no character breaks a line. *)
Lemma one_line_no_space s : existsb space_char (chars s) = false → one_line s = true.
Proof.
  intros H. apply one_line_spec. intros c Hc. destruct (line_break c) eqn:E; [|done]. rewrite <- H. symmetry.
  apply existsb_exists. exists [c]. rewrite <- list_elem_of_In. split; [by apply line_break_char|by apply line_break_is_space].
Qed.
Lemma one_line_no_control s : has_control_characters s = false → one_line s = true.
Proof.
  intros H. apply one_line_spec. intros c Hc. destruct (line_break c) eqn:E; [|done]. rewrite <- H. symmetry.
  apply existsb_exists. exists [c]. rewrite <- list_elem_of_In. split; [by apply line_break_char|by apply line_break_is_space].
Qed.
Lemma one_line_lower l : one_line (of_bytes l) = true → one_line (of_bytes (map lower l)) = true.
Proof.
  unfold one_line. rewrite !negb_true_iff. unfold of_bytes, to_bytes. rewrite !String.list_ascii_of_string_of_list_ascii.
  intros H. rewrite <- H. clear H. induction l as [|c l IH]; [done|]. cbn. rewrite IH. f_equal. clear.
  by destruct c as [[] [] [] [] [] [] [] []]; vm_compute.
Qed.

Lemma one_line_of_chars l : Forall text_char l → (∀ x, x ∈ l → space_char x = false ∨ x = [" "%char]) → one_line (of_chars l) = true.
Proof.
  intros Hl H. apply one_line_spec. intros c Hc. destruct (line_break c) eqn:E; [|done]. exfalso.
  unfold of_chars, of_bytes, to_bytes in Hc. rewrite String.list_ascii_of_string_of_list_ascii in Hc.
  apply list_elem_of_In, in_concat in Hc as (x & Hx%list_elem_of_In & Hc%list_elem_of_In).
  rewrite Forall_forall in Hl. assert (Hx' : x = [c]).
  { destruct (Hl x Hx) as [(d & -> & _)|Hna]; [by apply list_elem_of_singleton in Hc as ->|].
    rewrite Forall_forall in Hna. apply Hna in Hc. by destruct (line_break_ascii c E) as [->| ->]. }
  subst x. destruct (H _ Hx) as [Hs|[= ->]]; [|done]. by rewrite (proj1 (line_break_is_space c E)) in Hs.
Qed.

Lemma one_line_app s t : one_line (s +:+ t) = one_line s && one_line t.
Proof. unfold one_line. by rewrite to_bytes_app, existsb_app, negb_orb. Qed.

Lemma split_text_bytes l c : c ∈ concat (split_text l).2 ∨ c ∈ (split_text l).1 → c ∈ l.
Proof.
  induction l as [|d k IH]; [cbn; by intros [?%elem_of_nil|?%elem_of_nil]|].
  cbn [split_text]. destruct (split_text k) as [pending cs]. cbn [fst snd] in *. rewrite elem_of_cons.
  destruct (continuation d); [|destruct (ascii_char d)]; cbn; rewrite ?elem_of_cons, ?elem_of_app, ?elem_of_nil; naive_solver.
Qed.
Lemma one_line_take n s : one_line s = true → one_line (text_take n s) = true.
Proof.
  rewrite !one_line_spec. intros H c Hc. apply H. unfold text_take, of_chars, of_bytes, to_bytes in Hc.
  rewrite String.list_ascii_of_string_of_list_ascii in Hc. apply split_text_bytes. left. fold (chars s).
  apply list_elem_of_In, in_concat in Hc as (x & Hx & Hc). apply list_elem_of_In, in_concat. exists x. split; [|done].
  apply list_elem_of_In. apply list_elem_of_In in Hx. rewrite <- (take_drop n (chars s)). apply elem_of_app. by left.
Qed.

Lemma split_chars_words word l w x :
  w ∈ split_chars word l → x ∈ w → x ∈ word ∨ (x ∈ l ∧ space_char x = false).
Proof.
  revert word. induction l as [|c l IH]; intros word Hw Hx; cbn [split_chars] in Hw.
  - destruct word; [by apply elem_of_nil in Hw|]. apply list_elem_of_singleton in Hw as ->. by left.
  - rewrite elem_of_cons. destruct (space_char c) eqn:Ec.
    + apply elem_of_app in Hw as [Hw|Hw]; [|destruct (IH [] Hw Hx) as [?%elem_of_nil|?]; naive_solver].
      destruct word; [by apply elem_of_nil in Hw|]. apply list_elem_of_singleton in Hw as ->. by left.
    + destruct (IH _ Hw Hx) as [[?| ->%list_elem_of_singleton]%elem_of_app|?]; naive_solver.
Qed.
Lemma one_line_join l : Forall (λ s, one_line s = true) l → one_line (join_text " " l) = true.
Proof.
  induction 1 as [|s l Hs Hl IH]; [done|]. cbn [join_text]. destruct l; [done|]. by rewrite !one_line_app, Hs, IH.
Qed.
Lemma one_line_split s : one_line (join_text " " (text_split s)) = true.
Proof.
  apply one_line_join. unfold text_split. apply Forall_forall. intros w (v & -> & Hv)%list_elem_of_fmap.
  assert (H : ∀ x, x ∈ v → x ∈ chars s ∧ space_char x = false).
  { intros x Hx. by destruct (split_chars_words [] (chars s) v x Hv Hx) as [?%elem_of_nil|?]. }
  apply one_line_of_chars; [|intros x Hx; left; apply (H x Hx)].
  apply Forall_forall. intros x Hx. pose proof (chars_text s) as Hc. rewrite Forall_forall in Hc. by apply Hc, H.
Qed.

Lemma domain_labels_line b n l c : domain_labels b n l = true → c ∈ l → line_break c = false.
Proof.
  revert b n. induction l as [|d l IH]; intros b n H; [by intros ?%elem_of_nil|]. cbn in H.
  assert (Hl : ∃ b n, domain_labels b n l = true) by (case_bool_decide; apply andb_prop in H as [_ H]; eauto).
  destruct Hl as (b' & n' & Hl). intros [->|Hc]%elem_of_cons; [|by apply (IH b' n')].
  destruct (line_break d) eqn:E; [|done]. destruct (line_break_ascii d E) as [->| ->]; by vm_compute in H.
Qed.
Lemma domain_one_line s : EMAIL_DOMAIN_PATTERN (to_bytes s) = true → one_line s = true.
Proof. intros H. apply one_line_spec. intros c. by apply (domain_labels_line false 0). Qed.

Section Addresses.
Context (addr_spec : string → bool).

Lemma normalized_one_line v a : normalize_email_address addr_spec v = Ok a → one_line a = true.
Proof.
  unfold normalize_email_address. cbv zeta. case_bool_decide; [done|].
  destruct (existsb space_char (chars (text_strip v)) || has_control_characters (text_strip v)) eqn:E; [done|].
  apply orb_false_iff in E as [E _]. destruct (existsb _ (to_bytes _)); [done|]. destruct (negb _); [done|].
  destruct (split_at_sign _) as [|user [|domain [|]]]; try done. case_bool_decide; [done|].
  destruct (_ || _); [done|]. destruct (negb _); [done|]. destruct (negb _); [done|]. intros [= <-].
  apply one_line_lower. unfold of_bytes, to_bytes. rewrite String.string_of_list_ascii_of_string. by apply one_line_no_space.
Qed.
End Addresses.

Lemma dedup_from_length `{EqDecision A} (seen l : list A) : length (dedup_from seen l) ≤ length l.
Proof. revert seen. induction l as [|x l IH]; intros seen; cbn; [done|].
  case_decide; cbn; [specialize (IH seen)|specialize (IH (x :: seen))]; lia.
Qed.

Lemma host_one_line s : bool_decide (s = "") || EMAIL_DOMAIN_PATTERN (to_bytes s) = true → one_line s = true.
Proof. intros [->%bool_decide_eq_true|Hs]%orb_prop; [done|by apply domain_one_line]. Qed.

Section Settings.
Context `{Cryptography} (addr_spec : string → bool) (key : bytes).

(** The fields of an email that become lines of its header or of the exchange with the server. *)
Definition header_fields (p : EmailPayload) : list string :=
  [mail_host p; mail_username p; mail_from p; mail_from_name p; mail_subject p] ++ mail_recipients p.
(** What [validate_email_request] establishes. *)
Definition clean_request (b : email_request) : Prop :=
  Forall (λ s, one_line s = true) ([request_host b; request_username b; request_from b; request_from_name b] ++ request_recipients b)
  ∧ NoDup (request_recipients b) ∧ length (request_recipients b) ≤ 5
  ∧ (request_enabled b = true → request_host b ≠ "" ∧ request_from b ≠ "" ∧ request_recipients b ≠ []).

Lemma required_holds b u : require b = Ok u → b = true.
Proof. by destruct b. Qed.
Lemma refused_ok {A} (m : result A) a : as_validation_error m = Ok a → m = Ok a.
Proof. destruct m; naive_solver. Qed.

Lemma validated_clean b b' : validate_email_request addr_spec b = Ok b' → clean_request b'.
Proof.
  unfold validate_email_request. destruct (negb _) eqn:Eb; [done|]. cbv zeta.
  apply negb_false_iff, andb_prop in Eb as [_ Hn%Nat.leb_le]. intros Hok.
  apply result_bind_ok in Hok as (u1 & Hhost%required_holds & Hok). apply result_bind_ok in Hok as (u2 & Huser%required_holds & Hok).
  apply result_bind_ok in Hok as (u3 & _ & Hok). apply result_bind_ok in Hok as (sender & Hsender & Hok).
  apply result_bind_ok in Hok as (u4 & Hname%required_holds & Hok). apply result_bind_ok in Hok as (l & Hl%refused_ok & Hok).
  apply result_bind_ok in Hok as (u5 & Hon%required_holds & Hok). injection Hok as <-. apply mapM_result_ok in Hl.
  assert (Hlen : length l ≤ 5) by (by rewrite <- (Forall2_length _ _ _ Hl)).
  unfold clean_request. cbn [request_host request_username request_from request_from_name request_recipients request_enabled].
  split; [|split; [apply NoDup_dedup_from|split; [pose proof (dedup_from_length [] l); unfold dict_fromkeys; lia|]]].
  - apply Forall_app. split.
    + repeat apply Forall_cons_2; [by apply host_one_line| | | |done].
      * apply negb_true_iff, orb_false_iff in Huser as [Hs _]. by apply one_line_no_space.
      * destruct (bool_decide (text_strip (request_from b) = "")); [by injection Hsender as <-|]. by eapply normalized_one_line, refused_ok.
      * apply negb_true_iff in Hname. by apply one_line_no_control.
    + apply Forall_forall. intros a Ha. apply (proj1 (elem_of_dict_fromkeys l a)), list_elem_of_lookup in Ha as [i Ha].
      destruct (Forall2_lookup_r _ _ _ _ _ Hl Ha) as (v & _ & Hv). by eapply normalized_one_line.
  - intros He. rewrite He in Hon. cbn in Hon. apply negb_true_iff in Hon.
    apply orb_false_iff in Hon as [Hon H3]. apply orb_false_iff in Hon as [H1' H2'].
    apply bool_decide_eq_false in H1', H2', H3. done.
Qed.

(** C35 Whatever an administrator enters and whatever a message is about, no field of an email holds a
    line break: the header of an email is the one the server composes.  Settings that are on name a
    server, a sender and at least one and at most five recipients, none of them twice. *)
Theorem email_headers_are_lines b b' r row row' entry :
  validate_email_request addr_spec b = Ok b' → put_email_settings key r b' row = Ok (row', entry) →
  (∀ password hostname title body, Forall (λ s, one_line s = true) (header_fields (build_email_payload row' password hostname title body)))
  ∧ email_ready (Some row') = email_enabled row'
  ∧ NoDup (recipients row') ∧ length (recipients row') ≤ 5.
Proof.
  intros (Hlines & Hnd & Hlen & Hon)%validated_clean Hput. unfold put_email_settings in Hput. cbv zeta in Hput.
  apply result_bind_ok in Hput as ([password changed] & _ & Hput). injection Hput as <- _.
  apply Forall_app in Hlines as [Hlines Hrec]. rewrite !Forall_cons in Hlines. destruct Hlines as (Hh & Hu & Hf & Hn & _).
  split; [|split; [|done]].
  - intros pw hostname title body. unfold header_fields, build_email_payload. cbn [mail_host mail_username mail_from mail_from_name mail_subject mail_recipients smtp_host smtp_username from_address from_name recipients app].
    repeat apply Forall_cons_2; try done. rewrite one_line_app. cbn [andb]. apply one_line_take, one_line_split.
  - unfold email_ready. cbn [email_enabled smtp_host from_address recipients]. destruct (request_enabled b'); [|done].
    destruct (Hon eq_refl) as (? & ? & ?). by rewrite !bool_decide_false by done.
Qed.
End Settings.

Section Witness.
#[local] Existing Instances plain_suite.

(** Settings as an administrator enters them: spaces around, and a recipient twice. *)
Definition entered : email_request :=
  {| request_enabled := true; request_host := " SMTP.Example.com "; request_port := 587; request_security := "starttls";
     request_username := "robot@example.com"; request_password := Some "secret"; request_from := "Robot@example.com ";
     request_from_name := "IVR"; request_recipients := ["owner@example.com"; "Owner@Example.com"; "second@example.com"] |}.
Definition cleaned : email_request :=
  {| request_enabled := true; request_host := "smtp.example.com"; request_port := 587; request_security := "starttls";
     request_username := "robot@example.com"; request_password := Some "secret"; request_from := "robot@example.com";
     request_from_name := "IVR"; request_recipients := ["owner@example.com"; "second@example.com"] |}.
Definition entered_at : request :=
  {| now := datetime_of_instant 1700000000000000; nonce := λ n, replicate 12 (octet (N.of_nat n)); uuid_hex := ""; actor := "admin@example.com" |}.

Lemma email_headers_are_lines_witness :
  ∃ row' entry,
    put_email_settings (to_bytes "key") entered_at cleaned None = Ok (row', entry) ∧ email_ready (Some row') = true
    ∧ recipients row' = ["owner@example.com"; "second@example.com"]
    ∧ mail_subject (build_email_payload row' None None (of_bytes (to_bytes "Bcc:" ++ [ascii_of_nat 13; ascii_of_nat 10] ++ to_bytes "all")) "")
      = "[IVRdroid] Bcc: all"
    ∧ ∀ title, Forall (λ s, one_line s = true) (header_fields (build_email_payload row' None None title "")).
Proof.
  assert (Hv : validate_email_request (λ _, true) entered = Ok cleaned) by (vm_compute; reflexivity).
  destruct (put_email_settings (to_bytes "key") entered_at cleaned None) as [[row' entry]|e] eqn:Hput; [|by vm_compute in Hput].
  exists row', entry.
  destruct (email_headers_are_lines (λ _, true) (to_bytes "key") entered cleaned entered_at None row' entry Hv Hput) as (Hlines & Hready & _).
  assert (Hrow : email_enabled row' = true ∧ recipients row' = ["owner@example.com"; "second@example.com"])
    by (vm_compute in Hput; injection Hput as <- _; done).
  destruct Hrow as [Hon Hrec]. split; [done|]. split; [by rewrite Hready|]. split; [done|]. split; [vm_compute; reflexivity|].
  intros title. apply Hlines.
Defined.
End Witness.
