(* ===== verification/Ntfy.v ===== *)
(** * Notification delivery ([ntfy.py], [ntfy_api.py])

    Which messages leave the server: the settings of the events, the messages of one event, and
    the watches that tell of a overdue tablet and of full storage.  A message that was handed to
    ntfy or to the mail server is a value here; both ignore what becomes of it. *)
From Stdlib Require Import Ascii.
From stdpp Require Import base gmap sets strings numbers pretty list.
From S2P Require Import Prelude FlowTree Schemas LegacyGraph Json Crypto Documents Store Drafts Revisions V4Api Diff Devices Policies Calls Recordings Storage Text Email.

(** ** The settings of the events *)

(** [NtfyEventBase] and the models that extend it *)
Record event_base := { event_enabled : bool; event_priority : string; event_mailed : bool }.
Inductive event_config :=
| NtfyEventBase (b : event_base)
| NtfyCallerEvent (b : event_base) (include_masked_caller : bool)
| NtfyExternalCallEvent (b : event_base) (include_masked_caller not_connected system_failure : bool)
| NtfyStorageEvent (b : event_base) (warn_at_quota_percent : Z)
| NtfyOfflineEvent (b : event_base) (idle_timeout_minutes in_call_timeout_minutes : Z) (notify_when_recovered : bool).
Inductive event_class := base_event | caller_event | external_call_event | storage_event | offline_event.
#[global] Instance event_class_eq_dec : EqDecision event_class.
Proof. solve_decision. Defined.
(** [NtfyEvents.model_fields] *)
Definition NTFY_EVENTS : list (string * event_class) :=
  [("voicemail_ready", caller_event); ("conversation_ready", caller_event); ("ivr_session_failed", caller_event);
   ("external_call_failed", external_call_event); ("revision_activation_failed", base_event); ("storage_full", storage_event);
   ("tablet_offline", offline_event); ("ivr_session_completed", caller_event); ("stock_dialer_routing", caller_event)].
(** [NtfyEvents]: the settings by event. *)
Definition NtfyEvents := list (string * event_config).

Definition base_of (c : event_config) : event_base :=
  match c with NtfyEventBase b | NtfyCallerEvent b _ | NtfyExternalCallEvent b _ _ _ | NtfyStorageEvent b _ | NtfyOfflineEvent b _ _ _ => b end.
Definition class_of (c : event_config) : event_class :=
  match c with NtfyEventBase _ => base_event | NtfyCallerEvent _ _ => caller_event | NtfyExternalCallEvent _ _ _ _ => external_call_event
             | NtfyStorageEvent _ _ => storage_event | NtfyOfflineEvent _ _ _ _ => offline_event end.
Definition with_email (e : bool) (b : event_base) : event_base :=
  {| event_enabled := event_enabled b; event_priority := event_priority b; event_mailed := e |}.
Definition set_email (e : bool) (c : event_config) : event_config :=
  match c with
  | NtfyEventBase b => NtfyEventBase (with_email e b)
  | NtfyCallerEvent b m => NtfyCallerEvent (with_email e b) m
  | NtfyExternalCallEvent b m n s => NtfyExternalCallEvent (with_email e b) m n s
  | NtfyStorageEvent b w => NtfyStorageEvent (with_email e b) w
  | NtfyOfflineEvent b i c n => NtfyOfflineEvent (with_email e b) i c n
  end.

(** [NTFY_PRIORITIES] *)
Definition NTFY_PRIORITIES : list (string * Z) := [("min", 1); ("low", 2); ("default", 3); ("high", 4); ("max", 5)]%Z.
Definition NtfyPriority (s : string) : bool := bool_decide (s ∈ NTFY_PRIORITIES.*1).
(** The constraints of the models. *)
Definition valid_event_config (c : event_config) : bool :=
  NtfyPriority (event_priority (base_of c))
  && match c with
     | NtfyStorageEvent _ w => in_range 50 100 w
     | NtfyOfflineEvent _ i c _ => in_range 5 120 i && in_range 15 180 c && (i <=? c)%Z
     | _ => true
     end.

Definition default_ntfy_events : NtfyEvents :=
  let base enabled priority := {| event_enabled := enabled; event_priority := priority; event_mailed := false |} in
  [("voicemail_ready", NtfyCallerEvent (base true "default") true); ("conversation_ready", NtfyCallerEvent (base true "default") true);
   ("ivr_session_failed", NtfyCallerEvent (base true "high") true);
   ("external_call_failed", NtfyExternalCallEvent (base true "high") true true true);
   ("revision_activation_failed", NtfyEventBase (base true "high")); ("storage_full", NtfyStorageEvent (base true "max") 90);
   ("tablet_offline", NtfyOfflineEvent (base true "high") 15 45 true);
   ("ivr_session_completed", NtfyCallerEvent (base false "default") true); ("stock_dialer_routing", NtfyCallerEvent (base false "low") false)].

(** [model_dump(mode="json")], without the email switch of the events where it is excluded *)
Definition dump_base (b : event_base) : list (string * json) :=
  [("enabled", JBool (event_enabled b)); ("priority", JStr (event_priority b))].
Definition dump_rest (c : event_config) : list (string * json) :=
  match c with
  | NtfyEventBase _ => []
  | NtfyCallerEvent _ m => [("include_masked_caller", JBool m)]
  | NtfyExternalCallEvent _ m n s =>
      [("include_masked_caller", JBool m); ("not_connected", JBool n); ("system_failure", JBool s)]
  | NtfyStorageEvent _ w => [("warn_at_quota_percent", JInt w)]
  | NtfyOfflineEvent _ i c n =>
      [("idle_timeout_minutes", JInt i); ("in_call_timeout_minutes", JInt c); ("notify_when_recovered", JBool n)]
  end.
Definition dump_event_config (c : event_config) : list (string * json) :=
  dump_base (base_of c) ++ [("email", JBool (event_mailed (base_of c)))] ++ dump_rest c.
(** [_storable_events] *)
Definition storable_event (c : event_config) : json := JObj (dump_base (base_of c) ++ dump_rest c).
Definition storable_events (events : NtfyEvents) : json := JObj (map (λ e, (e.1, storable_event e.2)) events).

(** [model_validate] of the settings of one event *)
Definition rest_fields (cl : event_class) : list string :=
  match cl with
  | base_event => []
  | caller_event => ["include_masked_caller"]
  | external_call_event => ["include_masked_caller"; "not_connected"; "system_failure"]
  | storage_event => ["warn_at_quota_percent"]
  | offline_event => ["idle_timeout_minutes"; "in_call_timeout_minutes"; "notify_when_recovered"]
  end.
Definition load_event_config (cl : event_class) : json → result event_config :=
  load_object (["enabled"; "priority"; "email"] ++ rest_fields cl) (λ o,
    enabled ← required "enabled" load_bool o;
    priority ← optional "priority" (load_str NtfyPriority) "default" o;
    email ← optional "email" load_bool false o;
    let b := {| event_enabled := enabled; event_priority := priority; event_mailed := email |} in
    match cl with
    | base_event => Ok (NtfyEventBase b)
    | caller_event => m ← optional "include_masked_caller" load_bool true o; Ok (NtfyCallerEvent b m)
    | external_call_event =>
        m ← optional "include_masked_caller" load_bool true o;
        n ← optional "not_connected" load_bool true o;
        s ← optional "system_failure" load_bool true o;
        Ok (NtfyExternalCallEvent b m n s)
    | storage_event => w ← optional "warn_at_quota_percent" (load_int 50 100) 90%Z o; Ok (NtfyStorageEvent b w)
    | offline_event =>
        i ← optional "idle_timeout_minutes" (load_int 5 120) 15%Z o;
        c ← optional "in_call_timeout_minutes" (load_int 15 180) 45%Z o;
        n ← optional "notify_when_recovered" load_bool true o;
        _ ← require (i <=? c)%Z;
        Ok (NtfyOfflineEvent b i c n)
    end).

(** [NtfySettings] *)
Record ntfy_settings := {
  ntfy_enabled : bool; server_url : string; topic : string; token_encrypted : option bytes; stored_events : json;
  email_events : json; last_offline_notified_at : option datetime; last_storage_notified_at : option datetime;
  ntfy_updated : datetime; ntfy_updated_by : string }.
Definition with_offline (t : option datetime) (row : ntfy_settings) : ntfy_settings :=
  {| ntfy_enabled := ntfy_enabled row; server_url := server_url row; topic := topic row; token_encrypted := token_encrypted row;
     stored_events := stored_events row; email_events := email_events row; last_offline_notified_at := t;
     last_storage_notified_at := last_storage_notified_at row; ntfy_updated := ntfy_updated row; ntfy_updated_by := ntfy_updated_by row |}.
Definition with_storage_notice (t : option datetime) (row : ntfy_settings) : ntfy_settings :=
  {| ntfy_enabled := ntfy_enabled row; server_url := server_url row; topic := topic row; token_encrypted := token_encrypted row;
     stored_events := stored_events row; email_events := email_events row; last_offline_notified_at := last_offline_notified_at row;
     last_storage_notified_at := t; ntfy_updated := ntfy_updated row; ntfy_updated_by := ntfy_updated_by row |}.
Definition initialize_ntfy_settings (t : datetime) (actor : string) (row : option ntfy_settings) : ntfy_settings :=
  default {| ntfy_enabled := false; server_url := "https://ntfy.sh"; topic := ""; token_encrypted := None;
             stored_events := storable_events default_ntfy_events; email_events := JNull; last_offline_notified_at := None;
             last_storage_notified_at := None; ntfy_updated := t; ntfy_updated_by := actor |} row.

(** [parse_events] *)
Definition as_dict (j : json) : list (string * json) := match j with JObj o => o | _ => [] end.
Definition update_dict (d changes : list (string * json)) : list (string * json) := foldl (λ d m, dict_set m.1 m.2 d) d changes.
Definition merged_event (row : ntfy_settings) (key : string) (c : event_config) : result json :=
  stored ← match assoc key (as_dict (stored_events row)) with
           | Some (JObj o) => Ok o
           | Some _ => Raise (AttributeError "items")
           | None => Ok []
           end;
  Ok (JObj (dict_set "email" (JBool (match assoc key (as_dict (email_events row)) with Some (JBool b) => b | _ => false end))
              (update_dict (dump_event_config c) (dict_remove "email" stored)))).
Definition parse_events (row : ntfy_settings) : result NtfyEvents :=
  merged ← mapM (λ e, j ← merged_event row e.1 e.2; Ok (e.1, (class_of e.2, j))) default_ntfy_events;
  mapM (λ e, c ← load_event_config e.2.1 e.2.2; Ok (e.1, c)) merged.

(** ** Messages *)

Record NtfyPayload := {
  push_url : string; push_token : option bytes; push_title : string; push_message : string; push_priority : Z; push_tags : string;
  push_click : string }.
Inductive deliverable := Push (p : NtfyPayload) | Mail (p : EmailPayload).

(** The headers of [deliver_notification] *)
Definition push_headers (p : NtfyPayload) : list (string * string) :=
  [("Title", text_take 120 (push_title p)); ("Priority", pretty (push_priority p)); ("Tags", push_tags p); ("User-Agent", "ivrdroid")]
  ++ (if bool_decide (push_click p = "") then [] else [("Click", push_click p)])
  ++ match push_token p with
     | Some t => if bool_decide (t = []) then [] else [("Authorization", "Bearer " +:+ of_bytes t)]
     | None => []
     end.

(** [urljoin] of the dashboard's address, which ends with a slash, and one of its pages. *)
Definition page_url (base_url click_path : string) : string := rstrip_slash base_url +:+ "/" +:+ lstrip_slash click_path.
Definition push_address (row : ntfy_settings) : string := rstrip_slash (server_url row) +:+ "/" +:+ quote (topic row).

Record notice_tables := {
  ntfy_row : option ntfy_settings; email_row : option email_settings; display_row : option display_settings;
  notice_audit : list audit_row }.
Definition with_ntfy (row : ntfy_settings) (t : notice_tables) : notice_tables :=
  {| ntfy_row := Some row; email_row := email_row t; display_row := display_row t; notice_audit := notice_audit t |}.
Definition with_audited (a : audit_row) (t : notice_tables) : notice_tables :=
  {| ntfy_row := ntfy_row t; email_row := email_row t; display_row := display_row t; notice_audit := notice_audit t ++ [a] |}.

Section Delivery.
Context `{Cryptography} (key : bytes) (zoneinfo : string → Z → result Z) (cfg : recording_settings) (base_url : string)
  (hostname : option string).

Definition shows_caller (c : event_config) : bool :=
  match c with NtfyCallerEvent _ m | NtfyExternalCallEvent _ m _ _ => m | _ => false end.
(** Whether the settings leave out this outcome of an external call. *)
Definition left_out (c : event_config) (external_status : option string) : bool :=
  match c with
  | NtfyExternalCallEvent _ _ not_connected system_failure =>
      bool_decide (external_status = Some "NOT_CONNECTED") && negb not_connected
      || bool_decide (external_status = Some "SYSTEM_FAILURE") && negb system_failure
  | _ => false
  end.
Definition pushes (row : ntfy_settings) (c : event_config) : bool :=
  ntfy_enabled row && negb (bool_decide (topic row = "")) && event_enabled (base_of c).
Definition mails (e : option email_settings) (c : event_config) : bool := email_ready e && event_mailed (base_of c).

Definition push_of (row : ntfy_settings) (c : event_config) (n : notification) (caller : option string) : result NtfyPayload :=
  token ← decrypt_secret key (token_encrypted row);
  let body := match known_caller caller with Some m => message n +:+ newline +:+ "Caller " +:+ m | None => message n end in
  Ok {| push_url := push_address row; push_token := token; push_title := title n; push_message := text_take 1000 body;
        push_priority := default 3%Z (assoc (event_priority (base_of c)) NTFY_PRIORITIES); push_tags := tags n;
        push_click := page_url base_url (click_path n) |}.
Definition mail_of (e : email_settings) (password : option bytes) (display : option display_settings) (n : notification)
    (recording : option RecordingFacts) (caller : option string) : result EmailPayload :=
  content ← match recording with
            | Some facts => let '(zone, calendar) := get_display display in recording_email zoneinfo facts caller zone calendar
            | None => Ok (title n, event_email (text_take 1000 (message n)) caller)
            end;
  Ok (build_email_payload e password hostname content.1 (with_footer content.2 (event_note (event_key_of n)))).

(** [_build_deliverables] *)
Definition build_deliverables (row : ntfy_settings) (e : option email_settings) (display : option display_settings) (n : notification)
    (recording : option RecordingFacts) : result (list deliverable) :=
  events ← parse_events row;
  config ← of_option (AttributeError (event_key_of n)) (assoc (event_key_of n) events);
  let push := pushes row config in
  let email := mails e config in
  if negb push && negb email then Ok []
  else if left_out config (external_status n) then Ok []
  else
    let caller := if shows_caller config then caller_masked n else None in
    pushed ← (if push then p ← push_of row config n caller; Ok [Push p] else Ok []);
    mailed ← match e with
             | Some e =>
                 if email then
                   match decrypt_password key e with
                   | Ok password => p ← mail_of e password display n recording caller; Ok [Mail p]
                   | Raise _ => Ok []
                   end
                 else Ok []
             | None => Ok []
             end;
    Ok (pushed ++ mailed).

Definition settings_row (t : datetime) (tables : notice_tables) : ntfy_settings :=
  initialize_ntfy_settings t (development_admin_email cfg) (ntfy_row tables).

(** [dispatch_ntfy] *)
Definition dispatch_ntfy (t : datetime) (n : notification) (recording : option RecordingFacts) (tables : notice_tables)
    : result (list deliverable * notice_tables) :=
  let row := settings_row t tables in
  out ← build_deliverables row (email_row tables) (display_row tables) n recording;
  Ok (out, with_ntfy row tables).

(** ** Watches *)

Definition storage_notice (detail : string) : notification :=
  {| event_key_of := "storage_full"; title := "Recording storage is full"; message := detail;
     click_path := "/settings#voicemail-retention"; tags := "warning,ivrdroid"; external_status := None; caller_masked := None |}.
Definition offline_notice : notification :=
  {| event_key_of := "tablet_offline"; title := "Tablet offline";
     message := "The enrolled tablet has not synchronized within the configured timeout."; click_path := "/settings";
     tags := "warning,ivrdroid"; external_status := None; caller_masked := None |}.
Definition recovered_notice : notification :=
  {| event_key_of := "tablet_offline"; title := "Tablet recovered"; message := "The enrolled tablet is synchronizing again.";
     click_path := "/settings"; tags := "white_check_mark,ivrdroid"; external_status := None; caller_masked := None |}.

(** [notify_storage_full] *)
Definition notify_storage_full (t : datetime) (detail : string) (tables : notice_tables) : result (list deliverable * notice_tables) :=
  let row := settings_row t tables in
  match last_storage_notified_at row with
  | None =>
      out ← build_deliverables row (email_row tables) None (storage_notice detail) None;
      Ok (out, with_ntfy (if bool_decide (length out = 0) then row else with_storage_notice (Some t) row) tables)
  | Some _ => Ok ([], with_ntfy row tables)
  end.

Definition VOICEMAIL_SPOOL_LIMIT_BYTES : Z := 512 * 1024 * 1024.
Definition CONVERSATION_SPOOL_LIMIT_BYTES : Z := 4 * 1024 * 1024 * 1024.
(** [a or b] on the values of a document *)
Definition py_or (a b : json) : json := if py_truthy a then a else b.
(** [_spool_full] *)
Definition spool_full (status : list (string * json)) : result bool :=
  voicemail ← py_int (py_or (py_or (member "voicemail_spool_bytes" status) (member "recording_spool_bytes" status)) (JInt 0));
  conversation ← py_int (py_or (member "conversation_spool_bytes" status) (JInt 0));
  Ok ((VOICEMAIL_SPOOL_LIMIT_BYTES <=? voicemail)%Z || (CONVERSATION_SPOOL_LIMIT_BYTES <=? conversation)%Z).
Definition enrolled_devices (st : store) : list device_row :=
  filter (λ d, revoked_at d = None) (map snd (map_to_list (devices st))).
(** [any(...)] of a test that may raise *)
Fixpoint any_of {A} (f : A → result bool) (l : list A) : result bool :=
  match l with [] => Ok false | x :: k => b ← f x; if (b : bool) then Ok true else any_of f k end.

(** [_quota_warning] *)
Definition quota_warning (events : NtfyEvents) (s : recordings_db) : bool :=
  match assoc "storage_full" events with
  | Some (NtfyStorageEvent _ percent) =>
      (0 <? recording_quota_bytes cfg)%Z
      && (recording_quota_bytes cfg * percent <=? recording_used_bytes None None s * 100)%Z
  | _ => false
  end.
(** [evaluate_storage] *)
Definition evaluate_storage (t : datetime) (st : store) (s : recordings_db) (tables : notice_tables)
    : result (list deliverable * notice_tables) :=
  let row := settings_row t tables in
  events ← parse_events row;
  spool ← any_of (λ d, spool_full (default [] (status_document d))) (enrolled_devices st);
  let saturated := spool || quota_warning events s in
  if saturated then
    match last_storage_notified_at row with
    | None =>
        out ← build_deliverables row (email_row tables) None
                (storage_notice "Server quota or a tablet spool has reached its warning threshold.") None;
        Ok (out, with_ntfy (if bool_decide (length out = 0) then row else with_storage_notice (Some t) row) tables)
    | Some _ => Ok ([], with_ntfy row tables)
    end
  else Ok ([], with_ntfy (with_storage_notice None row) tables).

(** [_offline_timeout], in microseconds *)
Definition offline_timeout (events : NtfyEvents) (idle : bool) : Z :=
  match assoc "tablet_offline" events with
  | Some (NtfyOfflineEvent _ i c _) => ((if idle then i else c) * 60 * 1000000)%Z
  | _ => 0%Z
  end.
Definition recovery_told (events : NtfyEvents) : bool :=
  match assoc "tablet_offline" events with Some (NtfyOfflineEvent _ _ _ n) => n | _ => false end.
(** Whether a tablet was not heard of for too long. *)
Definition overdue (events : NtfyEvents) (t : datetime) (d : device_row) : bool :=
  match last_seen_at d with
  | None => true
  | Some seen =>
      let idle := match member "call_state" (default [] (status_document d)) with JStr s => bool_decide (s = "idle") | _ => false end in
      (offline_timeout events idle <=? instant t - instant seen)%Z
  end.
(** [evaluate_presence] *)
Definition evaluate_presence (t : datetime) (st : store) (tables : notice_tables) : result (list deliverable * notice_tables) :=
  let row := settings_row t tables in
  events ← parse_events row;
  if existsb (overdue events t) (enrolled_devices st) then
    match last_offline_notified_at row with
    | None =>
        out ← build_deliverables row (email_row tables) None offline_notice None;
        Ok (out, with_ntfy (if bool_decide (length out = 0) then row else with_offline (Some t) row) tables)
    | Some _ => Ok ([], with_ntfy row tables)
    end
  else
    match last_offline_notified_at row with
    | None => Ok ([], with_ntfy row tables)
    | Some _ =>
        let row := with_offline None row in
        out ← (if recovery_told events then build_deliverables row (email_row tables) None recovered_notice None else Ok []);
        Ok (out, with_ntfy row tables)
    end.
(** [run_ntfy_watch]: what was delivered, what was stored, and the error that ended it. *)
Definition run_ntfy_watch (t : datetime) (st : store) (s : recordings_db) (tables : notice_tables)
    : list deliverable * notice_tables * result unit :=
  match evaluate_presence t st tables with
  | Raise e => ([], tables, Raise e)
  | Ok (out, tables) =>
      match evaluate_storage t st s tables with
      | Raise e => (out, tables, Raise e)
      | Ok (more, tables) => (out ++ more, tables, Ok ())
      end
  end.

(** ** The administrator's requests *)

(** [NtfySettingsRequest], validated; an event comes with whether its email switch was given. *)
Record ntfy_request := {
  body_enabled : bool; body_server : string; body_topic : string; body_token : option string; body_events : list (string * (event_config * bool)) }.
Definition topic_character (c : ascii) : bool := letter c || char_in 48 57 c || bool_decide (c ∈ ["_"; "-"]%char).
(** [NTFY_TOPIC_PATTERN] *)
Definition NTFY_TOPIC_PATTERN (s : string) : bool :=
  (1 <=? String.length s) && (String.length s <=? 64) && forallb topic_character (to_bytes s).
Definition ntfy_request_fields (b : ntfy_request) : bool :=
  bool_decide ((λ e, (e.1, class_of e.2.1)) <$> body_events b = NTFY_EVENTS) && forallb (λ e, valid_event_config e.2.1) (body_events b)
  && match body_token b with Some t => negb (bool_decide (t = "")) && (py_len t <=? 200) | None => true end
  && (if bool_decide (body_topic b = "") then negb (body_enabled b) else NTFY_TOPIC_PATTERN (body_topic b)).

Record ntfy_response := {
  shown_enabled : bool; shown_server : string; shown_topic : string; token_configured : bool; shown_events : NtfyEvents;
  shown_updated : datetime; shown_by : string }.
Definition ntfy_response_of (row : ntfy_settings) : result ntfy_response :=
  events ← parse_events row;
  Ok {| shown_enabled := ntfy_enabled row; shown_server := server_url row; shown_topic := topic row;
        token_configured := match token_encrypted row with Some e => negb (bool_decide (e = [])) | None => false end;
        shown_events := events; shown_updated := ntfy_updated row; shown_by := ntfy_updated_by row |}.
Definition get_ntfy_settings (t : datetime) (tables : notice_tables) : result ntfy_response * notice_tables :=
  let row := settings_row t tables in (ntfy_response_of row, with_ntfy row tables).

Definition changed_emails (stored : json) (events : list (string * (event_config * bool))) : json :=
  JObj (foldl (λ d e, if (e.2.2 : bool) then dict_set e.1 (JBool (event_mailed (base_of e.2.1))) d else d) (as_dict stored) events).
(** [put_ntfy_settings] *)
Definition put_ntfy_settings (r : request) (b : ntfy_request) (tables : notice_tables) : result ntfy_response * notice_tables :=
  let old := initialize_ntfy_settings (now r) (actor r) (ntfy_row tables) in
  let row :=
    {| ntfy_enabled := body_enabled b; server_url := body_server b; topic := body_topic b;
       token_encrypted := match body_token b with Some t => Some (encrypt key (nonce r 0) (to_bytes t)) | None => token_encrypted old end;
       stored_events := storable_events (map (λ e, (e.1, e.2.1)) (body_events b));
       email_events := changed_emails (email_events old) (body_events b);
       last_offline_notified_at := last_offline_notified_at old; last_storage_notified_at := last_storage_notified_at old;
       ntfy_updated := now r; ntfy_updated_by := actor r |} in
  (ntfy_response_of row,
   with_audited {| audit_actor := actor r; action := "ntfy.settings_updated"; target := "ntfy-settings";
                   details := JObj [("enabled", JBool (body_enabled b)); ("topic", JStr (body_topic b)); ("server_url", JStr (body_server b))] |}
     (with_ntfy row tables)).
(** [test_ntfy_settings] with the message of [send_test_notification] *)
Definition test_ntfy_settings (r : request) (tables : notice_tables) : result (NtfyPayload * notice_tables) :=
  let row := initialize_ntfy_settings (now r) (actor r) (ntfy_row tables) in
  token ← match decrypt_secret key (token_encrypted row) with
          | Raise (ValueError text) => Raise (HTTPException 400 [text])
          | token => token
          end;
  if negb (ntfy_enabled row) || bool_decide (topic row = "")
  then Raise (HTTPException 400 ["Enable ntfy and set a topic before sending a test"])
  else
    Ok ({| push_url := push_address row; push_token := token; push_title := "IVRdroid test";
           push_message := "This is a test notification from the IVRdroid dashboard."; push_priority := 3;
           push_tags := "white_check_mark,ivrdroid"; push_click := page_url base_url "settings" |},
        with_audited {| audit_actor := actor r; action := "ntfy.test_sent"; target := "ntfy-settings"; details := JObj [] |}
          (with_ntfy row tables)).
End Delivery.
