(* ===== verification/NtfyCorrect.v ===== *)
(** * Notification delivery, proved

    Settings are read back as they were saved, a masked caller stays where the settings let it go,
    and the two watches tell of each outage once. *)
From Stdlib Require Import Ascii.
From stdpp Require Import base gmap sets strings numbers pretty list.
From S2P Require Import Prelude FlowTree Schemas LegacyGraph Json Crypto Documents Store Drafts Revisions V4Api Diff Devices Policies Calls Recordings RecordingsFacts Storage Text Email Ntfy.

(** ** Settings of the events *)

(** The settings of an event as they are read back: the email switch is stored apart. *)
Definition stored_email (row : ntfy_settings) (key : string) : bool :=
  match assoc key (as_dict (email_events row)) with Some (JBool b) => b | _ => false end.

Lemma in_range_load lo hi z : in_range lo hi z = true → load_int lo hi (JInt z) = Ok z.
Proof. unfold load_int. by intros ->. Qed.
Lemma priority_load s : NtfyPriority s = true → load_str NtfyPriority (JStr s) = Ok s.
Proof. unfold load_str. by intros ->. Qed.

(** What is stored of an event, over the defaults of its kind, is the event. *)
Lemma stored_event_read c0 c e :
  class_of c0 = class_of c → valid_event_config c = true →
  load_event_config (class_of c0)
    (JObj (dict_set "email" (JBool e) (update_dict (dump_event_config c0) (dict_remove "email" (dump_base (base_of c) ++ dump_rest c)))))
  = Ok (set_email e c).
Proof.
  intros Hc Hf. unfold valid_event_config in Hf. apply andb_prop in Hf as [Hp%priority_load Hf].
  destruct c0 as [b0|b0 m0|b0 m0 n0 s0|b0 w0|b0 i0 k0 n0], c as [b|b m|b m n s|b w|b i k n]; try discriminate Hc; clear Hc;
    destruct b0 as [e0 p0 x0], b as [en p x]; cbn in Hf; repeat (apply andb_prop in Hf as [Hf ?]);
    lazy -[load_str load_int NtfyPriority Z.leb]; cbn in Hp; change (if NtfyPriority p then Ok p else _) with (load_str NtfyPriority (JStr p)) in Hp;
    rewrite Hp; try done.
  - by rewrite (in_range_load _ _ _ Hf).
  - rewrite (in_range_load 5 120 i) by done. rewrite (in_range_load 15 180 k) by done. by rewrite H.
Qed.

Lemma fmap_eq_Forall2 {A B C} (f : A → C) (g : B → C) l k : f <$> l = g <$> k → Forall2 (λ x y, f x = g y) l k.
Proof. revert k. induction l as [|x l IH]; intros [|y k]; rewrite ?fmap_cons; [by constructor|done|done|]. intros [= ? ?]. constructor; auto. Qed.
Lemma mapM_result_Forall2 {A B C} (f : A → result C) (g : B → C) l k :
  Forall2 (λ x y, f x = Ok (g y)) l k → mapM f l = Ok (g <$> k).
Proof. intros H. apply mapM_result_ok. rewrite Forall2_fmap_r. exact H. Qed.

(** Events as the settings name them. *)
Definition named_events (events : NtfyEvents) : Prop := (λ e, (e.1, class_of e.2)) <$> events = NTFY_EVENTS.
Definition read_back (row : ntfy_settings) (events : NtfyEvents) : NtfyEvents :=
  (λ e, (e.1, set_email (stored_email row e.1) e.2)) <$> events.

Lemma assoc_in {A} (l : list (string * A)) k x : NoDup l.*1 → (k, x) ∈ l → assoc k l = Some x.
Proof.
  induction l as [|[i y] l IH]; cbn; [by intros _ ?%elem_of_nil|]. intros [Hi Hl]%NoDup_cons [[= -> ->]|Hx]%elem_of_cons.
  - by rewrite decide_True.
  - rewrite decide_False; [by apply IH|]. intros ->. apply Hi. apply list_elem_of_fmap. by exists (k, x).
Qed.
Lemma assoc_fmap {A B} (f : A → B) (l : list (string * A)) k : assoc k (map (λ e, (e.1, f e.2)) l) = f <$> assoc k l.
Proof. induction l as [|[i y] l IH]; cbn; [done|]. by destruct (decide _). Qed.

Lemma named_NoDup events : named_events events → NoDup events.*1.
Proof.
  intros H. replace (events.*1) with (NTFY_EVENTS.*1); [by apply (bool_decide_unpack _); vm_compute|].
  rewrite <- H, <- list_fmap_compose. by apply list_fmap_ext.
Qed.

(** Two passes that succeed, element by element. *)
Lemma mapM_result_twice {A B C} (f : A → result B) (g : B → result C) l k :
  Forall2 (λ x z, ∃ y, f x = Ok y ∧ g y = Ok z) l k → mapM f l ≫= mapM g = Ok k.
Proof.
  intros Hl. assert (Hys : ∃ ys, Forall2 (λ x y, f x = Ok y) l ys ∧ Forall2 (λ y z, g y = Ok z) ys k).
  { induction Hl as [|x z l k (y & Hf & Hg) _ (ys & Hfs & Hgs)]; [by exists []|]. exists (y :: ys). by split; constructor. }
  destruct Hys as (ys & Hf%mapM_result_ok & Hg%mapM_result_ok). rewrite Hf. exact Hg.
Qed.
Lemma Forall2_in_r {A B} (R S : A → B → Prop) l k :
  Forall2 R l k → (∀ x y, y ∈ k → R x y → S x y) → Forall2 S l k.
Proof. induction 1; constructor; set_solver. Qed.

Lemma parse_stored_events row events :
  named_events events → Forall (λ e, valid_event_config e.2 = true) events → stored_events row = storable_events events →
  parse_events row = Ok (read_back row events).
Proof.
  intros Hn Hf Hs. pose proof (named_NoDup _ Hn) as Hnd. rewrite Forall_forall in Hf.
  assert (Hd : Forall2 (λ d e, (d.1, class_of d.2) = (e.1, class_of e.2)) default_ntfy_events events)
    by (apply fmap_eq_Forall2; by rewrite Hn).
  unfold parse_events, read_back. apply mapM_result_twice. rewrite Forall2_fmap_r.
  apply (Forall2_in_r _ _ _ _ Hd). intros [i c0] [k c] Hin [= -> Hc]. cbn [fst snd].
  unfold merged_event. rewrite Hs. unfold storable_events. cbn [as_dict]. rewrite assoc_fmap, (assoc_in _ _ _ Hnd Hin). cbn.
  eexists. split; [reflexivity|]. cbn [fst snd]. fold (stored_email row k).
  by rewrite (stored_event_read c0 c) by (done || apply (Hf _ Hin)).
Qed.

Lemma assoc_dict_set_ne {A} k i (v : A) d : k ≠ i → assoc k (dict_set i v d) = assoc k d.
Proof.
  intros Hk. induction d as [|[j x] d IH]; cbn; [by rewrite decide_False by congruence|].
  destruct (decide (i = j)) as [->|]; cbn; [by rewrite !decide_False by congruence|]. by rewrite IH.
Qed.
Lemma assoc_dict_set_eq {A} k (v : A) d : assoc k (dict_set k v d) = Some v.
Proof. induction d as [|[j x] d IH]; cbn; [by rewrite decide_True|]. destruct (decide (k = j)) as [->|]; cbn; [by rewrite decide_True|]. by rewrite decide_False. Qed.

Lemma assoc_updates {A B} (changed : A → bool) (f : A → B) (l : list (string * A)) d k :
  NoDup l.*1 →
  assoc k (foldl (λ d e, if changed e.2 then dict_set e.1 (f e.2) d else d) d l)
  = match assoc k l with Some x => if changed x then Some (f x) else assoc k d | None => assoc k d end.
Proof.
  revert d. induction l as [|[i x] l IH]; intros d Hnd; [done|]. cbn in Hnd |- *. apply NoDup_cons in Hnd as [Hi Hnd].
  rewrite IH by done. destruct (decide (i = k)) as [->|Hk].
  - assert (Hno : assoc k l = None).
    { destruct (assoc k l) as [y|] eqn:E; [|done]. exfalso. apply Hi. clear -E. induction l as [|[j z] l IH]; [done|]. cbn in E.
      destruct (decide (j = k)) as [->|]; [by left|]. right. by apply IH. }
    rewrite Hno. destruct (changed x); [by rewrite assoc_dict_set_eq|done].
  - destruct (changed x); [|done]. by rewrite assoc_dict_set_ne by congruence.
Qed.

Section Saving.
Context `{CryptographyLaws} (key : bytes) (cfg : recording_settings).

Definition sent_events (b : ntfy_request) : NtfyEvents := (λ e, (e.1, e.2.1)) <$> body_events b.
(** The events that a saved request leaves, given the email switches of before. *)
Definition saved_events (old : ntfy_settings) (b : ntfy_request) : NtfyEvents :=
  (λ e, (e.1, set_email (if (e.2.2 : bool) then event_mailed (base_of e.2.1) else stored_email old e.1) e.2.1)) <$> body_events b.
Definition saved_row (tables : notice_tables) : ntfy_settings := initialize_ntfy_settings (datetime_of_instant 0) "" (ntfy_row tables).

Lemma request_named b : ntfy_request_fields b = true →
  named_events (sent_events b) ∧ Forall (λ e, valid_event_config e.2 = true) (sent_events b).
Proof.
  unfold ntfy_request_fields. rewrite !andb_true_iff, bool_decide_eq_true, forallb_forall. intros (((Hn & Hf) & _) & _). split.
  - unfold named_events, sent_events. by rewrite <- list_fmap_compose.
  - unfold sent_events. apply Forall_forall. intros e (e' & -> & He)%list_elem_of_fmap. cbn. apply Hf. by apply list_elem_of_In.
Qed.

Lemma request_parsed r b tables row : ntfy_request_fields b = true →
  stored_events row = storable_events (map (λ e, (e.1, e.2.1)) (body_events b)) →
  email_events row = changed_emails (email_events (initialize_ntfy_settings (now r) (actor r) (ntfy_row tables))) (body_events b) →
  parse_events row = Ok (saved_events (initialize_ntfy_settings (now r) (actor r) (ntfy_row tables)) b).
Proof.
  intros Hb Hs He. set (old := initialize_ntfy_settings _ _ _) in *. destruct (request_named b Hb) as [Hn Hf].
  rewrite (parse_stored_events row (sent_events b) Hn Hf Hs). f_equal. unfold read_back, saved_events, sent_events.
  rewrite <- list_fmap_compose. apply list_fmap_ext. intros i [k [c given]] Hi%list_elem_of_lookup_2. cbn. do 2 f_equal.
  unfold stored_email at 1. rewrite He. unfold changed_emails. cbn [as_dict].
  assert (Hnd : NoDup (body_events b).*1).
  { replace ((body_events b).*1) with (sent_events b).*1; [by apply named_NoDup|].
    unfold sent_events. by rewrite <- list_fmap_compose. }
  rewrite (assoc_updates (λ x, x.2) (λ x, JBool (event_mailed (base_of x.1)))) by done.
  rewrite (assoc_in _ _ _ Hnd Hi). cbn. by destruct given.
Qed.

(** C33 Saved settings are read back: every event has the settings that were sent, its email switch
    only where the request gives one and the stored one otherwise; the token is the one sent, or
    the old one; and neither the watches' marks nor later reads change. *)
Theorem settings_read_back r b tables t :
  ntfy_request_fields b = true → length (nonce r 0) = 12 →
  let old := initialize_ntfy_settings (now r) (actor r) (ntfy_row tables) in
  ∃ resp tables' row,
    put_ntfy_settings key r b tables = (Ok resp, tables') ∧ ntfy_row tables' = Some row
    ∧ get_ntfy_settings cfg t tables' = (Ok resp, tables')
    ∧ shown_events resp = saved_events old b ∧ parse_events row = Ok (shown_events resp)
    ∧ (shown_enabled resp, shown_server resp, shown_topic resp) = (body_enabled b, body_server b, body_topic b)
    ∧ decrypt_secret key (token_encrypted row)
      = match body_token b with Some k => Ok (Some (to_bytes k)) | None => decrypt_secret key (token_encrypted old) end
    ∧ (last_offline_notified_at row, last_storage_notified_at row) = (last_offline_notified_at old, last_storage_notified_at old).
Proof.
  intros Hb Hnonce old. unfold put_ntfy_settings. cbv zeta. fold old.
  match goal with |- context [ntfy_response_of ?x] => set (row := x) end.
  pose proof (request_parsed r b tables row Hb eq_refl eq_refl) as Hp. fold old in Hp.
  assert (Hr : ∃ resp, ntfy_response_of row = Ok resp ∧ shown_events resp = saved_events old b
               ∧ (shown_enabled resp, shown_server resp, shown_topic resp) = (body_enabled b, body_server b, body_topic b))
    by (unfold ntfy_response_of; rewrite Hp; by eexists).
  destruct Hr as (resp & Hr & He & Hshown). eexists resp, _, row. rewrite Hr.
  split; [reflexivity|]. split; [reflexivity|]. split.
  { unfold get_ntfy_settings, settings_row. cbn [ntfy_row with_audited with_ntfy].
    change (initialize_ntfy_settings t _ (Some row)) with row. cbv zeta.
    by rewrite Hr. }
  split; [done|]. split; [by rewrite He|]. split; [done|]. split; [|done]. subst row. cbn [token_encrypted].
  destruct (body_token b) as [k|] eqn:Ek; [|done]. unfold decrypt_secret.
  unfold ntfy_request_fields in Hb. rewrite Ek in Hb. apply andb_prop in Hb as [Hb _]. apply andb_prop in Hb as [_ Hk].
  apply andb_prop in Hk as [Hk%negb_true_iff%bool_decide_eq_false _].
  rewrite bool_decide_false.
  - rewrite decrypt_encrypt by done. rewrite decide_False; [done|]. by destruct k.
  - intros Hempty. pose proof (decrypt_encrypt key (nonce r 0) (to_bytes k) Hnonce) as Hd. rewrite Hempty in Hd.
    destruct (decide _); [by destruct k|]. done.
Qed.
End Saving.

(** ** Callers *)

Section Privacy.
Context `{Cryptography} (key : bytes) (zoneinfo : string → Z → result Z) (base_url : string) (hostname : option string).

Definition with_caller (c : option string) (n : notification) : notification :=
  {| event_key_of := event_key_of n; title := title n; message := message n; click_path := click_path n; tags := tags n;
     external_status := external_status n; caller_masked := c |}.
(** What an email may tell of a caller: that there is one, and the four digits its mask ends with. *)
Definition caller_hint (c : option string) : bool * option string := (match known_caller c with Some _ => true | None => false end, caller_ending c).
Definition mails_among (l : list deliverable) : list EmailPayload := omap (λ d, match d with Mail p => Some p | Push _ => None end) l.

(** The line of an email about its caller. *)
Definition caller_part (c : option string) : option string := caller_line <$> known_caller c.
Lemma caller_part_hint c1 c2 : caller_hint c1 = caller_hint c2 → caller_part c1 = caller_part c2.
Proof.
  unfold caller_hint, caller_part, caller_line. intros Hc. injection Hc as Hk He.
  assert (Hknown : ∀ c k, known_caller c = Some k → caller_ending (Some k) = caller_ending c).
  { intros [c|] k; [|done]. unfold known_caller. by case_bool_decide; [|intros [= ->]]. }
  destruct (known_caller c1) as [k1|] eqn:E1, (known_caller c2) as [k2|] eqn:E2; try done.
  cbn [fmap option_fmap option_map]. by rewrite (Hknown _ _ E1), (Hknown _ _ E2), He.
Qed.
Lemma match_known {A} (f : string → A) (d : A) c :
  match known_caller c with Some k => f (caller_line k) | None => d end = match caller_part c with Some k => f k | None => d end.
Proof. unfold caller_part. by destruct (known_caller c). Qed.

Lemma mail_hint e password display n recording c1 c2 : caller_hint c1 = caller_hint c2 →
  mail_of zoneinfo hostname e password display n recording c1 = mail_of zoneinfo hostname e password display n recording c2.
Proof.
  intros Hc. pose proof (caller_part_hint _ _ Hc) as Hp. injection Hc as _ He. unfold mail_of.
  destruct recording as [facts|].
  - destruct (get_display display) as [zone calendar]. unfold recording_email. cbv zeta. rewrite He.
    by rewrite (match_known (λ l, [l]) [] c1), (match_known (λ l, [l]) [] c2), Hp.
  - unfold event_email.
    by rewrite (match_known (λ l, text_take 1000 (message n) +:+ newline +:+ l) _ c1), (match_known (λ l, text_take 1000 (message n) +:+ newline +:+ l) _ c2), Hp.
Qed.

Lemma push_same row c n c1 caller : push_of key base_url row c (with_caller c1 n) caller = push_of key base_url row c n caller.
Proof. done. Qed.
Lemma mail_same e password display n recording c1 caller :
  mail_of zoneinfo hostname e password display (with_caller c1 n) recording caller = mail_of zoneinfo hostname e password display n recording caller.
Proof. done. Qed.
(** A push message can be built whatever its caller is. *)
Lemma push_total row c n c1 c2 p : push_of key base_url row c n c1 = Ok p → ∃ p', push_of key base_url row c n c2 = Ok p'.
Proof. unfold push_of. destruct (decrypt_secret key _); cbn; [eauto|done]. Qed.
Lemma push_raises row c n c1 c2 x : push_of key base_url row c n c1 = Raise x → push_of key base_url row c n c2 = Raise x.
Proof. unfold push_of. by destruct (decrypt_secret key _). Qed.

(** C32 A masked caller goes no further than the settings let it: no message of an event whose
    settings keep the caller back depends on it, and of any other event the emails depend on
    nothing but whether there is a caller and the four digits its mask ends with. *)
Theorem callers_kept_back row e display n recording c1 c2 :
  let build c := build_deliverables key zoneinfo base_url hostname row e display (with_caller c n) recording in
  (∀ events config, parse_events row = Ok events → assoc (event_key_of n) events = Some config → shows_caller config = false →
     build c1 = build c2)
  ∧ (caller_hint c1 = caller_hint c2 → mails_among <$> build c1 = mails_among <$> build c2).
Proof.
  unfold build_deliverables. split.
  - intros events config Hp Hc Hs. rewrite Hp. cbn [mbind result_bind]. cbn [event_key_of with_caller]. rewrite Hc. cbn.
    by rewrite Hs.
  - intros Hh. destruct (parse_events row) as [events|x]; [|done]. cbn [mbind result_bind event_key_of with_caller].
    destruct (assoc (event_key_of n) events) as [config|]; [|done]. cbn [of_option mbind result_bind external_status with_caller caller_masked].
    destruct (_ && _); [done|]. destruct (left_out _ _); [done|].
    set (d1 := if shows_caller config then c1 else None). set (d2 := if shows_caller config then c2 else None).
    assert (Hd : caller_hint d1 = caller_hint d2) by (subst d1 d2; by destruct (shows_caller config)).
    assert (Hpush : (∃ p1 p2, push_of key base_url row config (with_caller c1 n) d1 = Ok p1 ∧ push_of key base_url row config (with_caller c2 n) d2 = Ok p2)
                    ∨ ∃ x, push_of key base_url row config (with_caller c1 n) d1 = Raise x ∧ push_of key base_url row config (with_caller c2 n) d2 = Raise x).
    { rewrite !push_same. destruct (push_of key base_url row config n d1) as [p1|x] eqn:E.
      - left. destruct (push_total _ _ _ _ d2 _ E) as [p2 ->]. eauto.
      - right. exists x. split; [done|]. by apply (push_raises _ _ _ d1). }
    assert (Hmail : ∀ e password, mail_of zoneinfo hostname e password display (with_caller c1 n) recording d1
                                  = mail_of zoneinfo hostname e password display (with_caller c2 n) recording d2)
      by (intros; rewrite !mail_same; by apply mail_hint).
    clearbody d1 d2. destruct Hpush as [(p1 & p2 & Hp1 & Hp2)|(x & Hp1 & Hp2)], (pushes row config); rewrite ?Hp1, ?Hp2; cbn [mbind result_bind];
      destruct e as [e|]; try done; destruct (mails _ _); try done; destruct (decrypt_password key e) as [w|]; try done; rewrite Hmail;
      by destruct (mail_of _ _ _ _ _ _ _ _).
Qed.
End Privacy.

Section Witness.
#[local] Existing Instances plain_suite plain_suite_laws.

Definition demo_key : bytes := to_bytes "key".
Definition demo_settings : recording_settings :=
  {| recording_quota_bytes := 1000; recording_chunk_limit_bytes := 100; recording_upload_limit_bytes := 500; recording_abandoned_upload_hours := 24;
     audit_recording_quota_bytes := 500; audit_recording_reserve_bytes := 10; development_admin_email := "admin@example.com" |}.
Definition saving : request :=
  {| now := datetime_of_instant 1700000000000000; nonce := λ n, replicate 12 (octet (N.of_nat n)); uuid_hex := ""; actor := "admin@example.com" |}.
(** A request with a token, that turns on the emails of voicemails and leaves those of other events alone. *)
Definition demo_request : ntfy_request :=
  {| body_enabled := true; body_server := "https://ntfy.sh"; body_topic := "calls"; body_token := Some "secret";
     body_events := (λ e, (e.1, if bool_decide (e.1 = "voicemail_ready") then (set_email true e.2, true) else (e.2, false))) <$> default_ntfy_events |}.
Definition empty_tables : notice_tables := {| ntfy_row := None; email_row := None; display_row := None; notice_audit := [] |}.

Lemma settings_read_back_witness :
  ntfy_request_fields demo_request = true
  ∧ ∃ resp tables' row,
      put_ntfy_settings demo_key saving demo_request empty_tables = (Ok resp, tables')
      ∧ decrypt_secret demo_key (token_encrypted row) = Ok (Some (to_bytes "secret"))
      ∧ event_mailed ∘ base_of <$> assoc "voicemail_ready" (shown_events resp) = Some true
      ∧ event_mailed ∘ base_of <$> assoc "storage_full" (shown_events resp) = Some false.
Proof.
  assert (Hb : ntfy_request_fields demo_request = true) by (vm_compute; reflexivity). split; [done|].
  destruct (settings_read_back demo_key demo_settings saving demo_request empty_tables (now saving) Hb eq_refl)
    as (resp & tables' & row & Hput & _ & _ & Hshown & _ & _ & Htoken & _).
  exists resp, tables', row. split; [done|]. split; [exact Htoken|]. rewrite Hshown. split; vm_compute; reflexivity.
Defined.

Definition mailing : email_settings :=
  {| email_enabled := true; smtp_host := "smtp.example.com"; smtp_port := 587; smtp_security := "starttls"; smtp_username := "";
     smtp_password_encrypted := None; from_address := "robot@example.com"; from_name := "IVR"; recipients := ["owner@example.com"];
     email_updated := now saving; email_updated_by := "" |}.
Definition demo_row : ntfy_settings := default (initialize_ntfy_settings (now saving) "" None) (ntfy_row (put_ntfy_settings demo_key saving demo_request empty_tables).2).
Definition demo_notice (event : string) : notification :=
  {| event_key_of := event; title := "Voicemail ready"; message := "A voicemail is ready."; click_path := "/recordings"; tags := "ivrdroid";
     external_status := None; caller_masked := None |}.

Lemma callers_kept_back_witness :
  let build n c := build_deliverables demo_key (λ _ _, Ok 0%Z) "https://ivr.example" None demo_row (Some mailing) None (with_caller c n) None in
  caller_hint (Some "+98-***-1234") = caller_hint (Some "+44-***-1234")
  ∧ mails_among <$> build (demo_notice "voicemail_ready") (Some "+98-***-1234") = mails_among <$> build (demo_notice "voicemail_ready") (Some "+44-***-1234")
  ∧ build (demo_notice "stock_dialer_routing") (Some "+98-***-1234") = build (demo_notice "stock_dialer_routing") None
  ∧ (length <$> (mails_among <$> build (demo_notice "voicemail_ready") (Some "+98-***-1234"))) = Ok 1.
Proof.
  assert (Hh : caller_hint (Some "+98-***-1234") = caller_hint (Some "+44-***-1234")) by (vm_compute; reflexivity).
  assert (Hp : parse_events demo_row = Ok (saved_events (initialize_ntfy_settings (now saving) "" None) demo_request)) by (vm_compute; reflexivity).
  split; [exact Hh|]. split; [|split; [|vm_compute; reflexivity]].
  - exact (proj2 (callers_kept_back demo_key (λ _ _, Ok 0%Z) "https://ivr.example" None demo_row (Some mailing) None
                    (demo_notice "voicemail_ready") None _ _) Hh).
  - refine (proj1 (callers_kept_back demo_key (λ _ _, Ok 0%Z) "https://ivr.example" None demo_row (Some mailing) None
                    (demo_notice "stock_dialer_routing") None _ _) _ _ Hp eq_refl eq_refl).
Defined.
End Witness.
