(* ===== verification/NtfyWatches.v ===== *)
(** * The watches of tablets and storage, over time

    Any sequence of watches, reports of full storage, notifications and changes of the settings:
    each outage is told once.  The requests take turns, because each locks the row of the settings
    it reads. *)
From Stdlib Require Import Ascii.
From stdpp Require Import base gmap sets strings numbers pretty list.
From S2P Require Import Prelude FlowTree Schemas LegacyGraph Json Crypto Documents Store Drafts Revisions V4Api Diff Devices Policies Calls Recordings RecordingsFacts Storage Text Email Ntfy.

(** ** Alarms *)

(** An alarm over a sequence of actions: an alert is told when one is due and the alarm is not
    marked; it marks the alarm, and an all-clear takes the mark away. *)
Section Alarm.
Context {S A : Type} (perform : A → S → S) (told clear : S → A → bool).

Definition run (l : list A) (s : S) : S := foldl (λ s a, perform a s) s l.
(** Whether an alert that the actions told was not followed by an all-clear. *)
Fixpoint standing (was : bool) (l : list A) (s : S) : bool :=
  match l with
  | [] => was
  | a :: l => standing (if clear s a then false else was || told s a) l (perform a s)
  end.

Context (marked : S → bool) (due : S → A → bool)
  (tells : ∀ s a, told s a = due s a && negb (marked s))
  (marks : ∀ s a, marked (perform a s) = if clear s a then false else marked s || told s a).

Lemma standing_marked l s : standing (marked s) l s = marked (run l s).
Proof using marks. revert s. induction l as [|a l IH]; intros s; [done|]. cbn. by rewrite <- marks, IH. Qed.

(** After actions from an unmarked state, an alert is told when one is due and none stands. *)
Lemma told_exact l s a : marked s = false → told (run l s) a = due (run l s) a && negb (standing false l s).
Proof using marks tells. intros Hs. rewrite tells. by rewrite <- standing_marked, Hs. Qed.
End Alarm.

(** ** Actions *)

Section Watches.
Context `{Cryptography} (key : bytes) (zoneinfo : string → Z → result Z) (cfg : recording_settings) (base_url : string)
  (hostname : option string).

Inductive notice_action :=
| WatchPresence (t : datetime) (st : store)
| WatchStorage (t : datetime) (st : store) (s : recordings_db)
| ReportFull (t : datetime) (detail : string)
| Dispatch (t : datetime) (n : notification) (recording : option RecordingFacts)
| ReadSettings (t : datetime)
| SaveSettings (r : request) (b : ntfy_request)
| SaveEmail (r : request) (b : email_request)
| SaveDisplay (r : request) (timezone calendar : string)
| SendTest (r : request).

Definition after {A} (tables : notice_tables) (m : result (A * notice_tables)) : notice_tables :=
  match m with Ok (_, tables) => tables | Raise _ => tables end.
(** The tables after an action; one that raises does not commit. *)
Definition perform_notice (a : notice_action) (tables : notice_tables) : notice_tables :=
  match a with
  | WatchPresence t st => after tables (evaluate_presence key zoneinfo cfg base_url hostname t st tables)
  | WatchStorage t st s => after tables (evaluate_storage key zoneinfo cfg base_url hostname t st s tables)
  | ReportFull t detail => after tables (notify_storage_full key zoneinfo cfg base_url hostname t detail tables)
  | Dispatch t n recording => after tables (dispatch_ntfy key zoneinfo cfg base_url hostname t n recording tables)
  | ReadSettings t => (get_ntfy_settings cfg t tables).2
  | SaveSettings r b => if ntfy_request_fields b then (put_ntfy_settings key r b tables).2 else tables
  | SaveEmail r b =>
      match put_email_settings key r b (email_row tables) with
      | Ok (row, entry) => {| ntfy_row := ntfy_row tables; email_row := Some row; display_row := display_row tables;
                              notice_audit := notice_audit tables ++ [entry] |}
      | Raise _ => tables
      end
  | SaveDisplay r timezone calendar =>
      let '(row, entry) := save_display r timezone calendar in
      {| ntfy_row := ntfy_row tables; email_row := email_row tables; display_row := Some row; notice_audit := notice_audit tables ++ [entry] |}
  | SendTest r => after tables (test_ntfy_settings key base_url r tables)
  end.

Definition succeeds {A} (m : result A) : bool := match m with Ok _ => true | Raise _ => false end.
(** Whether a message of an event reaches anyone, with these settings. *)
Definition channel (row : ntfy_settings) (e : option email_settings) (c : event_config) : bool :=
  if pushes row c then succeeds (decrypt_secret key (token_encrypted row))
  else match e with Some m => mails e c && succeeds (decrypt_password key m) | None => false end.
(** Whether the token of a push message, if there is one, can be read. *)
Definition sendable (row : ntfy_settings) (c : event_config) : bool :=
  negb (pushes row c) || succeeds (decrypt_secret key (token_encrypted row)).
Definition event_open (t : datetime) (tables : notice_tables) (event : string) : bool :=
  let row := settings_row cfg t tables in
  match parse_events row with
  | Ok events => match assoc event events with Some c => channel row (email_row tables) c | None => false end
  | Raise _ => false
  end.
Definition row_mark {A} (mark : ntfy_settings → option A) (tables : notice_tables) : bool :=
  match ntfy_row tables with Some row => bool_decide (is_Some (mark row)) | None => false end.

Definition tablet_silent (t : datetime) (st : store) (tables : notice_tables) : bool :=
  match parse_events (settings_row cfg t tables) with
  | Ok events => existsb (overdue events t) (enrolled_devices st)
  | Raise _ => false
  end.
(** An offline alert is due when a watch finds an overdue tablet and the alert reaches someone. *)
Definition offline_due (tables : notice_tables) (a : notice_action) : bool :=
  match a with WatchPresence t st => tablet_silent t st tables && event_open t tables "tablet_offline" | _ => false end.
(** The outage is over when a watch finds no overdue tablet, and a message that says so can be built. *)
Definition offline_over (tables : notice_tables) (a : notice_action) : bool :=
  match a with
  | WatchPresence t st =>
      let row := settings_row cfg t tables in
      match parse_events row with
      | Ok events =>
          negb (existsb (overdue events t) (enrolled_devices st))
          && (negb (recovery_told events) || match assoc "tablet_offline" events with
                                             | Some c => sendable row c
                                             | None => false
                                             end)
      | Raise _ => false
      end
  | _ => false
  end.
(** Whether a watch tells that a tablet is offline, with a message to anyone. *)
Definition offline_told (tables : notice_tables) (a : notice_action) : bool :=
  match a with
  | WatchPresence t st =>
      match evaluate_presence key zoneinfo cfg base_url hostname t st tables with
      | Ok (out, _) => tablet_silent t st tables && negb (bool_decide (length out = 0))
      | Raise _ => false
      end
  | _ => false
  end.
Definition storage_saturated (t : datetime) (st : store) (s : recordings_db) (tables : notice_tables) : result bool :=
  events ← parse_events (settings_row cfg t tables);
  spool ← any_of (λ d, spool_full (default [] (status_document d))) (enrolled_devices st);
  Ok (spool || quota_warning cfg events s).
Definition storage_due (tables : notice_tables) (a : notice_action) : bool :=
  match a with
  | WatchStorage t st s => match storage_saturated t st s tables with Ok b => b && event_open t tables "storage_full" | Raise _ => false end
  | ReportFull t _ => event_open t tables "storage_full"
  | _ => false
  end.
Definition storage_over (tables : notice_tables) (a : notice_action) : bool :=
  match a with
  | WatchStorage t st s => match storage_saturated t st s tables with Ok b => negb b | Raise _ => false end
  | _ => false
  end.

(** Whether a watch or a report tells that the storage is full, with a message to anyone. *)
Definition anyone (m : result (list deliverable * notice_tables)) : bool :=
  match m with Ok (out, _) => negb (bool_decide (length out = 0)) | Raise _ => false end.
Definition storage_told (tables : notice_tables) (a : notice_action) : bool :=
  match a with
  | WatchStorage t st s => anyone (evaluate_storage key zoneinfo cfg base_url hostname t st s tables)
  | ReportFull t detail => anyone (notify_storage_full key zoneinfo cfg base_url hostname t detail tables)
  | _ => false
  end.

(** *** What an action does to the marks *)

Lemma parse_events_keys row events : parse_events row = Ok events → events.*1 = NTFY_EVENTS.*1.
Proof.
  unfold parse_events. intros (merged & Hm%mapM_result_ok & Hl%mapM_result_ok)%result_bind_ok.
  change (NTFY_EVENTS.*1) with (default_ntfy_events.*1). transitivity (merged.*1).
  - revert Hl. clear. induction 1 as [|p e l k He _ IH]; [done|]. rewrite !fmap_cons, IH. f_equal.
    apply result_bind_ok in He as (c & _ & [= <-]). done.
  - revert Hm. clear. generalize default_ntfy_events. induction 1 as [|p e l k He _ IH]; [done|]. rewrite !fmap_cons, IH. f_equal.
    apply result_bind_ok in He as (c & _ & [= <-]). done.
Qed.
Lemma assoc_key {A} k (l : list (string * A)) : k ∈ l.*1 → ∃ x, assoc k l = Some x.
Proof.
  induction l as [|[i x] l IH]; cbn; [by intros ?%elem_of_nil|]. intros [->|Hk]%elem_of_cons; [rewrite decide_True by done; eauto|].
  destruct (decide (i = k)); eauto.
Qed.
Lemma event_config_of row events k : parse_events row = Ok events → bool_decide (k ∈ NTFY_EVENTS.*1) = true → ∃ c, assoc k events = Some c.
Proof. intros Hp Hk%bool_decide_eq_true. apply assoc_key. by rewrite (parse_events_keys _ _ Hp). Qed.

(** A message without a recording is built unless the stored token cannot be read, and is for
    someone exactly when the channel is open. *)
Lemma build_notice row e n events c :
  parse_events row = Ok events → assoc (event_key_of n) events = Some c → external_status n = None →
  match build_deliverables key zoneinfo base_url hostname row e None n None with
  | Ok out => bool_decide (length out = 0) = negb (channel row e c) ∧ sendable row c = true
  | Raise _ => channel row e c = false ∧ sendable row c = false
  end.
Proof.
  intros Hp Hc Hn. unfold build_deliverables. rewrite Hp. cbn [mbind result_bind]. rewrite Hc. cbn [of_option mbind result_bind].
  assert (Hl : left_out c (external_status n) = false) by (rewrite Hn; by destruct c). rewrite Hl. unfold channel, sendable, push_of, mail_of.
  destruct (pushes row c); cbn [negb andb].
  - destruct (decrypt_secret key (token_encrypted row)); cbn [mbind result_bind succeeds]; [|done].
    destruct e as [e|]; [|done]. destruct (mails _ _); [|done]. by destruct (decrypt_password key e).
  - destruct e as [e|]; [|done]. destruct (mails _ _); [|done]. by destruct (decrypt_password key e).
Qed.

Lemma settings_mark {A} (mark : ntfy_settings → option A) t tables :
  mark (initialize_ntfy_settings t (development_admin_email cfg) None) = None →
  bool_decide (is_Some (mark (settings_row cfg t tables))) = row_mark mark tables.
Proof.
  intros Hm. unfold row_mark, settings_row. destruct (ntfy_row tables) as [row|]; [done|]. rewrite Hm. by apply bool_decide_false; intros [? ?].
Qed.

Lemma marks_kept mark tables a : mark = last_offline_notified_at ∨ mark = last_storage_notified_at →
  match a with WatchPresence _ _ | WatchStorage _ _ _ | ReportFull _ _ => True
             | _ => row_mark mark (perform_notice a tables) = row_mark mark tables end.
Proof.
  intros Hmark. assert (Hinit : ∀ t, bool_decide (is_Some (mark (settings_row cfg t tables))) = row_mark mark tables)
    by (intros; apply settings_mark; by destruct Hmark as [->| ->]).
  assert (Hany : ∀ t actor, bool_decide (is_Some (mark (initialize_ntfy_settings t actor (ntfy_row tables)))) = row_mark mark tables).
  { intros t actor. unfold row_mark. destruct (ntfy_row tables); [done|]. by destruct Hmark as [->| ->]. }
  destruct a; try done; cbn [perform_notice].
  - unfold dispatch_ntfy. destruct (build_deliverables _ _ _ _ _ _ _ _ _); [|done]. cbn. apply Hinit.
  - apply Hinit.
  - destruct (ntfy_request_fields b); [|done]. rewrite <- (Hany (now r) (actor r)). by destruct Hmark as [->| ->].
  - by destruct (put_email_settings _ _ _ _) as [[row entry]|].
  - unfold test_ntfy_settings. cbv zeta.
    destruct (match decrypt_secret _ _ with Ok _ => _ | Raise _ => _ end) as [token|]; [|done]. cbn [mbind result_bind].
    destruct (_ || _); [done|]. cbn. apply Hany.
Qed.

(** A notice of a watch: the mark it leaves when it is told. *)
Lemma notice_marks row e n events c t (mark : ntfy_settings → option datetime) with_mark (tables : notice_tables) :
  parse_events row = Ok events → assoc (event_key_of n) events = Some c → external_status n = None →
  (∀ o row, mark (with_mark o row) = o) → mark row = None → row_mark mark tables = false →
  row_mark mark (after tables
     (out ← build_deliverables key zoneinfo base_url hostname row e None n None;
      Ok (out, with_ntfy (if bool_decide (length out = 0) then row else with_mark (Some t) row) tables)))
  = channel row e c.
Proof.
  intros Hp Hc Hn Hw Hm Ht. pose proof (build_notice row e n events c Hp Hc Hn) as Hb.
  destruct (build_deliverables _ _ _ _ _ _ _ _ _) as [out|x]; cbn.
  - destruct Hb as [-> _]. destruct (channel row e c); cbn; [by rewrite Hw|by rewrite Hm].
  - by destruct Hb as [-> _].
Qed.

(** A notice writes no other mark. *)
Lemma notice_keeps (m : result (list deliverable)) (row : ntfy_settings) t (mark : ntfy_settings → option datetime)
    (with_mark : option datetime → ntfy_settings → ntfy_settings) (tables : notice_tables) b :
  (∀ o row, mark (with_mark o row) = mark row) → bool_decide (is_Some (mark row)) = b → row_mark mark tables = b →
  row_mark mark (after tables
     (out ← m; Ok (out, with_ntfy (if bool_decide (length out = 0) then row else with_mark (Some t) row) tables))) = b.
Proof. intros Hw <- Ht. destruct m as [out|]; cbn; [|done]. destruct (bool_decide (length out = 0)); cbn; by rewrite ?Hw. Qed.

(** What the two alarms do is told apart by a mark that only their own actions write. *)
Lemma offline_marks tables a :
  row_mark last_offline_notified_at (perform_notice a tables)
  = if offline_over tables a then false
    else row_mark last_offline_notified_at tables || (offline_due tables a && negb (row_mark last_offline_notified_at tables)).
Proof.
  assert (Hrow : ∀ t, bool_decide (is_Some (last_offline_notified_at (settings_row cfg t tables))) = row_mark last_offline_notified_at tables)
    by (intros; by apply settings_mark).
  pose proof (marks_kept _ tables a (or_introl eq_refl)) as Hk.
  destruct a; try (rewrite Hk; cbn; by rewrite orb_false_r); clear Hk; cbn [perform_notice offline_over offline_due andb].
  - unfold evaluate_presence, tablet_silent, event_open. cbv zeta. specialize (Hrow t). set (row := settings_row cfg t tables) in *.
    destruct (parse_events row) as [events|] eqn:Hp; [|cbn; by rewrite orb_false_r]. cbn [mbind result_bind].
    destruct (event_config_of row events "tablet_offline" Hp) as [c Hc]; [by vm_compute|]. rewrite Hc.
    destruct (existsb _ _); cbn [negb andb].
    + destruct (last_offline_notified_at row) as [m|] eqn:Hm.
      * rewrite <- Hrow. cbn. by rewrite Hm.
      * rewrite bool_decide_false in Hrow by (by intros [? ?]). rewrite <- Hrow, andb_true_r. cbn [orb].
        by apply (notice_marks row _ offline_notice events c t last_offline_notified_at with_offline).
    + rewrite orb_false_r. destruct (last_offline_notified_at row) as [m|] eqn:Hm.
      * rewrite bool_decide_true in Hrow by eauto. rewrite <- Hrow. destruct (recovery_told events); cbn [negb orb]; [|done].
        pose proof (build_notice (with_offline None row) (email_row tables) recovered_notice events c) as Hb.
        specialize (Hb Hp Hc eq_refl). change (sendable (with_offline None row) c) with (sendable row c) in Hb.
        destruct (build_deliverables _ _ _ _ _ _ _ _ _) as [out|x]; cbn [mbind result_bind after]; destruct Hb as [_ ->]; [done|].
        cbn. by rewrite Hrow.
      * rewrite bool_decide_false in Hrow by (by intros [? ?]). rewrite <- Hrow. cbn. rewrite Hm. by destruct (_ || _).
  - rewrite orb_false_r. unfold evaluate_storage. cbv zeta. specialize (Hrow t). set (row := settings_row cfg t tables) in *.
    destruct (parse_events row) as [events|]; [|done]. cbn [mbind result_bind]. destruct (any_of _ _) as [spool|]; [|done]. cbn [mbind result_bind].
    destruct (_ || _); [|exact Hrow]. destruct (last_storage_notified_at row); [exact Hrow|].
    by apply (notice_keeps _ row t last_offline_notified_at with_storage_notice).
  - rewrite orb_false_r. unfold notify_storage_full. cbv zeta. specialize (Hrow t). set (row := settings_row cfg t tables) in *.
    destruct (last_storage_notified_at row); [exact Hrow|].
    by apply (notice_keeps _ row t last_offline_notified_at with_storage_notice).
Qed.

Lemma storage_marks tables a :
  row_mark last_storage_notified_at (perform_notice a tables)
  = if storage_over tables a then false
    else row_mark last_storage_notified_at tables || (storage_due tables a && negb (row_mark last_storage_notified_at tables)).
Proof.
  assert (Hrow : ∀ t, bool_decide (is_Some (last_storage_notified_at (settings_row cfg t tables))) = row_mark last_storage_notified_at tables)
    by (intros; by apply settings_mark).
  pose proof (marks_kept _ tables a (or_intror eq_refl)) as Hk.
  destruct a; try (rewrite Hk; cbn; by rewrite orb_false_r); clear Hk; cbn [perform_notice storage_over storage_due andb];
    specialize (Hrow t).
  - rewrite orb_false_r. unfold evaluate_presence. cbv zeta. set (row := settings_row cfg t tables) in *.
    destruct (parse_events row) as [events|]; [|done]. cbn [mbind result_bind]. destruct (existsb _ _).
    + destruct (last_offline_notified_at row); [exact Hrow|].
      by apply (notice_keeps _ row t last_storage_notified_at with_offline).
    + destruct (last_offline_notified_at row); [|exact Hrow]. by destruct (if recovery_told events then _ else _).
  - unfold evaluate_storage, storage_saturated, event_open. cbv zeta. set (row := settings_row cfg t tables) in *.
    destruct (parse_events row) as [events|] eqn:Hp; [|cbn; by rewrite orb_false_r]. cbn [mbind result_bind].
    destruct (event_config_of row events "storage_full" Hp) as [c Hc]; [by vm_compute|].
    destruct (any_of _ _) as [spool|]; [|cbn; by rewrite orb_false_r]. cbn [mbind result_bind].
    destruct (spool || _); cbn [negb andb]; [|done]. rewrite Hc.
    destruct (last_storage_notified_at row) as [m|] eqn:Hm.
    + rewrite <- Hrow. cbn. by rewrite Hm.
    + rewrite bool_decide_false in Hrow by (by intros [? ?]). rewrite <- Hrow, andb_true_r. cbn [orb].
      by apply (notice_marks row _ (storage_notice _) events c t last_storage_notified_at with_storage_notice).
  - unfold notify_storage_full, event_open. cbv zeta. set (row := settings_row cfg t tables) in *.
    destruct (last_storage_notified_at row) as [m|] eqn:Hm.
    + rewrite <- Hrow. cbn. by rewrite Hm.
    + rewrite bool_decide_false in Hrow by (by intros [? ?]). rewrite <- Hrow, andb_true_r. cbn [orb].
      destruct (parse_events row) as [events|] eqn:Hp.
      * destruct (event_config_of row events "storage_full" Hp) as [c Hc]; [by vm_compute|]. rewrite Hc.
        by apply (notice_marks row _ (storage_notice _) events c t last_storage_notified_at with_storage_notice).
      * unfold build_deliverables. rewrite Hp. cbn. by rewrite <- Hrow.
Qed.

(** *** What an action tells *)

Lemma notice_anyone row e n events c (f : list deliverable → notice_tables) :
  parse_events row = Ok events → assoc (event_key_of n) events = Some c → external_status n = None →
  anyone (out ← build_deliverables key zoneinfo base_url hostname row e None n None; Ok (out, f out)) = channel row e c.
Proof.
  intros Hp Hc Hn. pose proof (build_notice row e n events c Hp Hc Hn) as Hb.
  destruct (build_deliverables _ _ _ _ _ _ _ _ _) as [out|x]; cbn; destruct Hb as [Hb _]; rewrite Hb; [apply negb_involutive|done].
Qed.

Lemma offline_tells tables a :
  offline_told tables a = offline_due tables a && negb (row_mark last_offline_notified_at tables).
Proof.
  destruct a; try done. cbn [offline_told offline_due]. unfold tablet_silent, event_open, evaluate_presence. cbv zeta.
  pose proof (settings_mark last_offline_notified_at t tables eq_refl) as Hrow. set (row := settings_row cfg t tables) in *.
  destruct (parse_events row) as [events|] eqn:Hp; [|done]. cbn [mbind result_bind].
  destruct (event_config_of row events "tablet_offline" Hp) as [c Hc]; [by vm_compute|]. rewrite Hc.
  destruct (existsb _ _); cbn [andb].
  - destruct (last_offline_notified_at row) as [m|].
    + rewrite <- Hrow. cbn. by rewrite andb_false_r.
    + rewrite bool_decide_false in Hrow by (by intros [? ?]). rewrite <- Hrow, andb_true_r.
      rewrite <- (notice_anyone row (email_row tables) offline_notice events c
        (λ out, with_ntfy (if bool_decide (length out = 0) then row else with_offline (Some t) row) tables) Hp Hc eq_refl).
      by destruct (build_deliverables _ _ _ _ _ _ _ _ _).
  - destruct (last_offline_notified_at row); [|done]. by destruct (if recovery_told events then _ else _).
Qed.

Lemma storage_tells tables a :
  storage_told tables a = storage_due tables a && negb (row_mark last_storage_notified_at tables).
Proof.
  destruct a; try done; cbn [storage_told storage_due]; pose proof (settings_mark last_storage_notified_at t tables eq_refl) as Hrow.
  - unfold evaluate_storage, storage_saturated, event_open. cbv zeta. set (row := settings_row cfg t tables) in *.
    destruct (parse_events row) as [events|] eqn:Hp; [|done]. cbn [mbind result_bind].
    destruct (event_config_of row events "storage_full" Hp) as [c Hc]; [by vm_compute|]. rewrite Hc.
    destruct (any_of _ _) as [spool|]; [|done]. cbn [mbind result_bind]. destruct (spool || _); [|done]. cbn [andb].
    destruct (last_storage_notified_at row) as [m|].
    + rewrite <- Hrow. cbn. by rewrite andb_false_r.
    + rewrite bool_decide_false in Hrow by (by intros [? ?]). rewrite <- Hrow, andb_true_r.
      by apply (notice_anyone row _ (storage_notice _) events c).
  - unfold notify_storage_full, event_open. cbv zeta. set (row := settings_row cfg t tables) in *.
    destruct (last_storage_notified_at row) as [m|].
    + rewrite <- Hrow. cbn. by rewrite andb_false_r.
    + rewrite bool_decide_false in Hrow by (by intros [? ?]). rewrite <- Hrow, andb_true_r.
      destruct (parse_events row) as [events|] eqn:Hp.
      * destruct (event_config_of row events "storage_full" Hp) as [c Hc]; [by vm_compute|]. rewrite Hc.
        by apply (notice_anyone row _ (storage_notice _) events c).
      * unfold build_deliverables. by rewrite Hp.
Qed.

(** C31 However watches, reports of full storage, other notifications and changes of the settings
    follow each other, an outage is told exactly once: a watch that finds a tablet overdue, and
    settings by which someone is reached, tells of it unless that was told before and no watch has
    found all tablets back since; and so for full storage, by a watch or by a refused upload. *)
Theorem outages_told_once l a tables :
  ntfy_row tables = None →
  let now := run perform_notice l tables in
  offline_told now a = offline_due now a && negb (standing perform_notice offline_told offline_over false l tables)
  ∧ storage_told now a = storage_due now a && negb (standing perform_notice storage_told storage_over false l tables).
Proof.
  intros Hfresh. split.
  - apply (told_exact _ _ _ (row_mark last_offline_notified_at)); [apply offline_tells| |unfold row_mark; by rewrite Hfresh].
    intros s b. rewrite offline_tells. apply offline_marks.
  - apply (told_exact _ _ _ (row_mark last_storage_notified_at)); [apply storage_tells| |unfold row_mark; by rewrite Hfresh].
    intros s b. rewrite storage_tells. apply storage_marks.
Qed.
End Watches.

Section Witness.
#[local] Existing Instance plain_suite.

(** A tablet that is heard of at the minutes [m], watched at others, and a topic that is set up. *)
Definition minute_of (m : Z) : datetime := datetime_of_instant (1700000000000000 + m * 60000000).
Definition tablet_seen (m : Z) : store :=
  {| drafts := ∅; archive := []; prompts := ∅; revisions := ∅; next_revision := 1;
     devices := {["d1" := {| display_name := "Tablet"; token_hash := ""; app_version := ""; helper_version := "";
       status_document := Some [("call_state", JStr "idle")]; desired_revision_id := None; active_revision_id := None;
       last_seen_at := Some (minute_of m); enrolled_at := minute_of 0; revoked_at := None |}]}; audit_log := [] |}.
Definition demo_settings : recording_settings :=
  {| recording_quota_bytes := 1000; recording_chunk_limit_bytes := 100; recording_upload_limit_bytes := 500; recording_abandoned_upload_hours := 24;
     audit_recording_quota_bytes := 500; audit_recording_reserve_bytes := 10; development_admin_email := "admin@example.com" |}.
Definition topic_request : ntfy_request :=
  {| body_enabled := true; body_server := "https://ntfy.sh"; body_topic := "calls"; body_token := None;
     body_events := (λ e, (e.1, (e.2, false))) <$> default_ntfy_events |}.
Definition saving : request := {| now := minute_of 0; nonce := λ n, replicate 12 (octet (N.of_nat n)); uuid_hex := ""; actor := "admin@example.com" |}.
(** Overdue from minute 15 on, heard of at 20, overdue again from 35 on. *)
Definition demo_actions : list notice_action :=
  [SaveSettings saving topic_request; WatchPresence (minute_of 14) (tablet_seen 0); WatchPresence (minute_of 15) (tablet_seen 0);
   WatchPresence (minute_of 16) (tablet_seen 0); WatchPresence (minute_of 21) (tablet_seen 20)].
Definition no_tables : notice_tables := {| ntfy_row := None; email_row := None; display_row := None; notice_audit := [] |}.

Definition demo_key : bytes := to_bytes "key".
Definition demo_run (l : list notice_action) : notice_tables :=
  run (perform_notice demo_key (λ _ _, Ok 0%Z) demo_settings "https://ivr.example" None) l no_tables.

Lemma outages_told_once_witness :
  let told := offline_told demo_key (λ _ _, Ok 0%Z) demo_settings "https://ivr.example" None in
  let full := storage_told demo_key (λ _ _, Ok 0%Z) demo_settings "https://ivr.example" None in
  ntfy_row no_tables = None
  ∧ told (demo_run (take 2 demo_actions)) (WatchPresence (minute_of 15) (tablet_seen 0)) = true
  ∧ told (demo_run (take 3 demo_actions)) (WatchPresence (minute_of 16) (tablet_seen 0)) = false
  ∧ told (demo_run demo_actions) (WatchPresence (minute_of 35) (tablet_seen 20)) = true
  ∧ full (demo_run demo_actions) (ReportFull (minute_of 22) "full") = true.
Proof.
  pose proof (λ l a, outages_told_once demo_key (λ _ _, Ok 0%Z) demo_settings "https://ivr.example" None l a no_tables eq_refl) as Htold.
  cbv zeta. split; [reflexivity|]. split; [|split; [|split]].
  - unfold demo_run. rewrite (proj1 (Htold _ _)). vm_compute. reflexivity.
  - unfold demo_run. rewrite (proj1 (Htold _ _)). vm_compute. reflexivity.
  - unfold demo_run. rewrite (proj1 (Htold _ _)). vm_compute. reflexivity.
  - unfold demo_run. rewrite (proj2 (Htold _ _)). vm_compute. reflexivity.
Defined.
End Witness.
