(* ===== verification/Smtp.v ===== *)
(** * The exchange with the mail server ([email_notify.py])

    The commands that [_send] gives over a connection of [smtplib], whatever the server answers,
    and the text by which an administrator learns of a failure.  [server] answers the commands so
    far: [None] when the last one succeeds, and the exception it raises otherwise.  [fold] gives
    what the characters of Unicode have in common when case is ignored. *)
From Stdlib Require Import Ascii.
From stdpp Require Import base gmap sets strings numbers pretty list.
From S2P Require Import Prelude FlowTree Schemas LegacyGraph Json Crypto Documents Store Drafts Revisions V4Api Diff Devices Policies Calls Recordings Storage Text Email.

(** ** Failures *)

(** The exceptions that [describe_smtp_error] tells apart, by the first test that they satisfy. *)
Inductive smtp_error :=
| SMTPAuthenticationError (code : option Z) (text : string)
| SMTPSenderRefused (code : option Z) (text : string)
| SMTPRecipientsRefused (replies : list (option Z * string))
| SMTPNotSupportedError (text : string)
| SMTPServerDisconnected (text : string)
| SSLCertVerificationError (verify_message : option string)
| SSLError (reason : option string)
| gaierror
| TimeoutError
| ConnectionRefusedError
| SMTPResponseException (code : option Z) (text : string)
| SMTPException (text : string)
| OSError (strerror : option string) (class_name : string)
| OtherError (class_name : string).

Definition ERROR_LIMIT : nat := 200.
(** [_server_reply] *)
Definition server_reply (code : option Z) (text : string) : string :=
  text_strip (match code with Some c => pretty c | None => "None" end +:+ " " +:+ text).
Definition or_else (s : option string) (d : string) : string := default d (known_caller s).

Definition endpoint (p : EmailPayload) : string := mail_host p +:+ ":" +:+ pretty (mail_port p).
Definition port_hint : string := "check that the port matches the security setting (465 uses SSL, 587 uses STARTTLS)".
(** The text of [describe_smtp_error] before it is cleaned. *)
Definition smtp_error_text (error : smtp_error) (p : EmailPayload) : string :=
  match error with
  | SMTPAuthenticationError code text =>
      "SMTP login failed (" +:+ server_reply code text +:+ ")"
      +:+ (if has_suffix ".mail.me.com" (mail_host p)
           then "; iCloud needs your @icloud.com address as the username and an app-specific password" else "")
  | SMTPSenderRefused code text => "SMTP server refused the sender address (" +:+ server_reply code text +:+ ")"
  | SMTPRecipientsRefused replies =>
      "SMTP server refused all " +:+ pretty (length replies) +:+ " recipients ("
      +:+ match replies with (code, text) :: _ => server_reply code text | [] => "no reply" end +:+ ")"
  | SMTPNotSupportedError text => "SMTP server does not support a required feature: " +:+ text
  | SMTPServerDisconnected text => "SMTP server closed the connection (" +:+ text +:+ "); " +:+ port_hint
  | SSLCertVerificationError verify_message =>
      "TLS certificate for " +:+ mail_host p +:+ " could not be verified (" +:+ or_else verify_message "verification failed" +:+ ")"
  | SSLError reason => "TLS handshake with " +:+ endpoint p +:+ " failed (" +:+ or_else reason "SSL error" +:+ "); " +:+ port_hint
  | gaierror => "SMTP host " +:+ mail_host p +:+ " was not found"
  | TimeoutError => "Connection to " +:+ endpoint p +:+ " timed out; the port may be blocked"
  | ConnectionRefusedError => "Connection to " +:+ endpoint p +:+ " was refused"
  | SMTPResponseException code text => "SMTP error (" +:+ server_reply code text +:+ ")"
  | SMTPException text => "SMTP error: " +:+ text
  | OSError strerror class_name => "Could not reach " +:+ endpoint p +:+ " (" +:+ or_else strerror class_name +:+ ")"
  | OtherError class_name => "Email delivery failed (" +:+ class_name +:+ ")"
  end.

Section Redaction.
Context (fold : bytes → bytes).

(** Whether a text begins with a secret, case ignored. *)
Fixpoint begins (secret text : list bytes) : bool :=
  match secret, text with
  | [], _ => true
  | s :: secret, c :: text => bool_decide (fold s = fold c) && begins secret text
  | _ :: _, [] => false
  end.
Definition star : bytes := ["*"%char].
(** [re.sub(re.escape(secret), "***", text, flags=re.IGNORECASE)]: occurrences from the left, that do
    not overlap; [skip] characters of the last one are still to be passed. *)
Fixpoint redact (secret : list bytes) (skip : nat) (text : list bytes) : list bytes :=
  match text with
  | [] => []
  | c :: k =>
      match skip with
      | S n => redact secret n k
      | O => if begins secret text then [star; star; star] ++ redact secret (length secret - 1) k else c :: redact secret 0 k
      end
  end.
Definition redact_text (secret : option string) (text : string) : string :=
  match known_caller secret with Some s => of_chars (redact (chars s) 0 (chars text)) | None => text end.
Definition describe_smtp_error (error : smtp_error) (p : EmailPayload) : string :=
  text_take ERROR_LIMIT
    (redact_text (Some (mail_username p)) (redact_text (of_bytes <$> mail_password p) (join_text " " (text_split (smtp_error_text error p))))).
End Redaction.

(** ** The exchange *)

Inductive smtp_command :=
| Connect (tls : bool) (host : string) (port : Z)
| Ehlo
| StartTls
| Login (username : string) (password : bytes)
| SendMessage (from : string) (to : list string)
| Quit
| Close.

Section Exchange.
Context (server : list smtp_command → option smtp_error).

(** The commands one after the other, up to the first that fails: all that were given so far. *)
Fixpoint converse (given : list smtp_command) (l : list smtp_command) : list smtp_command * option smtp_error :=
  match l with
  | [] => (given, None)
  | c :: l => match server (given ++ [c]) with Some e => (given ++ [c], Some e) | None => converse (given ++ [c]) l end
  end.
Definition implicit_tls (p : EmailPayload) : bool := bool_decide (mail_security p = "ssl").
(** The body of the [try] of [_send] *)
Definition delivery (p : EmailPayload) : list smtp_command :=
  (if implicit_tls p then [] else [Ehlo; StartTls; Ehlo])
  ++ (if bool_decide (mail_username p = "") then [] else [Login (mail_username p) (default [] (mail_password p))])
  ++ [SendMessage (mail_from p) (mail_recipients p)].
(** [_send]: the commands it gives, and the exception it raises. *)
Definition smtp_send (p : EmailPayload) : list smtp_command * option smtp_error :=
  match converse [] [Connect (implicit_tls p) (mail_host p) (mail_port p)] with
  | (given, Some e) => (given, Some e)
  | (given, None) =>
      let '(given, failure) := converse given (delivery p) in
      let given := given ++ [Quit] in
      (match server given with Some _ => given ++ [Close] | None => given end, failure)
  end.
(** [send_test_email]: the text of the exception it raises, which the handler answers. *)
Definition send_test_email (fold : bytes → bytes) (p : EmailPayload) : option string :=
  (λ e, describe_smtp_error fold e p) <$> (smtp_send p).2.

(** [test_email_settings]: the row, the commands that went to the mail server, and how it ends. *)
Definition test_email_settings `{Cryptography} (key : bytes) (fold : bytes → bytes) (hostname : option string) (r : request)
    (row : option email_settings) : result (email_settings * list smtp_command * result audit_row) :=
  let row := initialize_email_settings (now r) (actor r) row in
  if negb (email_ready (Some row))
  then Raise (HTTPException 400 ["Enable email and set the SMTP host, sender, and a recipient before sending a test"])
  else
    password ← decrypt_password key row;
    let payload := build_email_payload row password hostname "IVRdroid test"
                     (with_footer "This is a test email from the IVRdroid dashboard." "Sent as a test from IVRdroid settings, Email delivery.") in
    Ok (row, (smtp_send payload).1,
        match send_test_email fold payload with
        | Some text => Raise (HTTPException 400 [text])
        | None => Ok {| audit_actor := actor r; action := "email.test_sent"; target := "email-settings"; details := JObj [] |}
        end).
End Exchange.
