(* ===== verification/SmtpCorrect.v ===== *)
(** * The exchange with the mail server, proved

    Passwords and messages go over encrypted connections only, every connection is closed, and the
    text of a failure does not show the credentials. *)
From Stdlib Require Import Ascii.
From stdpp Require Import base gmap sets strings numbers pretty list.
From S2P Require Import Prelude FlowTree Schemas LegacyGraph Json Crypto Documents Store Drafts Revisions V4Api Diff Devices Policies Calls Recordings Storage Text Email Smtp.

(** ** Connections *)

Section Exchange.
Context (server : list smtp_command → option smtp_error).

(** Whether the commands so far made the connection an encrypted one. *)
Definition encrypted (given : list smtp_command) : Prop :=
  (∃ host port, Connect true host port ∈ given) ∨ ∃ before, before ++ [StartTls] `prefix_of` given ∧ server (before ++ [StartTls]) = None.
(** The commands that must not go over a connection in clear. *)
Definition confidential (c : smtp_command) : bool := match c with Login _ _ | SendMessage _ _ => true | _ => false end.
Definition guarded (given : list smtp_command) : Prop :=
  ∀ before c after, given = before ++ c :: after → confidential c = true → encrypted before.

Lemma encrypted_app given more : encrypted given → encrypted (given ++ more).
Proof.
  intros [(h & p & Hin)|(b & Hb & Hs)]; [left; exists h, p; apply elem_of_app; by left|].
  right. exists b. split; [|done]. by apply prefix_app_r.
Qed.
Lemma guarded_snoc given c : guarded given → (confidential c = true → encrypted given) → guarded (given ++ [c]).
Proof.
  intros Hg Hc before d after Heq Hd. destruct after as [|e after] using rev_ind; [apply app_inj_tail in Heq as [-> ->]; auto|].
  clear IHafter. rewrite app_comm_cons, app_assoc in Heq. apply app_inj_tail in Heq as [Heq _]. by apply (Hg before d after).
Qed.

(** Commands that follow an encrypted connection, or need none. *)
Lemma converse_guarded given l : guarded given → (encrypted given ∨ Forall (λ c, confidential c = false) l) → guarded (converse server given l).1.
Proof.
  revert given. induction l as [|c l IH]; intros given Hg He; [done|]. cbn.
  assert (Hc : guarded (given ++ [c])).
  { apply guarded_snoc; [done|]. destruct He as [He|He]; [done|]. apply Forall_cons in He as [-> _]. done. }
  destruct (server (given ++ [c])); [done|]. apply IH; [done|].
  destruct He as [He|He]; [left; by apply encrypted_app|right; by apply Forall_cons in He as [_ He]].
Qed.
Lemma converse_app given l k : converse server given (l ++ k) =
  match converse server given l with (given, None) => converse server given k | stopped => stopped end.
Proof. revert given. induction l as [|c l IH]; intros given; [done|]. cbn. by destruct (server (given ++ [c])). Qed.
Lemma converse_done given l given' : converse server given l = (given', None) →
  given' = given ++ l ∧ ∀ before c after, l = before ++ c :: after → server (given ++ before ++ [c]) = None.
Proof.
  revert given. induction l as [|c l IH]; intros given; cbn; [intros [= <-]; rewrite app_nil_r; split; [done|by intros [] ??]|].
  destruct (server (given ++ [c])) eqn:E; [done|]. intros [-> Hs]%IH. rewrite <- app_assoc. split; [done|].
  intros [|d before] e after [= -> Heq]; [done|]. rewrite <- (Hs before e after Heq). by rewrite <- app_assoc.
Qed.

(** C34 Whatever the mail server answers, a password or a message is given only over a connection
    that is encrypted from its start or after an accepted STARTTLS, and every connection that was
    opened is ended. *)
Theorem mail_sent_encrypted p :
  guarded (smtp_send server p).1
  ∧ (server [Connect (implicit_tls p) (mail_host p) (mail_port p)] = None →
     last (smtp_send server p).1 = Some Close ∨ (last (smtp_send server p).1 = Some Quit ∧ server (smtp_send server p).1 = None)).
Proof.
  unfold smtp_send. cbn [converse app]. set (open := Connect (implicit_tls p) (mail_host p) (mail_port p)).
  assert (Hopen : guarded [open]) by (apply (guarded_snoc []); [by intros [] ??|done]).
  destruct (server [open]) as [e|] eqn:Ho; [by split|].
  assert (Hg : guarded (converse server [open] (delivery p)).1).
  { unfold delivery. destruct (implicit_tls p) eqn:Ht.
    - apply converse_guarded; [done|]. left. left. exists (mail_host p), (mail_port p). apply list_elem_of_here.
    - rewrite converse_app. destruct (converse server [open] [Ehlo; StartTls; Ehlo]) as [given [e|]] eqn:Ec.
      + change given with (given, Some e).1. rewrite <- Ec. apply converse_guarded; [done|]. right. by repeat constructor.
      + apply converse_done in Ec as [-> Hs]. apply converse_guarded.
        * assert (H1 : guarded [open; Ehlo]) by (by apply (guarded_snoc [open])).
          assert (H2 : guarded [open; Ehlo; StartTls]) by (by apply (guarded_snoc [open; Ehlo])).
          by apply (guarded_snoc [open; Ehlo; StartTls]).
        * left. right. exists [open; Ehlo]. split; [by exists [Ehlo]|]. exact (Hs [Ehlo] StartTls [Ehlo] eq_refl). }
  destruct (converse server [open] (delivery p)) as [given failure]. cbn [fst] in Hg. cbn [fst].
  assert (Hq : guarded (given ++ [Quit])) by (by apply guarded_snoc).
  destruct (server (given ++ [Quit])) eqn:Eq; cbn [fst].
  - split; [by apply guarded_snoc|]. intros _. left. by rewrite last_snoc.
  - split; [done|]. intros _. right. by rewrite last_snoc.
Qed.
End Exchange.

(** ** Characters *)

(** A character that [chars] takes as one: an ASCII byte, or a first byte and those that continue it. *)
Definition whole (x : bytes) : Prop :=
  match x with
  | [] => False
  | c :: k => continuation c = false ∧ if ascii_char c then k = [] else Forall (λ d, continuation d = true) k
  end.
Lemma split_text_whole l : Forall (λ c, continuation c = true) (split_text l).1 ∧ Forall whole (split_text l).2.
Proof.
  induction l as [|c k [Hp Hs]]; [by split; constructor|]. cbn [split_text]. destruct (split_text k) as [pending cs]. cbn [fst snd] in *.
  destruct (continuation c) eqn:Ec; [by split; [constructor|]|].
  destruct (ascii_char c) eqn:Ea; cbn [fst snd]; (split; [by apply Forall_nil|apply Forall_cons; split; [|done]]); unfold whole; by rewrite Ec, Ea.
Qed.
Lemma split_text_continued conts r : Forall (λ c, continuation c = true) conts →
  split_text (conts ++ r) = (conts ++ (split_text r).1, (split_text r).2).
Proof.
  induction 1 as [|c conts Hc _ IH]; [cbn; by destruct (split_text r)|]. cbn [app split_text]. rewrite IH, Hc. done.
Qed.
Lemma split_text_concat l : Forall whole l → split_text (concat l) = ([], l).
Proof.
  induction 1 as [|x l Hx _ IH]; [done|]. destruct x as [|c k]; [done|]. destruct Hx as [Hc Hk].
  change (concat ((c :: k) :: l)) with (c :: (k ++ concat l)). cbn [split_text].
  destruct (ascii_char c) eqn:Ea; [rewrite Hk; cbn [app]; by rewrite IH, Hc|].
  rewrite split_text_continued by done. rewrite IH, Hc. cbn [fst snd]. by rewrite app_nil_r.
Qed.
Lemma chars_whole s : Forall whole (chars s).
Proof. apply split_text_whole. Qed.
Lemma chars_of_chars l : Forall whole l → chars (of_chars l) = l.
Proof.
  intros Hl. unfold chars, of_chars, of_bytes, to_bytes. rewrite String.list_ascii_of_string_of_list_ascii. by rewrite split_text_concat.
Qed.

(** ** Redaction *)

Section Redaction.
Context (fold : bytes → bytes).

(** A secret is in a text when the text begins with it somewhere, case ignored. *)
Definition shows (secret text : list bytes) : Prop := ∃ before after, text = before ++ after ∧ begins fold secret after = true.
(** No character of the secret is a star, case ignored. *)
Definition starless (secret : list bytes) : Prop := secret ≠ [] ∧ Forall (λ c, fold c ≠ fold star) secret.

Lemma shows_nil s : s ≠ [] → ¬ shows s [].
Proof. intros Hs (b & a & Heq & Hb). symmetry in Heq. apply app_eq_nil in Heq as [_ ->]. by destruct s. Qed.
Lemma shows_cons s c k : shows s (c :: k) ↔ begins fold s (c :: k) = true ∨ shows s k.
Proof.
  split.
  - intros ([|d b] & a & Heq & Hb); cbn in Heq; [left; by subst a|]. injection Heq as -> ->. right. by exists b, a.
  - intros [H|(b & a & -> & Hb)]; [by exists [], (c :: k)|by exists (c :: b), a].
Qed.
Lemma starless_star s k : starless s → begins fold s (star :: k) = false.
Proof. intros [Hn Hs]. destruct s as [|c s]; [done|]. cbn. apply Forall_cons in Hs as [Hc _]. by rewrite bool_decide_false. Qed.
Lemma starless_stars s k : starless s → shows s ([star; star; star] ++ k) ↔ shows s k.
Proof. intros Hs. cbn. rewrite !shows_cons, !starless_star by done. naive_solver. Qed.

(** What remains is as it was. *)
Lemma begins_redacted s u text : Forall (λ c, fold c ≠ fold star) s → begins fold s (redact fold u 0 text) = true → begins fold s text = true.
Proof.
  revert s. induction text as [|c k IH]; intros s Hs H; [done|]. destruct s as [|d s]; [done|]. cbn [redact] in H.
  apply Forall_cons in Hs as [Hd Hs]. destruct (begins fold u (c :: k)).
  - cbn in H. by rewrite bool_decide_false in H.
  - cbn in H |- *. apply andb_prop in H as [-> H]. by apply IH.
Qed.
Lemma shows_redacted s u skip text : starless s → shows s (redact fold u skip text) → shows s text.
Proof.
  intros Hs. revert skip. induction text as [|c k IH]; intros skip H; [by apply shows_nil in H; [|apply Hs]|].
  cbn [redact] in H. rewrite shows_cons. destruct skip as [|n]; [|right; by apply (IH n)].
  destruct (begins fold u (c :: k)) eqn:Eu; [apply (proj1 (starless_stars s _ Hs)) in H; right; by apply (IH (length u - 1))|].
  apply shows_cons in H as [H|H]; [left|right; by apply (IH 0)].
  apply (begins_redacted s u (c :: k)); [apply Hs|]. cbn [redact]. by rewrite Eu.
Qed.
(** What is redacted is gone. *)
Lemma redacted_gone s skip text : starless s → ¬ shows s (redact fold s skip text).
Proof.
  intros Hs. revert skip. induction text as [|c k IH]; intros skip; [apply shows_nil, Hs|]. cbn [redact].
  destruct skip as [|n]; [|apply IH]. destruct (begins fold s (c :: k)) eqn:E; [rewrite starless_stars by done; apply IH|].
  rewrite shows_cons. intros [H|H]; [|by apply IH in H].
  assert (Hb : begins fold s (redact fold s 0 (c :: k)) = true) by (cbn [redact]; by rewrite E).
  apply begins_redacted in Hb; [by rewrite E in Hb|apply Hs].
Qed.
Lemma begins_take s n text : begins fold s (take n text) = true → begins fold s text = true.
Proof.
  revert n text. induction s as [|c s IH]; intros n text; [done|]. destruct n, text as [|d text]; try done. cbn.
  intros [-> H]%andb_prop. by apply (IH n).
Qed.
Lemma shows_take s n text : shows s (take n text) → shows s text.
Proof.
  revert n. induction text as [|c k IH]; intros n; [by rewrite take_nil|]. destruct n as [|n].
  - intros (b & a & Heq & Hb). symmetry in Heq. apply app_eq_nil in Heq as [_ ->]. exists [], (c :: k). split; [done|].
    by destruct s.
  - cbn. rewrite !shows_cons. intros [H|H]; [left; by apply (begins_take s (S n) (c :: k))|right; by apply (IH n)].
Qed.

Lemma redact_whole s skip text : Forall whole text → Forall whole (redact fold s skip text).
Proof.
  intros H. revert skip. induction H as [|c k Hc _ IH]; intros skip; [constructor|]. cbn. destruct skip; [|apply IH].
  destruct (begins fold s (c :: k)); [|constructor; [done|apply IH]]. repeat (constructor; [done|]). apply IH.
Qed.
Lemma chars_redact_text s text : chars (redact_text fold s text) = match known_caller s with Some u => redact fold (chars u) 0 (chars text) | None => chars text end.
Proof. unfold redact_text. destruct (known_caller s); [|done]. apply chars_of_chars, redact_whole, chars_whole. Qed.

(** The text of a failure, which the log and the dashboard show, contains neither the password nor
    the user name of the mail server in any case, if they contain no star; nor is it longer than
    200 characters. *)
Theorem failures_hide_credentials error p :
  (∀ password, mail_password p = Some password → starless (chars (of_bytes password)) →
     ¬ shows (chars (of_bytes password)) (chars (describe_smtp_error fold error p)))
  ∧ (starless (chars (mail_username p)) → ¬ shows (chars (mail_username p)) (chars (describe_smtp_error fold error p)))
  ∧ length (chars (describe_smtp_error fold error p)) ≤ ERROR_LIMIT.
Proof.
  unfold describe_smtp_error. set (text := join_text _ _). unfold text_take. rewrite chars_of_chars by apply Forall_take, chars_whole.
  assert (Hknown : ∀ s, starless (chars s) → known_caller (Some s) = Some s).
  { intros s [Hs _]. unfold known_caller. rewrite bool_decide_false; [done|]. by intros ->. }
  split; [|split].
  - intros password Hp Hs H%shows_take. rewrite chars_redact_text in H.
    assert (Hin : shows (chars (of_bytes password)) (chars (redact_text fold (of_bytes <$> mail_password p) text))).
    { destruct (known_caller (Some (mail_username p))); [|done]. by apply shows_redacted in H. }
    rewrite Hp in Hin. cbn [fmap option_fmap option_map] in Hin. rewrite chars_redact_text, (Hknown _ Hs) in Hin. by apply redacted_gone in Hin.
  - intros Hs H%shows_take. rewrite chars_redact_text, (Hknown _ Hs) in H. by apply redacted_gone in H.
  - rewrite length_take. lia.
Qed.
End Redaction.

Section Witness.
(** A mail server that refuses the login and repeats it, and the payload of an administrator. *)
Definition parrot : smtp_error := SMTPAuthenticationError (Some 535%Z) "5.7.8 Rejected ROBOT with HunTer2 for Robot".
Definition refusing (given : list smtp_command) : option smtp_error := match last given with Some (Login _ _) => Some parrot | _ => None end.
Definition demo_mail : EmailPayload :=
  {| mail_host := "smtp.example.com"; mail_port := 587; mail_security := "starttls"; mail_username := "robot";
     mail_password := Some (to_bytes "hunter2"); mail_from := "robot@example.com"; mail_from_name := "IVR"; mail_recipients := ["owner@example.com"];
     mail_subject := "[IVRdroid] test"; mail_body := ""; local_hostname := None |}.

Lemma mail_sent_encrypted_witness :
  (smtp_send refusing demo_mail).1 = [Connect false "smtp.example.com" 587; Ehlo; StartTls; Ehlo; Login "robot" (to_bytes "hunter2"); Quit]
  ∧ guarded refusing (smtp_send refusing demo_mail).1.
Proof. split; [vm_compute; reflexivity|]. exact (proj1 (mail_sent_encrypted refusing demo_mail)). Defined.

Lemma failures_hide_credentials_witness :
  send_test_email refusing (map lower) demo_mail = Some "SMTP login failed (535 5.7.8 Rejected *** with *** for ***)"
  ∧ ¬ shows (map lower) (chars (of_bytes (to_bytes "hunter2"))) (chars (describe_smtp_error (map lower) parrot demo_mail)).
Proof.
  split; [vm_compute; reflexivity|].
  assert (Hs : starless (map lower) (chars (of_bytes (to_bytes "hunter2")))).
  { split; [by vm_compute|]. vm_compute. repeat constructor; discriminate. }
  exact (proj1 (failures_hide_credentials (map lower) parrot demo_mail) (to_bytes "hunter2") eq_refl Hs).
Defined.
End Witness.
