(* ===== verification/Auth.v ===== *)
(** * Administrators and the settings of the server ([auth.py], [config.py])

    Who may act as an administrator, and with which settings the server starts.  The library that
    verifies an assertion is a parameter: [signing_key] gives the key of Cloudflare's team that an
    assertion names, and [decode] its claims when the signature, the audience and the required
    claims are right.

    URLs are read as [urllib.parse.urlparse] does, up to the parts the server looks at.
    [netloc_ok] says whether the checks of the standard library accept a network location with
    brackets (an IPv6 address) or with characters beyond ASCII (compatibility forms), and
    [lower_text] is [str.lower]. *)
From Stdlib Require Import Ascii.
From stdpp Require Import base gmap sets strings numbers pretty list.
From S2P Require Import Prelude FlowTree Schemas LegacyGraph Json Crypto Documents Store Drafts Revisions V4Api Diff Devices Policies Calls Recordings Text.

(** ** URLs *)

(** [s.partition(c)]: what is before the first [c], and what is after it, if it is there. *)
Fixpoint partition_at (c : ascii) (l : bytes) : bytes * option bytes :=
  match l with
  | [] => ([], None)
  | d :: k => if bool_decide (d = c) then ([], Some k) else let '(a, b) := partition_at c k in (d :: a, b)
  end.
(** [s.rpartition(c)]: what is before the last [c], if it is there, and what is after it. *)
Fixpoint rpartition_at (c : ascii) (l : bytes) : option bytes * bytes :=
  match l with
  | [] => (None, [])
  | d :: k =>
      match rpartition_at c k with
      | (Some a, b) => (Some (d :: a), b)
      | (None, b) => if bool_decide (d = c) then (Some [], b) else (None, d :: b)
      end
  end.
(** The longest beginning of which no character satisfies [p], and the rest. *)
Fixpoint split_before (p : ascii → bool) (l : bytes) : bytes * bytes :=
  match l with
  | [] => ([], [])
  | c :: k => if p c then ([], l) else let '(a, b) := split_before p k in (c :: a, b)
  end.
Fixpoint drop_leading (p : ascii → bool) (l : bytes) : bytes :=
  match l with c :: k => if p c then drop_leading p k else l | [] => [] end.

Definition control_or_space (c : ascii) : bool := nat_of_ascii c <=? 32.
Definition unsafe_url_byte (c : ascii) : bool := bool_decide (c ∈ map ascii_of_nat [9; 10; 13]).
Definition scheme_char (c : ascii) : bool := letter c || char_in 48 57 c || bool_decide (c ∈ ["+"; "-"; "."]%char).
Definition netloc_end (c : ascii) : bool := bool_decide (c ∈ ["/"; "?"; "#"]%char).

Record url := { scheme : bytes; netloc : bytes; url_path : bytes; url_query : bytes; url_fragment : bytes }.

Section Parsing.
Context (netloc_ok : bytes → bool) (lower_text : string → string).

Definition split_scheme (l : bytes) : bytes * bytes :=
  match l with
  | c :: _ =>
      match partition_at ":" l with
      | (s, Some rest) => if letter c && forallb scheme_char s then (map lower s, rest) else ([], l)
      | (_, None) => ([], l)
      end
  | [] => ([], [])
  end.
Definition split_netloc (l : bytes) : bytes * bytes :=
  match l with
  | "/"%char :: "/"%char :: k => split_before netloc_end k
  | _ => ([], l)
  end.
(** The checks of a network location *)
Definition check_netloc (n : bytes) : result unit :=
  let opened := bool_decide ("["%char ∈ n) in
  let closed := bool_decide ("]"%char ∈ n) in
  if xorb opened closed then Raise (ValueError "Invalid IPv6 URL")
  else if (opened || existsb (λ c, negb (ascii_char c)) n) && negb (netloc_ok n) then Raise (ValueError "netloc")
  else Ok ().
(** The path without the parameters of its last part *)
Definition without_params (path : bytes) : bytes :=
  match rpartition_at "/" path with
  | (Some before, final) => before ++ ["/"%char] ++ (partition_at ";" final).1
  | (None, _) => (partition_at ";" path).1
  end.
(** [urlparse] *)
Definition urlparse (text : string) : result url :=
  let l := filter (λ c, unsafe_url_byte c = false) (drop_leading control_or_space (to_bytes text)) in
  let '(s, l) := split_scheme l in
  let '(n, l) := split_netloc l in
  _ ← check_netloc n;
  let '(l, f) := partition_at "#" l in
  let '(l, q) := partition_at "?" l in
  Ok {| scheme := s; netloc := n; url_path := without_params l; url_query := default [] q; url_fragment := default [] f |}.

(** [username] and [password] *)
Definition userinfo (u : url) : option bytes * option bytes :=
  match rpartition_at "@" (netloc u) with
  | (Some info, _) => let '(name, password) := partition_at ":" info in (Some name, password)
  | (None, _) => (None, None)
  end.
(** [_hostinfo]: the host and the text of the port *)
Definition hostinfo (u : url) : bytes * option bytes :=
  let info := (rpartition_at "@" (netloc u)).2 in
  let '(host, port) :=
    match partition_at "[" info with
    | (_, Some bracketed) => let '(host, rest) := partition_at "]" bracketed in (host, (partition_at ":" (default [] rest)).2)
    | (_, None) => partition_at ":" info
    end in
  (host, match port with Some [] => None | p => p end).
Definition hostname (u : url) : option string :=
  let '(host, _) := hostinfo u in
  if bool_decide (host = []) then None
  else
    let '(name, zone) := partition_at "%" host in
    Some (lower_text (of_bytes name) +:+ match zone with Some z => "%" +:+ of_bytes z | None => "" end).
Definition port_of (u : url) : result (option Z) :=
  match (hostinfo u).2 with
  | None => Ok None
  | Some p =>
      if forallb (char_in 48 57) p then
        let n := foldl (λ n c, n * 10 + Z.of_nat (digit_val c))%Z 0%Z p in
        if (n <=? 65535)%Z then Ok (Some n) else Raise (ValueError "Port out of range 0-65535")
      else Raise (ValueError "Port could not be cast to integer value")
  end.

(** [NtfySettingsRequest.https_server_without_secrets] *)
Definition https_server_without_secrets (value : string) : result string :=
  parsed ← urlparse (text_strip value);
  let blank (o : option bytes) := match o with Some (_ :: _) => false | _ => true end in
  match hostname parsed with
  | Some host =>
      if bool_decide (scheme parsed ≠ to_bytes "https") then Raise (ValueError "ntfy server URL must be https with a hostname")
      else if negb (blank (userinfo parsed).1) || negb (blank (userinfo parsed).2)
      then Raise (ValueError "ntfy server URL cannot contain credentials")
      else if negb (bool_decide (url_query parsed = [])) || negb (bool_decide (url_fragment parsed = []))
      then Raise (ValueError "ntfy server URL cannot contain a query or fragment")
      else if negb (bool_decide (url_path parsed ∈ [[]; ["/"%char]])) then Raise (ValueError "ntfy server URL must not include a path")
      else
        port ← port_of parsed;
        Ok ("https://" +:+ host +:+ match port with Some p => if (p =? 443)%Z then "" else ":" +:+ pretty p | None => "" end)
  | None => Raise (ValueError "ntfy server URL must be https with a hostname")
  end.
End Parsing.

(** An IPv6 server loses its brackets, and with them its port. *)
Example ipv6_server_loses_brackets :
  https_server_without_secrets (λ _, true) id "https://[2001:db8::1]:8443" = Ok "https://2001:db8::1:8443".
Proof. vm_compute. reflexivity. Qed.
Example ordinary_server_kept : https_server_without_secrets (λ _, true) (λ s, of_bytes (map lower (to_bytes s))) " https://NTFY.example:443/ " = Ok "https://ntfy.example".
Proof. vm_compute. reflexivity. Qed.

(** ** Settings *)

(** [Settings], as far as start-up and authentication read them *)
Inductive environment_name := Development | Testing | Production.
#[global] Instance environment_name_eq_dec : EqDecision environment_name.
Proof. solve_decision. Defined.
Record Settings := {
  environment : environment_name; public_base_url : string; auto_create_schema : bool;
  config_signing_private_key_b64 : string; data_encryption_key_b64 : string; pairing_hmac_key_b64 : string;
  recording_encryption_key_b64 : string; cf_access_team_domain : string; cf_access_audience : string;
  cf_device_service_client_id : string; cf_device_service_client_secret : string; owner_email : string }.
(** [strip_trailing_slash] and [require_production_secrets]: the fields as the validators leave them *)
Definition cleaned_settings (s : Settings) : Settings :=
  {| environment := environment s; public_base_url := rstrip_slash (public_base_url s); auto_create_schema := auto_create_schema s;
     config_signing_private_key_b64 := text_strip (config_signing_private_key_b64 s);
     data_encryption_key_b64 := text_strip (data_encryption_key_b64 s); pairing_hmac_key_b64 := text_strip (pairing_hmac_key_b64 s);
     recording_encryption_key_b64 := text_strip (recording_encryption_key_b64 s);
     cf_access_team_domain := cf_access_team_domain s; cf_access_audience := cf_access_audience s;
     cf_device_service_client_id := cf_device_service_client_id s; cf_device_service_client_secret := cf_device_service_client_secret s;
     owner_email := owner_email s |}.
Definition required_settings (s : Settings) : list (string * string) :=
  [("config signing key", config_signing_private_key_b64 s); ("data encryption key", data_encryption_key_b64 s);
   ("pairing HMAC key", pairing_hmac_key_b64 s); ("recording encryption key", recording_encryption_key_b64 s);
   ("Cloudflare Access team domain", cf_access_team_domain s); ("Cloudflare Access audience", cf_access_audience s);
   ("Cloudflare device service client ID", cf_device_service_client_id s);
   ("Cloudflare device service client secret", cf_device_service_client_secret s)].
(** [validate_runtime] after the directories are there *)
Definition validate_runtime (s : Settings) : result unit :=
  if bool_decide (environment s = Production) then
    let missing := (filter (λ p : string * string, p.2 = "") (required_settings s)).*1 in
    if negb (bool_decide (missing = [])) then Raise (RuntimeError ("Missing production settings: " +:+ join_text ", " missing))
    else if auto_create_schema s then Raise (RuntimeError "Production must run Alembic; auto_create_schema must be false")
    else Ok ()
  else Ok ().
(** [_development_keys]: [fresh] is the random key of each setting. *)
Definition development_keys (fresh : nat → bytes) (s : Settings) : Settings :=
  if bool_decide (environment s = Production) then s
  else
    let key (i : nat) (k : string) := if bool_decide (k = "") then of_bytes (b64encode (fresh i)) else k in
    {| environment := environment s; public_base_url := public_base_url s; auto_create_schema := auto_create_schema s;
       config_signing_private_key_b64 := key 0 (config_signing_private_key_b64 s); data_encryption_key_b64 := key 1 (data_encryption_key_b64 s);
       pairing_hmac_key_b64 := key 2 (pairing_hmac_key_b64 s); recording_encryption_key_b64 := key 3 (recording_encryption_key_b64 s);
       cf_access_team_domain := cf_access_team_domain s; cf_access_audience := cf_access_audience s;
       cf_device_service_client_id := cf_device_service_client_id s; cf_device_service_client_secret := cf_device_service_client_secret s;
       owner_email := owner_email s |}.
(** The settings [create_app] runs with *)
Definition start_settings (fresh : nat → bytes) (raw : Settings) : result Settings :=
  let s := cleaned_settings raw in
  _ ← validate_runtime s;
  Ok (development_keys fresh s).

(** ** Requests *)

Section Authentication.
Context {public_key : Type} (signing_key : string → string → result public_key)
  (decode : string → public_key → string → result (list (string * json)))
  (netloc_ok : bytes → bool).

Definition given (header : option string) : bool := match header with Some h => negb (bool_decide (h = "")) | None => false end.
(** The email of an assertion: all that goes wrong is refused alike. *)
Definition verified_email (s : Settings) (assertion : string) : result string :=
  key ← signing_key (cf_access_team_domain s) assertion;
  claims ← decode assertion key (cf_access_audience s);
  match assoc "email" claims with
  | Some (JStr email) => if bool_decide (email = "") then Raise (ValueError "email claim missing") else Ok email
  | _ => Raise (ValueError "email claim missing")
  end.
Definition require_admin (s : Settings) (assertion : option string) : result string :=
  if negb (bool_decide (environment s = Production)) && negb (given assertion) then Ok (owner_email s)
  else
    match assertion with
    | Some a =>
        if bool_decide (a = "") then Raise (HTTPException 401 ["Access login required"])
        else match verified_email s a with Ok email => Ok email | Raise _ => Raise (HTTPException 401 ["Invalid Access assertion"]) end
    | None => Raise (HTTPException 401 ["Access login required"])
    end.
Definition require_admin_write (s : Settings) (assertion origin : option string) : result string :=
  who ← require_admin s assertion;
  if bool_decide (environment s = Production) then
    match origin with
    | Some o =>
        if bool_decide (o = "") then Raise (HTTPException 403 ["Origin header required"])
        else
          expected ← urlparse netloc_ok (public_base_url s);
          observed ← urlparse netloc_ok o;
          if bool_decide ((scheme observed, netloc observed) ≠ (scheme expected, netloc expected))
          then Raise (HTTPException 403 ["Cross-origin write rejected"])
          else Ok who
    | None => Raise (HTTPException 403 ["Origin header required"])
    end
  else Ok who.
End Authentication.
