(* ===== verification/AuthCorrect.v ===== *)
(** * Administrators, proved

    In production an administrator's request that changes anything carries a verified assertion
    and comes from the pages of the server itself. *)
From Stdlib Require Import Ascii.
From stdpp Require Import base gmap sets strings numbers pretty list.
From S2P Require Import Prelude FlowTree Schemas LegacyGraph Json Crypto Documents Store Drafts Revisions V4Api Diff Devices Policies Calls Recordings Text Auth.

(** ** Origins *)

(** The characters of a plain network location: a host, and a port. *)
Definition host_char (c : ascii) : bool := letter c || char_in 48 57 c || bool_decide (c ∈ ["."; "-"; ":"]%char).
(** An origin as browsers send it. *)
Definition origin_text (sch host : bytes) : string := of_bytes (sch ++ to_bytes "://" ++ host).
Definition plain_origin (sch host : bytes) : Prop :=
  (∃ c k, sch = c :: k ∧ letter c = true) ∧ Forall (λ c, scheme_char c = true) sch ∧ Forall (λ c, host_char c = true) host.

Lemma scheme_char_plain c : scheme_char c = true → unsafe_url_byte c = false ∧ control_or_space c = false ∧ c ≠ ":"%char ∧ c ≠ "/"%char.
Proof. destruct c as [[] [] [] [] [] [] [] []]; intros Hc; first [discriminate Hc|repeat split; first [reflexivity|discriminate]]. Qed.
Lemma host_char_plain c : host_char c = true →
  unsafe_url_byte c = false ∧ netloc_end c = false ∧ ascii_char c = true ∧ c ≠ "["%char ∧ c ≠ "]"%char.
Proof. destruct c as [[] [] [] [] [] [] [] []]; intros Hc; first [discriminate Hc|repeat split; first [reflexivity|discriminate]]. Qed.
Lemma filter_keeps (p : ascii → bool) l : Forall (λ c, p c = false) l → filter (λ c, p c = false) l = l.
Proof. induction 1 as [|c l Hc _ IH]; [done|]. rewrite filter_cons_True by done. by rewrite IH. Qed.
Lemma partition_at_first c l k : c ∉ l → partition_at c (l ++ c :: k) = (l, Some k).
Proof.
  induction l as [|d l IH]; intros H; cbn; [by rewrite bool_decide_true|].
  apply not_elem_of_cons in H as [Hd Hl]. rewrite bool_decide_false by congruence. by rewrite IH.
Qed.
Lemma split_before_none p l : Forall (λ c, p c = false) l → split_before p l = (l, []).
Proof. induction 1 as [|c l Hc _ IH]; [done|]. cbn. by rewrite Hc, IH. Qed.

Lemma urlparse_plain netloc_ok sch host : plain_origin sch host →
  urlparse netloc_ok (origin_text sch host)
  = Ok {| scheme := map lower sch; netloc := host; url_path := []; url_query := []; url_fragment := [] |}.
Proof.
  intros ((c & k & -> & Hletter) & Hsch & Hhost). unfold urlparse, origin_text.
  set (text := (c :: k) ++ to_bytes "://" ++ host). unfold of_bytes, to_bytes. rewrite String.list_ascii_of_string_of_list_ascii.
  assert (Hc : scheme_char c = true) by (by apply Forall_cons in Hsch as [? _]).
  assert (Hdrop : drop_leading control_or_space text = text).
  { subst text. cbn. by rewrite (proj1 (proj2 (scheme_char_plain c Hc))). }
  assert (Hfilter : filter (λ d, unsafe_url_byte d = false) text = text).
  { apply filter_keeps. subst text. repeat apply Forall_app_2.
    - eapply Forall_impl; [exact Hsch|]. intros d Hd. by apply scheme_char_plain.
    - by repeat constructor.
    - eapply Forall_impl; [exact Hhost|]. intros d Hd. by apply host_char_plain. }
  rewrite Hdrop, Hfilter.
  assert (Hs : split_scheme text = (map lower (c :: k), ["/"; "/"]%char ++ host)).
  { subst text. unfold split_scheme. change ((c :: k) ++ to_bytes "://" ++ host) with ((c :: k) ++ ":"%char :: (["/"; "/"]%char ++ host)).
    rewrite partition_at_first.
    - change ((c :: k) ++ ":"%char :: (["/"; "/"]%char ++ host)) with (c :: (k ++ ":"%char :: (["/"; "/"]%char ++ host))). cbv iota.
      rewrite Hletter. rewrite (proj2 (forallb_forall scheme_char (c :: k))); [done|]. intros d Hd.
      rewrite Forall_forall in Hsch. by apply Hsch, list_elem_of_In.
    - intros Hin. rewrite Forall_forall in Hsch. by apply Hsch, scheme_char_plain in Hin as (_ & _ & ? & _). }
  rewrite Hs. cbn [split_netloc app].
  rewrite split_before_none by (eapply Forall_impl; [exact Hhost|]; intros d Hd; by apply host_char_plain).
  unfold check_netloc. assert (Hb : ("["%char ∉ host) ∧ ("]"%char ∉ host)).
  { rewrite Forall_forall in Hhost. split; intros Hin; apply Hhost, host_char_plain in Hin; naive_solver. }
  rewrite !bool_decide_false by apply Hb. cbn [xorb orb].
  assert (Hascii : existsb (λ d, negb (ascii_char d)) host = false).
  { clear -Hhost. induction Hhost as [|d l Hd _ IH]; [done|]. cbn [existsb]. rewrite IH. by rewrite (proj1 (proj2 (proj2 (host_char_plain d Hd)))). }
  rewrite Hascii. done.
Qed.

(** ** Administrators *)

Section Administrators.
Context {public_key : Type} (signing_key : string → string → result public_key)
  (decode : string → public_key → string → result (list (string * json))) (netloc_ok : bytes → bool).

(** An assertion that the team of the settings signed for their audience, with its email. *)
Definition vouched (s : Settings) (assertion who : string) : Prop :=
  ∃ key claims, signing_key (cf_access_team_domain s) assertion = Ok key ∧ decode assertion key (cf_access_audience s) = Ok claims
                ∧ assoc "email" claims = Some (JStr who) ∧ who ≠ "".

Lemma verified_vouched s a who : verified_email signing_key decode s a = Ok who ↔ vouched s a who.
Proof.
  unfold verified_email, vouched. split.
  - intros Hv. apply result_bind_ok in Hv as (key & Hk & Hv). apply result_bind_ok in Hv as (claims & Hc & Hv). exists key, claims.
    destruct (assoc "email" claims) as [[| | |e| |]|] eqn:E; try discriminate Hv. destruct (bool_decide (e = "")) eqn:Ee; [discriminate Hv|].
    apply bool_decide_eq_false in Ee. by injection Hv as ->.
  - intros (key & claims & Hk & Hc & He & Hw). rewrite Hk. cbn. rewrite Hc. cbn. rewrite He. by rewrite bool_decide_false.
Qed.
Lemma started_complete fresh raw s : start_settings fresh raw = Ok s → environment raw = Production →
  environment s = Production ∧ Forall (λ p, p.2 ≠ "") (required_settings s) ∧ auto_create_schema s = false.
Proof.
  intros Hs He. unfold start_settings in Hs. cbv zeta in Hs. apply result_bind_ok in Hs as ([] & Hv & Hs).
  unfold development_keys in Hs. change (environment (cleaned_settings raw)) with (environment raw) in Hs.
  rewrite bool_decide_true in Hs by done. injection Hs as <-. split; [done|].
  unfold validate_runtime in Hv. change (environment (cleaned_settings raw)) with (environment raw) in Hv. rewrite bool_decide_true in Hv by done.
  cbv zeta in Hv. destruct (negb _) eqn:Em; [done|]. apply negb_false_iff, bool_decide_eq_true, fmap_nil_inv in Em.
  destruct (auto_create_schema (cleaned_settings raw)); [done|]. split; [|done].
  apply Forall_forall. intros p Hp Hempty. assert (Hin : p ∈ filter (λ p : string * string, p.2 = "") (required_settings (cleaned_settings raw)))
    by (apply list_elem_of_filter; by split). rewrite Em in Hin. by apply elem_of_nil in Hin.
Qed.

(** C37 A server that starts in production has all its keys and its team, and lets nobody change
    anything without an assertion of that team, for its audience, that names an email: then the
    request is of that email.  Of the origins that browsers send, [scheme://host] with an optional
    port, it takes exactly that of its own pages, whatever the case of the scheme. *)
Theorem production_writes_authorised fresh raw s sch host : 
  start_settings fresh raw = Ok s → environment raw = Production → public_base_url s = origin_text sch host → plain_origin sch host →
  Forall (λ p, p.2 ≠ "") (required_settings s)
  ∧ (∀ assertion origin who, require_admin_write signing_key decode netloc_ok s assertion origin = Ok who →
       ∃ a, assertion = Some a ∧ vouched s a who ∧ ∃ o, origin = Some o ∧ o ≠ "")
  ∧ (∀ a who osch ohost, a ≠ "" → vouched s a who → plain_origin osch ohost →
       require_admin_write signing_key decode netloc_ok s (Some a) (Some (origin_text osch ohost))
       = if bool_decide (map lower osch = map lower sch ∧ ohost = host) then Ok who
         else Raise (HTTPException 403 ["Cross-origin write rejected"])).
Proof.
  intros Hs Hraw Hbase Hplain. destruct (started_complete _ _ _ Hs Hraw) as (He & Hreq & _). split; [done|].
  unfold require_admin_write, require_admin. rewrite !(bool_decide_true (environment s = Production)) by done. cbn [negb andb]. split.
  - intros assertion origin who Hok. apply result_bind_ok in Hok as (email & Ha & Ho). destruct assertion as [a|]; [|done].
    exists a. split; [done|]. destruct (bool_decide (a = "")); [done|].
    destruct (verified_email signing_key decode s a) as [e|] eqn:Ev; [|done]. injection Ha as ->. apply verified_vouched in Ev.
    destruct origin as [o|]; [|done]. destruct (bool_decide (o = "")) eqn:Eo; [done|]. apply bool_decide_eq_false in Eo.
    apply result_bind_ok in Ho as (u & _ & Ho). apply result_bind_ok in Ho as (v & _ & Ho). destruct (bool_decide _); [done|].
    injection Ho as ->. split; [done|]. by exists o.
  - intros a who osch ohost Ha Hv Ho. rewrite (bool_decide_false (a = "")) by done. rewrite (proj2 (verified_vouched s a who) Hv).
    cbn [mbind result_bind]. rewrite (bool_decide_false (origin_text osch ohost = "")).
    + rewrite Hbase, !urlparse_plain by done. cbn [mbind result_bind scheme netloc].
      destruct (decide (map lower osch = map lower sch ∧ ohost = host)) as [[-> ->]|Hne].
      * rewrite bool_decide_false by (intros Hn; by apply Hn). by rewrite bool_decide_true.
      * rewrite (bool_decide_true (_ ≠ _)) by (intros Heq; injection Heq as H1 H2; by apply Hne). by rewrite bool_decide_false.
    + destruct Ho as ((c & k & -> & _) & _). done.
Qed.
End Administrators.

Section Witness.
Definition demo_decode (assertion : string) (key : unit) (audience : string) : result (list (string * json)) :=
  if bool_decide (assertion = "signed" ∧ audience = "ivrdroid") then Ok [("email", JStr "owner@example.com")] else Raise (OtherException "InvalidSignatureError").
Definition production_raw : Settings :=
  {| environment := Production; public_base_url := "https://ivr.example/"; auto_create_schema := false; config_signing_private_key_b64 := " a2V5 ";
     data_encryption_key_b64 := "a2V5"; pairing_hmac_key_b64 := "a2V5"; recording_encryption_key_b64 := "a2V5"; cf_access_team_domain := "team.example";
     cf_access_audience := "ivrdroid"; cf_device_service_client_id := "id"; cf_device_service_client_secret := "secret"; owner_email := "owner@localhost" |}.

Lemma production_writes_authorised_witness :
  ∃ s, start_settings (λ _, []) production_raw = Ok s
  ∧ require_admin_write (λ _ _, Ok tt) demo_decode (λ _, true) s (Some "signed") (Some (origin_text (to_bytes "HTTPS") (to_bytes "ivr.example"))) = Ok "owner@example.com"
  ∧ require_admin_write (λ _ _, Ok tt) demo_decode (λ _, true) s (Some "signed") (Some (origin_text (to_bytes "https") (to_bytes "ivr.example:8443")))
    = Raise (HTTPException 403 ["Cross-origin write rejected"]).
Proof.
  destruct (start_settings (λ _, []) production_raw) as [s|] eqn:Hs; [|by vm_compute in Hs]. exists s. split; [done|].
  assert (Hbase : public_base_url s = origin_text (to_bytes "https") (to_bytes "ivr.example")) by (vm_compute in Hs; injection Hs as <-; vm_compute; reflexivity).
  assert (Haud : cf_access_audience s = "ivrdroid") by (vm_compute in Hs; injection Hs as <-; vm_compute; reflexivity).
  assert (Hplain : ∀ sch host, sch ∈ [to_bytes "https"; to_bytes "HTTPS"] → host ∈ [to_bytes "ivr.example"; to_bytes "ivr.example:8443"] → plain_origin sch host).
  { intros sch host Hsch Hhost. split; [|split].
    - apply elem_of_cons in Hsch as [->| ->%list_elem_of_singleton]; eexists _, _; split; reflexivity.
    - apply elem_of_cons in Hsch as [->| ->%list_elem_of_singleton]; repeat constructor.
    - apply elem_of_cons in Hhost as [->| ->%list_elem_of_singleton]; repeat constructor. }
  destruct (production_writes_authorised (λ _ _, Ok tt) demo_decode (λ _, true) (λ _, []) production_raw s _ _ Hs eq_refl Hbase) as (_ & _ & Hexact);
    [apply Hplain; apply list_elem_of_In; vm_compute; auto|].
  assert (Hv : vouched (λ _ _, Ok tt) demo_decode s "signed" "owner@example.com").
  { exists tt, [("email", JStr "owner@example.com")]. split; [done|]. rewrite Haud. split; [by vm_compute|by vm_compute]. }
  split; rewrite (Hexact "signed" "owner@example.com") by (done || (apply Hplain; apply list_elem_of_In; vm_compute; auto)); vm_compute; reflexivity.
Defined.
End Witness.
