(* ===== verification/Playback.v ===== *)
(** * Playing long recordings ([recording_service.py], [recording_api.py])

    Recordings of conversations and sessions are decrypted piece by piece into a private file,
    which the server sends and removes.  AES-GCM that takes its input in pieces is the [Cipher]
    interface of the cryptography library: all pieces together are one call of the other. *)
From Stdlib Require Import Ascii.
From stdpp Require Import base gmap sets strings numbers pretty list.
From S2P Require Import Prelude FlowTree Schemas LegacyGraph Json Crypto Documents Store Drafts Revisions V4Api Diff Devices Policies Calls Recordings Wave Script Storage Voicemail.

(** ** Pieces *)

Class StreamCipher `{Cryptography} := {
  gcm_state : Type;
  gcm_encryptor : bytes → bytes → bytes → gcm_state; (* key, nonce, associated data *)
  gcm_decryptor : bytes → bytes → bytes → bytes → gcm_state; (* and the tag *)
  gcm_update : gcm_state → bytes → gcm_state * bytes;
  gcm_seal : gcm_state → bytes * bytes; (* the last output and the tag *)
  gcm_open : gcm_state → option bytes; (* [None] for [InvalidTag] *)
}.

Section Pieces.
Context `{StreamCipher}.
(** The state and the output after some pieces *)
Fixpoint updates (st : gcm_state) (pieces : list bytes) : gcm_state * bytes :=
  match pieces with
  | [] => (st, [])
  | p :: l => let '(st, out) := gcm_update st p in let '(st, rest) := updates st l in (st, out ++ rest)
  end.
End Pieces.

(** Pieces make no difference. *)
Class StreamCipherLaws `{StreamCipher} : Prop := {
  gcm_encrypts key nonce aad pieces st out final tag :
    updates (gcm_encryptor key nonce aad) pieces = (st, out) → gcm_seal st = (final, tag) →
    out ++ final ++ tag = aes_gcm_encrypt key nonce (concat pieces) aad;
  gcm_decrypts key nonce aad tag pieces st out :
    updates (gcm_decryptor key nonce tag aad) pieces = (st, out) →
    ((λ final, out ++ final) <$> gcm_open st) = aes_gcm_decrypt key nonce (concat pieces ++ tag) aad;
}.

Definition PIECE : nat := Z.to_nat 1048576.
(** [while chunk := incoming.read(n)], with fuel for every byte *)
Fixpoint read_pieces (fuel n : nat) (l : bytes) : list bytes :=
  match fuel, l with
  | S fuel, _ :: _ => take n l :: read_pieces fuel n (drop n l)
  | _, _ => []
  end.
Definition pieces_of (l : bytes) : list bytes := read_pieces (length l) PIECE l.

Section Playback.
Context `{Cryptography} `{KeyDerivation} `{!StreamCipher} (c : recording_cipher).

Definition write_file (name : string) (content : bytes) : program unit :=
  act (λ m, Ok ((), with_root (<[name := PrivateFile content]> (root (on_disk m))) (on_disk m))).
Definition unlink_file (name : string) : program unit := act (λ m, Ok ((), unlink name (on_disk m))).

(** [encrypt_media_file]: what is in the destination, its size, and the digest of the source. *)
Definition encrypt_media_file (nonce : bytes) (id : string) (source : bytes) : result (bytes * Z * string) :=
  key ← recording_key c id (cipher_version c);
  version ← to_bytes_4 (cipher_version c);
  let '(st, out) := updates (gcm_encryptor key nonce (media_aad id (cipher_version c))) (pieces_of source) in
  let '(final, tag) := gcm_seal st in
  let content := MEDIA_MAGIC ++ version ++ nonce ++ out ++ final ++ tag in
  Ok (content, Z.of_nat (length content), sha256_hexdigest (concat (pieces_of source))).

(** The pieces as they are decrypted and written, with all the output so far *)
Fixpoint write_pieces (destination : string) (st : gcm_state) (out : bytes) (pieces : list bytes) : program (gcm_state * bytes) :=
  match pieces with
  | [] => Return (Ok (st, out))
  | p :: l =>
      let '(st, plain) := gcm_update st p in
      _ ← write_file destination (out ++ plain);
      write_pieces destination st (out ++ plain) l
  end.
(** [decrypt_media_file] of the content of a file: the key version, the size and the digest. *)
Definition decrypt_media_file (id : string) (payload : bytes) (destination : string) : program (Z * Z * string) :=
  let header := length MEDIA_MAGIC + 4 + 12 in
  if (length payload <? header + 16) || negb (starts_with MEDIA_MAGIC payload)
  then Return (Raise (RecordingError "Encrypted recording is malformed." 503))
  else
    let version := from_bytes (take 4 (drop (length MEDIA_MAGIC) payload)) in
    let nonce := take 12 (drop (length MEDIA_MAGIC + 4) payload) in
    let tag := drop (length payload - 16) payload in
    let ciphertext := take (length payload - header - 16) (drop header payload) in
    key ← lift (recording_key c id version);
    _ ← write_file destination [];
    streamed ← write_pieces destination (gcm_decryptor key nonce tag (media_aad id version)) [] (pieces_of ciphertext);
    let '(st, out) := streamed in
    match gcm_open st with
    | Some final =>
        _ ← write_file destination (out ++ final);
        Return (Ok (version, Z.of_nat (length (out ++ final)), sha256_hexdigest (out ++ final)))
    | None =>
        _ ← unlink_file destination;
        Return (Raise (RecordingError "Encrypted recording failed authentication." 503))
    end.

(** [materialize_media] *)
Definition materialize_media (id : string) (r : recording_row) (destination : string) : program Z :=
  if bool_decide (rec_status r ≠ Ready) || negb (truthy (media_storage_name (media_of r)))
  then Return (Raise (RecordingError "Recording audio is unavailable." 404))
  else
    payload ← look (λ m, name ← media_path r (on_disk m); require_safe_file name (on_disk m));
    if bool_decide (media_size_bytes (media_of r) ≠ Some (Z.of_nat (length payload)))
    then Return (Raise (RecordingError "Recording media size verification failed." 503))
    else
      found ← decrypt_media_file id payload destination;
      let '(version, size, digest) := found in
      if bool_decide (media_key_version (media_of r) ≠ Some version)
      then
        _ ← unlink_file destination;
        Return (Raise (RecordingError "Recording media key-version verification failed." 503))
      else if truthy (media_sha256 (media_of r)) && bool_decide (Some digest ≠ media_sha256 (media_of r))
      then
        _ ← unlink_file destination;
        Return (Raise (RecordingError "Recording media hash verification failed." 503))
      else Return (Ok size).

(** What [FileResponse] of the web framework sends of a file, for a Range header *)
Context (file_response : option string → bytes → audio_response).
(** [_audio_response]: recordings of conversations and sessions are sent from a private file, which
    is removed once it is sent; [temporary] is its random name. *)
Definition playback_name (temporary : string) : string := ".playback-" +:+ temporary +:+ ".mp3".
Definition play_file (id : string) (r : recording_row) (range : option string) (temporary : string) : program audio_response :=
  let name := playback_name temporary in
  _ ← write_file name [];
  _ ← catch (materialize_media id r name) (λ e, _ ← unlink_file name; Return (Raise e));
  content ← look (λ m, require_safe_file name (on_disk m));
  _ ← unlink_file name;
  Return (Ok (file_response range content)).
Definition audio_response_to (id : string) (range : option string) (temporary : string) : program audio_response :=
  s ← look (λ m, Ok (committed m));
  row ← lift (of_option not_found (recordings s !! id));
  if bool_decide (rec_status row = Deleted) then Return (Raise not_found)
  else if bool_decide (rec_status row ≠ Ready) then Return (Raise (HTTPException 409 ["Recording audio is not ready"]))
  else if bool_decide (kind (capture_of row) ∈ ["conversation"; "session_audit"]) then play_file id row range temporary
  else audio_response_of c id range.
(** [play_recording] and [download_recording], which differ in a header *)
Definition play_recording := audio_response_to.
Definition download_recording := audio_response_to.
End Playback.
