(* ===== verification/PlaybackCorrect.v ===== *)
(** * Playing long recordings, proved

    Encryption and decryption in pieces are those of the whole, and playing from a private file
    gives what [load_media] reads and leaves nothing behind. *)
From Stdlib Require Import Ascii.
From stdpp Require Import base gmap sets strings numbers pretty list.
From S2P Require Import Prelude FlowTree Schemas LegacyGraph Json Crypto Documents Store Drafts Revisions V4Api Diff Devices Policies Calls Recordings RecordingsFacts Wave Script Storage StorageFacts Voicemail VoicemailCorrect Playback.

Lemma read_pieces_concat fuel n l : 0 < n → length l ≤ fuel → concat (read_pieces fuel n l) = l.
Proof.
  intros Hn. revert l. induction fuel as [|fuel IH]; intros l Hl; [by destruct l; cbn in *; [|lia]|].
  destruct l as [|x l]; [done|]. cbn [read_pieces concat]. rewrite IH; [apply take_drop|].
  rewrite length_drop. cbn [length] in *. lia.
Qed.
Lemma pieces_concat l : concat (pieces_of l) = l.
Proof. unfold pieces_of. apply read_pieces_concat; [|done]. unfold PIECE. lia. Qed.

Section Correct.
Context `{Cryptography} `{KeyDerivation} `{!StreamCipher} `{!StreamCipherLaws} (c : recording_cipher).

(** Encryption in pieces is that of the whole. *)
Lemma encrypt_media_file_whole nonce id source :
  encrypt_media_file c nonce id source
  = (λ content, (content, Z.of_nat (length content), sha256_hexdigest source)) <$> encrypt_media nonce c id source.
Proof.
  unfold encrypt_media_file, encrypt_media, seal_with. destruct (recording_key c id (cipher_version c)) as [key|]; [|done]. cbn [mbind result_bind].
  destruct (to_bytes_4 (cipher_version c)) as [version|]; [|done]. cbn [mbind result_bind].
  destruct (updates _ _) as [st out] eqn:Eu. destruct (gcm_seal st) as [final tag] eqn:Es.
  rewrite (gcm_encrypts _ _ _ _ _ _ _ _ Eu Es), pieces_concat. done.
Qed.

(** ** Programs that touch one file *)

Section File.
Context (start : host) (name : string).
(** Nothing but the file [name] is other than at the start. *)
Definition framed (m : host) : Prop :=
  committed m = committed start ∧ upload_directories (on_disk m) = upload_directories (on_disk start)
  ∧ delete name (root (on_disk m)) = delete name (root (on_disk start)).
Definition holds_file (content : bytes) (m : host) : Prop := root (on_disk m) !! name = Some (PrivateFile content).

Lemma framed_other other m : framed m → other ≠ name → root (on_disk m) !! other = root (on_disk start) !! other.
Proof. intros (_ & _ & Hd) Hne. rewrite <- (lookup_delete_ne _ name other), Hd, lookup_delete_ne; done. Qed.
Lemma safe_write (Q : result unit → host → Prop) content m :
  framed m → (∀ m', framed m' → holds_file content m' → Q (Ok ()) m') → safe framed Q (write_file name content) m.
Proof.
  intros Hf HQ. assert (Hf' : framed (after (λ m, with_root (<[name := PrivateFile content]> (root (on_disk m))) (on_disk m)) m)).
  { destruct Hf as (Hc & Hu & Hr). split; [done|]. split; [done|]. cbn. by rewrite delete_insert_eq. }
  unfold write_file. apply safe_act; [done| |done]. intros [] d [= <-]. split; [exact Hf'|]. apply HQ; [exact Hf'|].
  unfold holds_file. cbn. by rewrite lookup_insert_eq.
Qed.
Lemma safe_unlink (Q : result unit → host → Prop) m :
  framed m → (∀ m', framed m' → root (on_disk m') !! name = None → Q (Ok ()) m') → safe framed Q (unlink_file name) m.
Proof.
  intros Hf HQ. assert (Hf' : framed (after (λ m, unlink name (on_disk m)) m)).
  { destruct Hf as (Hc & Hu & Hr). split; [done|]. split; [done|]. cbn. by rewrite delete_delete_eq. }
  unfold unlink_file. apply safe_act; [done| |done]. intros [] d [= <-]. split; [exact Hf'|]. apply HQ; [exact Hf'|].
  cbn. by rewrite lookup_delete_eq.
Qed.

Lemma safe_write_pieces st out pieces m st' o :
  updates st pieces = (st', o) → framed m → holds_file out m →
  safe framed (λ r m', r = Ok (st', out ++ o) ∧ framed m' ∧ holds_file (out ++ o) m') (write_pieces name st out pieces) m.
Proof.
  revert st out m st' o. induction pieces as [|p pieces IH]; intros st out m st' o Hu Hf Hh; cbn [updates write_pieces] in *.
  - injection Hu as -> <-. by rewrite app_nil_r.
  - destruct (gcm_update st p) as [st1 plain]. destruct (updates st1 pieces) as [st2 rest] eqn:E. injection Hu as <- <-.
    apply safe_bind, safe_write; [done|]. intros m' Hf' Hh'. rewrite app_assoc. by apply IH.
Qed.

Definition refusal (e : exn) : Prop := ∃ status text, e = RecordingError text status.
(** The end of a decryption into the file: its content, or a refusal. *)
Definition decrypts_to {A} (whole : result bytes) (summary : bytes → A) (r : result A) (m : host) : Prop :=
  framed m ∧ match whole with
             | Ok p => r = Ok (summary p) ∧ holds_file p m
             | Raise _ => ∃ e, r = Raise e ∧ refusal e
             end.

Lemma payload_split (payload : bytes) : length MEDIA_MAGIC + 4 + 12 + 16 ≤ length payload →
  let header := length MEDIA_MAGIC + 4 + 12 in
  take (length payload - header - 16) (drop header payload) ++ drop (length payload - 16) payload = drop header payload.
Proof.
  intros Hl header. rewrite <- (take_drop (length payload - header - 16) (drop header payload)) at 2. f_equal.
  rewrite drop_drop. f_equal. subst header. lia.
Qed.

Lemma safe_decrypt id payload m :
  framed m →
  safe framed (decrypts_to (decrypt_media c id payload) (λ p, (from_bytes (take 4 (drop (length MEDIA_MAGIC) payload)), Z.of_nat (length p), sha256_hexdigest p)))
    (decrypt_media_file c id payload name) m.
Proof.
  intros Hf. unfold decrypt_media_file, decrypt_media, open_with. cbv zeta.
  destruct ((length payload <? length MEDIA_MAGIC + 4 + 12 + 16) || negb (starts_with MEDIA_MAGIC payload)) eqn:Em.
  { split; [done|]. split; [done|]. eexists. split; [done|]. by eexists _, _. }
  apply orb_false_iff in Em as [Hlen%Nat.ltb_ge _].
  destruct (recording_key c id _) as [key|e] eqn:Ek; cbn [mbind result_bind].
  2: { split; [done|]. split; [done|]. exists e. split; [done|]. unfold recording_key in Ek.
       destruct (master_keys c !! _); [done|]. injection Ek as <-. by eexists _, _. }
  apply safe_bind. split; [done|]. apply safe_bind, safe_write; [done|]. intros m1 Hf1 Hh1. apply safe_bind.
  set (ciphertext := take _ (drop (length MEDIA_MAGIC + 4 + 12) payload)). set (tag := drop (length payload - 16) payload).
  set (version := from_bytes _). set (nonce := take 12 (drop (length MEDIA_MAGIC + 4) payload)).
  destruct (updates (gcm_decryptor key nonce tag (media_aad id version)) (pieces_of ciphertext)) as [st out] eqn:Eu.
  assert (Hwhole : aes_gcm_decrypt key (take 12 (drop 4 (drop (length MEDIA_MAGIC) payload))) (drop 16 (drop (length MEDIA_MAGIC) payload)) (media_aad id version)
                   = (λ final, out ++ final) <$> gcm_open st).
  { rewrite (gcm_decrypts _ _ _ _ _ _ _ Eu), pieces_concat. subst ciphertext tag nonce. rewrite payload_split by done.
    by rewrite !drop_drop. }
  rewrite Hwhole. eapply safe_mono; [done| |by apply (safe_write_pieces _ _ _ _ _ _ Eu)].
  intros r m2 _ (-> & Hf2 & _). cbn [app]. destruct (gcm_open st) as [final|]; cbn [fmap option_fmap option_map of_option].
  - apply safe_bind, safe_write; [done|]. intros m3 Hf3 Hh3. by repeat split; [apply Hf3..|].
  - apply safe_bind, safe_unlink; [done|]. intros m3 Hf3 _. split; [done|]. split; [done|]. eexists. split; [done|]. by eexists _, _.
Qed.

Lemma media_path_refusal r d e : media_path r d = Raise e → refusal e.
Proof.
  unfold media_path, require_safe_file. destruct (media_storage_name (media_of r)) as [n|]; [destruct (valid_media_name n)|].
  - destruct (root d !! n) as [[]|]; cbn; intros [= <-]; by eexists _, _.
  - intros [= <-]. by eexists _, _.
  - intros [= <-]. by eexists _, _.
Qed.
Lemma media_path_same r m : framed m → valid_media_name name = false → media_path r (on_disk m) = media_path r (on_disk start).
Proof.
  intros Hf Hn. unfold media_path, require_safe_file. destruct (media_storage_name (media_of r)) as [n|]; [|done].
  destruct (valid_media_name n) eqn:Ev; [|done]. rewrite (framed_other n m Hf); [done|]. intros ->. congruence.
Qed.
Lemma media_path_valid r d n : media_path r d = Ok n → valid_media_name n = true ∧ ∃ content, root d !! n = Some (PrivateFile content).
Proof.
  unfold media_path, require_safe_file. destruct (media_storage_name (media_of r)) as [n'|]; [|done].
  destruct (valid_media_name n') eqn:Ev; [|done]. destruct (root d !! n') as [[content|]|] eqn:E; cbn; try done. intros [= <-]. eauto.
Qed.

(** Materialising gives what [load_media] reads; the two check in another order. *)
Lemma safe_materialize id r m : framed m → valid_media_name name = false →
  safe framed (decrypts_to (load_media c id r (on_disk start)) (λ p, Z.of_nat (length p))) (materialize_media c id r name) m.
Proof.
  intros Hf Hname. unfold materialize_media, load_media.
  assert (Hrefused : ∀ text status m' (whole : result bytes), framed m' → (∃ e, whole = Raise e) →
            decrypts_to whole (λ p, Z.of_nat (length p)) (Raise (RecordingError text status)) m').
  { intros text status m' whole Hm' [e ->]. split; [done|]. eexists. split; [done|]. by eexists _, _. }
  destruct (bool_decide (rec_status r ≠ Ready) || negb (truthy (media_storage_name (media_of r)))) eqn:Eb; [by split; [|apply Hrefused; [|eexists]]|].
  apply safe_bind, safe_look; [done|]. rewrite (media_path_same r m Hf Hname).
  destruct (media_path r (on_disk start)) as [n|e] eqn:En; cbn [mbind result_bind].
  2: { split; [done|]. exists e. split; [done|]. by eapply media_path_refusal. }
  apply media_path_valid in En as (Hvalid & payload & Hfile). assert (Hne : n ≠ name) by (intros ->; congruence).
  unfold require_safe_file. rewrite (framed_other n m Hf Hne), Hfile. cbn [mbind result_bind].
  destruct (bool_decide (media_size_bytes (media_of r) ≠ Some (Z.of_nat (length payload)))); [by split; [|apply Hrefused; [|eexists]]|].
  apply safe_bind. eapply safe_mono; [done| |by apply (safe_decrypt id payload m Hf)].
  intros res m1 _ [Hf1 Hres].
  assert (Hversion : ∀ p, decrypt_media c id payload = Ok p → media_version payload = Ok (from_bytes (take 4 (drop (length MEDIA_MAGIC) payload)))).
  { intros p. unfold decrypt_media, open_with, media_version. destruct ((length payload <? length MEDIA_MAGIC + 4 + 12 + 16) || _) eqn:E; [done|]. intros _.
    apply orb_false_iff in E as [E1%Nat.ltb_ge E2]. rewrite E2, orb_false_r. by rewrite (proj2 (Nat.ltb_ge _ _)) by lia. }
  destruct (decrypt_media c id payload) as [p|e] eqn:Ep.
  - destruct Hres as [-> Hfilled]. rewrite (Hversion p eq_refl). cbn [mbind result_bind].
    set (version := from_bytes _).
    destruct (media_key_version (media_of r)) as [v|].
    + destruct (decide (version = v)) as [->|Hv].
      * rewrite (bool_decide_false (Some v ≠ Some v)) by auto. rewrite (bool_decide_false (v ≠ v)) by auto. cbn [mbind result_bind].
        destruct (truthy (media_sha256 (media_of r)) && bool_decide (Some (sha256_hexdigest p) ≠ media_sha256 (media_of r))).
        -- apply safe_bind, safe_unlink; [done|]. intros m2 Hf2 _. split; [done|]. apply Hrefused; [done|by eexists].
        -- split; [done|]. by split.
      * rewrite (bool_decide_true (Some v ≠ Some version)) by congruence. rewrite (bool_decide_true (version ≠ v)) by done. cbn [mbind result_bind].
        apply safe_bind, safe_unlink; [done|]. intros m2 Hf2 _. split; [done|]. apply Hrefused; [done|by eexists].
    + rewrite (bool_decide_true (None ≠ Some version)) by done.
      apply safe_bind, safe_unlink; [done|]. intros m2 Hf2 _. split; [done|]. apply Hrefused; [done|by eexists].
  - destruct Hres as (e' & -> & Hrefusal). split; [done|]. destruct (match media_key_version (media_of r) with Some _ => _ | None => _ end) as [[]|e2];
      cbn [mbind result_bind]; exists e'; done.
Qed.
End File.

(** C38 Playing a recording of a conversation or session sends what [load_media] reads from the
    store, as far as the range asks for it, and refuses when that fails; afterwards the disk and the
    rows are what they were, and wherever it is cut off, its private file is all that is left. *)
Theorem long_recording_played (file_response : option string → bytes → audio_response) id r range temporary start :
  let name := playback_name temporary in
  root (on_disk start) !! name = None →
  perform (play_file c file_response id r range temporary) start
  = (match load_media c id r (on_disk start) with
     | Ok p => Ok (file_response range p)
     | Raise _ => (perform (play_file c file_response id r range temporary) start).1
     end, start)
  ∧ (∀ e, load_media c id r (on_disk start) = Raise e → ∃ status text, (perform (play_file c file_response id r range temporary) start).1 = Raise (HTTPException status [text]))
  ∧ ∀ m, leaves (play_file c file_response id r range temporary) start m → framed start name m.
Proof.
  intros name Hfresh.
  assert (Hvalid : valid_media_name name = false).
  { destruct (valid_media_name name) eqn:E; [|done]. exfalso. apply (valid_not_dotted name E). apply dotted_app. }
  assert (Hstart : framed start name start) by done.
  assert (Hsafe : safe (framed start name)
    (λ res m, framed start name m ∧ root (on_disk m) !! name = None ∧
       match load_media c id r (on_disk start) with
       | Ok p => res = Ok (file_response range p)
       | Raise _ => ∃ status text, res = Raise (HTTPException status [text])
       end) (play_file c file_response id r range temporary) start).
  { unfold play_file. cbv zeta. fold name. apply safe_bind, safe_write; [done|]. intros m1 Hf1 _.
    apply safe_bind, safe_catch. eapply safe_mono; [done| |by apply (safe_materialize start name id r m1)].
    intros res m2 _ [Hf2 Hres]. destruct (load_media c id r (on_disk start)) as [p|e].
    - destruct Hres as [-> Hh]. apply safe_bind, safe_look; [done|]. unfold require_safe_file. rewrite Hh.
      apply safe_bind, safe_unlink; [done|]. intros m3 Hf3 Hnone. by repeat split; [apply Hf3..|].
    - destruct Hres as (e' & -> & status & text & ->). apply safe_bind, safe_unlink; [done|]. intros m3 Hf3 Hnone. split; [done|].
      split; [done|]. split; [done|]. by eexists _, _. }
  pose proof (safe_perform _ _ _ _ Hsafe) as (Hframed & Hnone & Hres). 
  assert (Hsame : (perform (play_file c file_response id r range temporary) start).2 = start).
  { destruct Hframed as (Hc & Hu & Hr). destruct (perform _ _) as [res [d s]]. cbn in *. destruct start as [d0 s0]. cbn in *. subst s. f_equal.
    destruct d as [dr du], d0 as [dr0 du0]. cbn in *. subst du. f_equal. by rewrite <- (delete_id dr name), Hr, delete_id. }
  split; [|split].
  - rewrite (surjective_pairing (perform _ _)). rewrite Hsame. f_equal. by destruct (load_media c id r (on_disk start)).
  - intros e He. by rewrite He in Hres.
  - intros m Hm. by eapply safe_leaves.
Qed.
End Correct.

(** ** A cipher that keeps its input until the end *)

Section Buffering.
Context `{Cryptography}.
Inductive buffered := Sealing (key nonce aad taken : bytes) | Opening (key nonce tag aad taken : bytes).
Definition take_in (b : buffered) (p : bytes) : buffered :=
  match b with
  | Sealing key nonce aad taken => Sealing key nonce aad (taken ++ p)
  | Opening key nonce tag aad taken => Opening key nonce tag aad (taken ++ p)
  end.
Definition buffering : StreamCipher := {|
  gcm_state := buffered;
  gcm_encryptor key nonce aad := Sealing key nonce aad [];
  gcm_decryptor key nonce tag aad := Opening key nonce tag aad [];
  gcm_update b p := (take_in b p, []);
  gcm_seal b := match b with
                | Sealing key nonce aad taken => let e := aes_gcm_encrypt key nonce taken aad in (take (length e - 16) e, drop (length e - 16) e)
                | Opening _ _ _ _ _ => ([], [])
                end;
  gcm_open b := match b with
                | Opening key nonce tag aad taken => aes_gcm_decrypt key nonce (taken ++ tag) aad
                | Sealing _ _ _ _ => None
                end |}.
Lemma buffering_updates b pieces : @updates _ buffering b pieces = (foldl take_in b pieces, []).
Proof. revert b. induction pieces as [|p pieces IH]; intros b; [done|]. cbn. by rewrite IH. Qed.
Lemma sealing_all key nonce aad taken pieces :
  foldl take_in (Sealing key nonce aad taken) pieces = Sealing key nonce aad (taken ++ concat pieces).
Proof. revert taken. induction pieces as [|p pieces IH]; intros taken; cbn; [by rewrite app_nil_r|]. by rewrite IH, app_assoc. Qed.
Lemma opening_all key nonce tag aad taken pieces :
  foldl take_in (Opening key nonce tag aad taken) pieces = Opening key nonce tag aad (taken ++ concat pieces).
Proof. revert taken. induction pieces as [|p pieces IH]; intros taken; cbn; [by rewrite app_nil_r|]. by rewrite IH, app_assoc. Qed.
Lemma buffering_laws : @StreamCipherLaws _ buffering.
Proof.
  split.
  - intros key nonce aad pieces st out final tag. rewrite buffering_updates. cbn. rewrite sealing_all. intros [= <- <-] [= <- <-]. cbn. by rewrite take_drop.
  - intros key nonce aad tag pieces st out. rewrite buffering_updates. cbn. rewrite opening_all. intros [= <- <-]. cbn.
    by destruct (aes_gcm_decrypt _ _ _ _).
Qed.
End Buffering.

Section Witness.
#[local] Existing Instances plain_suite Demo.derivation Demo.transcoder buffering buffering_laws.

(** A file response that does not look at the range *)
Definition whole_file (_ : option string) (content : bytes) : audio_response :=
  {| audio_status := 200; audio_content := content; content_range := None |}.
Lemma long_recording_played_witness :
  ∃ r, recordings (committed Demo.finished_state) !! "rec" = Some r
  ∧ root (on_disk Demo.finished_state) !! playback_name "x1" = None
  ∧ perform (play_file Demo.cipher whole_file "rec" r None "x1") Demo.finished_state
    = (Ok {| audio_status := 200; audio_content := to_bytes "ID3-demo"; content_range := None |}, Demo.finished_state).
Proof.
  assert (Hload : (λ r, load_media Demo.cipher "rec" r (on_disk Demo.finished_state)) <$> recordings (committed Demo.finished_state) !! "rec" = Some (Ok (to_bytes "ID3-demo")))
    by (vm_compute; reflexivity).
  assert (Hfresh : root (on_disk Demo.finished_state) !! playback_name "x1" = None) by (vm_compute; reflexivity).
  destruct (fmap_Some_1 _ _ _ Hload) as (r & Hr & Hl). cbv beta in Hl.
  pose proof (proj1 (long_recording_played Demo.cipher whole_file "rec" r None "x1" Demo.finished_state Hfresh)) as Hplayed.
  rewrite <- Hl in Hplayed. exists r. split; [exact Hr|]. split; [exact Hfresh|exact Hplayed].
Defined.
End Witness.
