(* ===== verification/Media.v ===== *)
(** * Prompt conversion ([media.py])

    What is accepted as a prompt: the kind of the file, its duration as [ffprobe] tells it, and the
    WAV file that [ffmpeg] makes of it.  Both programs are parameters: their output, nothing when
    they fail, or the exception of a time-out. *)
From Stdlib Require Import Ascii.
From stdpp Require Import base gmap sets strings numbers pretty list.
From S2P Require Import Prelude FlowTree Schemas LegacyGraph Json Crypto Documents Store Drafts Revisions V4Api Diff Devices Prompts Calls Recordings Wave Text.

Definition ALLOWED_SUFFIXES : list bytes := map to_bytes [".wav"; ".mp3"; ".ogg"].

(** [float] of what [ffprobe] prints, in microseconds: seconds with six decimals, or the text N/A *)
Definition seconds_text (l : bytes) : option Z :=
  let whole := take (length l - 7) l in
  match drop (length l - 7) l with
  | dot :: decimals =>
      if char_in 46 46 dot && digits whole && digits decimals && (1 <=? length whole) && (length decimals =? 6)
      then Some (read_digits (whole ++ decimals)) else None
  | [] => None
  end.

Section Conversion.
Context (ffprobe ffmpeg : bytes → result (option bytes)).

(** A [MediaError] is the text on the right. *)
Definition probe_duration (source : bytes) : result (Z + string) :=
  printed ← ffprobe source;
  Ok (match printed with
      | None => inr "Audio file could not be inspected."
      | Some text => match seconds_text (py_strip ascii_space text) with Some d => inl d | None => inr "Audio duration is unavailable." end
      end).

(** The format and the duration of the converted file, whose header [ffmpeg] completes *)
Definition inspect_prompt (file : bytes) : result (Z + string) :=
  let invalid := inr "Converted prompt is not a valid PCM WAV file." in
  if (length file <? 12) || bool_decide (take 4 file ≠ to_bytes "RIFF") || bool_decide (take 4 (drop 8 file) ≠ to_bytes "WAVE") then Ok invalid
  else
    match wave_open (drop 8 file) with
    | Ok (f, c) =>
        Ok (if bool_decide (nchannels f ≠ 2)%Z || bool_decide (framerate f ≠ 48000)%Z || bool_decide (sampwidth f ≠ 2)%Z
            then inr "Converted prompt did not match 48 kHz stereo PCM16." else inl (milliseconds (getnframes f c)))
    | Raise e => if bool_decide (e = EOFError) || bool_decide (e = wave_Error) then Ok invalid else Raise e
    end.

(** [transcode_prompt] of a file with a suffix *)
Definition transcode_prompt (suffix source : bytes) (limit : Z) : result (canonical_prompt + string) :=
  if bool_decide (suffix ∉ ALLOWED_SUFFIXES) then Ok (inr "Only WAV, MP3, and OGG prompt files are accepted.")
  else
    probed ← probe_duration source;
    match probed with
    | inr message => Ok (inr message)
    | inl duration =>
        if (duration <=? 0)%Z || (limit * 1000000 <? duration)%Z
        then Ok (inr ("Prompt duration must be between 0 and " +:+ pretty limit +:+ " seconds."))
        else
          converted ← ffmpeg source;
          match converted with
          | None => Ok (inr "Audio conversion failed.")
          | Some file =>
              inspected ← inspect_prompt file;
              Ok (match inspected with
                  | inl d => inl {| canonical_file := file; canonical_duration := d |}
                  | inr message => inr message
                  end)
          end
    end.

(** What is stored as a prompt was found to be stereo at 48 kHz. *)
Lemma transcoded_prompt suffix source limit c :
  transcode_prompt suffix source limit = Ok (inl c) →
  suffix ∈ ALLOWED_SUFFIXES ∧ ffmpeg source = Ok (Some (canonical_file c))
  ∧ ∃ f k, wave_open (drop 8 (canonical_file c)) = Ok (f, k) ∧ f = {| nchannels := 2; sampwidth := 2; framerate := 48000 |}
      ∧ canonical_duration c = milliseconds (getnframes f k).
Proof.
  unfold transcode_prompt. case_bool_decide as Hs; [done|]. intros (probed & _ & E)%result_bind_ok.
  destruct probed as [d|]; [|done]. destruct (_ || _); [done|]. apply result_bind_ok in E as ([file|] & Hf & E); [|done].
  apply result_bind_ok in E as ([ms|] & Hi & E); [|done]. injection E as <-. cbn [canonical_file canonical_duration].
  split; [by destruct (decide (suffix ∈ ALLOWED_SUFFIXES))|]. split; [done|].
  unfold inspect_prompt in Hi. destruct (_ || _); [done|]. destruct (wave_open _) as [[[n w r] k]|e]; [|by destruct (_ || _)].
  cbn [nchannels framerate sampwidth] in Hi. exists {| nchannels := n; sampwidth := w; framerate := r |}, k. split; [done|].
  destruct (decide (n = 2%Z)) as [->|]; [|by rewrite bool_decide_true in Hi].
  destruct (decide (r = 48000%Z)) as [->|]; [|by rewrite (bool_decide_true (r ≠ _)), orb_true_r in Hi].
  destruct (decide (w = 2%Z)) as [->|]; [|by rewrite (bool_decide_true (w ≠ _)), orb_true_r in Hi].
  split; [done|]. cbn in Hi. by injection Hi as <-.
Qed.
End Conversion.

Example quarter_past : seconds_text (to_bytes "15.250000") = Some 15250000%Z.
Proof. reflexivity. Qed.
