(* ===== verification/Admin.v ===== *)
(** * The administration interface of the server ([main.py])

    The archived interfaces of versions 1 and 2 with the two roll-backs they keep, the lists of
    revisions, prompts and devices, the upload of a prompt and the overview.  Rows that a query
    orders by a time come in the order of the table where the times are equal. *)
From Stdlib Require Import Ascii.
From stdpp Require Import base gmap sets strings numbers pretty sorting list.
From S2P Require Import Prelude FlowTree Schemas LegacyGraph Json Crypto Documents Store Drafts Revisions Validation V4Api Diff Devices Policies Prompts Calls Recordings Wave Script Storage Voicemail Text Auth Playback Media.

(** ** What is archived *)

Definition gone {A} (detail : string) : result A := Raise (HTTPException 410 [detail]).
Definition get_draft_v2 : result FlowDocument :=
  gone "Flow authoring V2 is archived and read-only. Use /api/admin/v4/draft.".
Definition put_draft_v2 (c : FlowDocument) : result FlowDocument :=
  gone "Flow authoring V2 is archived and read-only. Use /api/admin/v4/draft.".
Definition validate_draft_v2 (c : option FlowDocument) : result (bool * list string) :=
  gone "Flow validation V2 is archived. Use /api/admin/v4/draft/validate.".
Definition simulate_draft_v2 (c : FlowDocument) (events : list string) : result json :=
  gone "Flow simulation V2 is archived. Use /api/admin/v4/draft/simulate.".
Definition diff_draft_v2 (c : FlowDocument) (base : option Z) : result json :=
  gone "Flow diff V2 is archived. Use /api/admin/v4/draft/diff.".
Definition publish_draft_v2 : result Z :=
  gone "Flow publishing V2 is archived. Use /api/admin/v4/draft/publish.".
Definition get_draft : result DraftConfiguration :=
  gone "Flow authoring V1 is archived and read-only. Use /api/admin/v4/draft.".
Definition put_draft (c : DraftConfiguration) : result DraftConfiguration :=
  gone "Flow authoring V1 is archived and read-only. Use /api/admin/v4/draft.".
Definition validate_draft : result (bool * list string) :=
  gone "Flow authoring V1 is archived and read-only. Use /api/admin/v4/draft/validate.".
Definition publish_draft : result Z :=
  gone "Flow publishing V1 is archived and read-only. Use /api/admin/v4/draft/publish.".

(** ** Requests *)

(** The bounds that the models of the requests put on what the handlers see *)
Definition pairing_request_fields (name : string) : bool := str_length 1 120 name.
Definition enrollment_fields (e : enrollment) : bool :=
  forallb (char_in 48 57) (code e) && (length (code e) =? 8) && str_length 1 120 (device_name e) && str_length 1 80 (reported_app e)
  && str_length 1 80 (reported_helper e).
Definition sync_request_fields (app helper : string) (active : option Z) (status : DeviceStatus) : bool :=
  shorter 80 app && shorter 80 helper && option_all (λ n, (1 <=? n)%Z) active && status_fields status.
Definition simulation_request_fields (ver : version) (c : FlowDocument) (events : list string) : bool :=
  document_fields ver c && (length events <=? 64).
Definition diff_request_fields (ver : version) (c : FlowDocument) (base : option Z) : bool :=
  document_fields ver c && option_all (λ n, (1 <=? n)%Z) base.
Definition call_item_fields (item : string * list CallSubEvent) : bool :=
  str_length 8 80 item.1 && (length item.2 <=? 128) && forallb event_fields item.2.
Definition call_batch_fields (items : list (string * list CallSubEvent)) : bool :=
  (length items <=? 100) && forallb call_item_fields items.
Definition completion_fields (segment_count : Z) : bool := between 1 65536 segment_count.
Definition retention_request_fields (days : Z) : bool := between 1 365 days.

(** ** Orders *)

(** [order_by(k.desc())] and [order_by(k.asc())] *)
Section Orders.
Context {A : Type} (k : A → Z).
Definition descends (a b : A) : Prop := (k b <= k a)%Z.
#[global] Instance descends_dec : RelDecision descends.
Proof. intros a b. unfold descends. apply _. Defined.
Definition newest_first (l : list A) : list A := merge_sort descends l.
Definition ascends (a b : A) : Prop := (k a <= k b)%Z.
#[global] Instance ascends_dec : RelDecision ascends.
Proof. intros a b. unfold ascends. apply _. Defined.
Definition oldest_first (l : list A) : list A := merge_sort ascends l.
End Orders.

(** ** Revisions *)

(** [RevisionResponse] *)
Record revision_response := {
  shown_revision : Z; shown_schema : Z; shown_manifest_sha256 : string; shown_signature : bytes; shown_source : option Z;
  shown_published_at : datetime; shown_published_by : string }.
Definition revision_response_of (id : Z) (r : revision_row) : revision_response :=
  {| shown_revision := id; shown_schema := revision_schema_version r; shown_manifest_sha256 := manifest_sha256 r;
     shown_signature := signature_b64 r; shown_source := source_revision_id r; shown_published_at := published_at r;
     shown_published_by := published_by r |}.
Definition list_revisions (s : store) : list revision_response :=
  map (λ r, revision_response_of r.1 r.2) (newest_first fst (map_to_list (revisions s))).

(** [rollback_revision] and [activate_legacy_revision] make the tablets that are not revoked fetch
    a revision of version 2, or of version 1, as it is. *)
Definition affected_devices (s : store) : json := JInt (Z.of_nat (length (active_devices s))).
Definition rollback_revision (r : request) (id : Z) (s : store) : result (revision_response * store) :=
  source ← of_option (HTTPException 404 ["Revision not found"]) (revisions s !! id);
  if decide (revision_schema_version source ≠ 2%Z)
  then Raise (HTTPException 409 ["This endpoint accepts immutable V2 revisions only."])
  else
    Ok (revision_response_of id source,
        audit (actor r) "revision.legacy_rollback_activated" (revision_name id)
          (JObj [("schema_version", JInt 2); ("affected_devices", affected_devices s)])
          (with_devices (assign_revision id) s)).
Definition activate_legacy_revision (r : request) (id : Z) (s : store) : result (revision_response * store) :=
  source ← of_option (HTTPException 404 ["Revision not found"]) (revisions s !! id);
  if decide (revision_schema_version source ≠ 1%Z)
  then Raise (HTTPException 409 ["Emergency legacy activation accepts signed V1 revisions only."])
  else
    Ok (revision_response_of id source,
        audit (actor r) "revision.legacy_rollback_activated" (revision_name id)
          (JObj [("affected_devices", affected_devices s)]) (with_devices (assign_revision id) s)).

(** ** Devices *)

(** [_device_document], [DeviceResponse] *)
Record device_response := {
  shown_device : string; shown_name : string; shown_app : string; shown_helper : string; shown_desired : option Z;
  shown_active : option Z; shown_status : list (string * json); shown_seen : option datetime; shown_enrolled : datetime;
  shown_revoked : option datetime }.
Definition device_document (id : string) (d : device_row) : device_response :=
  {| shown_device := id; shown_name := display_name d; shown_app := app_version d; shown_helper := helper_version d;
     shown_desired := desired_revision_id d; shown_active := active_revision_id d; shown_status := device_status d;
     shown_seen := last_seen_at d; shown_enrolled := enrolled_at d; shown_revoked := revoked_at d |}.
Definition by_enrolment (s : store) : list (string * device_row) :=
  oldest_first (λ d : string * device_row, instant (enrolled_at d.2)) (map_to_list (devices s)).
Definition list_devices (s : store) : list device_response := map (λ d, device_document d.1 d.2) (by_enrolment s).

(** The notification of an acknowledged failure: [acknowledge_revision] after its commit *)
Definition activation_notice (revision_id : Z) (state : ack_state) (error : option string) : list notification :=
  match state with
  | failed =>
      let detail := if truthy error then default "" error else "The tablet rejected the assigned revision." in
      [{| event_key_of := "revision_activation_failed"; title := "Revision activation failed";
          message := "Revision " +:+ pretty revision_id +:+ " failed: " +:+ detail; click_path := "/settings"; tags := "x,ivrdroid";
          external_status := None; caller_masked := None |}]
  | _ => []
  end.
Definition acknowledge_and_tell (r : request) (id : string) (d : device_row) (revision_id : Z) (state : ack_state)
    (error : option string) (s : store) : result (list notification * store) :=
  s ← acknowledge_revision r id d revision_id state error s;
  Ok (activation_notice revision_id state error, s).

(** ** Prompts *)

(** [PromptResponse] *)
Record prompt_response := {
  shown_prompt : string; shown_prompt_name : string; shown_version : Z; shown_hash : string; shown_size : Z;
  shown_duration : Z; shown_created : datetime; used_by : list string; audio_url : string }.
Definition prompt_response_of (id : string) (p : prompt_row) (usage : list string) : prompt_response :=
  {| shown_prompt := id; shown_prompt_name := prompt_name p; shown_version := prompt_version p; shown_hash := content_hash p;
     shown_size := size_bytes p; shown_duration := duration_ms p; shown_created := prompt_created p; used_by := usage;
     audio_url := "/api/admin/v1/prompts/" +:+ id +:+ "/audio" |}.

(** [Path(filename or "").suffix.lower()]: the last part of the path, from its last dot *)
Fixpoint split_on (c : ascii) (l : bytes) : list bytes :=
  match l with
  | [] => [[]]
  | d :: l =>
      if bool_decide (d = c) then [] :: split_on c l
      else match split_on c l with p :: ps => (d :: p) :: ps | [] => [[d]] end
  end.
Definition file_suffix (filename : option string) : bytes :=
  match last (filter (λ p, p ≠ [] ∧ p ≠ ["."%char]) (split_on "/" (to_bytes (default "" filename)))) with
  | Some name =>
      match rpartition_at "." name with
      | (Some (_ :: _), (_ :: _) as extension) => map lower ("."%char :: extension)
      | _ => []
      end
  | None => []
  end.

Section Upload.
Context (ffprobe ffmpeg : bytes → result (option bytes)).
(** The parts of the upload on their way to the temporary file *)
Fixpoint spool_parts (limit : Z) (written : bytes) (pieces : list bytes) : result bytes :=
  match pieces with
  | [] => Ok written
  | p :: l =>
      if (limit <? Z.of_nat (length (written ++ p)))%Z then Raise (HTTPException 413 ["Prompt upload exceeds 25 MiB"])
      else spool_parts limit (written ++ p) l
  end.
(** [upload_prompt]; the temporary file is removed in any case, so it is left out of the media. *)
Definition upload_prompt (cfg : prompt_settings) (r : request) (id name : string) (filename : option string) (file : bytes)
    (seen s : server) : result prompt_response * server :=
  match spool_parts (prompt_upload_limit_bytes cfg) [] (pieces_of file) with
  | Raise e => (Raise e, s)
  | Ok source =>
      let '(imported, s) := import_prompt (transcode_prompt ffprobe ffmpeg (file_suffix filename)) cfg r id name (Some source) seen s in
      (match imported with Ok p => Ok (prompt_response_of id p []) | Raise e => Raise e end, s)
  end.

(** [main] of [manage.py]: the command import-prompt of a file on the server, and what it prints *)
Definition import_command (cfg : prompt_settings) (r : request) (id name : string) (path : string) (file : option bytes) (s : server)
    : result document * server :=
  let '(imported, s) := import_prompt (transcode_prompt ffprobe ffmpeg (file_suffix (Some path))) cfg r id name file s s in
  (match imported with
   | Ok p => Ok [("content_hash", JStr (content_hash p)); ("duration_ms", JInt (duration_ms p)); ("id", JStr id);
                 ("name", JStr (prompt_name p)); ("size_bytes", JInt (size_bytes p)); ("version", JInt (prompt_version p))]
   | Raise e => Raise e
   end, s).
End Upload.

(** [admin_prompt_audio]: the file and its name *)
Definition admin_prompt_audio (id : string) (s : server) : result (bytes * string) :=
  p ← of_option (HTTPException 404 ["Prompt not found"]) (prompts (db s) !! id);
  file ← of_option (HTTPException 503 ["Prompt media is unavailable"]) (media s !! storage_name p);
  Ok (file, prompt_name p +:+ ".wav").

Section Overview.
Context `{Cryptography} (key : bytes).

Definition list_prompts (s : store) : result (list prompt_response) :=
  usage ← combined_prompt_usage key s;
  Ok (map (λ p, prompt_response_of p.1 p.2 (default [] (usage !! p.1)))
        (newest_first (λ p : string * prompt_row, instant (prompt_created p.2)) (map_to_list (prompts s)))).

(** [_validation_errors] and [_validation_errors_v2] *)
Definition validation_errors_v1 (iterate : gset string → list string) (zoneinfo : string → zone_lookup) (limit : Z) (s : store) (c : DraftConfiguration) : result (list string) :=
  let rows := prompts_for_version_one c s in
  validate_configuration iterate zoneinfo c (list_to_set (prompt_id <$> rows)) (prompt_table size_bytes rows) limit.
Definition validation_errors_v2 (zoneinfo : string → zone_lookup) (limit : Z) (s : store) (c : FlowDocument) : result (list string) :=
  let rows := prompts_for_configuration c s in
  validate_configuration_v2 zoneinfo c (list_to_set (prompt_id <$> rows)) (prompt_table size_bytes rows) limit.

(** [RevisionDetail] of [revision_detail_v2] *)
Definition revision_detail_v2 (id : Z) (s : store) : result (revision_response * Z * option json * bool) :=
  revision ← of_option (HTTPException 404 ["Revision not found"]) (revisions s !! id);
  manifest ← load_manifest key revision;
  root ← get_member "flow" manifest;
  Ok (revision_response_of id revision, revision_schema_version revision, root,
      bool_decide (revision_schema_version revision ≠ 2%Z)).

(** [_overview_caller_policy] *)
Definition configuration_policy (c : configuration) : CallerPolicy :=
  match c with legacy_configuration c => legacy_policy c | flow_configuration c => caller_policy c end.
Definition overview_caller_policy (s : store) (device : option device_row) : result CallerPolicy :=
  match (d ← device; id ← active_revision_id d; revisions s !! id) with
  | Some revision =>
      manifest ← load_manifest key revision;
      policy ← get_item "caller_policy" manifest;
      load_policy policy
  | None =>
      match read_draft s V4_DRAFT_ID with
      | Some _ => caller_policy <$> load_draft_v4 key s
      | None => configuration_policy <$> current_configuration key s
      end
  end.

Definition count_recordings (statuses : list recording_status) (recs : list recording_row) : Z :=
  Z.of_nat (length (filter (λ r, rec_status r ∈ statuses) recs)).
Definition PENDING : list recording_status := [Uploading; Processing].
(** [overview] *)
Record overview_response := {
  overview_device : option device_response; overview_active : option Z; call_count : Z; recording_count : Z;
  pending_recording_count : Z; prompt_bytes : Z; prompt_quota : Z; overview_policy : CallerPolicy }.
Definition overview (cfg : prompt_settings) (s : store) (h : call_store) (d : recordings_db) : result overview_response :=
  let device := head (by_enrolment s) in
  policy ← overview_caller_policy s (snd <$> device);
  Ok {| overview_device := (λ p, device_document p.1 p.2) <$> device; overview_active := p ← device; active_revision_id p.2;
        call_count := Z.of_nat (size (call_records h)); recording_count := count_recordings [Ready] (map_to_list (recordings d)).*2;
        pending_recording_count := count_recordings PENDING (map_to_list (recordings d)).*2; prompt_bytes := used_bytes (prompts s);
        prompt_quota := prompt_quota_bytes cfg; overview_policy := policy |}.
End Overview.

(** ** Start *)

(** [lifespan], before the recordings are repaired: the drafts of versions 3 and 4 are there. *)
Definition start_drafts `{Cryptography} (key : bytes) (r : request) (s : store) : result store :=
  '(_, s) ← initialize_v3_draft key r s s;
  '(_, s) ← initialize_v4_draft key {| now := now r; nonce := λ n, nonce r (n + 1); uuid_hex := uuid_hex r; actor := actor r |} s s;
  Ok s.
