(* ===== verification/ControlPlane.v ===== *)
(** * The handlers of the control plane as one state machine

    Every handler that changes drafts, revisions, devices, pairing codes, prompts or the signed
    policies is a step of one relation on the server, with a clock that does not go back;
    requests take turns.  A step makes one of ten kinds of change, and the invariants and the
    facts about later states are proved on those. *)
From Stdlib Require Import Ascii.
From stdpp Require Import base gmap sets strings numbers pretty sorting list.
From S2P Require Import Prelude FlowTree Schemas Validation Compiler LegacyGraph Json Crypto Documents DocumentsFacts DocumentsStore Store Drafts DraftsCorrect Revisions V4Api V4ApiCorrect Diff V3Api Devices Policies Prompts DevicesFacts Calls Media Admin.

Definition empty_server : server :=
  {| db := empty_store; pairing_codes := ∅; enrollment_attempts := []; media := ∅;
     policies := {| audit_policies := ∅; audit_acknowledgements := ∅; safety_policies := ∅; safety_acknowledgements := ∅ |} |}.
(** The database of the server after a transaction of the database alone *)
Definition on_db (s : server) (d : store) : server := with_db (λ _, d) s.

(** ** Handlers *)

Section System.
Context `{CryptographyLaws} (key signing_key : bytes) (zoneinfo : string → zone_lookup) (limit : Z).
Context (server_offset : datetime → Z) (cfg : Devices.settings) (pcfg : prompt_settings).

(** Drafts and revisions, on the database alone.  Nonces have 12 bytes. *)
Inductive authoring (r : request) (d : store) : store → Prop :=
| start_step d' : start_drafts key r d = Ok d' → authoring r d d'
| get_v4_step c d' : get_draft_v4 key r d = Ok (c, d') → authoring r d d'
| put_v4_step c c' d' : put_draft_v4 key r c d = Ok (c', d') → authoring r d d'
| put_v3_step c c' d' : put_draft_v3 key r c d = Ok (c', d') → authoring r d d'
| publish_v4_step body id d' : length (nonce r 1) = 12 →
    publish_draft_v4 key signing_key zoneinfo limit r body d = Ok (id, d') → authoring r d d'
| publish_v3_step id d' : length (nonce r 1) = 12 →
    publish_draft_v3 key signing_key zoneinfo limit r d = Ok (id, d') → authoring r d d'
| rollback_v4_step old id d' : length (nonce r 1) = 12 →
    rollback_v4_revision key signing_key zoneinfo limit r old d = Ok (id, d') → authoring r d d'
| rollback_v3_step old id d' : length (nonce r 1) = 12 →
    rollback_v3_revision key signing_key zoneinfo limit r old d = Ok (id, d') → authoring r d d'
| activate_v4_step old id d' : activate_immutable_revision key r old d = Ok (id, d') → authoring r d d'
| activate_v3_step old id d' : activate_immutable_revision_v3 r old d = Ok (id, d') → authoring r d d'
| rollback_v2_step old shown d' : rollback_revision r old d = Ok (shown, d') → authoring r d d'
| activate_v1_step old shown d' : activate_legacy_revision r old d = Ok (shown, d') → authoring r d d'.

(** What a tablet with a valid credential sends *)
Inductive tablet_call (r : request) (i : string) (d : device_row) (s : server) : server → Prop :=
| sync_step app helper st resp s' : sync_device signing_key r i d app helper st s = Ok (resp, s') → tablet_call r i d s s'
| acknowledge_step rid st err d' : acknowledge_revision r i d rid st err (db s) = Ok d' → tablet_call r i d s (on_db s d')
| call_events_step calls h ids l d' h' :
    upload_call_events key server_offset (now r) i d calls (db s) h = Ok (ids, l, d', h') → tablet_call r i d s (on_db s d')
| events_step calls h ids l d' h' :
    upload_events key server_offset (policies s) (now r) i d calls (db s) h = Ok (ids, l, d', h') → tablet_call r i d s (on_db s d').

(** One request at a moment of the clock.  New rows get new identifiers and a new token has a new
    digest, as the unique columns demand.  A handler that raises and has committed nothing is no step. *)
Inductive step : Z → server → server → Prop :=
| code_step r w name s c s' : pairing_codes s !! new_uuid w = None →
    create_pairing_code cfg r w name s = Ok (c, s') → step (instant (now r)) s s'
| enroll_step r w ip body s : devices (db s) !! new_uuid w = None →
    (∀ i d, devices (db s) !! i = Some d → token_hash d ≠ digest_device_token (token_urlsafe w)) →
    step (instant (now r)) s (enroll_device cfg r w ip body s s).2
| revoke_step r i s d d' : revoke_device r i (db s) = Ok (d, d') → step (instant (now r)) s (on_db s d')
| tablet_step r header i d s s' : require_device header (db s) = Ok (i, d) → tablet_call r i d s s' → step (instant (now r)) s s'
| authoring_step r s d' : authoring r (db s) d' → step (instant (now r)) s (on_db s d')
| upload_step ffprobe ffmpeg r i name filename file s : prompts (db s) !! i = None →
    step (instant (now r)) s (upload_prompt ffprobe ffmpeg pcfg r i name filename file s s).2
| import_step ffprobe ffmpeg r i name path file s : prompts (db s) !! i = None →
    step (instant (now r)) s (import_command ffprobe ffmpeg pcfg r i name path file s).2
| delete_step r i s s' : delete_prompt key r i s = Ok s' → step (instant (now r)) s s'
| audit_settings_step r enabled quota s s' : save_audit_settings r enabled quota s = Ok s' → step (instant (now r)) s s'
| safety_settings_step r minutes s : step (instant (now r)) s (save_safety_settings r minutes s).

(** The states after a state, and the states after the start of an empty server *)
Inductive later (t0 : Z) (s0 : server) : Z → server → Prop :=
| later_now : later t0 s0 t0 s0
| later_wait t t' s : later t0 s0 t s → (t <= t')%Z → later t0 s0 t' s
| later_step t s s' : later t0 s0 t s → step t s s' → later t0 s0 t s'.
Definition reachable (t : Z) (s : server) : Prop := ∃ t0, later t0 empty_server t s.

Lemma later_trans t0 s0 t1 s1 t2 s2 : later t0 s0 t1 s1 → later t1 s1 t2 s2 → later t0 s0 t2 s2.
Proof using Type. intros H1. induction 1; eauto using later, later_wait, later_step. Qed.
Lemma reachable_later t s t' s' : reachable t s → later t s t' s' → reachable t' s'.
Proof using Type. intros [t0 Hr] Hl. exists t0. by eapply later_trans. Qed.

(** ** What a step changes *)

(** Everything but what is named stays. *)
Definition same_codes (s s' : server) : Prop := pairing_codes s' = pairing_codes s.
Definition same_prompts (s s' : server) : Prop := prompts (db s') = prompts (db s) ∧ media s' = media s.
Definition same_revisions (s s' : server) : Prop :=
  revisions (db s') = revisions (db s) ∧ next_revision (db s') = next_revision (db s).
Definition same_devices (s s' : server) : Prop := devices (db s') = devices (db s).

(** A code that can no longer be used: it was used, has expired or has too many failures. *)
Definition dead_code (t : Z) (p : pairing_row) : Prop :=
  used_at p ≠ None ∨ (expires_at p <= t)%Z ∨ (enrollment_max_failures cfg <= failures p)%Z.

(** A tablet's row after what it sent: it may now run the revision it was assigned. *)
Definition heard_from (d d' : device_row) : Prop :=
  token_hash d' = token_hash d ∧ revoked_at d' = revoked_at d ∧ desired_revision_id d' = desired_revision_id d ∧
  (active_revision_id d' = active_revision_id d ∨ active_revision_id d' = desired_revision_id d).

(** An enrolment with the code [pid]. *)
Definition enrols (t : Z) (s : server) (i : string) (d : device_row) (pid : string) (p p' : pairing_row) (s' : server) : Prop :=
  devices (db s) !! i = None ∧ active_devices (db s) = [] ∧ pairing_codes s !! pid = Some p ∧ ¬ dead_code t p ∧
  (∀ j e, devices (db s) !! j = Some e → token_hash e ≠ token_hash d) ∧
  revoked_at d = None ∧ desired_revision_id d = latest_revision_id (db s) ∧ active_revision_id d = None ∧
  used_at p' ≠ None ∧ code_digest p' = code_digest p ∧ failures p' = failures p ∧
  devices (db s') = <[i := d]> (devices (db s)) ∧ pairing_codes s' = <[pid := p']> (pairing_codes s).
(** An upload: the file is stored under its digest, which no other row has. *)
Definition imports (s : server) (i : string) (p : prompt_row) (file : bytes) (s' : server) : Prop :=
  prompts (db s) !! i = None ∧ prompt_id p = i ∧ content_hash p = sha256_hexdigest file ∧
  storage_name p = content_hash p +:+ ".wav" ∧ (∀ j q, prompts (db s) !! j = Some q → content_hash q ≠ content_hash p) ∧
  prompts (db s') = <[i := p]> (prompts (db s)) ∧ media s' = <[storage_name p := file]> (media s).

Inductive change (t : Z) (s s' : server) : Prop :=
| is_quiet : same_devices s s' → same_codes s s' → same_revisions s s' → same_prompts s s' → change t s s'
| is_code i p : pairing_codes s !! i = None → pairing_codes s' = <[i := p]> (pairing_codes s) → failures p = 0%Z →
    (∀ j q, pairing_codes s !! j = Some q → code_digest q ≠ code_digest p) →
    same_devices s s' → same_revisions s s' → same_prompts s s' → change t s s'
| is_failure i p : pairing_codes s !! i = Some p → dead_code t p →
    pairing_codes s' = <[i := set_failures (failures p + 1) p]> (pairing_codes s) →
    same_devices s s' → same_revisions s s' → same_prompts s s' → change t s s'
| is_enrolment i d pid p p' : enrols t s i d pid p p' s' → same_revisions s s' → same_prompts s s' → change t s s'
| is_heard i d d' : devices (db s) !! i = Some d → devices (db s') = <[i := d']> (devices (db s)) → heard_from d d' →
    same_codes s s' → same_revisions s s' → same_prompts s s' → change t s s'
| is_revocation r i d d' : revoke_device r i (db s) = Ok (d, d') → s' = on_db s d' → change t s s'
| is_publication : publishes key (db s) (db s') → same_codes s s' → media s' = media s → change t s s'
| is_assignment : assigns (db s) (db s') → same_codes s s' → media s' = media s → change t s s'
| is_import i p file : imports s i p file s' → same_devices s s' → same_codes s s' → same_revisions s s' → change t s s'
| is_deletion r i : delete_prompt key r i s = Ok s' → change t s s'.

Lemma authoring_change t r s d : authoring r (db s) d → change t s (on_db s d).
Proof using Type*.
  assert (Hu : untouched (db s) d → change t s (on_db s d)) by (intros (Hr & Hn & Hd & Hp); apply is_quiet; done).
  assert (Hp : publishes key (db s) d → change t s (on_db s d)) by (intros; apply is_publication; done).
  assert (Ha : assigns (db s) d → change t s (on_db s d)) by (intros; apply is_assignment; done).
  destruct 1 as [d E|c d E|c c' d E|c c' d E|body id d Hn E|id d Hn E|old id d Hn E|old id d Hn E|old id d E|old id d E|old sh d E|old sh d E].
  - apply Hu. unfold start_drafts in E. apply result_bind_ok in E as ([c d1] & E1%initialize_v3_untouched & E).
    apply result_bind_ok in E as ([c2 d2] & E2%initialize_v4_untouched & [= <-]). by eapply untouched_trans.
  - by eapply Hu, get_v4_untouched.
  - by eapply Hu, put_v4_untouched.
  - by eapply Hu, put_v3_untouched.
  - by eapply Hp, publish_v4_publishes.
  - by eapply Hp, publish_v3_publishes.
  - by eapply Hp, rollback_v4_publishes.
  - by eapply Hp, rollback_v3_publishes.
  - by eapply Ha, activate_v4_assigns.
  - by eapply Ha, activate_v3_assigns.
  - apply Ha. unfold rollback_revision in E. apply result_bind_ok in E as (row & Hrow%of_option_ok & E). case_decide; [done|].
    injection E as <- <-. exists old. by rewrite Hrow.
  - apply Ha. unfold activate_legacy_revision in E. apply result_bind_ok in E as (row & Hrow%of_option_ok & E). case_decide; [done|].
    injection E as <- <-. exists old. by rewrite Hrow.
Qed.

Lemma tablet_change t r i d s s' : devices (db s) !! i = Some d → tablet_call r i d s s' → change t s s'.
Proof using Type.
  intros Hd. destruct 1 as [app helper st resp s' E|rid st err d' E|calls h ids l d' h' E|calls h ids l d' h' E].
  - unfold sync_device in E. apply result_bind_ok in E as (p & _ & (p' & _ & [= <- <-])%result_bind_ok).
    eapply (is_heard _ _ _ i d); [done|reflexivity|repeat split; by left|done..].
  - unfold acknowledge_revision in E. apply result_bind_ok in E as (row & Hrow%of_option_ok & E). case_decide as Hdes; [done|].
    injection E as <-. assert (desired_revision_id d = Some rid) as Hw by (by destruct (decide (desired_revision_id d = Some rid))).
    eapply (is_heard _ _ _ i d); [done|reflexivity|repeat split|done..]. destruct st; cbn; auto.
  - unfold upload_call_events in E. apply result_bind_ok in E as ([l1 h1] & _ & [= <- <- <- <-]).
    eapply (is_heard _ _ _ i d); [done|reflexivity|repeat split; by left|done..].
  - unfold upload_events in E. apply result_bind_ok in E as ([l1 h1] & _ & [= <- <- <- <-]).
    eapply (is_heard _ _ _ i d); [done|reflexivity|repeat split; by left|done..].
Qed.

Lemma update_held i p f s : pairing_codes s !! i = Some p → update_pairing i f s = with_pairing i (f p) s.
Proof using Type. intros Hp. unfold update_pairing. by rewrite Hp. Qed.

Lemma valid_not_dead r p : valid_pairing cfg r p = true ↔ ¬ dead_code (instant (now r)) p.
Proof using Type.
  unfold valid_pairing, dead_code. rewrite !andb_true_iff, !bool_decide_eq_true. split; [intros [[? ?] ?] [?|[?|?]]; [done|lia..]|].
  intros Hn. destruct (used_at p) eqn:E; [exfalso; apply Hn; by left|]. split; [split; [done|]|].
  - destruct (decide (instant (now r) < expires_at p)%Z); [done|]. exfalso. apply Hn. right. left. lia.
  - destruct (decide (failures p < enrollment_max_failures cfg)%Z); [done|]. exfalso. apply Hn. right. right. lia.
Qed.

Lemma enroll_change r w ip body s : devices (db s) !! new_uuid w = None →
  (∀ i d, devices (db s) !! i = Some d → token_hash d ≠ digest_device_token (token_urlsafe w)) →
  change (instant (now r)) s (enroll_device cfg r w ip body s s).2.
Proof using Type.
  intros Hnew Htok. unfold enroll_device. case_decide; [by apply is_quiet|].
  destruct (digest_pairing_code _ _); [|by apply is_quiet].
  destruct (find_row _ _) as [[pid p]|] eqn:Ef; [|by apply is_quiet]. apply find_row_some in Ef as [Hp _].
  destruct (valid_pairing cfg r p) eqn:Hv.
  - apply valid_not_dead in Hv. destruct (active_devices (db s)) eqn:Ha; [|by apply is_quiet]. cbn [snd]. rewrite (update_held pid p) by done.
    eapply (is_enrolment _ _ _ (new_uuid w) (new_device r (token_urlsafe w) p body (db s)) pid p (mark_used (now r) p)); [|done..].
    split; [done|]. split; [done|]. split; [done|]. split; [done|]. done.
  - cbn [snd]. unfold record_failed_enrollment. rewrite (update_held pid p) by done.
    apply (is_failure _ _ _ pid p); [done| |done..]. destruct (decide (dead_code (instant (now r)) p)) as [|Hn]; [done|].
    apply valid_not_dead in Hn. congruence.
Qed.

Lemma prepared_row transcode r i name source s row file : prepare_import transcode pcfg r i name source s = Ok (row, file) →
  prompt_id row = i ∧ content_hash row = sha256_hexdigest file ∧ storage_name row = content_hash row +:+ ".wav" ∧
  ∀ j p, prompts (db s) !! j = Some p → content_hash p ≠ content_hash row.
Proof using Type.
  intros E. unfold prepare_import in E. repeat (case_match; [done|]).
  apply result_bind_ok in E as (bytes & _ & E). case_match; [done|].
  apply result_bind_ok in E as (converted & _ & E). apply result_bind_ok in E as (canonical & _ & E).
  destruct (find_row _ _) eqn:Ef; [done|]. case_match; [done|]. injection E as <- <-.
  split; [done|]. split; [done|]. split; [done|]. intros j p Hp Heq.
  pose proof (find_row_none _ _ Ef j p Hp) as Hf. apply bool_decide_eq_false in Hf. apply Hf, Heq.
Qed.

(** ** Invariants *)

(** Device rows: one active tablet; what a tablet is assigned or runs exists. *)
Definition active_at (d : store) (i : string) : Prop := ∃ row, devices d !! i = Some row ∧ revoked_at row = None.
Record devices_ok (d : store) : Prop := {
  one_active i j : active_at d i → active_at d j → i = j;
  assigned_exists i row rid : devices d !! i = Some row →
    desired_revision_id row = Some rid ∨ active_revision_id row = Some rid → is_Some (revisions d !! rid);
  revisions_fresh : fresh_revisions d;
}.

(** Pairing codes: no two rows have the same, *)
Definition codes_unique (s : server) : Prop := ∀ i j p q,
  pairing_codes s !! i = Some p → pairing_codes s !! j = Some q → code_digest p = code_digest q → i = j.
(** and one with failures can no longer be used. *)
Definition codes_ok (t : Z) (s : server) : Prop := ∀ i p, pairing_codes s !! i = Some p →
  (0 <= failures p)%Z ∧ ((0 < failures p)%Z → used_at p ≠ None ∨ (expires_at p <= t)%Z).

(** Prompts: every row has its file, of the digest it records; manifests list rows. *)
Record prompts_ok (s : server) : Prop := {
  own_id i p : prompts (db s) !! i = Some p → prompt_id p = i;
  own_file i p : prompts (db s) !! i = Some p → storage_name p = content_hash p +:+ ".wav" ∧
    ∃ f, media s !! storage_name p = Some f ∧ sha256_hexdigest f = content_hash p;
  unique_hash i j p q : prompts (db s) !! i = Some p → prompts (db s) !! j = Some q →
    content_hash p = content_hash q → i = j;
  retained rid row : revisions (db s) !! rid = Some row → lists_rows key (db s) row;
}.

(** *** Device rows *)

(** The active tablets are among those that were, and what is assigned is there. *)
Lemma devices_ok_from d d' : devices_ok d → fresh_revisions d' →
  (∀ i, active_at d' i → active_at d i) → (∀ rid, is_Some (revisions d !! rid) → is_Some (revisions d' !! rid)) →
  (∀ i row rid, devices d' !! i = Some row → desired_revision_id row = Some rid ∨ active_revision_id row = Some rid →
     is_Some (revisions d' !! rid)) → devices_ok d'.
Proof using Type. intros [Hone _ _] Hf Hact Hrev Hass. split; [|done|done]. intros i j Hi Hj. apply Hone; by apply Hact. Qed.

Lemma devices_ok_same d d' : devices d' = devices d → revisions d' = revisions d → next_revision d' = next_revision d →
  devices_ok d → devices_ok d'.
Proof using Type.
  intros Hd Hr Hn [Hone Hass Hf]. split.
  - intros i j (a & Ha & ?) (b & Hb & ?). rewrite Hd in Ha, Hb. apply Hone; by eexists.
  - intros i row rid. rewrite Hd, Hr. apply Hass.
  - intros i. rewrite Hr, Hn. apply Hf.
Qed.

Lemma updated_devices_ok d d' i row row' : devices_ok d → devices d !! i = Some row → devices d' = <[i := row']> (devices d) →
  (revoked_at row' = None → revoked_at row = None) →
  (∀ rid, desired_revision_id row' = Some rid ∨ active_revision_id row' = Some rid → is_Some (revisions d !! rid)) →
  revisions d' = revisions d → next_revision d' = next_revision d → devices_ok d'.
Proof using Type.
  intros Hok Hrow Hd Hr Hrid Hrev Hn. apply (devices_ok_from d); [done| | | |].
  - intros k. rewrite Hrev, Hn. apply (revisions_fresh _ Hok).
  - intros j (e & He & Hre). rewrite Hd in He. apply lookup_insert_Some in He as [[<- <-]|[_ He]]; [|by exists e].
    exists row. split; [done|by apply Hr].
  - by rewrite Hrev.
  - intros j e rid He. rewrite Hrev. rewrite Hd in He. apply lookup_insert_Some in He as [[<- <-]|[_ He]]; [by apply Hrid|].
    by apply (assigned_exists _ Hok j).
Qed.

Lemma reassigned_devices_ok d d' id : devices_ok d → devices d' = assign_revision id <$> devices d → is_Some (revisions d' !! id) →
  (∀ rid, is_Some (revisions d !! rid) → is_Some (revisions d' !! rid)) → fresh_revisions d' → devices_ok d'.
Proof using Type.
  intros Hok Hd Hid Hkeep Hf. apply (devices_ok_from d); [done|done| |done|].
  - intros j (e & He & Hre). rewrite Hd, lookup_fmap in He. destruct (devices d !! j) as [x|] eqn:Hx; [|done].
    injection He as <-. exists x. split; [done|]. unfold assign_revision in Hre. destruct (revoked_at x) eqn:E; congruence.
  - intros j e rid He Hrid. rewrite Hd, lookup_fmap in He. destruct (devices d !! j) as [x|] eqn:Hx; [|done].
    injection He as <-. unfold assign_revision in Hrid. destruct (revoked_at x).
    + apply Hkeep. by eapply (assigned_exists _ Hok).
    + cbn [desired_revision_id active_revision_id] in Hrid. destruct Hrid as [[= <-]|Ha]; [done|].
      apply Hkeep. eapply (assigned_exists _ Hok); [done|by right].
Qed.

Lemma active_devices_nil d : active_devices d = [] → ∀ i, ¬ active_at d i.
Proof using Type.
  intros Hn i (row & Hd & Hr). assert (Hin : row ∈ active_devices d).
  { unfold active_devices. apply list_elem_of_filter. split; [done|]. apply list_elem_of_fmap. exists (i, row).
    by rewrite elem_of_map_to_list. }
  rewrite Hn in Hin. by apply elem_of_nil in Hin.
Qed.

Lemma enrolled_devices_ok t s i d pid p p' s' : enrols t s i d pid p p' s' → same_revisions s s' →
  devices_ok (db s) → devices_ok (db s').
Proof using Type.
  intros (Hnew & Hnone & _ & _ & _ & Hr & Hdes & Hact & _ & _ & _ & Hdev & _) [Hrev Hnext] [Hone Hass Hf].
  pose proof (active_devices_nil _ Hnone) as Hno.
  assert (Hnow : ∀ j, active_at (db s') j → j = i).
  { intros j (e & He & Hre). rewrite Hdev in He. apply lookup_insert_Some in He as [[<- _]|[_ He]]; [done|].
    exfalso. apply (Hno j). by exists e. }
  split.
  - by intros j k ->%Hnow ->%Hnow.
  - intros j e rid He Hrid. rewrite Hdev in He. rewrite Hrev. apply lookup_insert_Some in He as [[_ <-]|[_ He]]; [|by eapply Hass].
    rewrite Hdes, Hact in Hrid. destruct Hrid as [Hl|]; [|done]. by apply latest_revision_spec in Hl as [? _].
  - intros k. rewrite Hrev, Hnext. apply Hf.
Qed.

Lemma change_devices_ok t s s' : change t s s' → devices_ok (db s) → devices_ok (db s').
Proof using Type.
  intros Hc Hok. destruct Hc as [Hd _ [Hr Hn] _|i p _ _ _ _ Hd [Hr Hn] _|i p _ _ _ Hd [Hr Hn] _|i d pid p p' He Hr _
    |i d d' Hd Hd' (_ & Hrv & Hdes & Hact) _ [Hr Hn] _|r i d d' E ->|(row & Hrev & Hnext & Hd & _) _ _
    |(id & Hid & Hr & Hn & Hd & _) _ _|i p file _ Hd _ [Hr Hn]|r i E].
  - by eapply devices_ok_same.
  - by eapply devices_ok_same.
  - by eapply devices_ok_same.
  - by eapply enrolled_devices_ok.
  - eapply updated_devices_ok; [done|done|exact Hd'|congruence| |done|done].
    intros rid Hrid. apply (assigned_exists _ Hok i d rid); [done|]. rewrite Hdes in Hrid. destruct Hact as [<-|Ha]; [done|]. rewrite Ha in Hrid. left. by destruct Hrid.
  - unfold revoke_device in E. apply result_bind_ok in E as (e & He%of_option_ok & E). injection E as <- <-.
    eapply (updated_devices_ok (db s)); [done|exact He|reflexivity|done| |done|done]. intros rid Hrid. by eapply (assigned_exists _ Hok).
  - apply (reassigned_devices_ok (db s) _ (next_revision (db s))); [done|done|by rewrite Hrev, decide_True| |].
    + intros rid Hs. rewrite Hrev. by case_decide.
    + intros rid. rewrite Hrev, Hnext. case_decide; [lia|]. intros Hs%(revisions_fresh _ Hok). lia.
  - apply (reassigned_devices_ok (db s) _ id); [done|done|by rewrite Hr|by rewrite Hr|]. intros rid. rewrite Hr, Hn. apply (revisions_fresh _ Hok).
  - by eapply devices_ok_same.
  - apply delete_ok in E as (p & _ & _ & _ & _ & Hr & Hd & Hn & _). by eapply devices_ok_same.
Qed.

(** A row stays and keeps its credential, a revoked one stays revoked, and a new one has a new credential. *)
Definition devices_kept (d d' : store) : Prop :=
  (∀ i row, devices d !! i = Some row → ∃ row', devices d' !! i = Some row' ∧ token_hash row' = token_hash row ∧
     (revoked_at row ≠ None → revoked_at row' ≠ None)) ∧
  ∀ i row', devices d !! i = None → devices d' !! i = Some row' → ∀ j row, devices d !! j = Some row → token_hash row ≠ token_hash row'.

Lemma devices_kept_same d d' : devices d' = devices d → devices_kept d d'.
Proof using Type. intros E. split; [intros i row Hi; exists row; by rewrite E|]. intros i row Hn. by rewrite E, Hn. Qed.
Lemma devices_kept_update d d' i row row' : devices d !! i = Some row → devices d' = <[i := row']> (devices d) →
  token_hash row' = token_hash row → (revoked_at row ≠ None → revoked_at row' ≠ None) → devices_kept d d'.
Proof using Type.
  intros Hi E Ht Hr. split.
  - intros j e He. rewrite E. destruct (decide (i = j)) as [<-|Hne]; [|exists e; by rewrite lookup_insert_ne].
    exists row'. rewrite lookup_insert_eq. by simplify_eq.
  - intros j e Hn. rewrite E. intros [[<- _]|[_ He]]%lookup_insert_Some; congruence.
Qed.
Lemma devices_kept_assign d d' id : devices d' = assign_revision id <$> devices d → devices_kept d d'.
Proof using Type.
  intros E. split.
  - intros j e He. exists (assign_revision id e). rewrite E, lookup_fmap, He. split; [done|].
    unfold assign_revision. destruct (revoked_at e) eqn:Er; (split; [done|]); congruence.
  - intros j e Hn. by rewrite E, lookup_fmap, Hn.
Qed.

Lemma change_devices_kept t s s' : change t s s' → devices_kept (db s) (db s').
Proof using Type.
  destruct 1 as [Hd _ _ _|i p _ _ _ _ Hd _ _|i p _ _ _ Hd _ _|i d pid p p' He _ _
    |i d d' Hd Hd' (Ht & Hr & _) _ _ _|r i d d' E ->|(row & _ & _ & Hd & _) _ _|(id & _ & _ & _ & Hd & _) _ _
    |i p file _ Hd _ _|r i E]; try by apply devices_kept_same.
  - destruct He as (Hnew & _ & _ & _ & Hfresh & _ & _ & _ & _ & _ & _ & Hdev & _). split.
    + intros j e Hj. exists e. rewrite Hdev, lookup_insert_ne by congruence. done.
    + intros j e Hn Hj k x Hk. rewrite Hdev in Hj. apply lookup_insert_Some in Hj as [[<- <-]|[_ Hj]]; [by eapply Hfresh|congruence].
  - eapply devices_kept_update; [done|exact Hd'|done|]. by rewrite Hr.
  - unfold revoke_device in E. apply result_bind_ok in E as (e & He%of_option_ok & E). injection E as <- <-.
    eapply devices_kept_update; [exact He|reflexivity|done|done].
  - by eapply devices_kept_assign.
  - by eapply devices_kept_assign.
  - apply delete_ok in E as (p & _ & _ & _ & _ & _ & Hd & _). by apply devices_kept_same.
Qed.

(** Only its revocation ends a credential. *)
Lemma change_revokes t s s' i row row' : change t s s' → devices (db s) !! i = Some row → revoked_at row = None →
  devices (db s') !! i = Some row' → revoked_at row' ≠ None →
  ∃ r d d', revoke_device r i (db s) = Ok (d, d') ∧ s' = on_db s d'.
Proof using Type.
  intros Hc Hi Hr Hi' Hr'. assert (Hsame : devices (db s') = devices (db s) → False) by (intros E; rewrite E, Hi in Hi'; congruence).
  assert (Hassign : ∀ id, devices (db s') = assign_revision id <$> devices (db s) → False).
  { intros id E. rewrite E, lookup_fmap, Hi in Hi'. cbn in Hi'. injection Hi' as <-. unfold assign_revision in Hr'. by rewrite Hr in Hr'. }
  destruct Hc as [Hd _ _ _|j p _ _ _ _ Hd _ _|j p _ _ _ Hd _ _|j d pid p p' He _ _
    |j d d' Hd Hd' (_ & Hrv & _) _ _ _|r j d d' E ->|(x & _ & _ & Hd & _) _ _|(id & _ & _ & _ & Hd & _) _ _
    |j p file _ Hd _ _|r j E]; try by destruct Hsame.
  - destruct He as (Hnew & _ & _ & _ & _ & _ & _ & _ & _ & _ & _ & Hdev & _).
    rewrite Hdev, lookup_insert_ne in Hi' by congruence. congruence.
  - rewrite Hd' in Hi'. apply lookup_insert_Some in Hi' as [[<- <-]|[_ Hi']]; congruence.
  - destruct (decide (j = i)) as [->|Hne]; [by exists r, d, d'|]. exfalso. unfold revoke_device in E.
    apply result_bind_ok in E as (e & _ & E). injection E as <- <-. cbn in Hi'. rewrite lookup_insert_ne in Hi' by done. congruence.
  - by destruct (Hassign _ Hd).
  - by destruct (Hassign _ Hd).
  - apply delete_ok in E as (p & _ & _ & _ & _ & _ & Hd & _). by destruct Hsame.
Qed.

(** *** Pairing codes *)

Lemma change_codes t s s' : change t s s' → same_codes s s' ∨
  (∃ i p, pairing_codes s !! i = None ∧ failures p = 0%Z ∧ (∀ j q, pairing_codes s !! j = Some q → code_digest q ≠ code_digest p) ∧
     pairing_codes s' = <[i := p]> (pairing_codes s)) ∨
  ∃ i p p', pairing_codes s !! i = Some p ∧ code_digest p' = code_digest p ∧ (used_at p ≠ None → used_at p' ≠ None) ∧
    (p' = set_failures (failures p + 1) p ∧ dead_code t p ∨ failures p' = failures p ∧ used_at p' ≠ None) ∧
    pairing_codes s' = <[i := p']> (pairing_codes s).
Proof using Type.
  destruct 1 as [_ Hc _ _|i p Hn Hc Hz Hu _ _ _|i p Hp Hdead Hc _ _ _|i d pid p p' He _ _
    |i d d' _ _ _ Hc _ _|r i d d' E ->|_ Hc _|_ Hc _|i p file _ _ Hc _|r i E]; try by left.
  - right. left. by exists i, p.
  - right. right. exists i, p, (set_failures (failures p + 1) p). repeat (split; [done|]). split; [by left|done].
  - right. right. destruct He as (_ & _ & Hp & _ & _ & _ & _ & _ & Hu & Hcd & Hf & _ & Hc). exists pid, p, p'.
    repeat (split; [done|]). split; [by right|done].
  - left. by apply delete_ok in E as (p & _ & _ & _ & _ & _ & _ & _ & Hc & _).
Qed.

Lemma change_codes_unique t s s' : change t s s' → codes_unique s → codes_unique s'.
Proof using Type.
  intros [Hc|[(k & p & Hn & _ & Hu & Hc)|(k & p & p' & Hp & Hcd & _ & _ & Hc)]]%change_codes Hok i j a b; rewrite Hc; [by apply Hok| |].
  - intros [[<- <-]|[_ Ha]]%lookup_insert_Some [[<- <-]|[_ Hb]]%lookup_insert_Some E; [done| | |by eapply Hok].
    + by destruct (Hu j b Hb).
    + by destruct (Hu i a Ha).
  - intros [[<- <-]|[_ Ha]]%lookup_insert_Some [[<- <-]|[_ Hb]]%lookup_insert_Some E; [done| | |by eapply Hok].
    + eapply Hok; [done|done|congruence].
    + eapply Hok; [done|done|congruence].
Qed.

Lemma change_codes_ok t s s' : (0 < enrollment_max_failures cfg)%Z → change t s s' → codes_ok t s → codes_ok t s'.
Proof using Type.
  intros Hmax [Hc|[(k & p & _ & Hz & _ & Hc)|(k & p & p' & Hp & _ & Hu & Hf & Hc)]]%change_codes Hok i q; rewrite Hc; [by apply Hok| |];
    intros [[<- <-]|[_ Hq]]%lookup_insert_Some; [lia|by eapply Hok| |by eapply Hok].
  destruct (Hok k p Hp) as [Hpos Hd]. destruct Hf as [[-> Hdead]|[-> Hnew]]; [|split; [done|by left]].
  cbn [set_failures failures used_at expires_at]. split; [lia|]. intros _.
  destruct Hdead as [?|[?|?]]; [by left|by right|]. apply Hd. lia.
Qed.

(** A used code stays used. *)
Definition used_code (digest : string) (s : server) : Prop :=
  ∃ i p, pairing_codes s !! i = Some p ∧ code_digest p = digest ∧ used_at p ≠ None.
Lemma change_used_code t s s' digest : change t s s' → used_code digest s → used_code digest s'.
Proof using Type.
  intros [Hc|[(k & p & Hn & _ & _ & Hc)|(k & p & p' & Hp & Hcd & Hu & _ & Hc)]]%change_codes (i & q & Hq & Hd & Hused).
  - exists i, q. by rewrite Hc.
  - exists i, q. rewrite Hc, lookup_insert_ne by congruence. done.
  - destruct (decide (k = i)) as [->|Hne].
    + exists i, p'. rewrite Hc, lookup_insert_eq. simplify_eq. auto.
    + exists i, q. rewrite Hc, lookup_insert_ne by done. done.
Qed.

(** *** Prompts *)

Lemma append_inj_suffix (a b c : string) : a +:+ c = b +:+ c → a = b.
Proof using Type.
  intros E. apply (f_equal String.list_ascii_of_string) in E. rewrite !list_ascii_app in E. apply app_inv_tail in E.
  apply (f_equal String.string_of_list_ascii) in E. by rewrite !String.string_of_list_ascii_of_string in E.
Qed.

(** The rows and files are the same and a new revision lists rows. *)
Lemma prompts_ok_same s s' : same_prompts s s' →
  (∀ rid row, revisions (db s') !! rid = Some row → revisions (db s) !! rid = Some row ∨ lists_rows key (db s) row) →
  prompts_ok s → prompts_ok s'.
Proof using Type.
  intros [Hp Hm] Hr [H1 H2 H3 H4]. split.
  - intros i p. rewrite Hp. apply H1.
  - intros i p. rewrite Hp, Hm. apply H2.
  - intros i j p q. rewrite Hp. apply H3.
  - intros rid row [Hrow%H4|Hrow]%Hr; (apply (lists_rows_mono key (db s)); [by rewrite Hp|done]).
Qed.

Lemma imports_prompts_ok s i p file s' : imports s i p file s' → same_revisions s s' → prompts_ok s → prompts_ok s'.
Proof using Type.
  intros (Hnew & Hid & Hhash & Hst & Hfresh & Hp & Hm) [Hr _] [H1 H2 H3 H4]. split.
  - intros j q. rewrite Hp. intros [[<- <-]|[_ Hq]]%lookup_insert_Some; [done|by apply H1].
  - intros j q. rewrite Hp, Hm. intros [[<- <-]|[_ Hq]]%lookup_insert_Some.
    + split; [done|]. exists file. by rewrite lookup_insert_eq.
    + destruct (H2 j q Hq) as (Hs & f & Hf & Hd). split; [done|]. exists f. rewrite lookup_insert_ne; [done|].
      rewrite Hst, Hs. intros Heq%append_inj_suffix. by apply (Hfresh j q).
  - intros j k a b. rewrite Hp. intros [[<- <-]|[_ Ha]]%lookup_insert_Some [[<- <-]|[_ Hb]]%lookup_insert_Some Heq; [done| | |by eapply H3].
    + by destruct (Hfresh k b Hb).
    + by destruct (Hfresh j a Ha).
  - intros rid row. rewrite Hr. intros Hrow%H4. apply (lists_rows_mono key (db s)); [|done]. intros j q Hq.
    rewrite Hp, lookup_insert_ne; [done|]. intros <-. by rewrite Hnew in Hq.
Qed.

Lemma delete_prompts_ok r i s s' : delete_prompt key r i s = Ok s' → prompts_ok s → prompts_ok s'.
Proof using Type.
  intros (p0 & Hp0 & Hkeep & Hp & Hm & Hr & _)%delete_ok [H1 H2 H3 H4].
  assert (Hold : ∀ j p, prompts (db s') !! j = Some p → j ≠ i ∧ prompts (db s) !! j = Some p).
  { intros j p. rewrite Hp. intros [Hne Hj]%lookup_delete_Some. split; [congruence|done]. }
  split.
  - intros j p [_ Hj]%Hold. by apply H1.
  - intros j p [Hne Hj]%Hold. destruct (H2 j p Hj) as (Hs & f & Hf & Hd). split; [done|]. exists f. rewrite Hm.
    rewrite lookup_delete_ne; [done|]. destruct (H2 i p0 Hp0) as (Hs0 & _). rewrite Hs, Hs0.
    intros Heq%append_inj_suffix. apply Hne. symmetry. by eapply H3.
  - intros j k p q [_ Hj]%Hold [_ Hk]%Hold. by eapply H3.
  - intros rid row. rewrite Hr. intros Hrow. pose proof (H4 rid row Hrow) as Hl.
    pose proof (retains_false key i row (Hkeep rid row Hrow) (db s) Hl) as Hnot.
    destruct Hl as (m & items & Hlm & Hli & Hall). exists m, items. split; [done|]. split; [done|].
    intros item Hin. destruct (Hall item Hin) as (j & p & Hj & Hid & Hgi & Hgh). exists j, p. split; [|done].
    rewrite Hp, lookup_delete_ne; [done|]. intros <-. by apply (Hnot m items item).
Qed.

Lemma change_prompts_ok t s s' : change t s s' → prompts_ok s → prompts_ok s'.
Proof using Type.
  intros Hc Hok. destruct Hc as [_ _ [Hr _] Hp|i p _ _ _ _ _ [Hr _] Hp|i p _ _ _ _ [Hr _] Hp|i d pid p p' _ [Hr _] Hp
    |i d d' _ _ _ _ [Hr _] Hp|r i d d' E ->|(row & Hrev & _ & _ & Hp & Hl) _ Hm|(id & _ & Hr & _ & _ & Hp) _ Hm|i p file Hi _ _ Hr|r i E];
    try (eapply prompts_ok_same; [exact Hp|intros rid row; rewrite Hr; by left|done]).
  - unfold revoke_device in E. apply result_bind_ok in E as (e & _ & E). injection E as <- <-.
    apply (prompts_ok_same s); [done|by left|done].
  - apply (prompts_ok_same s); [done| |done]. intros rid row'. rewrite Hrev. case_decide; [|by left]. intros [= <-]. right. by apply Hl, own_id.
  - apply (prompts_ok_same s); [done| |done]. intros rid row. rewrite Hr. by left.
  - by eapply imports_prompts_ok.
  - by eapply delete_prompts_ok.
Qed.

Lemma no_violation row s : prompts_ok s → storage_name row = content_hash row +:+ ".wav" →
  (∀ j p, prompts (db s) !! j = Some p → content_hash p ≠ content_hash row) → violates_unique row (prompts (db s)) = false.
Proof using Type.
  intros Hok Hs Hh. unfold violates_unique. apply not_true_iff_false. intros (q & Hin & Hq)%existsb_exists.
  apply list_elem_of_In, list_elem_of_fmap in Hin as ([j p] & -> & Hin). apply elem_of_map_to_list in Hin.
  apply orb_true_iff in Hq as [Hq|Hq]; apply bool_decide_eq_true in Hq; cbn [snd] in Hq; [by apply (Hh j p)|].
  destruct (own_file _ Hok j p Hin) as [Hsp _]. rewrite Hsp, Hs in Hq. apply append_inj_suffix in Hq. by apply (Hh j p).
Qed.

Lemma import_change transcode t r i name source s : prompts (db s) !! i = None → prompts_ok s →
  change t s (import_prompt transcode pcfg r i name source s s).2.
Proof using Type.
  intros Hnew Hok. unfold import_prompt. destruct (prepare_import _ _ _ _ _ _ _) as [[row file]|] eqn:E; [|by apply is_quiet].
  apply prepared_row in E as (Hid & Hhash & Hst & Hfresh). rewrite no_violation by done. cbn [snd].
  apply (is_import _ _ _ i row file); [|done..]. repeat (split; [done|]). done.
Qed.

(** ** The kinds of change are exhaustive *)

Lemma step_change t s s' : prompts_ok s → step t s s' → change t s s'.
Proof using Type*.
  intros Hok. destruct 1 as [r w name s c s' Hn E|r w ip body s Hn Ht|r i s d d' E|r header i d s s' Hd Hc|r s d' Ha
    |pr mp r i name fn file s Hn|pr mp r i name path file s Hn|r i s s' E|r b q s s' E|r n s].
  - unfold create_pairing_code in E. apply result_bind_ok in E as ([code digest] & Ea & [= <- <-]).
    eapply (is_code _ _ _ (new_uuid w)); [done|reflexivity|reflexivity| |done..].
    assert (Hfree : ∀ n k, allocate_code n k (pairing_hmac_key_b64 cfg) w s = Ok (code, digest) →
      find_row (λ p, bool_decide (code_digest p = digest)) (pairing_codes s) = None).
    { induction n as [|n IH]; intros k; cbn [allocate_code]; [done|]. intros (x & _ & E)%result_bind_ok.
      destruct (find_row (λ p, bool_decide (code_digest p = x)) (pairing_codes s)) eqn:Ef; [by eapply IH|]. injection E as _ <-. exact Ef. }
    intros j q Hq Hdig. pose proof (find_row_none _ _ (Hfree _ _ Ea) j q Hq) as Hf. by apply bool_decide_eq_false in Hf.
  - by apply enroll_change.
  - by eapply is_revocation.
  - eapply tablet_change; [|done]. unfold require_device in Hd. destruct header as [h|]; [|done].
    destruct (strip_prefix BEARER h) as [rest|]; [|done]. do 2 (case_match; [done|]).
    destruct (find_row _ _) as [[j e]|] eqn:Ef; [|done]. apply find_row_some in Ef as [He _].
    destruct (revoked_at e); [done|]. by injection Hd as <- <-.
  - by eapply authoring_change.
  - unfold upload_prompt. destruct (spool_parts _ _ _) as [source|]; [|by apply is_quiet].
    pose proof (import_change (transcode_prompt pr mp (file_suffix fn)) (instant (now r)) r i name (Some source) s Hn Hok) as Hi.
    destruct (import_prompt _ _ _ _ _ _ _) as [? s']. exact Hi.
  - unfold import_command. pose proof (import_change (transcode_prompt pr mp (file_suffix (Some path))) (instant (now r)) r i name file s Hn Hok) as Hi.
    destruct (import_prompt _ _ _ _ _ _ _) as [? s']. exact Hi.
  - by eapply is_deletion.
  - unfold save_audit_settings in E. case_match; [done|]. injection E as <-. by apply is_quiet.
  - unfold save_safety_settings. cbv zeta. destruct (match latest_version _ with Some _ => _ | None => _ end); by apply is_quiet.
Qed.

(** ** Reachable states *)

Record well_formed (s : server) : Prop :=
  { rows_ok : devices_ok (db s); codes_differ : codes_unique s; library_ok : prompts_ok s }.

Lemma empty_well_formed : well_formed empty_server.
Proof using Type.
  split; [split| |split]; cbn.
  - intros i j (d & Hd & _). destruct (lookup_empty_Some _ _ Hd).
  - intros i d rid Hd. destruct (lookup_empty_Some _ _ Hd).
  - intros i [row Hr]. destruct (lookup_empty_Some _ _ Hr).
  - intros i j p q Hp. destruct (lookup_empty_Some _ _ Hp).
  - intros i p Hp. destruct (lookup_empty_Some _ _ Hp).
  - intros i p Hp. destruct (lookup_empty_Some _ _ Hp).
  - intros i j p q Hp. destruct (lookup_empty_Some _ _ Hp).
  - intros i row Hr. destruct (lookup_empty_Some _ _ Hr).
Qed.
Lemma change_well_formed t s s' : change t s s' → well_formed s → well_formed s'.
Proof using Type.
  intros Hc [Hd Hu Hp]. split; [by eapply change_devices_ok|by eapply change_codes_unique|by eapply change_prompts_ok].
Qed.

(** What every change preserves, every later state of a well-formed one has. *)
Lemma later_keeps (P : server → Prop) t0 s0 t s : well_formed s0 → (∀ t s s', change t s s' → well_formed s → P s → P s') → P s0 →
  later t0 s0 t s → well_formed s ∧ P s.
Proof using Type*.
  intros Hwf Hstep HP. induction 1 as [|t t' s _ IH _|t s s' _ [IHw IHp] Hs]; [done|exact IH|].
  apply step_change in Hs; [|by apply library_ok]. split; [by eapply change_well_formed|by eapply Hstep].
Qed.
Lemma reachable_well_formed t s : reachable t s → well_formed s.
Proof using Type*.
  intros [t0 Hl]. apply (later_keeps (λ _, True) t0 empty_server t s); [apply empty_well_formed|done|done|done].
Qed.
Lemma reachable_codes_ok t s : (0 < enrollment_max_failures cfg)%Z → reachable t s → codes_ok t s.
Proof using Type*.
  intros Hmax [t0 Hl]. assert (Hpr : well_formed s) by (eapply reachable_well_formed; by exists t0).
  induction Hl as [|t t' s _ IH Ht|t s s' Hl IH Hs]; [intros i p Hp; destruct (lookup_empty_Some _ _ Hp)| |].
  - intros i p Hp. destruct (IH Hpr i p Hp) as [H1 H2]. split; [done|]. intros [?|?]%H2; [by left|right; lia].
  - assert (Hwf : well_formed s) by (eapply reachable_well_formed; by exists t0).
    eapply change_codes_ok; [done|by apply step_change; [apply library_ok|]|by apply IH].
Qed.

(** ** What later states keep *)

(** The tablet [i] alone has the credential of digest [h]. *)
Definition paired (h i : string) (s : server) : Prop :=
  (∃ row, devices (db s) !! i = Some row ∧ token_hash row = h) ∧
  ∀ j row, devices (db s) !! j = Some row → token_hash row = h → j = i.
Definition revoked (i : string) (s : server) : Prop := ∃ row, devices (db s) !! i = Some row ∧ revoked_at row ≠ None.

Lemma change_paired t s s' h i : change t s s' → paired h i s → paired h i s'.
Proof using Type.
  intros [Hkept Hnew]%change_devices_kept [(row & Hrow & Ht) Hone]. split.
  - destruct (Hkept i row Hrow) as (row' & Hrow' & Ht' & _). exists row'. by rewrite Ht'.
  - intros j e' He' Hh. destruct (devices (db s) !! j) as [e|] eqn:He.
    + destruct (Hkept j e He) as (e2 & He2 & Ht2 & _). apply (Hone j e He). rewrite <- Ht2. congruence.
    + exfalso. apply (Hnew j e' He He' i row Hrow). congruence.
Qed.
Lemma change_revoked t s s' i : change t s s' → revoked i s → revoked i s'.
Proof using Type.
  intros [Hkept _]%change_devices_kept (row & Hrow & Hr). destruct (Hkept i row Hrow) as (row' & Hrow' & _ & Hr').
  exists row'. split; [done|by apply Hr'].
Qed.
Lemma change_revision t s s' id : change t s s' → is_Some (revisions (db s) !! id) → is_Some (revisions (db s') !! id).
Proof using Type.
  intros Hc Hs. destruct Hc as [_ _ [Hr _] _|i p _ _ _ _ _ [Hr _] _|i p _ _ _ _ [Hr _] _|i d pid p p' _ [Hr _] _
    |i d d' _ _ _ _ [Hr _] _|r i d d' E ->|(row & Hr & _) _ _|(i & _ & Hr & _) _ _|i p file _ _ _ [Hr _]|r i E]; try by rewrite Hr.
  - unfold revoke_device in E. apply result_bind_ok in E as (e & _ & E). by injection E as <- <-.
  - rewrite Hr. by case_decide.
  - apply delete_ok in E as (p & _ & _ & _ & _ & Hr & _). by rewrite Hr.
Qed.

Lemma later_paired t0 s0 t s h i : well_formed s0 → later t0 s0 t s → paired h i s0 → paired h i s.
Proof using Type*. intros Hw Hl Hp. eapply (later_keeps (paired h i)); [done| |done|done]. intros; by eapply change_paired. Qed.
Lemma later_revoked t0 s0 t s i : well_formed s0 → later t0 s0 t s → revoked i s0 → revoked i s.
Proof using Type*. intros Hw Hl Hp. eapply (later_keeps (revoked i)); [done| |done|done]. intros; by eapply change_revoked. Qed.
Lemma later_used_code t0 s0 t s c : well_formed s0 → later t0 s0 t s → used_code c s0 → used_code c s.
Proof using Type*. intros Hw Hl Hp. eapply (later_keeps (used_code c)); [done| |done|done]. intros; by eapply change_used_code. Qed.
Lemma later_revision t0 s0 t s id : well_formed s0 → later t0 s0 t s → is_Some (revisions (db s0) !! id) → is_Some (revisions (db s) !! id).
Proof using Type*.
  intros Hw Hl Hp. eapply (later_keeps (λ s, is_Some (revisions (db s) !! id))); [done| |done|done]. intros; by eapply change_revision.
Qed.
End System.
