(* ===== verification/DevicesCorrect.v ===== *)
(** * Properties of tablets, prompt files and publications over time

    The theorems are about every state that the handlers of the control plane reach when
    requests take turns ([ControlPlane]): at most one tablet is active and what it is assigned
    exists; every prompt of what it is assigned can be downloaded; a credential lasts until its
    revocation; a review authorises one publication.  Requests that overlap are not covered by
    the checks the code makes: counterexamples show what they can do. *)
From Stdlib Require Import Ascii.
From stdpp Require Import base gmap sets strings numbers pretty sorting list.
From S2P Require Import Prelude FlowTree Schemas Validation Compiler LegacyGraph Json Crypto Documents DocumentsFacts DocumentsStore Store Drafts DraftsCorrect Revisions V4Api V4ApiCorrect Diff Devices Policies Prompts DevicesFacts Media Admin ControlPlane Examples.

(** ** Downloads *)

Section Downloads.
Context `{CryptographyLaws} (key : bytes).

Lemma hashes_of_rows s rid row : revisions s !! rid = Some row → lists_rows key s row →
  ∃ l, manifest_hashes key s rid = Ok l ∧
    ∀ m items item h, load_manifest key row = Ok m → member_list "prompts" m = Ok items → item ∈ items →
      get_item "content_hash" item = Ok (JStr h) → JStr h ∈ l.
Proof using Type.
  intros Hrow (m & items & Hm & Hi & Hall). unfold manifest_hashes. rewrite Hrow, Hm. cbn [mbind result_bind].
  rewrite Hi. cbn [mbind result_bind].
  destruct (mapM_result_total (λ item, hash ← get_item "content_hash" item; hashable hash) items) as [l Hl].
  { intros item (j & p & _ & _ & _ & Hh)%Hall. rewrite Hh. by eexists. }
  exists l. split; [done|]. intros m' items' item h Hm' Hi' Hin Hh. injection Hm' as <-.
  rewrite Hi in Hi'. injection Hi' as <-. apply mapM_result_ok in Hl.
  apply list_elem_of_lookup in Hin as [n Hn]. destruct (Forall2_lookup_l _ _ _ _ _ Hl Hn) as (y & Hy & Hv).
  rewrite Hh in Hv. injection Hv as <-. by eapply list_elem_of_lookup_2.
Qed.

Lemma download s i d rid row m items item p : devices_ok (db s) → prompts_ok key s → devices (db s) !! i = Some d →
  desired_revision_id d = Some rid ∨ active_revision_id d = Some rid → revisions (db s) !! rid = Some row →
  load_manifest key row = Ok m → member_list "prompts" m = Ok items → item ∈ items →
  prompts (db s) !! prompt_id p = Some p → get_item "content_hash" item = Ok (JStr (content_hash p)) →
  ∃ file, device_prompt key d (content_hash p) s = Ok file ∧ sha256_hexdigest file = content_hash p.
Proof using Type.
  intros Hd Hp Hdev Hrid Hrow Hm Hi Hin Hprompt Hh.
  destruct (own_file _ _ Hp _ _ Hprompt) as (Hst & file & Hfile & Hdigest). exists file. split; [|done].
  unfold device_prompt. rewrite <- Hdigest, sha256_is_hash, Hdigest. cbn [negb].
  set (ids := dict_fromkeys _).
  assert (Hids : ∀ k, k ∈ ids → ∃ row, revisions (db s) !! k = Some row).
  { intros k Hk. subst ids. rewrite elem_of_dict_fromkeys, elem_of_app in Hk. apply (assigned_exists _ Hd i d k); [done|].
    destruct Hk as [Hk|Hk]; [left; destruct (desired_revision_id d)|right; destruct (active_revision_id d)]; cbn in Hk;
      first [by apply elem_of_nil in Hk | apply list_elem_of_singleton in Hk; by subst]. }
  destruct (mapM_result_total (manifest_hashes key (db s)) ids) as [allowed Hall].
  { intros k (rw & Hk)%Hids. destruct (hashes_of_rows (db s) k rw Hk (retained _ _ Hp k rw Hk)) as (l & Hl & _). by exists l. }
  rewrite Hall. cbn [mbind result_bind].
  assert (Hmem : JStr (content_hash p) ∈ concat allowed).
  { destruct (hashes_of_rows (db s) rid row Hrow (retained _ _ Hp rid row Hrow)) as (l & Hl & Hel).
    apply mapM_result_ok in Hall. assert (Hk : rid ∈ ids).
    { subst ids. apply elem_of_dict_fromkeys, elem_of_app. destruct Hrid as [->| ->]; [left|right]; by left. }
    apply list_elem_of_lookup in Hk as [n Hn]. destruct (Forall2_lookup_l _ _ _ _ _ Hall Hn) as (y & Hy & Hv).
    rewrite Hl in Hv. injection Hv as <-. apply list_elem_of_In, in_concat. exists l. split; [|apply list_elem_of_In; by eapply Hel]. apply list_elem_of_In.
    by eapply list_elem_of_lookup_2. }
  assert (existsb (λ j, match j with JStr h => bool_decide (h = content_hash p) | _ => false end) (concat allowed) = true) as ->.
  { apply existsb_exists. exists (JStr (content_hash p)). split; [by apply list_elem_of_In|by apply bool_decide_eq_true]. }
  rewrite (find_row_unique _ _ (prompt_id p) p Hprompt); [|by apply bool_decide_eq_true|].
  - cbn [of_option mbind result_bind]. by rewrite Hfile.
  - intros j q Hq Hhash%bool_decide_eq_true. eapply (unique_hash _ _ Hp); [done|done|done].
Qed.
End Downloads.

(** ** Credentials *)

(** The alphabet of [secrets.token_urlsafe]. *)
Definition urlsafe (c : ascii) : bool := char_in 48 57 c || char_in 65 90 c || char_in 97 122 c || char_in 45 45 c || char_in 95 95 c.

Lemma char_in_bounds lo hi c : char_in lo hi c = true ↔ lo ≤ nat_of_ascii c ≤ hi.
Proof. unfold char_in. rewrite andb_true_iff, !Nat.leb_le. done. Qed.

Lemma urlsafe_plain c : urlsafe c = true → latin1_space c = false ∧ char_in 0 127 c = true.
Proof.
  unfold urlsafe, latin1_space, ascii_space. rewrite <- not_true_iff_false, !orb_true_iff, !char_in_bounds. lia.
Qed.

Lemma strip_urlsafe l : forallb urlsafe l = true → py_strip latin1_space l = l.
Proof.
  assert (Hl : ∀ l, forallb urlsafe l = true → lstrip latin1_space l = l).
  { intros [|c k]; [done|]. cbn [forallb lstrip]. intros [[-> _]%urlsafe_plain _]%andb_true_iff. done. }
  intros Hu. unfold py_strip. rewrite (Hl l) by done. rewrite Hl; [apply reverse_involutive|].
  apply forallb_forall. intros c Hc. apply (proj1 (forallb_forall _ _) Hu).
  by rewrite <- list_elem_of_In, elem_of_reverse, list_elem_of_In in Hc.
Qed.

Lemma require_token token s : forallb urlsafe token = true → 32 ≤ length token ≤ 256 →
  require_device (Some (BEARER +:+ of_bytes token)) s =
    match find_row (λ d, bool_decide (token_hash d = digest_device_token token)) (devices s) with
    | Some (id, d) =>
        match revoked_at d with None => Ok (id, d) | Some _ => Raise (HTTPException 401 ["Device credential revoked"]) end
    | None => Raise (HTTPException 401 ["Device credential revoked"])
    end.
Proof.
  intros Hu Hlen. unfold require_device. rewrite strip_prefix_app. unfold of_bytes.
  rewrite String.list_ascii_of_string_of_list_ascii, strip_urlsafe by done.
  rewrite (proj2 (Nat.ltb_ge _ _)), (proj2 (Nat.ltb_ge _ _)) by lia. cbn [orb].
  assert (is_ascii token = true) as ->; [|done].
  apply forallb_forall. intros c Hc. apply urlsafe_plain. by apply (proj1 (forallb_forall _ _) Hu).
Qed.
(** The header of a token *)
Definition bearer (token : bytes) : option string := Some (BEARER +:+ of_bytes token).
Definition credential_revoked : exn := HTTPException 401 ["Device credential revoked"].

Lemma paired_accepted token i s : forallb urlsafe token = true → 32 ≤ length token ≤ 256 →
  paired (digest_device_token token) i s → ∃ d, devices (db s) !! i = Some d ∧
  require_device (bearer token) (db s) = match revoked_at d with None => Ok (i, d) | Some _ => Raise credential_revoked end.
Proof.
  intros Hu Hlen [(d & Hd & Ht) Hone]. exists d. split; [done|]. unfold bearer. rewrite require_token by done.
  rewrite (find_row_unique _ _ i d Hd); [done|by apply bool_decide_eq_true|].
  intros j e He Hj%bool_decide_eq_true. by apply (Hone j e).
Qed.

Lemma enroll_ok cfg r w ip body s id token s' : enroll_device cfg r w ip body s s = (Ok (id, token), s') →
  id = new_uuid w ∧ token = token_urlsafe w ∧ ∃ digest pid p,
    digest_pairing_code (code body) (pairing_hmac_key_b64 cfg) = Ok digest ∧ pairing_codes s !! pid = Some p ∧
    code_digest p = digest ∧ valid_pairing cfg r p = true ∧ active_devices (db s) = [] ∧
    pairing_codes s' = <[pid := mark_used (now r) p]> (pairing_codes s) ∧
    devices (db s') = <[id := new_device r token p body (db s)]> (devices (db s)) ∧ revisions (db s') = revisions (db s).
Proof.
  unfold enroll_device. case_decide; [done|]. destruct (digest_pairing_code _ _) as [digest|]; [|done].
  destruct (find_row _ _) as [[pid p]|] eqn:Ef; [|done]. apply find_row_some in Ef as [Hp Hd%bool_decide_eq_true].
  destruct (valid_pairing cfg r p) eqn:Hv; [|done]. destruct (active_devices (db s)) eqn:Ha; [|done].
  rewrite (update_held pid p) by done. intros [= <- <- <-]. split; [done|]. split; [done|]. exists digest, pid, p. done.
Qed.

(** A code that was used is refused, whether or not a tablet is active. *)
Definition enrolment_refused (e : exn) : Prop :=
  e = HTTPException 401 ["Pairing code is invalid or expired"] ∨ e = HTTPException 429 ["Too many enrollment attempts"].
Lemma used_code_refused cfg r w ip body s digest : digest_pairing_code (code body) (pairing_hmac_key_b64 cfg) = Ok digest →
  codes_unique s → used_code digest s → ∃ e, (enroll_device cfg r w ip body s s).1 = Raise e ∧ enrolment_refused e.
Proof.
  intros Hd Hu (i & p & Hp & Hdig & Hused). unfold enroll_device. case_decide; [eexists; split; [done|by right]|]. rewrite Hd.
  rewrite (find_row_unique _ _ i p Hp); [|by apply bool_decide_eq_true|].
  - unfold valid_pairing. rewrite bool_decide_false by done. eexists. split; [done|by left].
  - intros j q Hq Hj%bool_decide_eq_true. eapply Hu; [done|done|congruence].
Qed.

(** ** Theorems *)

Section Theorems.
Context `{CryptographyLaws} (key signing_key : bytes) (zoneinfo : string → zone_lookup) (limit : Z).
Context (server_offset : datetime → Z) (cfg : Devices.settings) (pcfg : prompt_settings).

Abbreviation reachable_state := (reachable key signing_key zoneinfo limit server_offset cfg pcfg).
Abbreviation later_state := (later key signing_key zoneinfo limit server_offset cfg pcfg).
Abbreviation next_state := (step key signing_key zoneinfo limit server_offset cfg pcfg).
Abbreviation publish := (publish_draft_v4 key signing_key zoneinfo limit).

(** C15 while requests take turns, at most one tablet is active, and the revisions a tablet is
    assigned and runs exist, after any sequence of the handlers: pairing, enrolment, revocation,
    a tablet's reports and uploads, saves, publications, roll-backs and activations of versions
    1 to 4, uploads and deletions of prompts, changes of the policies. *)
Theorem one_active_tablet t s : reachable_state t s →
  (∀ i j, active_at (db s) i → active_at (db s) j → i = j) ∧
  ∀ i d rid, devices (db s) !! i = Some d → desired_revision_id d = Some rid ∨ active_revision_id d = Some rid →
    is_Some (revisions (db s) !! rid).
Proof using Type*.
  intros Hr%reachable_well_formed. destruct (rows_ok _ _ Hr) as [Hone Hass _]. split; [exact Hone|exact Hass].
Qed.

(** C16 while requests take turns, a tablet can always download what it is assigned: for every
    prompt in the manifest of its desired or active revision the request succeeds, whatever was
    uploaded, deleted, published, rolled back or activated since, and the file has the digest the
    signed manifest states. *)
Theorem assigned_prompts_served t s i d rid : reachable_state t s → devices (db s) !! i = Some d →
  desired_revision_id d = Some rid ∨ active_revision_id d = Some rid →
  ∃ row m items, revisions (db s) !! rid = Some row ∧ load_manifest key row = Ok m ∧ member_list "prompts" m = Ok items ∧
    ∀ item, item ∈ items → ∃ h file, get_item "content_hash" item = Ok (JStr h) ∧
      device_prompt key d h s = Ok file ∧ sha256_hexdigest file = h.
Proof using Type*.
  intros Hr%reachable_well_formed Hd Hrid. pose proof (rows_ok _ _ Hr) as Hdev. pose proof (library_ok _ _ Hr) as Hpr.
  destruct (assigned_exists _ Hdev i d rid Hd Hrid) as [row Hrow].
  destruct (retained _ _ Hpr rid row Hrow) as (m & items & Hm & Hi & Hall). exists row, m, items.
  split; [done|]. split; [done|]. split; [done|]. intros item Hin.
  destruct (Hall item Hin) as (j & p & Hp & <- & _ & Hh).
  destruct (download key s i d rid row m items item p) as (file & Hf & Hdg); [done..|].
  exists (content_hash p), file. done.
Qed.

(** A pairing code that is unused and unexpired has no recorded failure, so the limit on
    a code's failures never decides: only the limit per address does. *)
Theorem code_lockout_never_decides t s i p r : (0 < enrollment_max_failures cfg)%Z → reachable_state t s →
  (t <= instant (now r))%Z → pairing_codes s !! i = Some p → used_at p = None → (instant (now r) < expires_at p)%Z →
  failures p = 0%Z ∧ valid_pairing cfg r p = true.
Proof using Type*.
  intros Hmax Hr Ht Hp Hu He. pose proof (reachable_codes_ok _ _ _ _ _ _ _ _ _ Hmax Hr) as Hok.
  destruct (Hok i p Hp) as [Hpos Hdead]. assert (failures p = 0%Z) as Hz.
  { destruct (decide (0 < failures p)%Z) as [Hf|]; [|lia]. destruct (Hdead Hf); [done|lia]. }
  split; [done|]. unfold valid_pairing. rewrite !bool_decide_true by (done || lia). done.
Qed.

(** An enrolment at a reachable state, with a new identifier and a new token *)
Lemma enrolment_state t s r w ip body id token s1 : reachable_state t s → (t <= instant (now r))%Z →
  enroll_device cfg r w ip body s s = (Ok (id, token), s1) → devices (db s) !! id = None →
  (∀ i d, devices (db s) !! i = Some d → token_hash d ≠ digest_device_token token) →
  well_formed key s1 ∧ paired (digest_device_token token) id s1 ∧ (∃ d, devices (db s1) !! id = Some d ∧ revoked_at d = None ∧
    desired_revision_id d = latest_revision_id (db s)) ∧
  ∃ digest, digest_pairing_code (code body) (pairing_hmac_key_b64 cfg) = Ok digest ∧ used_code digest s1.
Proof using Type*.
  intros Hr Ht E Hnew Hfresh. pose proof E as (-> & -> & digest & pid & p & Hd & Hp & Hpd & _ & _ & Hcodes & Hdev & _)%enroll_ok.
  split; [|split; [|split]].
  - apply reachable_well_formed in Hr. assert (s1 = (enroll_device cfg r w ip body s s).2) as -> by by rewrite E.
    eapply change_well_formed; [by apply enroll_change|done].
  - split; [eexists; rewrite Hdev; split; [apply lookup_insert_eq|done]|].
    intros j e. rewrite Hdev. intros [[<- _]|[_ He]]%lookup_insert_Some Hh; [done|]. by destruct (Hfresh j e He).
  - eexists. rewrite Hdev. split; [apply lookup_insert_eq|done].
  - exists digest. split; [done|]. exists pid, (mark_used (now r) p). rewrite Hcodes, lookup_insert_eq. done.
Qed.

(** C17 the life of a credential, while requests take turns.  An enrolment's token is accepted
    as its tablet, which is assigned the latest revision.  In every later state the token is
    accepted as that tablet unless the tablet is revoked; the code of the enrolment is refused,
    also when no tablet is active any more; only the tablet's revocation ends the credential;
    and after it the token is refused for good. *)
Theorem credential_lifecycle t s r w ip body id token s1 : reachable_state t s → (t <= instant (now r))%Z →
  enroll_device cfg r w ip body s s = (Ok (id, token), s1) → devices (db s) !! id = None →
  (∀ i d, devices (db s) !! i = Some d → token_hash d ≠ digest_device_token token) →
  forallb urlsafe token = true → 32 ≤ length token ≤ 256 →
  (∃ d, require_device (bearer token) (db s1) = Ok (id, d) ∧ desired_revision_id d = latest_revision_id (db s)) ∧
  ∀ t2 s2, later_state (instant (now r)) s1 t2 s2 →
    (∃ d, devices (db s2) !! id = Some d ∧ require_device (bearer token) (db s2) =
       match revoked_at d with None => Ok (id, d) | Some _ => Raise credential_revoked end) ∧
    (∀ r2 w2 ip2 body2, code body2 = code body →
       ∃ e, (enroll_device cfg r2 w2 ip2 body2 s2 s2).1 = Raise e ∧ enrolment_refused e) ∧
    (∀ t3 s3, next_state t3 s2 s3 → is_ok (require_device (bearer token) (db s2)) = true →
       is_ok (require_device (bearer token) (db s3)) = false → ∃ r3 d d', revoke_device r3 id (db s2) = Ok (d, d') ∧ s3 = on_db s2 d') ∧
    (∀ r3, ∃ d d', revoke_device r3 id (db s2) = Ok (d, d') ∧
       ∀ t3 t4 s4, later_state t3 (on_db s2 d') t4 s4 → require_device (bearer token) (db s4) = Raise credential_revoked).
Proof using Type*.
  intros Hr Ht E Hnew Hfresh Hu Hlen.
  destruct (enrolment_state t s r w ip body id token s1) as (Hwf & Hpair & (d1 & Hd1 & Hr1 & Hdes) & digest & Hdig & Hused); [done..|].
  split. { destruct (paired_accepted token id s1 Hu Hlen Hpair) as (d & Hd & ->). simplify_eq. exists d1. by rewrite Hr1. }
  intros t2 s2 Hl.
  assert (well_formed key s2) as Hwf2 by (by eapply (later_keeps _ _ _ _ _ _ _ (λ _, True)); [| | |exact Hl]).
  assert (paired (digest_device_token token) id s2) as Hpair2 by (eapply later_paired; [exact Hwf|exact Hl|exact Hpair]).
  destruct (paired_accepted token id s2 Hu Hlen Hpair2) as (d2 & Hd2 & Hreq2).
  split; [by exists d2|]. split; [|split].
  - intros r2 w2 ip2 body2 Hcode. apply (used_code_refused _ _ _ _ _ _ digest); [by rewrite Hcode|by apply codes_differ in Hwf2|].
    eapply later_used_code; [exact Hwf|exact Hl|exact Hused].
  - intros t3 s3 Hs Hok2 Hok3. apply step_change in Hs; [|by apply library_ok].
    destruct (paired_accepted token id s3 Hu Hlen) as (d3 & Hd3 & Hreq3); [by eapply change_paired|].
    rewrite Hreq2 in Hok2. rewrite Hreq3 in Hok3. destruct (revoked_at d2) eqn:E2; [done|]. destruct (revoked_at d3) eqn:E3; [|done].
    eapply change_revokes; [done|exact Hd2|done|exact Hd3|congruence].
  - intros r3. unfold revoke_device. rewrite Hd2. cbn [of_option mbind result_bind]. eexists _, _. split; [done|].
    match goal with |- ∀ _ _ _, later_state _ (on_db s2 ?d') _ _ → _ => set (d3 := d') end.
    assert (change key cfg t2 s2 (on_db s2 d3)) as Hc.
    { eapply (is_revocation _ _ _ _ _ r3 id); [|done]. unfold revoke_device. rewrite Hd2. reflexivity. }
    assert (revoked id (on_db s2 d3)) as Hrev by (eexists; cbn; rewrite lookup_insert_eq; split; [done|done]).
    intros t3 t4 s4 Hl4. pose proof (change_well_formed _ _ _ _ _ Hc Hwf2) as Hwf3.
    destruct (later_revoked _ _ _ _ _ _ _ _ _ _ _ _ Hwf3 Hl4 Hrev) as (d4 & Hd4 & Hr4).
    destruct (paired_accepted token id s4 Hu Hlen) as (d5 & Hd5 & ->); [eapply later_paired; [exact Hwf3|done|by eapply change_paired]|].
    simplify_eq. by destruct (revoked_at d4).
Qed.

(** C11 while requests take turns, a review authorises one publication: in every later state a
    publication with the same review is refused, because the draft or the published revision is
    no longer the one reviewed, or because the draft cannot be read. *)
Theorem review_publishes_once t s r b id d : reachable_state t s → (t <= instant (now r))%Z → length (nonce r 1) = 12 →
  publish r (Some b) (db s) = Ok (id, d) →
  ∀ t2 s2, later_state (instant (now r)) (on_db s d) t2 s2 → ∀ r2, ∃ e, publish r2 (Some b) (db s2) = Raise e ∧
    ∀ c, load_draft_v4 key (db s2) = Ok c →
      e = HTTPException 409 ["The draft changed after review. Review the current draft before publishing."] ∨
      e = HTTPException 409 ["The published revision changed after review. Review the draft again."].
Proof using Type*.
  intros Hr Ht Hn E t2 s2 Hl r2. apply reachable_well_formed in Hr as Hwf.
  assert (change key cfg (instant (now r)) s (on_db s d)) as Hc by (by eapply authoring_change, publish_v4_step).
  pose proof E as (c & root & out & _ & [_ Hb]%check_review_ok & _ & _ & _ & -> & Hd)%publish_ok.
  assert (is_Some (revisions (db s2) !! next_revision (db s))) as Hlater.
  { eapply later_revision; [by eapply change_well_formed|exact Hl|]. cbn. rewrite Hd, published_lookup, decide_True; done. }
  assert (latest_revision_id (db s2) ≠ base_revision_id b) as Hne.
  { rewrite <- Hb. intros Heq. destruct (latest_revision_id (db s)) as [i|] eqn:Ei.
    - apply latest_revision_spec in Heq as [_ Hmax]. apply Hmax in Hlater.
      apply latest_revision_spec in Ei as [Hi%(revisions_fresh _ (rows_ok _ _ Hwf)) _]. lia.
    - pose proof (latest_revision_none _ Heq (next_revision (db s))) as Hnone. rewrite Hnone in Hlater. by destruct Hlater. }
  unfold publish_draft_v4, publish_draft_v4_seen. destruct (load_draft_v4 key (db s2)) as [c2|e]; cbn [mbind result_bind]; [|by exists e].
  unfold check_review. case_decide; [eexists; split; [done|]; by left|]. rewrite decide_True by done.
  eexists. split; [done|]. by right.
Qed.
End Theorems.

(** ** The theorems at a concrete server *)

#[local] Existing Instance plain_suite.
#[local] Existing Instance plain_suite_laws.

Definition example_settings : settings :=
  {| production := true; pairing_hmac_key_b64 := b64encode (replicate 32 (octet 9)); enrollment_code_ttl_seconds := 600;
     enrollment_failure_window_seconds := 900; enrollment_max_failures := 5 |}.
Definition example_library : prompt_settings :=
  {| prompt_upload_limit_bytes := 25 * MIB; prompt_duration_limit_seconds := 300; prompt_quota_bytes := 2048 * MIB |}.
(** [ffprobe] prints a duration and [ffmpeg] writes 48 frames of silence, in stereo at 48 kHz. *)
Definition little (k : nat) (n : N) : bytes := reverse (Sha256.big_endian k n).
Definition greeting : bytes :=
  to_bytes "RIFF" ++ little 4 228 ++ to_bytes "WAVEfmt " ++ little 4 16 ++ little 2 1 ++ little 2 2 ++ little 4 48000
  ++ little 4 192000 ++ little 2 4 ++ little 2 16 ++ to_bytes "data" ++ little 4 192 ++ replicate 192 (octet 0).
Definition example_probe (_ : bytes) : result (option bytes) := Ok (Some (to_bytes "0.001000")).
Definition example_convert (_ : bytes) : result (option bytes) := Ok (Some greeting).
Definition example_offset (_ : datetime) : Z := 0.

Definition example_draws : draws :=
  {| randbelow := λ _, 12345678%Z; token_urlsafe := replicate 43 "A"%char; new_uuid := "tablet" |}.
Definition example_code : bytes := eight_digits 12345678.
Definition example_digest : string := hmac_sha256_hexdigest (replicate 32 (octet 9)) example_code.
Lemma example_digest_ok : digest_pairing_code example_code (pairing_hmac_key_b64 example_settings) = Ok example_digest.
Proof.
  unfold digest_pairing_code. assert (decode_key (pairing_hmac_key_b64 example_settings) 32 "pairing HMAC key"
    = Ok (replicate 32 (octet 9))) as -> by (vm_compute; reflexivity).
  cbn [mbind result_bind]. unfold example_digest. reflexivity.
Defined.
Definition example_body : enrollment :=
  {| code := example_code; device_name := "Tablet"; reported_app := "0.9.2"; reported_helper := "0.9.2" |}.
Definition example_header : option string := bearer (token_urlsafe example_draws).

Definition example_status : DeviceStatus :=
  {| helper_state := "ready"; helper_result := "ok"; call_state := "idle"; local_kill_switch := false;
     storage_free_bytes := 1000000; last_error := None; boot_wifi_recovery := None; runtime_versions := [1; 2; 3; 4]%Z;
     recording_capable := true; external_call_control_capable := true; conversation_recording_capable := true;
     prompt_barge_in_capable := true; session_audit_capable := false; continuous_recording_capable := true;
     call_safety_capable := false; call_safety_policy_version := None; maximum_call_duration_seconds := None;
     call_safety_last_error := None; local_recovery_state := None; telecom_recovery_state := None;
     telecom_recovery_duration_ms := None; telecom_recovery_phase := None; helper_supervisor_state := None;
     audit_policy_version := 0; audit_enabled := false; audit_spool_bytes := 0; audit_spool_count := 0;
     audit_last_error := None; helper_source_commit := ""; source_commit := "";
     call_control_protocol_version := Some 2%Z; call_control_state := Some "ready"; call_control_recovery_pending := false;
     recording_spool_bytes := 0; recording_spool_count := 0; voicemail_spool_bytes := 0; voicemail_spool_count := 0;
     conversation_spool_bytes := 0; conversation_spool_count := 0; recording_filesystem_free_bytes := 1000000 |}.

(** A flow that plays one prompt and ends the call. *)
Definition announcement : block := PlayPrompt (uuid "20") (Some prompt_a) (end_block "21").

(** An upload, a pairing code, an enrolment, a status report and a saved draft. *)
Definition after_upload : server :=
  (import_command example_probe example_convert example_library example_request prompt_a "Greeting" "greeting.mp3"
     (Some (to_bytes "ID3")) empty_server).2.
Definition example_pairing : pairing_row :=
  {| code_digest := example_digest; pairing_name := ""; expires_at := instant (now example_request) + seconds 600;
     failures := 0; used_at := None; created_by := actor example_request |}.
Definition after_code : server :=
  with_db (audit (actor example_request) "device.pairing_code_created" "pairing:tablet" (JObj []))
    (with_pairing "tablet" example_pairing after_upload).
Definition enrolled_device : device_row :=
  new_device example_request (token_urlsafe example_draws) example_pairing example_body (db after_code).
Definition after_enrolment : server :=
  with_db (audit "device:tablet" "device.enrolled" "device:tablet" (JObj []))
    (with_attempt {| source_ip := "203.0.113.9"; succeeded := true; attempted_at := now example_request |}
       (with_db (with_device "tablet" enrolled_device)
          (with_pairing "tablet" (mark_used (now example_request) example_pairing) after_code))).
Definition after_report : server :=
  with_db (with_device "tablet" (report_status example_request "0.9.2" "0.9.2" example_status enrolled_device)) after_enrolment.
Definition announcement_row : draft_row :=
  {| document_encrypted := seal example_key (nonce example_request 0) (source_document V4 (saved announcement 0));
     row_version := 1; updated_at := now example_request; updated_by := actor example_request |}.

Lemma code_created : create_pairing_code example_settings example_request example_draws "" after_upload = Ok (example_code, after_code).
Proof.
  unfold create_pairing_code, allocate_code. cbn [randbelow example_draws]. fold example_code.
  rewrite example_digest_ok. cbn [mbind result_bind].
  assert (pairing_codes after_upload = ∅) as -> by (vm_compute; reflexivity). reflexivity.
Defined.

Lemma codes_after_code : pairing_codes after_code = {["tablet" := example_pairing]}.
Proof. assert (pairing_codes after_upload = ∅) as E by (vm_compute; reflexivity). cbn [after_code with_db with_pairing pairing_codes]. rewrite E. reflexivity. Defined.
Lemma devices_after_code : devices (db after_code) = ∅.
Proof. vm_compute. reflexivity. Defined.

Lemma enrolled : enroll_device example_settings example_request example_draws "203.0.113.9" example_body after_code after_code
    = (Ok ("tablet", token_urlsafe example_draws), after_enrolment).
Proof.
  unfold enroll_device.
  set (many := decide _). assert (∃ h, many = right h) as [h ->].
  { destruct many as [Hle|h]; [|by exists h]. exfalso. revert Hle. vm_compute. congruence. }
  cbn [code example_body]. rewrite example_digest_ok, codes_after_code.
  rewrite (find_row_unique _ _ "tablet" example_pairing);
    [|apply lookup_singleton_eq|by apply bool_decide_eq_true|intros j y [<- _]%lookup_singleton_Some _; reflexivity].
  assert (valid_pairing example_settings example_request example_pairing = true) as -> by (vm_compute; reflexivity).
  rewrite (update_held "tablet" example_pairing) by (rewrite codes_after_code; apply lookup_singleton_eq).
  unfold active_devices. rewrite devices_after_code. reflexivity.
Defined.

Definition reported_device : device_row := report_status example_request "0.9.2" "0.9.2" example_status enrolled_device.
Lemma reported_devices : devices (db after_report) = {["tablet" := reported_device]}.
Proof. cbn [after_report after_enrolment with_db with_attempt with_pairing db audit with_device devices]. rewrite devices_after_code. reflexivity. Defined.

Lemma token_required : require_device example_header (db after_enrolment) = Ok ("tablet", enrolled_device).
Proof.
  unfold example_header, bearer. rewrite require_token; [|vm_compute; reflexivity|vm_compute; lia].
  rewrite (find_row_unique _ _ "tablet" enrolled_device).
  - reflexivity.
  - reflexivity.
  - apply bool_decide_eq_true. reflexivity.
  - cbn [after_enrolment with_db with_attempt with_pairing db audit with_device devices]. rewrite devices_after_code.
    intros j d [<- _]%lookup_singleton_Some _. reflexivity.
Defined.

Lemma report_synced : ∃ response, sync_device example_key example_request "tablet" enrolled_device "0.9.2" "0.9.2" example_status
  after_enrolment = Ok (response, after_report).
Proof. eexists. unfold sync_device, acknowledge_policy, acknowledge_call_safety_policy. cbn [example_status session_audit_capable audit_enabled
  call_safety_capable call_safety_policy_version maximum_call_duration_seconds negb orb andb]. reflexivity. Defined.

Definition after_save : store :=
  audit (actor example_request) "draft.v4_updated" "configuration" (JObj [("edit_version", JInt 1)])
    (with_draft V4_DRAFT_ID announcement_row (db after_report)).
Lemma announcement_saved :
  put_draft_v4 example_key example_request (saved announcement 0) (db after_report) = Ok (saved announcement 1, after_save).
Proof. unfold put_draft_v4. rewrite save_v4_exact by reflexivity. reflexivity. Defined.

Definition announcement_out : compiled :=
  match compile_configuration V4 (saved announcement 1) (prompts_for_configuration (saved announcement 1) after_save) with
  | Ok out => out
  | Raise _ => example_out
  end.
Lemma announcement_compiles :
  compile_configuration V4 (saved announcement 1) (prompts_for_configuration (saved announcement 1) after_save) = Ok announcement_out.
Proof. vm_compute. reflexivity. Defined.
Definition after_publication : store :=
  published_store example_key example_key example_request (saved announcement 1) announcement_out after_save.

Definition announcement_review : publish_request := {| reviewed_edit_version := 1; base_revision_id := None |}.
Lemma announcement_published : publish_draft_v4 example_key example_key example_zones (128 * MIB) example_request
  (Some announcement_review) after_save = Ok (1%Z, after_publication).
Proof.
  apply publish_ok.
  destruct (proj1 (validation_errors_nil example_zones (128 * MIB) after_save (saved announcement 1))) as (root & out & Hp & _);
    [vm_compute; reflexivity|].
  exists (saved announcement 1), root, announcement_out.
  assert (Hload : load_draft_v4 example_key after_save = Ok (saved announcement 1)).
  { assert (read_draft after_save V4_DRAFT_ID = Some announcement_row) as Hr by apply lookup_insert_eq.
    assert (holds example_key V4 announcement_row (saved announcement 0)) as Hh by (exists (nonce example_request 0); split; reflexivity).
    exact (load_held example_key V4 after_save announcement_row (saved announcement 0) Hr Hh ltac:(vm_compute; reflexivity) ltac:(done)). }
  split; [exact Hload|]. split; [apply check_review_ok; split; vm_compute; reflexivity|]. split; [exact Hp|]. split; [apply announcement_compiles|].
  split; [|by split]. apply require_v4_ok. unfold require_v4_device_capabilities, active_devices.
  change (devices after_save) with (devices (db after_report)). rewrite reported_devices. vm_compute. reflexivity.
Defined.

Abbreviation example_reachable := (reachable example_key example_key example_zones (128 * MIB) example_offset example_settings
  example_library (instant (now example_request))).
Abbreviation example_step := (step example_key example_key example_zones (128 * MIB) example_offset example_settings
  example_library (instant (now example_request))).
Lemma reach s s' : example_reachable s → example_step s s' → example_reachable s'.
Proof. intros [t0 Hl] Hs. exists t0. exact (later_step _ _ _ _ _ _ _ _ _ _ _ _ Hl Hs). Defined.

Lemma code_reachable : example_reachable after_code.
Proof.
  eapply reach; [eapply reach; [exists (instant (now example_request)); apply later_now|]|].
  - apply (import_step _ _ _ _ _ _ _ example_probe example_convert example_request prompt_a "Greeting" "greeting.mp3" (Some (to_bytes "ID3"))).
    reflexivity.
  - eapply (code_step _ _ _ _ _ _ _ example_request example_draws ""); [|exact code_created]. vm_compute. reflexivity.
Defined.
Definition saved_server : server := on_db after_report after_save.
Lemma saved_reachable : example_reachable saved_server.
Proof.
  eapply reach; [eapply reach; [eapply reach; [apply code_reachable|]|]|].
  - pose proof (enroll_step example_key example_key example_zones (128 * MIB) example_offset example_settings example_library
      example_request example_draws "203.0.113.9" example_body after_code) as Hs.
    rewrite enrolled in Hs. apply Hs; rewrite devices_after_code; [reflexivity|].
    intros i d Hd. destruct (lookup_empty_Some _ _ Hd).
  - destruct report_synced as [response Hs]. eapply (tablet_step _ _ _ _ _ _ _ example_request); [exact token_required|].
    eapply sync_step. exact Hs.
  - apply (authoring_step _ _ _ _ _ _ _ example_request). eapply put_v4_step. exact announcement_saved.
Defined.
Definition final_server : server := on_db saved_server after_publication.
Lemma final_reachable : example_reachable final_server.
Proof.
  eapply reach; [apply saved_reachable|]. apply (authoring_step _ _ _ _ _ _ _ example_request).
  eapply publish_v4_step; [reflexivity|]. exact announcement_published.
Defined.

Lemma final_device : ∃ d, devices (db final_server) !! "tablet" = Some d ∧ desired_revision_id d = Some 1%Z.
Proof.
  cbn [final_server on_db with_db db after_publication published_store audit with_devices devices with_revision].
  change (devices after_save) with (devices (db after_report)). rewrite reported_devices, map_fmap_singleton.
  eexists. split; [apply lookup_singleton_eq|]. reflexivity.
Defined.

Theorem one_active_tablet_witness : ∃ row, revisions (db final_server) !! 1%Z = Some row.
Proof.
  destruct final_device as (d & Hd & Hrid).
  exact (proj2 (one_active_tablet example_key example_key example_zones (128 * MIB) example_offset example_settings example_library
    _ final_server final_reachable) "tablet" d 1%Z Hd (or_introl Hrid)).
Defined.

Theorem assigned_prompts_served_witness : ∃ d row m items, devices (db final_server) !! "tablet" = Some d ∧
  revisions (db final_server) !! 1%Z = Some row ∧ load_manifest example_key row = Ok m ∧ member_list "prompts" m = Ok items ∧
  ∀ item, item ∈ items → ∃ h file, device_prompt example_key d h final_server = Ok file ∧ sha256_hexdigest file = h.
Proof.
  destruct final_device as (d & Hd & Hrid).
  destruct (assigned_prompts_served example_key example_key example_zones (128 * MIB) example_offset example_settings example_library
    _ final_server "tablet" d 1%Z final_reachable Hd (or_introl Hrid)) as (row & m & items & Hrow & Hm & Hi & Hall).
  exists d, row, m, items. split; [exact Hd|]. split; [exact Hrow|]. split; [exact Hm|]. split; [exact Hi|].
  intros item Hin. destruct (Hall item Hin) as (h & file & _ & Hf). exists h, file. exact Hf.
Defined.

(** The tablet is revoked: no tablet is active, and the code and the token are still refused. *)
Definition revoked_store : store :=
  match revoke_device example_request "tablet" (db after_enrolment) with Ok p => p.2 | Raise _ => db after_enrolment end.
Definition revoked_server : server := on_db after_enrolment revoked_store.
Theorem credential_lifecycle_witness : active_devices (db revoked_server) = [] ∧
  (∃ e, (enroll_device example_settings example_request example_draws "198.51.100.7" example_body revoked_server revoked_server).1
        = Raise e ∧ enrolment_refused e) ∧
  require_device example_header (db revoked_server) = Raise credential_revoked.
Proof.
  destruct (credential_lifecycle example_key example_key example_zones (128 * MIB) example_offset example_settings example_library
    (instant (now example_request)) after_code example_request example_draws "203.0.113.9" example_body "tablet"
    (token_urlsafe example_draws) after_enrolment code_reachable (Z.le_refl _) enrolled) as [_ Hlater].
  - rewrite devices_after_code. reflexivity.
  - intros i d Hd. rewrite devices_after_code in Hd. destruct (lookup_empty_Some _ _ Hd).
  - vm_compute. reflexivity.
  - vm_compute. lia.
  - destruct (Hlater _ _ (later_now _ _ _ _ _ _ _ _ _)) as (_ & _ & _ & Hrevoke). destruct (Hrevoke example_request) as (d & d' & E & Hgone).
    assert (revoked_store = d') as Hd by (unfold revoked_store; rewrite E; exact eq_refl).
    split; [vm_compute; exact eq_refl|]. unfold revoked_server. rewrite Hd. split.
    + apply (Hlater (instant (now example_request))); [|exact eq_refl].
      eapply later_step; [apply later_now|]. eapply revoke_step. exact E.
    + apply (Hgone 0%Z 0%Z). apply later_now.
Defined.

Theorem review_publishes_once_witness : ∃ e, publish_draft_v4 example_key example_key example_zones (128 * MIB) example_request
  (Some announcement_review) after_publication = Raise e.
Proof.
  destruct (review_publishes_once example_key example_key example_zones (128 * MIB) example_offset example_settings example_library
    (instant (now example_request)) saved_server example_request announcement_review 1 after_publication saved_reachable (Z.le_refl _)
    eq_refl announcement_published _ _ (later_now _ _ _ _ _ _ _ _ _) example_request) as (e & He & _).
  exists e. exact He.
Defined.

(** ** Overlapping transactions *)

(** Two enrolments from one address that read the same database: the second commits
    after the first with the code the first has used, and two tablets are active. *)
Theorem overlapping_enrolments_pair_two cfg r w w2 ip body s id token s1 :
  enroll_device cfg r w ip body s s = (Ok (id, token), s1) → new_uuid w2 ≠ id →
  ∃ s2, enroll_device cfg r w2 ip body s s1 = (Ok (new_uuid w2, token_urlsafe w2), s2) ∧
    active_at (db s2) id ∧ active_at (db s2) (new_uuid w2).
Proof.
  intros E Hne. unfold enroll_device in *. case_decide; [done|]. destruct (digest_pairing_code _ _) as [digest|]; [|done].
  destruct (find_row _ _) as [[pid p]|] eqn:Ef; [|done]. apply find_row_some in Ef as [Hp _].
  destruct (valid_pairing cfg r p); [|done]. destruct (active_devices (db s)); [|done].
  rewrite (update_held pid p) in E by done. injection E as <- _ <-. eexists. split; [reflexivity|].
  rewrite (update_held pid (mark_used (now r) p)) by apply lookup_insert_eq.
  split; eexists; cbn [with_db with_attempt with_pairing db audit with_device devices]; (split; [|]).
  - rewrite lookup_insert_ne by done. apply lookup_insert_eq.
  - done.
  - apply lookup_insert_eq.
  - done.
Qed.

Lemma prepare_again transcode cfg r r2 i j name name2 source s row file :
  prepare_import transcode cfg r i name source s = Ok (row, file) → 1 ≤ py_len (normalized name2) ≤ 120 →
  ∃ row2, prepare_import transcode cfg r2 j name2 source s = Ok (row2, file) ∧
    content_hash row2 = content_hash row ∧ storage_name row2 = storage_name row.
Proof.
  intros Ep Hlen. unfold prepare_import in *. case_match; [done|]. case_match; [done|].
  rewrite bool_decide_false by (intros E; rewrite E in Hlen; cbn in Hlen; lia).
  rewrite (proj2 (Nat.ltb_ge _ _)) by lia.
  destruct source as [source|]; [|done]. cbn [of_option mbind result_bind] in *. case_match; [done|].
  destruct (transcode source _) as [[c|m]|]; [|done|done]. cbn [mbind result_bind] in *.
  destruct (find_row _ _); [done|]. case_match; [done|]. injection Ep as <- <-. by eexists.
Qed.

(** Two uploads of one recording that read the same database: the one whose row is
    refused deletes the file of the prompt the other has added. *)
Theorem overlapping_uploads_lose_audio transcode cfg r r2 i j name name2 source s row s1 :
  import_prompt transcode cfg r i name source s s = (Ok row, s1) → (1 ≤ py_len (normalized name2) ≤ 120) →
  ∃ s2, import_prompt transcode cfg r2 j name2 source s s1 = (Raise (OtherException "IntegrityError"), s2) ∧
    prompts (db s2) !! i = Some row ∧ media s2 !! storage_name row = None.
Proof.
  intros E Hlen. unfold import_prompt in E. destruct (prepare_import transcode cfg r i name source s) as [[row1 file]|] eqn:Ep; [|done].
  destruct (violates_unique row1 (prompts (db s))); [done|]. injection E as <- <-.
  destruct (prepare_again transcode cfg r r2 i j name name2 source s row1 file Ep Hlen) as (row2 & E2 & Hh & Hst).
  unfold import_prompt. rewrite E2. cbn [with_media with_db db audit with_prompts prompts].
  assert (violates_unique row2 (<[i := row1]> (prompts (db s))) = true) as ->.
  { unfold violates_unique. apply existsb_exists. exists row1. split; [|by rewrite Hh, bool_decide_true].
    apply list_elem_of_In, list_elem_of_fmap. exists (i, row1). split; [done|]. apply elem_of_map_to_list, lookup_insert_eq. }
  eexists. split; [reflexivity|]. cbn [with_media with_db db audit with_prompts prompts media]. split; [apply lookup_insert_eq|].
  rewrite Hst. apply lookup_delete_eq.
Qed.

(** Two publications with one review that read the same database: both succeed, and two
    revisions are published. *)
Theorem overlapping_publications `{CryptographyLaws} key signing_key zoneinfo limit r r2 b s id s1 : fresh_revisions s →
  publish_draft_v4_seen key signing_key zoneinfo limit r (Some b) s s = Ok (id, s1) →
  ∃ id2 s2, publish_draft_v4_seen key signing_key zoneinfo limit r2 (Some b) s s1 = Ok (id2, s2) ∧ id2 ≠ id ∧
    revisions s !! id = None ∧ is_Some (revisions s2 !! id) ∧ is_Some (revisions s2 !! id2).
Proof.
  intros Hf E. unfold publish_draft_v4_seen in *. apply result_bind_ok in E as (c & -> & (? & Hr & (errors & He & (? & Hj & (? & Hc & ([id' d]
    & Hcr & [= <- <-])%result_bind_ok)%result_bind_ok)%result_bind_ok)%result_bind_ok)%result_bind_ok). cbn [mbind result_bind].
  rewrite Hr. cbn [mbind result_bind]. rewrite He. cbn [mbind result_bind]. rewrite Hj. cbn [mbind result_bind]. rewrite Hc. cbn [mbind result_bind].
  apply create_revision_ok in Hcr as (out & Hout & -> & ->).
  rewrite (proj2 (create_revision_ok key signing_key _ _ r2 None _ _ _) (ex_intro _ out (conj Hout (conj eq_refl eq_refl)))).
  cbn [mbind result_bind]. eexists _, _. split; [reflexivity|].
  cbn [audit with_devices with_revision revisions next_revision]. split; [lia|]. split; [by apply fresh_none|].
  split; [rewrite !lookup_insert_ne by lia|]; rewrite lookup_insert_eq; by eexists.
Qed.
