(* ===== verification/Listings.v ===== *)
(** * Lists of recordings and calls ([recording_api.py], [main.py])

    What the dashboard is told of recordings and calls, as the JSON documents it receives, and the
    pages of recordings.  [stored] is a time as the database gives it back, and a query that
    orders by a time may give rows of the same time in any order: [scan] is the order of the table
    that it starts from. *)
From Stdlib Require Import Ascii.
From stdpp Require Import base gmap sets strings numbers pretty sorting list.
From S2P Require Import Prelude FlowTree Schemas LegacyGraph Json Crypto Documents Store Drafts Revisions V4Api Diff Devices Policies Prompts Calls Recordings Wave Script Storage Voicemail Admin.

Definition status_text (s : recording_status) : string :=
  match s with
  | Uploading => "uploading" | Processing => "processing" | Ready => "ready" | RecordingFailed => "failed" | Deleted => "deleted"
  end.
Definition continuous_text (s : continuous_status) : string :=
  match s with
  | ContinuousUploading => "uploading" | Queued => "queued" | ContinuousProcessing => "processing" | Retrying => "retrying"
  | ContinuousReady => "ready" | Invalid => "invalid" | NeedsAttention => "needs_attention" | ContinuousDeleted => "deleted"
  end.

Section Listings.
Context `{Cryptography} (key : bytes) (stored : timestamp → timestamp).

(** A column of encrypted text: nothing for a missing or an empty one *)
Definition decrypt_column (column : option bytes) : result (option string) :=
  match column with
  | Some e => if bool_decide (e = []) then Ok None else (λ p, Some (of_bytes p)) <$> decrypt key e
  | None => Ok None
  end.
Definition time_json (t : timestamp) : json := JStr (dump_timestamp (stored t)).
(** [jsonable_encoder], with which an answer without a model writes its times *)
Definition isoformat_json (t : timestamp) : json :=
  let t := stored t in JStr (local_text (local t) +:+ match utc_offset t with None => "" | Some m => offset_text m end).
Definition utc_json (t : datetime) : json := time_json {| local := t; utc_offset := Some 0%Z |}.

(** ** Recordings *)

(** [processing_state]: of its receipt, of its call, or its own *)
Definition processing_state (id : string) (r : recording_row) (result : string) (s : recordings_db) : string :=
  match continuous s !! id with
  | Some c => continuous_text (continuous_state c)
  | None =>
      if bool_decide (rec_status r = Uploading)
      then (if bool_decide (result = "IN_PROGRESS") then "active_call" else "awaiting_device_recovery")
      else status_text (rec_status r)
  end.
(** [_recording_response], as the fields of [RecordingResponse] *)
Definition recording_link (id action : string) (r : recording_row) : json :=
  if bool_decide (rec_status r = Ready) then JStr ("/api/admin/v1/recordings/" +:+ id +:+ "/" +:+ action) else JNull.
Definition recording_response (s : recordings_db) (id : string) (r : recording_row) (call : call_row) : result document :=
  caller ← decrypt_column (caller_encrypted call);
  operator ← decrypt_column (operator_encrypted (capture_of r));
  let c := capture_of r in
  let src := source_of r in
  Ok [("id", JStr id); ("call_id", JStr (rec_call c)); ("device_id", JStr (rec_device c));
      ("revision_id", dump_option JInt (rec_revision c)); ("block_id", dump_option JStr (rec_block c));
      ("sequence", JInt (rec_sequence c)); ("kind", JStr (kind c)); ("audit_metadata", default JNull (audit_metadata c));
      ("operator_masked", JStr (if truthy operator then mask_phone operator else "")); ("segment_count", JInt (segment_count src));
      ("caller", dump_option JStr caller); ("caller_masked", JStr (mask_phone caller));
      ("captured_at", time_json (captured_at c)); ("duration_ms", JInt (rec_duration_ms src));
      ("stop_reason", JStr (rec_stop_reason src)); ("status", JStr (status_text (rec_status r)));
      ("source_format", JStr (source_format c)); ("partial", JBool (Storage.partial src));
      ("processing_error", dump_option JStr (processing_error r));
      ("processing_state", JStr (processing_state id r (call_result call) s));
      ("upload_offset", dump_option JInt (upload_offset <$> upload_rows s !! id));
      ("source_size_bytes", JInt (source_size_bytes src)); ("listened_at", dump_option utc_json (listened_at r));
      ("deleted_at", dump_option utc_json (deleted_at r)); ("playback_url", recording_link id "audio" r);
      ("download_url", recording_link id "download" r)].

(** *** Pages *)

Definition captured (r : string * recording_row) : Z := utc (captured_at (capture_of r.2)).
(** The conditions of [list_recordings]: no deleted rows, no session audits unless they are asked
    for, and only what nobody has listened to when [unread] is true *)
Definition listed (unread : option bool) (wanted : option string) (r : string * recording_row) : bool :=
  bool_decide (rec_status r.2 ≠ Deleted)
  && match wanted with
     | None => bool_decide (kind (capture_of r.2) ≠ "session_audit")
     | Some k => bool_decide (k = "all") || bool_decide (kind (capture_of r.2) = k)
     end
  && match unread with Some true => bool_decide (listened_at r.2 = None) | _ => true end.
Definition matching (unread : option bool) (wanted : option string) (scan : list (string * recording_row)) : list (string * recording_row) :=
  filter (λ r, listed unread wanted r = true) scan.
(** [.order_by(captured_at.desc()).offset((page - 1) * page_size).limit(page_size)] *)
Definition page_of {A} (page page_size : nat) (l : list A) : list A := take page_size (drop ((page - 1) * page_size) l).
Definition recordings_page (unread : option bool) (wanted : option string) (page page_size : nat) (scan : list (string * recording_row))
    : list (string * recording_row) :=
  page_of page page_size (newest_first captured (matching unread wanted scan)).
(** The query parameters *)
Definition list_query (wanted : option string) (page page_size : Z) : bool :=
  (1 <=? page)%Z && in_range 1 100 page_size
  && match wanted with Some k => bool_decide (k ∈ ["voicemail"; "conversation"; "session_audit"; "all"]) | None => true end.
(** [RecordingListResponse] *)
Record recording_list := { items : list document; list_page : nat; list_page_size : nat; total : Z }.
Definition recordings_listed (unread : option bool) (wanted : option string) (page page_size : nat) (scan : list (string * recording_row))
    (calls : call_store) (s : recordings_db) : result recording_list :=
  l ← mapM (λ r, call ← of_option (KeyError (rec_call (capture_of r.2))) (call_records calls !! rec_call (capture_of r.2));
                 recording_response s r.1 r.2 call)
        (recordings_page unread wanted page page_size scan);
  Ok {| items := l; list_page := page; list_page_size := page_size; total := Z.of_nat (length (matching unread wanted scan)) |}.
(** [list_recordings], after the retention pass *)
Definition list_recordings (cfg : recording_settings) (r : request) (unread : option bool) (wanted : option string) (page page_size : nat)
    (calls : call_store) : program recording_list :=
  _ ← list_retention cfg r;
  look (λ m, recordings_listed unread wanted page page_size (map_to_list (recordings (committed m))) calls (committed m)).

(** ** Calls *)

Definition audit_entry (r : string * recording_row) : bool := bool_decide (kind (capture_of r.2) = "session_audit").
Definition of_call (id : string) (r : string * recording_row) : bool := bool_decide (rec_call (capture_of r.2) = id).
Definition call_recordings (id : string) (scan : list (string * recording_row)) : list (string * recording_row) :=
  filter (λ r, of_call id r && negb (audit_entry r) = true) scan.

(** [dict(value or {})] *)
Definition report_members (j : option json) : document := match j with Some (JObj o) => o | _ => [] end.
(** [call_audit_summary]: the report of the tablet, with the recording where there is one *)
Definition call_audit_summary (s : recordings_db) (call : call_row) (recording : option (string * recording_row)) (include_events : bool)
    : result (option document) :=
  let report := match recording with Some r => report_members (audit_metadata (capture_of r.2)) | None => report_members (call_audit call) end in
  if bool_decide (report = []) && negb (bool_decide (is_Some recording)) then Ok None
  else
    let report := if include_events then report else dict_remove "events" report in
    match recording with
    | None => Ok (Some report)
    | Some r =>
        metadata ← recording_response s r.1 r.2 call;
        Ok (Some (dict_set "recording" (JObj (dict_remove "audit_metadata" metadata))
                    (dict_set "state" (JStr (status_text (rec_status r.2))) report)))
    end.

(** What list and detail share of a call, whose times they write differently *)
Definition call_members (show : timestamp → json) (id : string) (call : call_row) (caller : option string) : document :=
  [("id", JStr id); ("device_id", JStr (call_device call)); ("started_at", show (call_started call));
   ("caller", dump_option JStr caller); ("caller_masked", JStr (mask_phone caller)); ("policy_decision", JStr (policy_decision call));
   ("revision_id", dump_option JInt (call_revision call)); ("menu_path", JList (map JStr (menu_path call)));
   ("result", JStr (call_result call)); ("duration_seconds", JInt (duration_seconds call));
   ("ended_at", dump_option show (ended_at call)); ("cleanup_status", dump_option JStr (cleanup_status call));
   ("events", JList (map JObj (events call)))].
Definition summary_json (o : option document) : json := dump_option JObj o.

(** [call_detail] *)
Definition call_detail (id : string) (calls : call_store) (scan : list (string * recording_row)) (s : recordings_db) : result document :=
  call ← of_option (HTTPException 404 ["Call not found"]) (call_records calls !! id);
  caller ← decrypt_column (caller_encrypted call);
  let recs := call_recordings id scan in
  summary ← call_audit_summary s call (find (λ r, of_call id r && audit_entry r) scan) true;
  l ← mapM (λ r, recording_response s r.1 r.2 call) recs;
  Ok (call_members isoformat_json id call caller
      ++ [("session_audit", summary_json summary); ("recording_count", JInt (count_recordings [Ready] recs.*2));
          ("pending_recording_count", JInt (count_recordings PENDING recs.*2)); ("recordings", JList (map JObj l))]).

(** The sums of the query with [group_by]: a call without rows has no entry. *)
Definition counts (id : string) (scan : list (string * recording_row)) : Z * Z :=
  match filter (λ r, negb (bool_decide (rec_status r.2 = Deleted)) = true) (call_recordings id scan) with
  | [] => (0, 0)%Z
  | l => (count_recordings [Ready] l.*2, count_recordings PENDING l.*2)
  end.
(** [{r.call_id: r for r in ...}]: the last audit of a call *)
Definition audit_recordings (scan : list (string * recording_row)) : gmap string (string * recording_row) :=
  foldl (λ m r, if audit_entry r then <[rec_call (capture_of r.2) := r]> m else m) ∅ scan.
Definition pending_audio (summary : option document) : Z :=
  match assoc "state" (default [] summary) with
  | Some (JStr st) => if bool_decide (st ∈ ["pending_upload"; "uploading"; "processing"]) then 1 else 0
  | _ => 0
  end%Z.
Definition call_response (scan : list (string * recording_row)) (s : recordings_db) (id : string) (call : call_row) : result document :=
  caller ← decrypt_column (caller_encrypted call);
  summary ← call_audit_summary s call (audit_recordings scan !! id) false;
  Ok (call_members time_json id call caller
      ++ [("session_audit", summary_json summary); ("recording_count", JInt (counts id scan).1);
          ("pending_recording_count", JInt (counts id scan).2); ("pending_session_audio_count", JInt (pending_audio summary))]).
(** [list_calls] *)
Definition recent_calls (calls : call_store) : list (string * call_row) :=
  take 500 (newest_first (λ c : string * call_row, utc (call_started c.2)) (map_to_list (call_records calls))).
Definition list_calls (calls : call_store) (scan : list (string * recording_row)) (s : recordings_db) : result (list document) :=
  mapM (λ c, call_response scan s c.1 c.2) (recent_calls calls).
End Listings.
