(* ===== verification/ListingsCorrect.v ===== *)
(** * Lists of recordings and calls, proved

    The pages of recordings together show each recording that matches once, and the list of calls
    says of a call what its own page says. *)
From Stdlib Require Import Ascii.
From stdpp Require Import base gmap sets strings numbers pretty sorting list.
From S2P Require Import Prelude FlowTree Schemas LegacyGraph Json Crypto Documents Store Drafts Revisions V4Api Diff Devices Policies Prompts Calls Recordings Wave Script Storage Voicemail VoicemailCorrect Admin Listings.

(** ** Sorting *)

Section Orders.
Context {A : Type} (k : A → Z).
#[local] Instance descends_total : Total (descends k).
Proof. intros a b. unfold descends. lia. Qed.
#[local] Instance descends_trans : Transitive (descends k).
Proof. intros a b c. unfold descends. lia. Qed.
Lemma newest_first_perm l : newest_first k l ≡ₚ l.
Proof. apply merge_sort_Permutation. Qed.
Lemma newest_first_sorted l : StronglySorted (descends k) (newest_first k l).
Proof. apply StronglySorted_merge_sort; apply _. Qed.
(** Where no two elements have the same time, the order of the scan does not matter. *)
Lemma newest_first_unique l m :
  (∀ a b, a ∈ l → b ∈ l → k a = k b → a = b) → l ≡ₚ m → newest_first k l = newest_first k m.
Proof.
  intros Hdistinct Hp. apply (StronglySorted_unique_strong (descends k)).
  - intros a b Ha Hb H1 H2. apply Hdistinct; [by rewrite <- newest_first_perm..| |unfold descends in *; lia].
    by rewrite Hp, <- newest_first_perm.
  - apply newest_first_sorted.
  - apply newest_first_sorted.
  - by rewrite !newest_first_perm.
Qed.
End Orders.

(** Pages of a list, one after the other, are the list. *)
Lemma pages_concat {A} (l : list A) size n :
  length l ≤ n * size → concat (map (λ p, page_of p size l) (seq 1 n)) = l.
Proof.
  assert (Hgen : ∀ m s, concat (map (λ p, page_of p size l) (seq (S s) m)) = take (m * size) (drop (s * size) l)).
  { induction m as [|m IH]; intros s; [done|]. cbn [seq map concat]. rewrite IH. unfold page_of.
    replace (S s - 1) with s by lia. replace (S s * size) with (s * size + size) by lia.
    rewrite <- drop_drop. replace (S m * size) with (size + m * size) by lia.
    by rewrite <- take_take_drop. }
  intros Hl. rewrite Hgen. cbn [Nat.mul drop]. by apply take_ge.
Qed.

(** ** Pages of recordings *)

Section Pages.
Context `{Cryptography} (key : bytes) (stored : timestamp → timestamp).
Context (unread : option bool) (wanted : option string) (page_size : nat) (calls : call_store) (s : recordings_db).

Lemma matching_perm scan : scan ≡ₚ map_to_list (recordings s) →
  matching unread wanted scan ≡ₚ matching unread wanted (map_to_list (recordings s)).
Proof. intros Hp. unfold matching. by rewrite Hp. Qed.

(** The document of one row *)
Definition document_of (r : string * recording_row) : result document :=
  call ← of_option (KeyError (rec_call (capture_of r.2))) (call_records calls !! rec_call (capture_of r.2));
  recording_response key stored s r.1 r.2 call.
Lemma listed_documents page scan answer :
  recordings_listed key stored unread wanted page page_size scan calls s = Ok answer →
  mapM document_of (recordings_page unread wanted page page_size scan) = Ok (items answer)
  ∧ total answer = Z.of_nat (length (matching unread wanted scan)).
Proof. unfold recordings_listed. fold document_of. intros (l & El & [= <-])%result_bind_ok. done. Qed.
Lemma mapM_app_ok {A B} (f : A → result B) l m x y : mapM f l = Ok x → mapM f m = Ok y → mapM f (l ++ m) = Ok (x ++ y).
Proof.
  revert x. induction l as [|a l IH]; intros x; cbn; [by intros [= <-]|].
  destruct (f a) as [b|]; [|done]. cbn [mbind result_bind]. destruct (mapM f l) as [bs|]; [|done]. intros [= <-] Hm.
  rewrite (IH bs) by done. done.
Qed.
Lemma pages_documents answers (pages : nat → list (string * recording_row)) l :
  (∀ p, p ∈ l → mapM document_of (pages p) = Ok (items (answers p))) →
  mapM document_of (concat (map pages l)) = Ok (concat (map (λ p, items (answers p)) l)).
Proof.
  induction l as [|p l IH]; intros Hall; [done|]. cbn [map concat]. apply mapM_app_ok; [apply Hall; left|].
  apply IH. intros q Hq. apply Hall. by right.
Qed.
End Pages.

(** C39 While the table does not change, the pages of a listing together show exactly the recordings
    that match, each once and the newest first, and every page says how many they are, whatever
    order the database reads the table in: as long as no two of them were captured at one time. *)
Theorem recording_pages_exact `{Cryptography} key stored unread wanted page_size calls s n
    (scans : nat → list (string * recording_row)) (answers : nat → recording_list) :
  (∀ p, scans p ≡ₚ map_to_list (recordings s)) →
  (∀ a b, listed unread wanted a = true → listed unread wanted b = true → recordings s !! a.1 = Some a.2 → recordings s !! b.1 = Some b.2 →
     captured a = captured b → a = b) →
  length (matching unread wanted (map_to_list (recordings s))) ≤ n * page_size →
  (∀ p, 1 ≤ p ≤ n → recordings_listed key stored unread wanted p page_size (scans p) calls s = Ok (answers p)) →
  ∃ rows, mapM (document_of key stored calls s) rows = Ok (concat (map (λ p, items (answers p)) (seq 1 n)))
    ∧ StronglySorted (λ a b, captured b <= captured a)%Z rows ∧ NoDup rows
    ∧ (∀ r, r ∈ rows ↔ recordings s !! r.1 = Some r.2 ∧ listed unread wanted r = true)
    ∧ ∀ p, 1 ≤ p ≤ n → total (answers p) = Z.of_nat (length rows).
Proof.
  intros Hscan Hdistinct Hn Hok. set (ms := matching unread wanted (map_to_list (recordings s))) in *.
  assert (Hin : ∀ r, r ∈ ms ↔ recordings s !! r.1 = Some r.2 ∧ listed unread wanted r = true).
  { intros [i r]. unfold ms, matching. rewrite list_elem_of_filter, elem_of_map_to_list. tauto. }
  assert (Hsame : ∀ p, newest_first captured (matching unread wanted (scans p)) = newest_first captured ms).
  { intros p. pose proof (matching_perm unread wanted s (scans p) (Hscan p)) as Hp. apply newest_first_unique; [|done].
    intros a b Ha Hb. rewrite Hp in Ha, Hb. apply Hin in Ha as [Ha1 Ha2], Hb as [Hb1 Hb2]. by apply Hdistinct. }
  exists (newest_first captured ms).
  assert (Hlen : length (newest_first captured ms) = length ms) by (apply Permutation_length, newest_first_perm).
  split; [|split; [apply newest_first_sorted|split; [|split]]].
  - rewrite <- (pages_concat (newest_first captured ms) page_size n) by lia.
    apply pages_documents. intros p Hp. apply elem_of_seq in Hp.
    destruct (listed_documents _ _ _ _ _ _ _ _ _ _ (Hok p ltac:(lia))) as [Hd _]. unfold recordings_page in Hd. by rewrite Hsame in Hd.
  - rewrite newest_first_perm. apply NoDup_filter, NoDup_map_to_list.
  - intros r. by rewrite newest_first_perm.
  - intros p Hp. destruct (listed_documents _ _ _ _ _ _ _ _ _ _ (Hok p Hp)) as [_ ->].
    rewrite Hlen. f_equal. by apply Permutation_length, matching_perm.
Qed.

Section Witness.
#[local] Existing Instances plain_suite.
Definition voicemail_at (minutes : Z) : recording_row :=
  {| capture_of := {| rec_device := "tablet"; rec_call := "call"; rec_revision := Some 1%Z; rec_block := Some Demo.block_id;
                      rec_sequence := minutes; kind := "voicemail"; audit_metadata := None; operator_encrypted := None; operator_last4 := "";
                      captured_at := {| local := {| date := (2026, 1, 2)%Z; hour := 3; minute := minutes; second := 0; microsecond := 0 |};
                                        utc_offset := Some 0%Z |}; source_format := "legacy_wav" |};
     source_of := {| rec_duration_ms := 1000; rec_stop_reason := "pound"; source_size_bytes := 96044; source_sha256 := ""; partial := false;
                     segment_count := 0 |};
     media_of := no_media; rec_status := Uploading; processing_error := None; listened_at := None; deleted_at := None;
     deletion_reason := None; rec_updated := Demo.moment |}.
Definition two_recordings : recordings_db :=
  {| recordings := {["early" := voicemail_at 4; "late" := voicemail_at 5]}; upload_rows := ∅; segments := ∅; continuous := ∅; retention := None;
     recording_audits := [] |}.
Definition two_calls : call_store := {| call_records := {["call" := Demo.call]}; receipts := ∅ |}.
Definition table_order (p : nat) : list (string * recording_row) :=
  if Nat.even p then map_to_list (recordings two_recordings) else reverse (map_to_list (recordings two_recordings)).
Definition answer (p : nat) : recording_list :=
  match recordings_listed [] id None None p 1 (table_order p) two_calls two_recordings with
  | Ok a => a
  | Raise _ => {| items := []; list_page := 0; list_page_size := 0; total := 0 |}
  end.
Lemma two_rows a : recordings two_recordings !! a.1 = Some a.2 → a = ("early", voicemail_at 4) ∨ a = ("late", voicemail_at 5).
Proof.
  destruct a as [i r]. cbn [fst snd]. unfold two_recordings. cbn [recordings]. intros [[<- <-]|[_ Hr]]%lookup_insert_Some; [by left|].
  apply lookup_singleton_Some in Hr as [<- <-]. by right.
Qed.
Lemma recording_pages_exact_witness :
  ∃ rows, mapM (document_of [] id two_calls two_recordings) rows = Ok (items (answer 1) ++ items (answer 2))
    ∧ StronglySorted (λ a b, captured b <= captured a)%Z rows ∧ (length (items (answer 1)), length (items (answer 2))) = (1, 1)
    ∧ total (answer 1) = 2%Z.
Proof.
  assert (Hscan : ∀ p, table_order p ≡ₚ map_to_list (recordings two_recordings)).
  { intros p. unfold table_order. destruct (Nat.even p); [done|apply reverse_Permutation]. }
  assert (Hdistinct : ∀ a b, listed None None a = true → listed None None b = true → recordings two_recordings !! a.1 = Some a.2 →
    recordings two_recordings !! b.1 = Some b.2 → captured a = captured b → a = b).
  { intros a b _ _ [-> | ->]%two_rows [-> | ->]%two_rows; vm_compute; congruence. }
  assert (Hlen : length (matching None None (map_to_list (recordings two_recordings))) ≤ 2 * 1) by (vm_compute; lia).
  assert (Hok : ∀ p, 1 ≤ p ≤ 2 → recordings_listed [] id None None p 1 (table_order p) two_calls two_recordings = Ok (answer p)).
  { intros p Hp. destruct (decide (p = 1)) as [->|]; [vm_compute; reflexivity|]. replace p with 2 by lia. vm_compute; reflexivity. }
  destruct (recording_pages_exact [] id None None 1 two_calls two_recordings 2 table_order answer Hscan Hdistinct Hlen Hok)
    as (rows & Hdocs & Hsorted & _ & _ & _).
  exists rows. split; [exact Hdocs|]. split; [exact Hsorted|]. split; vm_compute; reflexivity.
Defined.
End Witness.

(** Two recordings of one time: the order of the scan decides, so two pages can show the same one. *)
Example pages_may_repeat :
  let scan := [("a", voicemail_at 4); ("b", voicemail_at 4)] in
  map fst (recordings_page None None 1 1 scan ++ recordings_page None None 2 1 (reverse scan)) = ["a"; "a"].
Proof. vm_compute. reflexivity. Qed.

(** ** Calls *)

Lemma dict_remove_set k i (v : json) d : k ≠ i → dict_remove k (dict_set i v d) = dict_set i v (dict_remove k d).
Proof.
  intros Hne. unfold dict_remove. induction d as [|[j w] d IH]; cbn [dict_set]; [by rewrite filter_cons_True|].
  destruct (decide (i = j)) as [->|Hij].
  - rewrite !filter_cons_True by done. cbn [dict_set]. by rewrite decide_True.
  - destruct (decide (j = k)) as [->|Hjk].
    + rewrite !filter_cons_False by (cbn; congruence). apply IH.
    + rewrite !filter_cons_True by done. cbn [dict_set]. rewrite decide_False by done. by rewrite IH.
Qed.

Section Calls.
Context `{Cryptography} (key : bytes) (stored : timestamp → timestamp) (scan : list (string * recording_row)) (s : recordings_db).

(** At most one session audit of a call *)
Definition one_audit (id : string) : Prop :=
  ∀ a b, a ∈ scan → b ∈ scan → of_call id a && audit_entry a = true → of_call id b && audit_entry b = true → a = b.
Lemma audit_found id : one_audit id → audit_recordings scan !! id = find (λ r, of_call id r && audit_entry r) scan.
Proof.
  unfold one_audit, audit_recordings. intros Hone.
  assert (Hgen : ∀ m : gmap string (string * recording_row), foldl (λ m r, if audit_entry r then <[rec_call (capture_of r.2) := r]> m else m) m scan !! id
    = match find (λ r, of_call id r && audit_entry r) scan with Some r => Some r | None => m !! id end); [|by rewrite Hgen; case_match].
  induction scan as [|r l IH]; intros m; [done|]. cbn [foldl find].
  rewrite IH by (intros a b Ha Hb; apply Hone; by right).
  destruct (find _ l) as [x|] eqn:Ex.
  - destruct (of_call id r && audit_entry r) eqn:Er; [|done]. f_equal. apply find_some in Ex as [Hx Hp].
    apply Hone; [right; by apply list_elem_of_In|left|done..].
  - unfold of_call. destruct (audit_entry r) eqn:Ea; rewrite ?andb_true_r, ?andb_false_r; [|done].
    case_bool_decide as Hid; [by rewrite <- Hid, lookup_insert_eq|by rewrite lookup_insert_ne].
Qed.

Lemma count_present statuses (l : list (string * recording_row)) : Deleted ∉ statuses →
  count_recordings statuses (filter (λ r, negb (bool_decide (rec_status r.2 = Deleted)) = true) l).*2 = count_recordings statuses l.*2.
Proof.
  intros Hd. unfold count_recordings. do 2 f_equal. induction l as [|[i r] l IH]; [done|]. rewrite filter_cons. cbn [snd].
  destruct (decide (rec_status r = Deleted)) as [E|E].
  - rewrite bool_decide_true by done. cbn [negb]. rewrite decide_False by done. rewrite IH. cbn [fmap list_fmap snd].
    by rewrite filter_cons_False by (by rewrite E).
  - rewrite bool_decide_false by done. rewrite decide_True by done. cbn [fmap list_fmap snd]. rewrite !filter_cons. by rewrite IH.
Qed.
Lemma counts_exact id :
  counts id scan = (count_recordings [Ready] (call_recordings id scan).*2, count_recordings PENDING (call_recordings id scan).*2).
Proof.
  unfold counts. rewrite <- (count_present [Ready]), <- (count_present PENDING) by (cbn; set_solver).
  by destruct (filter _ (call_recordings id scan)).
Qed.

Lemma summary_agrees call recording :
  call_audit_summary key stored s call recording false
  = (λ o : option document, dict_remove "events" <$> o) <$> call_audit_summary key stored s call recording true.
Proof.
  unfold call_audit_summary. destruct recording as [r|]; cbn [is_Some].
  - rewrite (bool_decide_true (is_Some (Some r))) by done. rewrite andb_false_r.
    destruct (recording_response _ _ _ _ _ _) as [m|]; [|done]. cbn [mbind result_bind fmap result_fmap option_fmap option_map].
    by rewrite !dict_remove_set by done.
  - rewrite (bool_decide_false (is_Some None)) by (by intros [? [=]]). rewrite andb_true_r. by case_bool_decide.
Qed.
(** The documents of recordings with one of some states *)
Definition has_status (statuses : list recording_status) (d : document) : bool :=
  match assoc "status" d with Some (JStr text) => bool_decide (text ∈ map status_text statuses) | _ => false end.
Definition shown_with (statuses : list recording_status) (l : list document) : Z :=
  Z.of_nat (length (filter (λ d, has_status statuses d = true) l)).
Lemma status_shown call r d : recording_response key stored s r.1 r.2 call = Ok d → assoc "status" d = Some (JStr (status_text (rec_status r.2))).
Proof.
  unfold recording_response. intros (caller & _ & (operator & _ & [= <-])%result_bind_ok)%result_bind_ok. reflexivity.
Qed.
Lemma status_listed st statuses : status_text st ∈ map status_text statuses ↔ st ∈ statuses.
Proof.
  rewrite (list_elem_of_fmap _ statuses). split; [intros (x & Hx & Hin)|by exists st].
  assert (st = x) as -> by (destruct st, x; (done || discriminate Hx)). done.
Qed.
Lemma counted_as_shown statuses call recs l :
  mapM (λ r, recording_response key stored s r.1 r.2 call) recs = Ok l → count_recordings statuses recs.*2 = shown_with statuses l.
Proof.
  unfold count_recordings, shown_with. intros Hm. do 2 f_equal. revert l Hm. induction recs as [|r recs IH]; intros l; [by intros [= <-]|].
  cbn [mapM]. intros (d & Ed & (ds & Eds & [= <-])%result_bind_ok)%result_bind_ok. cbn [fmap list_fmap]. rewrite !filter_cons.
  assert (has_status statuses d = bool_decide (rec_status r.2 ∈ statuses)) as ->.
  { unfold has_status. rewrite (status_shown _ _ _ Ed). apply bool_decide_ext, status_listed. }
  destruct (decide (rec_status r.2 ∈ statuses)) as [Hin|Hin].
  - rewrite decide_True by (by rewrite bool_decide_true). cbn [length]. f_equal. by apply IH.
  - rewrite decide_False by (by rewrite bool_decide_false). by apply IH.
Qed.
End Calls.

(** The fields that list and detail write alike *)
Definition SHARED : list string :=
  ["id"; "device_id"; "caller"; "caller_masked"; "policy_decision"; "revision_id"; "menu_path"; "result"; "duration_seconds";
   "cleanup_status"; "events"; "recording_count"; "pending_recording_count"].
Definition without_events (j : json) : json := match j with JObj o => JObj (dict_remove "events" o) | j => j end.

(** C40 Whenever the page of a call can be shown, its row in the list says the same of it: the shared
    fields, the summary of its session without the events, and as many finished and pending
    recordings as the page shows. *)
Theorem call_list_agrees `{Cryptography} key stored id call calls scan s detail :
  call_records calls !! id = Some call → one_audit scan id → call_detail key stored id calls scan s = Ok detail →
  ∃ row l, call_response key stored scan s id call = Ok row
    ∧ (∀ k, k ∈ SHARED → assoc k row = assoc k detail)
    ∧ assoc "session_audit" row = without_events <$> assoc "session_audit" detail
    ∧ assoc "recordings" detail = Some (JList (map JObj l))
    ∧ assoc "recording_count" row = Some (JInt (shown_with [Ready] l))
    ∧ assoc "pending_recording_count" row = Some (JInt (shown_with PENDING l)).
Proof.
  intros Hcall Hone. unfold call_detail, call_response. rewrite Hcall. cbn [of_option mbind result_bind].
  destruct (decrypt_column key (caller_encrypted call)) as [caller|]; [|done]. cbn [mbind result_bind].
  rewrite (audit_found scan id Hone). intros (summary & Es & (l & El & [= <-])%result_bind_ok)%result_bind_ok.
  rewrite summary_agrees, Es. cbn [fmap result_fmap mbind result_bind]. eexists _, l. split; [reflexivity|].
  rewrite counts_exact. cbn [fst snd]. rewrite !(counted_as_shown key stored s _ call _ _ El).
  split.
  - intros k Hk. cbn in Hk. repeat (apply elem_of_cons in Hk as [->|Hk]; [reflexivity|]). by apply elem_of_nil in Hk.
  - split; [by destruct summary|]. by repeat split.
Qed.

Section CallWitness.
#[local] Existing Instances plain_suite.
(** A call with its session audit, a voicemail that is ready and one that is on its way *)
Definition audit_of_call : recording_row :=
  let v := voicemail_at 3 in
  {| capture_of := {| rec_device := "tablet"; rec_call := "call"; rec_revision := Some 1%Z; rec_block := None; rec_sequence := 0;
                      kind := "session_audit"; audit_metadata := Some (JObj [("state", JStr "pending_upload"); ("events", JList [])]);
                      operator_encrypted := None; operator_last4 := ""; captured_at := captured_at (capture_of v);
                      source_format := source_format (capture_of v) |};
     source_of := source_of v; media_of := no_media; rec_status := Processing; processing_error := None; listened_at := None;
     deleted_at := None; deletion_reason := None; rec_updated := Demo.moment |}.
Definition call_scan : list (string * recording_row) :=
  [("audit", audit_of_call); ("early", with_status Ready Demo.moment (voicemail_at 4)); ("late", voicemail_at 5)].
Definition shown_detail : document :=
  match call_detail [] id "call" two_calls call_scan two_recordings with Ok d => d | Raise _ => [] end.
Lemma call_list_agrees_witness :
  ∃ row l, call_response [] id call_scan two_recordings "call" Demo.call = Ok row
    ∧ (∀ k, k ∈ SHARED → assoc k row = assoc k shown_detail)
    ∧ assoc "session_audit" row = without_events <$> assoc "session_audit" shown_detail
    ∧ assoc "recordings" shown_detail = Some (JList (map JObj l))
    ∧ assoc "recording_count" row = Some (JInt (shown_with [Ready] l)) ∧ length l = 2.
Proof.
  assert (Hcall : call_records two_calls !! "call" = Some Demo.call) by (vm_compute; reflexivity).
  assert (Hone : one_audit call_scan "call").
  { intros a b Ha Hb. unfold call_scan in *. rewrite !elem_of_cons, elem_of_nil in Ha, Hb.
    destruct Ha as [->|[->|[->|[]]]], Hb as [->|[->|[->|[]]]]; vm_compute; congruence. }
  assert (Hok : call_detail [] id "call" two_calls call_scan two_recordings = Ok shown_detail) by (vm_compute; reflexivity).
  destruct (call_list_agrees [] id "call" Demo.call two_calls call_scan two_recordings shown_detail Hcall Hone Hok)
    as (row & l & Hrow & Hshared & Haudit & Hl & Hready & _).
  exists row, l. split; [exact Hrow|]. split; [exact Hshared|]. split; [exact Haudit|]. split; [exact Hl|]. split; [exact Hready|].
  assert (Htwo : (match assoc "recordings" shown_detail with Some (JList k) => length k | _ => 0 end) = 2) by (vm_compute; reflexivity).
  rewrite Hl, length_map in Htwo. exact Htwo.
Defined.
End CallWitness.
